(* ===== verification/_CoqProject ===== *)
-Q . S2P
Prelude.v
Serialization.v
Common.v
Logging.v
Interfaces.v
Server.v
ServerFacts.v
ServerInvariant.v
ServerSpec.v
Client.v
Protocol.v
EndToEnd.v
Publications.v
SmokeTest.v
Reachable.v
Session.v
ServerTypes.v
Views.v
ViewSteps.v
Regex.v
MessageDefinitionCache.v
DefinitionNames.v
FullText.v
FullTextOutcomes.v
System.v
SystemSteps.v
TopicUpdate.v
TopicViews.v
Threads.v
ThreadPool.v
Custody.v
Deadlock.v
Atomicity.v
ClientThreads.v
ServerThreads.v
ServerThreadFacts.v
ServerThreadInvariant.v
ServerCustody.v
Setup.v
SetupFacts.v
Ros2Bridge.v
Ros2Setup.v
Ros2Facts.v
Ros2Update.v
Ros2Views.v
Ros2Start.v
Ros2Threads.v
Ros2Custody.v
Ros1Bridge.v
Ros1Setup.v
Ros1Facts.v
Ros1Update.v
Ros1Views.v
Ros1Start.v
Ros1Threads.v
Ros1Custody.v
Concrete.v
ConcreteRos.v
WireTheorems.v
ServerTheorems.v
ProtocolTheorems.v
DefinitionTheorems.v
ThreadTheorems.v
Ros2Theorems.v
Ros1Theorems.v
EndToEndTheorems.v
