(* ===== verification/Prelude.v ===== *)
(** * foxglove_bridge: a verification development

    foxglove_bridge connects ROS to web clients.  A WebSocket server
    ([foxglove_bridge_base], header only) speaks the Foxglove protocol; a ROS 2
    node and a ROS 1 nodelet each own one, register five handlers with it, and
    keep its channels in step with the topics on the ROS graph.  This library
    models the server, its client, the two nodes and the ROS 2 node's message
    definition cache, and proves what makes them correct.  File names below are
    under [src/].

    ** The program and its model

    - [foxglove_bridge_base/include/foxglove_bridge/serialization.hpp], file
      [Serialization]: the little-endian writers, both preprocessor branches,
      over bounded buffers of bytes.
    - [common.hpp] and the plain types of [websocket_server.hpp], file [Common]:
      channels, advertisements, messages, opcodes, the hash that dispatches text
      requests.
    - [websocket_logging.hpp], file [Logging]: the log adapter and its masks.
    - [websocket_server.hpp], file [Server]: [ServerState] holds the data members,
      [Handlers] the owner's callbacks, and every member function of [Server] is a
      definition of its name.  File [Setup]: the constructor, the TLS set-up, the
      setters of the handlers, and [ServerInterface], the server as its owner sees
      it behind a pointer, and what [websocket_tls.hpp] and [websocket_notls.hpp]
      set.  File [ServerThreads]: the same functions with their locks, as programs
      of [Threads].
    - [websocket_client.hpp] and [test_client.cpp], file [Client]: the client, its
      [ClientInterface], and the test's [connectClientAndReceiveMsg].  File
      [ClientThreads]: the client's functions with their lock.
    - [ros2_foxglove_bridge/src/message_definition_cache.cpp], files [Regex] (the
      part of [std::regex] it uses) and [MessageDefinitionCache].
    - [ros2_foxglove_bridge/src/ros2_foxglove_bridge.cpp], file [Ros2Bridge], and
      [ros1_foxglove_bridge/src/ros1_foxglove_bridge_nodelet.cpp], file
      [Ros1Bridge]: [Bridge] holds the data members; the handlers, the callbacks
      and the update of the topics are definitions of the names in the code.
      [Ros2Setup] and [Ros1Setup]: the constructor of the node and [onInit] of the
      nodelet, their destructors, and the two [main] functions.  [Ros2Threads] and
      [Ros1Threads]: the handlers and updates with their locks.
    - [tests/smoke_test.cpp] of the two nodes, file [SmokeTest]: the client's part of
      the test that publishes.

    A definition that translates code has a tag with its file, lines and symbol in
    its comment.

    A member function is a computation of the monad [M] of this file: it reads and
    writes the state of its object and ends with a value or an exception, and what
    it wrote before it threw stays written.  The server's functions run over a
    [World]: the server, the endpoint's state, the state of the owner whose
    handlers it calls, and the trace of its calls outside itself (frames sent, log
    lines, handler calls).  Undefined behaviour is the outcome [Undefined], which no
    [catch] stops, and so is the end of the process by a failed assertion, or by an
    exception that leaves a destructor, a thread or a [noexcept] function; a call that
    waits for good, for a thread that never ends, has the outcome [Blocked].  A theorem
    about outcomes is also about their absence.  Machine
    integers are [Z] with the wrap-around written out; identifiers are 32-bit,
    sizes and timestamps 64-bit.

    ** Parameters

    nlohmann::json and websocketpp ([Interfaces]), asio and OpenSSL
    ([Setup.Asio]), [std::regex] for whitelists ([Setup.StdRegex]), websocketpp's
    client ([Client.WebsocketppClient]), the ament index and file system
    ([MessageDefinitionCache.Ament]), rclcpp ([Ros2Bridge.Rclcpp],
    [Ros2Setup.RclcppParameters], [Ros2Setup.Ros2SetupLibrary]), roscpp with
    ros_babel_fish ([Ros1Bridge.Roscpp], [Ros1Setup.RosParams],
    [Ros1Setup.Ros1SetupLibrary]), websocketpp's log channels, the byte order,
    the signedness of [char] and whether assertions are compiled
    ([Serialization.Platform]), websocketpp's version ([Setup.WebsocketppVersion]),
    [std::hash] ([StdHash]) and the order in which hash tables are visited are
    parameters.  What is relied on is in classes of laws ([NlohmannLaws],
    [WebsocketppLaws], [RclcppLaws], [RoscppLaws], [LogChannelsOk],
    [RclcppParametersLaws], [StdRegexLaws], [ReliableClient], [NlohmannUtf8]): a
    dumped value parses to itself, a value whose strings are UTF-8 can be dumped,
    calls that throw throw [std::exception]s, a declared parameter has a value its
    descriptor admits, a connection to a server that answers opens and takes what is
    sent until it is closed, and the like.  [Concrete] and [ConcreteRos] give one implementation of each, with its laws, for the examples.

    ** What is proved

    - [ServerFacts], [ServerInvariant], [ServerSpec]: how each function runs; the
      invariant [ServerInv] of the server's containers, kept by every function
      whatever libraries and handlers do.  [Reachable]: the runs of the server and
      its shutdown.
    - [Protocol], [Publications]: abstract accounts of a client's subscriptions and
      publications as plain maps; the server's handling of the client's messages
      refines them, frame for frame and call for call.  [Session]: the same for whole
      sessions of all clients, with their published messages and their ends.
    - [System], [SystemSteps]: what a node promises the server, as the classes
      [TopicBridge] and [TopicBridgeOk], and the invariant [SysInv] of the two
      together, proved against the classes: the node keeps ROS subscriptions and
      publishers only for clients that hold them in the server, and its tables of
      topics mirror the server's channels.  The first half, [NoLeak], holds in every
      run until the server is stopped; the second as long as no update of the topics
      runs out of channel ids ([ids_last]), of which there are 2^32.  [TopicUpdate]: the loops that update the
      topics, proved against the class [TopicStore].  [Ros2Facts], [Ros2Update],
      [Ros1Facts], [Ros1Update]: the two nodes are instances.
    - [ServerTypes]: the ids the server keeps and hands out fit their types, and
      all it sends is a frame of the protocol.
    - [Views], [ViewSteps]: what a client of the protocol makes of the frames handed
      over for it, its view of the channels; in every run the views of the connected
      clients are part of the server's table, and equal to it once
      [broadcastChannels] returns.  [TopicViews], [Ros2Views], [Ros1Views]: through
      the nodes' updates they stay equal to the advertised topics, so that a bridge
      shows each of its clients the topics of the graph.
    - [Threads], [ThreadPool], [Deadlock]: programs of atomic acts and lock
      operations, pools of threads as a step relation, mutexes with shared and
      exclusive owners; a discipline of lock orders under which no pool gets stuck,
      a discipline of guarded updates under which an invariant holds whenever its
      mutex is free, and how a pool can come to a deadlock.
      [ServerThreadFacts], [ServerThreadInvariant]: the server's member functions
      follow both disciplines, and a thread that runs alone does what [Server] says;
      [Ros2Threads], [Ros1Threads]: what the nodes' own mutexes do to that.
      [Custody]: a discipline under which whatever is kept is accounted for, or some
      thread is bound to do away with it, at every step of a pool.  [ServerCustody]:
      the server follows it whenever its owner's handlers do, which is the class
      [LockedCustody]; [Ros2Custody], [Ros1Custody]: the nodes' handlers and updates do.
      [Atomicity]: calls that hold one mutex, exclusively for all they do or shared
      for a read and one act, can be taken to happen at once, by a simulation;
      [ClientThreads]: the client's calls are of this kind.
    - [SetupFacts], [Ros2Start], [Ros1Start]: what a constructed node has, and what
      its destructor does.
    - [DefinitionNames], [FullText], [FullTextOutcomes]: the text put together for a
      message type, in terms of the dependency graph of the definitions on disk.
    - [EndToEnd], [SmokeTest]: runs of the tests' clients, one that receives and one
      that publishes, and what the server makes of their frames.
    - [WireTheorems], [ServerTheorems], [ProtocolTheorems], [DefinitionTheorems],
      [ThreadTheorems], [Ros2Theorems], [Ros1Theorems], [EndToEndTheorems]: the
      properties, one group per component, each with an example that applies it.

    ** Fuel

    [full_text_fuel] is one more than the number of definitions that can be named
    on the disk; the recursion visits each at most once, so it is enough
    ([FullText], and the theorems hold for any larger fuel).  [stop_fuel] is 101
    turns of 10 ms, one more than the second the shutdown loop waits at most
    ([stop_wait_ends]).  [regex_iterate] and [split_from] take the length of the
    text, which every turn shortens ([regex_iterate_fuel], [split_string_run]).

    ** Threads

    In the theorems about runs ([Reachable], [SystemSteps]) a member function of the
    server, a handler, and one update of the topics are one step each.  In the
    thread theorems the steps are single acts: an access to the server's shared
    containers, a call of a library, or what a node's handler does under its own
    mutex.  An act does not read memory that another thread is writing: that no two
    threads are inside the same mutex is proved, that every access is inside one is
    checked act by act ([guarded]); the one access that is not,
    [_clientChannels.erase], is left out of the shared invariant.  That the nodes
    leave nothing behind ([Custody]) is proved for pools of threads that connect,
    disconnect and serve clients, add channels, broadcast and send, beside the thread
    that updates the topics; a stop of the server meanwhile, and channels removed by
    anyone but that thread, are left out.  A thread whose function is left by an
    exception counts as ended, although the process would end with it: the theorems
    speak of more runs than there are.

    [stop] joins the thread that runs websocketpp's [run()].  In a pool it waits for
    that thread by a token, [ServerThread], which the thread of the run loop holds
    until it ends ([run_loop], [stop_p]); whether [run()] itself ever returns
    depends on the connections that are left, which only websocketpp knows, so
    [ws_join] is a parameter and the join may be [Blocked] ([join_server_thread]); C36
    says when it is not, given [run_returns_when_stopped].  That the destructor of the ROS 2 node waits for its polling thread, and when
    in vain, is modelled apart ([poll_until_end], [Ros2Setup.FoxgloveBridge_delete]).

    ** What is not modelled

    Log lines of the nodes; the callback groups and executors of rclcpp; the values
    of [std::hash], and with them the order in which hash tables are visited, which is
    a parameter; the ROS nodes and processes of the tests; destruction of a server
    whose thread was not joined.  Between the steps of an update and of other
    threads, nothing is said about how the nodes' tables of topics relate to the
    server's channels: the ids of channels wrap around, and a pool of threads may use
    them all up between two steps. *)

From stdpp Require Export base gmap sets list strings pretty fin_maps.
From Stdlib Require Export ZArith Lia.

Declare Scope cpp_scope.
Delimit Scope cpp_scope with cpp.

(** ** Exceptions and results *)

(** What a call can end with instead of a value.  [StdException w] is any
    [std::exception] whose [what()] is [w]; [DefinitionNotFoundError] is the one
    exception class the code tells apart in a [catch] clause.  [Undefined] is
    not an exception: it marks an execution whose C++ behaviour is undefined
    (an out-of-bounds read, an oversized shift), or that has been ended by
    [std::terminate] or [abort], and no [catch] stops it.  Neither is [Blocked]:
    it marks an execution that waits for something that never happens. *)
Inductive exn : Type :=
| StdException (w : string)
| DefinitionNotFoundError (name : string)
| Undefined (w : string)
| Blocked (w : string).

#[export] Instance exn_eq_dec : EqDecision exn.
Proof. solve_decision. Defined.

(** [ex.what()]; of a [DefinitionNotFoundError] it is the name.
    @src foxglove_bridge_base/include/foxglove_bridge/message_definition_cache.hpp:32-43 DefinitionNotFoundError *)
Definition what (e : exn) : string :=
  match e with
  | StdException w | DefinitionNotFoundError w | Undefined w | Blocked w => w
  end.

(** A C++ [catch (const std::exception&)] clause receives [e]. *)
Definition catchable (e : exn) : bool :=
  match e with Undefined _ | Blocked _ => false | _ => true end.

Abbreviation result A := (sum exn A) (only parsing).

(** [std::find_if(l) != l.end()], with a predicate that may throw. *)
Fixpoint any_of {A} (p : A → result bool) (l : list A) : result bool :=
  match l with
  | [] => inr false
  | x :: l =>
      match p x with
      | inl e => inl e
      | inr true => inr true
      | inr false => any_of p l
      end
  end.

Definition is_ok {A} (r : result A) : bool :=
  match r with inr _ => true | inl _ => false end.

(** ** The state and exception monad

    A C++ member function reads and writes the object it is called on and may
    throw.  What it wrote before it threw stays written, so the state is
    returned on both paths. *)
Definition M (S A : Type) : Type := S → S * result A.

Section monad.
Context {S : Type}.

Definition ret {A} (a : A) : M S A := λ s, (s, inr a).
Definition throw {A} (e : exn) : M S A := λ s, (s, inl e).
Definition bind {A B} (m : M S A) (f : A → M S B) : M S B := λ s,
  match m s with
  | (s', inr a) => f a s'
  | (s', inl e) => (s', inl e)
  end.
Definition gets {A} (f : S → A) : M S A := λ s, (s, inr (f s)).
Definition modify (f : S → S) : M S unit := λ s, (f s, inr tt).
Definition lift {A} (r : result A) : M S A := λ s, (s, r).

(** [try { m } catch (const std::exception& e) { h e }] *)
Definition try_catch {A} (m : M S A) (h : exn → M S A) : M S A := λ s,
  match m s with
  | (s', inl e) => if catchable e then h e s' else (s', inl e)
  | (s', inr a) => (s', inr a)
  end.

(** What an exception becomes that must not leave a function: the end of the
    process. *)
Definition terminate (e : exn) : exn :=
  match e with Blocked w => Blocked w | _ => Undefined "std::terminate" end.

(** The body of a [noexcept] function, such as a destructor, or of a thread: an
    exception that leaves it ends the process. *)
Definition noexcept {A} (m : M S A) : M S A := λ s,
  match m s with
  | (s', inl e) => (s', inl (terminate e))
  | (s', inr a) => (s', inr a)
  end.

(** [for (const auto& x : l) { body }]; [continue] is [ret tt]. *)
Fixpoint for_each {X} (l : list X) (body : X → M S unit) : M S unit :=
  match l with
  | [] => ret tt
  | x :: l' => bind (body x) (λ _, for_each l' body)
  end.

Definition when (b : bool) (m : M S unit) : M S unit :=
  if b then m else ret tt.
End monad.

Notation "'let!' x := m 'in' k" := (bind m (λ x, k))
  (at level 10, x pattern, m at level 100, k at level 200) : cpp_scope.
Notation "m ;;; k" := (bind m (λ _, k))
  (at level 100, k at level 200, right associativity) : cpp_scope.
Open Scope cpp_scope.

(** ** Reasoning about the monad

    [wp m Q s]: running [m] from [s] ends with an outcome and a state that
    satisfy [Q].  [preserves R m]: [m] relates its start and end states by the
    preorder [R], whatever its outcome. *)
Definition wp {S A} (m : M S A) (Q : result A → S → Prop) (s : S) : Prop :=
  Q (m s).2 (m s).1.

Definition preserves {S A} (R : S → S → Prop) (m : M S A) : Prop :=
  ∀ s, R s (m s).1.

Create HintDb cpp discriminated.
#[export] Hint Constants Opaque : cpp.
#[export] Hint Variables Opaque : cpp.

Section wp.
Context {S : Type}.
Implicit Types s : S.

Lemma wp_mono {A} (m : M S A) (Q Q' : result A → S → Prop) s :
  wp m Q s → (∀ r s', Q r s' → Q' r s') → wp m Q' s.
Proof. unfold wp. auto. Qed.

Lemma wp_ret {A} (a : A) Q s : wp (ret a) Q s ↔ Q (inr a) s.
Proof. done. Qed.

Lemma wp_throw {A} e (Q : result A → S → Prop) s : wp (throw e) Q s ↔ Q (inl e) s.
Proof. done. Qed.

Lemma wp_gets {A} (f : S → A) Q s : wp (gets f) Q s ↔ Q (inr (f s)) s.
Proof. done. Qed.

Lemma wp_modify f (Q : result unit → S → Prop) s :
  wp (modify f) Q s ↔ Q (inr tt) (f s).
Proof. done. Qed.

Lemma wp_lift {A} (r : result A) Q s : wp (lift r) Q s ↔ Q r s.
Proof. done. Qed.

Lemma wp_bind {A B} (m : M S A) (f : A → M S B) Q s :
  wp (bind m f) Q s ↔
  wp m (λ r s', match r with inl e => Q (inl e) s' | inr a => wp (f a) Q s' end) s.
Proof. unfold wp, bind. destruct (m s) as [s' [e|a]]; done. Qed.

Lemma wp_try_catch {A} (m : M S A) h Q s :
  wp (try_catch m h) Q s ↔
  wp m (λ r s', match r with
                | inl e => if catchable e then wp (h e) Q s' else Q (inl e) s'
                | inr a => Q (inr a) s'
                end) s.
Proof.
  unfold wp, try_catch. destruct (m s) as [s' [e|a]]; simpl; [|done].
  destruct (catchable e); done.
Qed.

(** Whatever leaves the body as an exception leaves it as the end of the process. *)
Lemma wp_noexcept {A} (m : M S A) Q s :
  wp (noexcept m) Q s ↔
  wp m (λ r s', match r with
                | inl e => Q (inl (terminate e)) s'
                | inr a => Q (inr a) s'
                end) s.
Proof. unfold wp, noexcept. by destruct (m s) as [s' [e|a]]. Qed.

Lemma wp_when b (m : M S unit) Q s :
  wp (when b m) Q s ↔ if b then wp m Q s else Q (inr tt) s.
Proof. by destruct b. Qed.

(** Loop rule: an invariant every iteration keeps, whether it ends normally
    or with an exception. *)
Lemma wp_for_each {X} (l : list X) body (I : S → Prop) s :
  (∀ x s', x ∈ l → I s' → wp (body x) (λ _, I) s') →
  I s → wp (for_each l body) (λ _, I) s.
Proof.
  revert s. induction l as [|x l IH]; intros s Hbody HI; [done|].
  simpl. rewrite wp_bind. eapply wp_mono.
  { apply Hbody; [apply list_elem_of_here|done]. }
  intros [e|a] s' HI'; [done|].
  apply IH; [|done]. intros y s'' Hy. apply Hbody. by apply list_elem_of_further.
Qed.
End wp.

Section preserves.
Context {S : Type} (R : S → S → Prop) `{!PreOrder R}.

Lemma preserves_ret {A} (a : A) : preserves R (ret a).
Proof. intros s. simpl. reflexivity. Qed.

Lemma preserves_throw {A} e : preserves R (throw (A:=A) e).
Proof. intros s. simpl. reflexivity. Qed.

Lemma preserves_gets {A} (f : S → A) : preserves R (gets f).
Proof. intros s. simpl. reflexivity. Qed.

Lemma preserves_lift {A} (r : result A) : preserves R (lift r).
Proof. intros s. simpl. reflexivity. Qed.

Lemma preserves_modify f : (∀ s, R s (f s)) → preserves R (modify f).
Proof. intros Hf s. apply Hf. Qed.

Lemma preserves_bind {A B} (m : M S A) (f : A → M S B) :
  preserves R m → (∀ a, preserves R (f a)) → preserves R (bind m f).
Proof.
  intros Hm Hf s. unfold bind. specialize (Hm s).
  destruct (m s) as [s' [e|a]]; simpl in *; [done|]. etrans; [exact Hm|apply Hf].
Qed.

Lemma preserves_try_catch {A} (m : M S A) h :
  preserves R m → (∀ e, preserves R (h e)) → preserves R (try_catch m h).
Proof.
  intros Hm Hh s. unfold try_catch. specialize (Hm s).
  destruct (m s) as [s' [e|a]]; simpl in *; [|done].
  destruct (catchable e); simpl; [|done]. etrans; [exact Hm|apply Hh].
Qed.

Lemma preserves_when b (m : M S unit) :
  (b = true → preserves R m) → preserves R (when b m).
Proof. intros Hm. destruct b; simpl; [by apply Hm|apply preserves_ret]. Qed.

Lemma preserves_for_each {X} (l : list X) body :
  (∀ x, x ∈ l → preserves R (body x)) → preserves R (for_each l body).
Proof.
  induction l as [|x l IH]; intros Hb; simpl; [apply preserves_ret|].
  apply preserves_bind; [apply Hb; apply list_elem_of_here|].
  intros _. apply IH. intros y Hy. apply Hb. by apply list_elem_of_further.
Qed.
End preserves.

#[export] Hint Resolve preserves_ret preserves_throw preserves_gets preserves_lift
  preserves_bind preserves_try_catch preserves_when preserves_for_each : cpp.

(** Goes through a computation by the rules above.  [special] is tried first, on
    the statements that need more than a rule for their shape. *)
Tactic Notation "traverse" tactic3(special) := repeat first
  [ special
  | match goal with
    | |- preserves _ (bind _ _) => apply preserves_bind; [tc_solve| |intros ?]
    | |- preserves _ (for_each _ _) => apply preserves_for_each; [tc_solve|intros ? ?]
    | |- preserves _ (when _ _) => apply preserves_when; [tc_solve|intros ?]
    | |- preserves _ (try_catch _ _) => apply preserves_try_catch; [tc_solve| |intros ?]
    | |- preserves _ (gets _) => apply preserves_gets; tc_solve
    | |- preserves _ (ret _) => apply preserves_ret; tc_solve
    | |- preserves _ (lift _) => apply preserves_lift; tc_solve
    | |- preserves _ (throw _) => apply preserves_throw; tc_solve
    | |- preserves _ (let '(_, _) := ?x in _) => destruct x
    | |- preserves _ (match _ with _ => _ end) => case_match
    end
  | progress intros ].

(** ** The parts of the C++ standard library the code uses *)

(** [std::map::emplace] and [std::unordered_map::emplace]: an existing entry is
    kept and the flag says whether the new one went in. *)
Definition emplace `{Countable K} {V} (k : K) (v : V) (m : gmap K V) : gmap K V * bool :=
  match m !! k with
  | Some _ => (m, false)
  | None => (<[k := v]> m, true)
  end.

Section emplace.
Context `{Countable K} {V : Type}.
Implicit Types m : gmap K V.

Lemma emplace_fresh k v m : m !! k = None → emplace k v m = (<[k := v]> m, true).
Proof. intros Hk. unfold emplace. by rewrite Hk. Qed.

Lemma emplace_present k v v' m : m !! k = Some v' → emplace k v m = (m, false).
Proof. intros Hk. unfold emplace. by rewrite Hk. Qed.

Lemma lookup_emplace_ne k k' v m : k ≠ k' → (emplace k v m).1 !! k' = m !! k'.
Proof. intros Hne. unfold emplace. destruct (m !! k); simpl; by simplify_map_eq. Qed.

Lemma lookup_emplace_Some k k' v w m :
  (emplace k v m).1 !! k' = Some w ↔
  m !! k' = Some w ∨ (k' = k ∧ w = v ∧ m !! k = None).
Proof.
  unfold emplace. destruct (m !! k) eqn:Hk; simpl; [naive_solver|].
  rewrite lookup_insert_Some. naive_solver.
Qed.

Lemma dom_emplace k v m : dom (emplace k v m).1 = {[ k ]} ∪ dom m.
Proof.
  unfold emplace. destruct (m !! k) eqn:Hk; simpl; [|by rewrite dom_insert_L].
  assert (k ∈ dom m) by (by apply elem_of_dom_2 in Hk). set_solver.
Qed.
End emplace.

(** The order in which a range-for visits an [unordered_map], an
    [unordered_set], or a [map] keyed by [owner_less] is not specified by the
    container's contents: it is a parameter, of which only this is known: each
    entry is visited once. *)
Class Iteration := {
  iter_map : ∀ {K} `{Countable K} {V}, gmap K V → list (K * V);
  iter_set : ∀ {K} `{Countable K}, gset K → list K;
  iter_map_perm : ∀ K `{Countable K} V (m : gmap K V), iter_map m ≡ₚ map_to_list m;
  iter_set_perm : ∀ K `{Countable K} (X : gset K), iter_set X ≡ₚ elements X;
}.

Section iteration.
Context `{Iteration} `{Countable K} {V : Type}.

Lemma elem_of_iter_map (m : gmap K V) k v : (k, v) ∈ iter_map m ↔ m !! k = Some v.
Proof. by rewrite iter_map_perm, elem_of_map_to_list. Qed.

Lemma elem_of_iter_set (X : gset K) k : k ∈ iter_set X ↔ k ∈ X.
Proof. by rewrite iter_set_perm, elem_of_elements. Qed.

Lemma iter_map_empty : iter_map (∅ : gmap K V) = [].
Proof. apply Permutation_nil_r. by rewrite iter_map_perm, map_to_list_empty. Qed.

Lemma NoDup_iter_map (m : gmap K V) : NoDup (iter_map m).*1.
Proof. rewrite iter_map_perm. apply NoDup_fst_map_to_list. Qed.

Lemma NoDup_iter_set (X : gset K) : NoDup (iter_set X).
Proof. rewrite iter_set_perm. apply NoDup_elements. Qed.
End iteration.

(** Fixed-width unsigned arithmetic. *)
Definition u8 (z : Z) : Z := z mod 2 ^ 8.
Definition u32 (z : Z) : Z := z mod 2 ^ 32.
Definition u64 (z : Z) : Z := z mod 2 ^ 64.
Definition is_u32 (z : Z) : Prop := (0 ≤ z < 2 ^ 32)%Z.
Definition is_u64 (z : Z) : Prop := (0 ≤ z < 2 ^ 64)%Z.

Lemma u32_id z : is_u32 z → u32 z = z.
Proof. intros. by apply Z.mod_small. Qed.

Lemma u64_id z : is_u64 z → u64 z = z.
Proof. intros. by apply Z.mod_small. Qed.

Lemma u32_range z : is_u32 (u32 z).
Proof. by apply Z.mod_pos_bound. Qed.

Lemma u64_range z : is_u64 (u64 z).
Proof. by apply Z.mod_pos_bound. Qed.

#[export] Hint Resolve u32_range u64_range : cpp.

(** [std::hash<A>], whose values are [size_t]s and otherwise unspecified. *)
Class StdHash (A : Type) := {
  std_hash : A → Z;
  std_hash_range : ∀ a, is_u64 (std_hash a);
}.

Lemma lxor_u64 x y : is_u64 x → is_u64 y → is_u64 (Z.lxor x y).
Proof.
  intros [Hx1 Hx2] [Hy1 Hy2].
  assert (0 ≤ Z.lxor x y)%Z as Hpos by (by apply Z.lxor_nonneg).
  split; [done|]. destruct (decide (Z.lxor x y = 0)%Z) as [->|Hne]; [done|].
  apply Z.log2_lt_pow2; [lia|]. eapply Z.le_lt_trans; [by apply Z.log2_lxor|].
  assert (∀ z, (0 ≤ z < 2 ^ 64)%Z → (Z.log2 z < 64)%Z) as Hlog.
  { intros z [Hz1 Hz2]. destruct (decide (z = 0)%Z) as [->|]; [done|]. apply Z.log2_lt_pow2; lia. }
  by apply Z.max_lub_lt; apply Hlog.
Qed.

(** [std::to_string] of an integer. *)
Definition to_string (z : Z) : string := pretty z.

(** Strings form a monoid under concatenation. *)
Lemma string_app_assoc (s1 s2 s3 : string) : s1 +:+ (s2 +:+ s3) = (s1 +:+ s2) +:+ s3.
Proof. induction s1 as [|c s1 IH]; [done|]. exact (f_equal (String c) IH). Qed.

Lemma string_app_nil_r (s : string) : s +:+ "" = s.
Proof. induction s as [|c s IH]; [done|]. exact (f_equal (String c) IH). Qed.

Lemma string_length_app (s1 s2 : string) :
  String.length (s1 +:+ s2) = (String.length s1 + String.length s2)%nat.
Proof. induction s1 as [|c s1 IH]; [done|]. exact (f_equal S IH). Qed.
