(* ===== verification/Serialization.v ===== *)
(** * Byte buffers and the little-endian writers of [serialization.hpp]

    Buffers are lists of bytes; a store outside the buffer is undefined
    behaviour in C++ and [None] here.  [WriteUint32LE] and [WriteUint64LE] have
    two bodies, chosen by the preprocessor; both are modelled. *)

From Stdlib Require Import Strings.Byte.
From S2P Require Import Prelude.

Local Open Scope Z_scope.

(** What the compiled code depends on in its machine and its build.
    [CMakeLists.txt] defines [ARCH_IS_BIG_ENDIAN] exactly on big-endian machines,
    so one flag stands for the macro and for the byte order of native loads and
    stores; it defines [NDEBUG] in every build that is not a [Debug] one. *)
Class Platform := {
  big_endian : bool;
  char_is_signed : bool;
  ndebug : bool;
}.

(** [assert(b)]: nothing with [NDEBUG], [abort()] otherwise if [b] is false. *)
Definition assertion `{Platform} {S} (b : bool) : M S unit :=
  if ndebug || b then ret tt else throw (Undefined "assertion failed").

Definition Z_of_byte (b : byte) : Z := Z.of_N (Byte.to_N b).

(** Conversion to [uint8_t]. *)
Definition byte_of_Z (z : Z) : byte := default x00 (Byte.of_N (Z.to_N (u8 z))).

(** The [n] low bytes of [v], least significant first, and back. *)
Fixpoint le_split (n : nat) (v : Z) : list byte :=
  match n with
  | O => []
  | S n => byte_of_Z v :: le_split n (Z.shiftr v 8)
  end.

Fixpoint le_combine (bs : list byte) : Z :=
  match bs with
  | [] => 0
  | b :: bs => Z_of_byte b + 2 ^ 8 * le_combine bs
  end.

(** [memcpy] of [src] into [dst] at offset [off]. *)
Definition memcpy (dst : list byte) (off : nat) (src : list byte) : option (list byte) :=
  if decide (off + length src ≤ length dst)%nat
  then Some (take off dst ++ src ++ drop (off + length src) dst)
  else None.

(** [buf[i] = v] through a [uint8_t*]. *)
Definition store8 (buf : list byte) (i : nat) (v : Z) : option (list byte) :=
  memcpy buf i [byte_of_Z v].

Section platform.
Context `{Platform}.

(** [reinterpret_cast<uintN_t*>(buf)[0] = val] and the matching load: the
    object representation in the machine's byte order. *)
Definition store_native (n : nat) (buf : list byte) (off : nat) (val : Z)
  : option (list byte) :=
  memcpy buf off (if big_endian then rev (le_split n val) else le_split n val).

Definition load_native (n : nat) (buf : list byte) (off : nat) : option Z :=
  if decide (off + n ≤ length buf)%nat then
    let bs := take n (drop off buf) in
    Some (le_combine (if big_endian then rev bs else bs))
  else None.

(** @src foxglove_bridge_base/include/foxglove_bridge/serialization.hpp:7-20 WriteUint64LE *)
Definition WriteUint64LE (buf : list byte) (off : nat) (val : Z) : option (list byte) :=
  if big_endian then
    buf ← store8 buf (off + 0) (Z.land val 0xff);
    buf ← store8 buf (off + 1) (Z.land (Z.shiftr val 8) 0xff);
    buf ← store8 buf (off + 2) (Z.land (Z.shiftr val 16) 0xff);
    buf ← store8 buf (off + 3) (Z.land (Z.shiftr val 24) 0xff);
    buf ← store8 buf (off + 4) (Z.land (Z.shiftr val 32) 0xff);
    buf ← store8 buf (off + 5) (Z.land (Z.shiftr val 40) 0xff);
    buf ← store8 buf (off + 6) (Z.land (Z.shiftr val 48) 0xff);
    store8 buf (off + 7) (Z.land (Z.shiftr val 56) 0xff)
  else store_native 8 buf off val.

(** @src foxglove_bridge_base/include/foxglove_bridge/serialization.hpp:22-31 WriteUint32LE *)
Definition WriteUint32LE (buf : list byte) (off : nat) (val : Z) : option (list byte) :=
  if big_endian then
    buf ← store8 buf (off + 0) (Z.land val 0xff);
    buf ← store8 buf (off + 1) (Z.land (Z.shiftr val 8) 0xff);
    buf ← store8 buf (off + 2) (Z.land (Z.shiftr val 16) 0xff);
    store8 buf (off + 3) (Z.land (Z.shiftr val 24) 0xff)
  else store_native 4 buf off val.
End platform.

(** ** Bytes *)

Lemma Z_of_byte_range b : 0 ≤ Z_of_byte b < 2 ^ 8.
Proof. unfold Z_of_byte. pose proof (Byte.to_N_bounded b). lia. Qed.

Lemma Z_of_byte_of_Z z : Z_of_byte (byte_of_Z z) = u8 z.
Proof.
  unfold Z_of_byte, byte_of_Z, u8.
  assert (0 ≤ z mod 2 ^ 8 < 2 ^ 8) as Hr by (by apply Z.mod_pos_bound).
  destruct (Byte.of_N (Z.to_N (z mod 2 ^ 8))) as [b|] eqn:Hb; simpl.
  - apply Byte.to_of_N in Hb. rewrite Hb. lia.
  - apply Byte.of_N_None_iff in Hb. lia.
Qed.

Lemma byte_of_Z_mod z : byte_of_Z (z mod 2 ^ 8) = byte_of_Z z.
Proof. unfold byte_of_Z, u8. by rewrite Z.mod_mod. Qed.

Lemma byte_of_Z_land z : byte_of_Z (Z.land z 0xff) = byte_of_Z z.
Proof.
  change 0xff with (Z.ones 8). rewrite Z.land_ones by done. apply byte_of_Z_mod.
Qed.

Lemma byte_of_Z_of_byte b : byte_of_Z (Z_of_byte b) = b.
Proof.
  unfold byte_of_Z, u8. rewrite Z.mod_small by apply Z_of_byte_range.
  unfold Z_of_byte. rewrite N2Z.id, Byte.of_to_N. done.
Qed.

(** ** Little-endian encoding *)

Lemma length_le_split n v : length (le_split n v) = n.
Proof. revert v. induction n; intros; simpl; auto. Qed.

Lemma le_combine_split n v : le_combine (le_split n v) = v mod 2 ^ (8 * Z.of_nat n).
Proof.
  revert v. induction n as [|n IH]; intros v; [simpl; by rewrite Z.mod_1_r|].
  cbn [le_split le_combine]. rewrite IH, Z_of_byte_of_Z. unfold u8.
  rewrite Z.shiftr_div_pow2 by lia.
  replace (8 * Z.of_nat (S n)) with (8 + 8 * Z.of_nat n) by lia.
  rewrite Z.pow_add_r by lia. rewrite Z.rem_mul_r by lia. lia.
Qed.

Lemma le_combine_range bs : 0 ≤ le_combine bs < 2 ^ (8 * Z.of_nat (length bs)).
Proof.
  induction bs as [|b bs IH]; [simpl; lia|]. cbn [le_combine length].
  replace (8 * Z.of_nat (S (length bs))) with (8 + 8 * Z.of_nat (length bs)) by lia.
  rewrite Z.pow_add_r by lia. pose proof (Z_of_byte_range b). nia.
Qed.

Lemma le_split_combine bs : le_split (length bs) (le_combine bs) = bs.
Proof.
  induction bs as [|b bs IH]; [done|]. cbn [le_split le_combine length].
  pose proof (Z_of_byte_range b). f_equal.
  - rewrite <-byte_of_Z_mod, Z.mul_comm, Z.mod_add by lia.
    by rewrite byte_of_Z_mod, byte_of_Z_of_byte.
  - rewrite Z.shiftr_div_pow2, Z.mul_comm, Z.div_add, Z.div_small by lia. done.
Qed.

(** ** Buffers *)

Lemma memcpy_in dst off src :
  (off + length src ≤ length dst)%nat →
  memcpy dst off src = Some (take off dst ++ src ++ drop (off + length src) dst).
Proof. intros. unfold memcpy. by rewrite decide_True. Qed.

Lemma memcpy_out dst off src :
  (length dst < off + length src)%nat → memcpy dst off src = None.
Proof. intros. unfold memcpy. rewrite decide_False; [done|lia]. Qed.

Lemma length_memcpy dst off src dst' :
  memcpy dst off src = Some dst' → length dst' = length dst.
Proof.
  unfold memcpy. case_decide; [|done]. intros [= <-].
  rewrite !length_app, length_take, length_drop. lia.
Qed.

(** Two adjacent copies are one. *)
Lemma memcpy_app dst off src1 src2 :
  (dst' ← memcpy dst off src1; memcpy dst' (off + length src1) src2) =
  memcpy dst off (src1 ++ src2).
Proof.
  destruct (decide (off + length src1 ≤ length dst)%nat) as [H1|H1].
  2: { rewrite !memcpy_out; [done|rewrite length_app; lia|lia]. }
  rewrite (memcpy_in _ _ src1) by done. simpl.
  destruct (decide (off + length (src1 ++ src2) ≤ length dst)%nat) as [H2|H2];
    rewrite length_app in H2.
  - rewrite !memcpy_in; rewrite ?length_app, ?length_take, ?length_drop; [|lia..].
    f_equal. rewrite take_app_ge, drop_app_ge; rewrite ?length_take; [|lia..].
    replace (off + length src1 - off `min` length dst)%nat with (length src1) by lia.
    replace (off + length src1 + length src2 - off `min` length dst)%nat
      with (length src1 + length src2)%nat by lia.
    rewrite take_app_length, drop_app_ge, drop_drop by lia. rewrite <-!app_assoc.
    do 4 f_equal. lia.
  - rewrite !memcpy_out; rewrite ?length_app, ?length_take, ?length_drop; done || lia.
Qed.

(** Reading back the bytes a copy wrote. *)
Lemma memcpy_read dst off src dst' :
  memcpy dst off src = Some dst' → take (length src) (drop off dst') = src.
Proof.
  unfold memcpy. case_decide; [|done]. intros [= <-].
  rewrite drop_app_ge, length_take by (rewrite length_take; lia).
  replace (off - off `min` length dst)%nat with 0%nat by lia.
  rewrite drop_0. apply take_app_length.
Qed.

(** ** The writers *)

Section writers.
Context `{Platform}.

Lemma store_native_read n buf off v buf' :
  store_native n buf off v = Some buf' →
  load_native n buf' off = Some (v mod 2 ^ (8 * Z.of_nat n)).
Proof.
  unfold store_native, load_native. intros Hs.
  pose proof (length_memcpy _ _ _ _ Hs) as Hl. pose proof (memcpy_read _ _ _ _ Hs) as Hr.
  unfold memcpy in Hs. case_decide as Hd; [|done].
  assert (length (if big_endian then rev (le_split n v) else le_split n v) = n) as Hn
    by (destruct big_endian; rewrite ?length_rev, length_le_split; done).
  rewrite Hn in Hr, Hd. rewrite decide_True by lia. rewrite Hr. f_equal.
  destruct big_endian; rewrite ?rev_involutive; apply le_combine_split.
Qed.

(** Storing bytes one after the other is one copy. *)
Lemma store8_then buf i j z bs (k : list byte → option (list byte)) :
  j = i → (∀ b, k b = memcpy b (i + 1) bs) →
  (b ← store8 buf j z; k b) = memcpy buf i (byte_of_Z z :: bs).
Proof.
  intros -> Hk. change (byte_of_Z z :: bs) with ([byte_of_Z z] ++ bs). rewrite <-memcpy_app.
  unfold store8. simpl. destruct (memcpy buf i _); simpl; [apply Hk|done].
Qed.

Lemma WriteUint32LE_memcpy buf off v :
  WriteUint32LE buf off v = memcpy buf off (le_split 4 v).
Proof.
  unfold WriteUint32LE, store_native. destruct big_endian; [|done].
  cbn [le_split]. rewrite !Z.shiftr_shiftr by done.
  rewrite <-(byte_of_Z_land v), <-!(byte_of_Z_land (Z.shiftr v _)). repeat (apply store8_then; [lia|intros ?]).
  unfold store8. f_equal. lia.
Qed.

Lemma WriteUint64LE_memcpy buf off v :
  WriteUint64LE buf off v = memcpy buf off (le_split 8 v).
Proof.
  unfold WriteUint64LE, store_native. destruct big_endian; [|done].
  cbn [le_split]. rewrite !Z.shiftr_shiftr by done.
  rewrite <-(byte_of_Z_land v), <-!(byte_of_Z_land (Z.shiftr v _)). repeat (apply store8_then; [lia|intros ?]).
  unfold store8. f_equal. lia.
Qed.
End writers.

(** Encodings stay folded under [simpl]. *)
#[global] Opaque le_split le_combine.
