(* ===== verification/Common.v ===== *)
(** * Shared data types: [common.hpp] and the plain types of [websocket_server.hpp]

    Identifiers are [uint32_t], kept as [Z] with their wrap-around written out
    where the code computes on them. *)

From Stdlib Require Import Strings.Byte Strings.Ascii.
From S2P Require Import Prelude Serialization.

Local Open Scope Z_scope.
Local Open Scope string_scope.

Abbreviation ChannelId := Z (only parsing).
Abbreviation ClientChannelId := Z (only parsing).
Abbreviation SubscriptionId := Z (only parsing).

(** [websocketpp::connection_hdl]: a weak pointer compared by owner, so only its
    identity matters. *)
Abbreviation ConnHandle := positive (only parsing).

(** @src foxglove_bridge_base/include/foxglove_bridge/common.hpp:9-9 SUPPORTED_SUBPROTOCOL *)
Definition SUPPORTED_SUBPROTOCOL : string := "foxglove.websocket.v1".
(** @src foxglove_bridge_base/include/foxglove_bridge/common.hpp:10-10 CAPABILITY_CLIENT_PUBLISH *)
Definition CAPABILITY_CLIENT_PUBLISH : string := "clientPublish".
(** @src foxglove_bridge_base/include/foxglove_bridge/common.hpp:11-11 CAPABILITY_TIME *)
Definition CAPABILITY_TIME : string := "time".
(** @src foxglove_bridge_base/include/foxglove_bridge/websocket_server.hpp:35-35 DEFAULT_SEND_BUFFER_LIMIT_BYTES *)
Definition DEFAULT_SEND_BUFFER_LIMIT_BYTES : Z := 10000000.

(** @src foxglove_bridge_base/include/foxglove_bridge/common.hpp:17-20 BinaryOpcode *)
Inductive BinaryOpcode := MESSAGE_DATA | TIME_DATA.

(** The [uint8_t] conversion of a [BinaryOpcode].
    @src foxglove_bridge_base/include/foxglove_bridge/common.hpp:17-20 BinaryOpcode *)
Definition BinaryOpcode_value (op : BinaryOpcode) : Z :=
  match op with MESSAGE_DATA => 1 | TIME_DATA => 2 end.

(** The one enumerator of [ClientBinaryOpcode].
    @src foxglove_bridge_base/include/foxglove_bridge/common.hpp:22-24 ClientBinaryOpcode *)
Definition ClientBinaryOpcode_MESSAGE_DATA : Z := 1.

(** @src foxglove_bridge_base/include/foxglove_bridge/common.hpp:26-32 ClientAdvertisement *)
Record ClientAdvertisement := mkClientAdvertisement {
  adv_channelId : ClientChannelId;
  adv_topic : string;
  adv_encoding : string;
  adv_schemaName : string;
  adv_schema : list byte;
}.

(** @src foxglove_bridge_base/include/foxglove_bridge/websocket_server.hpp:45-49 ChannelWithoutId *)
Record ChannelWithoutId := mkChannelWithoutId {
  topic : string;
  encoding : string;
  schemaName : string;
  schema : string;
}.

(** @src foxglove_bridge_base/include/foxglove_bridge/websocket_server.hpp:57-62 Channel *)
Record Channel := mkChannel {
  chan_id : ChannelId;
  chan_base :> ChannelWithoutId;
}.

#[export] Instance byte_eq_decision : EqDecision byte := Byte.byte_eq_dec.
#[export] Instance ClientAdvertisement_eq_dec : EqDecision ClientAdvertisement.
Proof. solve_decision. Defined.
#[export] Instance ChannelWithoutId_eq_dec : EqDecision ChannelWithoutId.
Proof. solve_decision. Defined.
#[export] Instance Channel_eq_dec : EqDecision Channel.
Proof. solve_decision. Defined.

(** @src foxglove_bridge_base/include/foxglove_bridge/websocket_server.hpp:51-54 ChannelWithoutId::operator== *)
Definition ChannelWithoutId_eqb (a b : ChannelWithoutId) : bool :=
  String.eqb a.(topic) b.(topic) && String.eqb a.(encoding) b.(encoding) &&
  String.eqb a.(schemaName) b.(schemaName) && String.eqb a.(schema) b.(schema).

(** @src foxglove_bridge_base/include/foxglove_bridge/websocket_server.hpp:74-76 Channel::operator== *)
Definition Channel_eqb (a b : Channel) : bool :=
  Z.eqb a.(chan_id) b.(chan_id) && ChannelWithoutId_eqb a b.

(** A message a client published: the frame as received, opcode and channel id
    included.
    @src foxglove_bridge_base/include/foxglove_bridge/websocket_server.hpp:79-94 ClientMessage *)
Record ClientMessage := mkClientMessage {
  msg_logTime : Z;
  msg_publishTime : Z;
  msg_sequence : Z;
  msg_advertisement : ClientAdvertisement;
  msg_dataLength : Z;
  msg_data : list byte;
}.

(** @src foxglove_bridge_base/include/foxglove_bridge/websocket_server.hpp:96-96 MSG_PAYLOAD_OFFSET *)
Definition MSG_PAYLOAD_OFFSET : nat := 5.

(** The bytes from [data + MSG_PAYLOAD_OFFSET] on.
    @src foxglove_bridge_base/include/foxglove_bridge/websocket_server.hpp:98-100 ClientMessage::getData *)
Definition getData (m : ClientMessage) : list byte := drop MSG_PAYLOAD_OFFSET m.(msg_data).

(** A [size_t] subtraction.
    @src foxglove_bridge_base/include/foxglove_bridge/websocket_server.hpp:101-103 ClientMessage::getLength *)
Definition getLength (m : ClientMessage) : Z :=
  u64 (m.(msg_dataLength) - Z.of_nat MSG_PAYLOAD_OFFSET).

(** @src foxglove_bridge_base/include/foxglove_bridge/websocket_server.hpp:106-110 StatusLevel *)
Inductive StatusLevel := Info | Warning | Error.

(** [static_cast<uint8_t>(level)]
    @src foxglove_bridge_base/include/foxglove_bridge/websocket_server.hpp:106-110 StatusLevel *)
Definition StatusLevel_value (level : StatusLevel) : Z :=
  match level with Info => 0 | Warning => 1 | Error => 2 end.

(** @src foxglove_bridge_base/include/foxglove_bridge/websocket_server.hpp:112-123 StatusLevelToString *)
Definition StatusLevelToString (level : StatusLevel) : string :=
  match level with
  | Info => "INFO"
  | Warning => "WARN"
  | Error => "ERROR"
  end.

(** ** The opcode hash *)

Section hash.
Context `{Platform}.

(** [static_cast<uint32_t>(c)] of a [char]: sign-extended where [char] is
    signed. *)
Definition char_to_u32 (c : ascii) : Z :=
  let n := Z.of_N (N_of_ascii c) in
  if char_is_signed && (127 <? n)%Z then u32 (n - 256) else n.

(** One iteration of the loop of [Integer].
    @src foxglove_bridge_base/include/foxglove_bridge/websocket_server.hpp:40-40 Integer *)
Definition fnv_step (result : Z) (c : ascii) : Z :=
  u32 (Z.lxor (char_to_u32 c) result * 0x01000193).

Fixpoint fnv_loop (result : Z) (str : string) : Z :=
  match str with
  | EmptyString => result
  | String c str => fnv_loop (fnv_step result c) str
  end.

(** @src foxglove_bridge_base/include/foxglove_bridge/websocket_server.hpp:37-43 Integer *)
Definition Integer (str : string) : Z := fnv_loop 0x811C9DC5 str.

(** The [case] labels of [handleTextMessage].
    @src foxglove_bridge_base/include/foxglove_bridge/websocket_server.hpp:610-610 handleTextMessage *)
Definition SUBSCRIBE : Z := Integer "subscribe".
(** @src foxglove_bridge_base/include/foxglove_bridge/websocket_server.hpp:611-611 handleTextMessage *)
Definition UNSUBSCRIBE : Z := Integer "unsubscribe".
(** @src foxglove_bridge_base/include/foxglove_bridge/websocket_server.hpp:612-612 handleTextMessage *)
Definition ADVERTISE : Z := Integer "advertise".
(** @src foxglove_bridge_base/include/foxglove_bridge/websocket_server.hpp:613-613 handleTextMessage *)
Definition UNADVERTISE : Z := Integer "unadvertise".
End hash.

(** ** Lemmas *)

Lemma ChannelWithoutId_eqb_spec a b : reflect (a = b) (ChannelWithoutId_eqb a b).
Proof.
  apply iff_reflect. unfold ChannelWithoutId_eqb. rewrite !andb_true_iff, !String.eqb_eq.
  destruct a, b; simpl; naive_solver.
Qed.

Lemma Channel_eqb_spec a b : reflect (a = b) (Channel_eqb a b).
Proof.
  apply iff_reflect. unfold Channel_eqb. rewrite andb_true_iff, Z.eqb_eq.
  destruct (ChannelWithoutId_eqb_spec a b) as [Heq|Hne]; destruct a, b; simpl in *.
  - naive_solver.
  - naive_solver.
Qed.

Section hash_lemmas.
Context `{Platform}.

Lemma fnv_step_range r c : is_u32 (fnv_step r c).
Proof. apply u32_range. Qed.

Lemma Integer_range str : is_u32 (Integer str).
Proof.
  unfold Integer. assert (is_u32 0x811C9DC5) as Hr by done. revert Hr.
  generalize 0x811C9DC5. induction str as [|c str IH]; intros r Hr; simpl; [done|].
  apply IH, fnv_step_range.
Qed.

(** Evaluates a hash for both signednesses of [char]. *)
Ltac compute_hash :=
  unfold SUBSCRIBE, UNSUBSCRIBE, ADVERTISE, UNADVERTISE, Integer, fnv_loop, fnv_step, char_to_u32;
  destruct char_is_signed; vm_compute; reflexivity.

Lemma SUBSCRIBE_value : SUBSCRIBE = 2946386435.
Proof. compute_hash. Qed.
Lemma UNSUBSCRIBE_value : UNSUBSCRIBE = 4190043798.
Proof. compute_hash. Qed.
Lemma ADVERTISE_value : ADVERTISE = 3642182174.
Proof. compute_hash. Qed.
Lemma UNADVERTISE_value : UNADVERTISE = 429097563.
Proof. compute_hash. Qed.
End hash_lemmas.
