(* ===== verification/Logging.v ===== *)
(** * The log adapter of [websocket_logging.hpp]

    websocketpp writes its log lines to a [CallbackLogger], which filters them
    by a channel bit mask and forwards them to one callback.  The channel
    constants are websocketpp's, so they are parameters. *)

From Stdlib Require Import Strings.Ascii.
From Stdlib Require Strings.String.
From S2P Require Import Prelude.

Local Open Scope Z_scope.

(** [websocketpp::log::elevel] and [alevel]: each named channel is one bit. *)
Class LogChannels := {
  elevel_devel : Z;
  elevel_library : Z;
  elevel_info : Z;
  elevel_warn : Z;
  elevel_rerror : Z;
  elevel_fatal : Z;
  alevel_app : Z;
  alevel_all : Z;
}.

Definition elevels `{LogChannels} : list Z :=
  [elevel_devel; elevel_library; elevel_info; elevel_warn; elevel_rerror; elevel_fatal].

(** What websocketpp documents of its channels. *)
Class LogChannelsOk `{LogChannels} : Prop := {
  elevels_bits : Forall (λ c, ∃ k, 0 ≤ k < 32 ∧ c = 2 ^ k) elevels;
  elevels_distinct : NoDup elevels;
  alevel_app_bit : ∃ k, 0 ≤ k < 32 ∧ alevel_app = 2 ^ k;
  alevel_all_value : alevel_all = 0xffffffff;
}.

(** @src foxglove_bridge_base/include/foxglove_bridge/websocket_logging.hpp:10-16 WebSocketLogLevel *)
Inductive WebSocketLogLevel := Debug | LogInfo | Warn | LogError | Critical.

#[export] Instance WebSocketLogLevel_eq_dec : EqDecision WebSocketLogLevel.
Proof. solve_decision. Defined.

(** [channel_type_hint::value] *)
Inductive channel_type_hint := access | error.

(** A callback, as the lines it hands on; a callback of the server's owner hands
    on what it gets. *)
Definition LogCallback : Type := WebSocketLogLevel → string → list (WebSocketLogLevel * string).

Definition owner_callback : LogCallback := λ level msg, [(level, msg)].

(** @src foxglove_bridge_base/include/foxglove_bridge/websocket_logging.hpp:27-27 NoOpLogCallback *)
Definition NoOpLogCallback : LogCallback := λ level msg, [].

(** @src foxglove_bridge_base/include/foxglove_bridge/websocket_logging.hpp:99-103 CallbackLogger *)
Record CallbackLogger := mkLogger {
  _staticChannels : Z;
  _dynamicChannels : Z;
  _channelTypeHint : channel_type_hint;
  _callback : LogCallback;
}.

(** @src foxglove_bridge_base/include/foxglove_bridge/websocket_logging.hpp:33-37 CallbackLogger::CallbackLogger *)
Definition new_logger (hint : channel_type_hint) : CallbackLogger :=
  mkLogger 0xffffffff 0 hint NoOpLogCallback.

(** @src foxglove_bridge_base/include/foxglove_bridge/websocket_logging.hpp:39-44 CallbackLogger::CallbackLogger *)
Definition new_logger_channels (channels : Z) (hint : channel_type_hint) : CallbackLogger :=
  mkLogger channels 0 hint NoOpLogCallback.

(** [~channels] of a [uint32_t]. *)
Definition not_u32 (z : Z) : Z := Z.lxor (u32 z) 0xffffffff.

Definition set_dynamic (f : Z → Z) (l : CallbackLogger) : CallbackLogger :=
  mkLogger l.(_staticChannels) (f l.(_dynamicChannels)) l.(_channelTypeHint) l.(_callback).

(** @src foxglove_bridge_base/include/foxglove_bridge/websocket_logging.hpp:46-48 CallbackLogger::set_callback *)
Definition set_callback (callback : LogCallback) (l : CallbackLogger) : CallbackLogger :=
  mkLogger l.(_staticChannels) l.(_dynamicChannels) l.(_channelTypeHint) callback.

(** @src foxglove_bridge_base/include/foxglove_bridge/websocket_logging.hpp:59-61 CallbackLogger::clear_channels *)
Definition clear_channels (channels : Z) (l : CallbackLogger) : CallbackLogger :=
  set_dynamic (λ d, Z.land d (not_u32 channels)) l.

(** @src foxglove_bridge_base/include/foxglove_bridge/websocket_logging.hpp:50-57 CallbackLogger::set_channels *)
Definition set_channels (channels : Z) (l : CallbackLogger) : CallbackLogger :=
  if channels =? 0 then clear_channels 0xffffffff l
  else set_dynamic (λ d, Z.lor d (Z.land channels l.(_staticChannels))) l.

(** @src foxglove_bridge_base/include/foxglove_bridge/websocket_logging.hpp:91-93 CallbackLogger::static_test *)
Definition static_test (channel : Z) (l : CallbackLogger) : bool :=
  negb (Z.land channel l.(_staticChannels) =? 0).

(** @src foxglove_bridge_base/include/foxglove_bridge/websocket_logging.hpp:95-97 CallbackLogger::dynamic_test *)
Definition dynamic_test (channel : Z) (l : CallbackLogger) : bool :=
  negb (Z.land channel l.(_dynamicChannels) =? 0).

(** The characters of a string that a reader of [msg.c_str()] sees. *)
Fixpoint c_str (s : string) : string :=
  match s with
  | EmptyString => EmptyString
  | String c s => if bool_decide (Ascii.zero = c) then EmptyString else String c (c_str s)
  end.

Section write.
Context `{LogChannels}.

(** The lines one [write] hands on.
    @src foxglove_bridge_base/include/foxglove_bridge/websocket_logging.hpp:67-89 CallbackLogger::write *)
Definition write (channel : Z) (msg : string) (l : CallbackLogger)
  : list (WebSocketLogLevel * string) :=
  if negb (dynamic_test channel l) then [] else
  match l.(_channelTypeHint) with
  | access => l.(_callback) LogInfo msg
  | error =>
      if channel =? elevel_devel then l.(_callback) Debug msg
      else if channel =? elevel_library then l.(_callback) Debug msg
      else if channel =? elevel_info then l.(_callback) LogInfo msg
      else if channel =? elevel_warn then l.(_callback) Warn msg
      else if channel =? elevel_rerror then l.(_callback) LogError msg
      else if channel =? elevel_fatal then l.(_callback) Critical msg
      else []
  end.

(** The overload for strings hands on a [char const*], which ends at the first NUL.
    @src foxglove_bridge_base/include/foxglove_bridge/websocket_logging.hpp:63-65 CallbackLogger::write *)
Definition write_string (channel : Z) (msg : string) (l : CallbackLogger)
  : list (WebSocketLogLevel * string) :=
  write channel (c_str msg) l.
End write.

Lemma c_str_whole s : Ascii.zero ∉ String.list_ascii_of_string s → c_str s = s.
Proof.
  induction s as [|c s IH]; simpl; [done|]. intros [Hc Hs]%not_elem_of_cons.
  rewrite bool_decide_eq_false_2 by done. by rewrite IH.
Qed.

(** ** The masks a logger can reach *)

(** Every state the mask operations can bring a logger to. *)
Inductive logger_reachable (hint : channel_type_hint) (static : Z) : CallbackLogger → Prop :=
| logger_init : logger_reachable hint static (new_logger_channels static hint)
| logger_set channels l :
    is_u32 channels → logger_reachable hint static l →
    logger_reachable hint static (set_channels channels l)
| logger_clear channels l :
    is_u32 channels → logger_reachable hint static l →
    logger_reachable hint static (clear_channels channels l)
| logger_callback callback l :
    logger_reachable hint static l → logger_reachable hint static (set_callback callback l).

Lemma not_u32_testbit z i :
  0 ≤ i < 32 → Z.testbit (not_u32 z) i = negb (Z.testbit z i).
Proof.
  intros Hi. unfold not_u32, u32. rewrite Z.lxor_spec, Z.mod_pow2_bits_low by lia.
  change 0xffffffff with (Z.ones 32). rewrite Z.ones_spec_low by lia. apply xorb_true_r.
Qed.

Lemma land_bit_zero z i : 0 ≤ i → (Z.land (2 ^ i) z =? 0) = negb (Z.testbit z i).
Proof.
  intros Hi. destruct (Z.testbit z i) eqn:Hz; simpl; [apply Z.eqb_neq|apply Z.eqb_eq].
  - intros H0. apply (f_equal (λ x, Z.testbit x i)) in H0.
    rewrite Z.land_spec, Z.pow2_bits_true, Hz, Z.bits_0 in H0 by done. done.
  - apply Z.bits_inj'. intros n Hn. rewrite Z.land_spec, Z.bits_0, Z.pow2_bits_eqb by done.
    destruct (Z.eqb_spec i n) as [->|]; [by rewrite Hz|done].
Qed.

(** Testing one channel tests one bit of the mask. *)
Lemma dynamic_test_bit i l :
  0 ≤ i → dynamic_test (2 ^ i) l = Z.testbit l.(_dynamicChannels) i.
Proof. intros Hi. unfold dynamic_test. rewrite land_bit_zero by done. apply negb_involutive. Qed.

Lemma static_test_bit i l :
  0 ≤ i → static_test (2 ^ i) l = Z.testbit l.(_staticChannels) i.
Proof. intros Hi. unfold static_test. rewrite land_bit_zero by done. apply negb_involutive. Qed.

Lemma reachable_static hint static l :
  logger_reachable hint static l → _staticChannels l = static ∧ _channelTypeHint l = hint.
Proof.
  induction 1 as [|channels l Hc _ [IH1 IH2]|channels l Hc _ [IH1 IH2]|? l _ [IH1 IH2]]; simpl; auto.
  unfold set_channels. destruct (channels =? 0); simpl; auto.
Qed.

(** The dynamic mask never leaves the static one. *)
Lemma reachable_dynamic hint static l i :
  0 ≤ i → logger_reachable hint static l →
  Z.testbit l.(_dynamicChannels) i = true → Z.testbit static i = true.
Proof.
  intros Hi. induction 1 as [|channels l Hc Hl IH|channels l Hc Hl IH|? l Hl IH]; simpl; [| | |done].
  - by rewrite Z.bits_0.
  - unfold set_channels. destruct (channels =? 0); simpl.
    + rewrite Z.land_spec. intros [? _]%andb_true_iff. auto.
    + rewrite Z.lor_spec, Z.land_spec. destruct (reachable_static _ _ _ Hl) as [<- _].
      intros [?|[_ ?]%andb_true_iff]%orb_true_iff; auto.
  - rewrite Z.land_spec. intros [? _]%andb_true_iff. auto.
Qed.

(** ** What is handed on *)

(** The level under which a channel's lines are handed on. *)
Definition forwarded `{LogChannels} (hint : channel_type_hint) (channel : Z)
  : option WebSocketLogLevel :=
  match hint with
  | access => Some LogInfo
  | error =>
      if decide (channel ∈ [elevel_devel; elevel_library]) then Some Debug
      else if decide (channel = elevel_info) then Some LogInfo
      else if decide (channel = elevel_warn) then Some Warn
      else if decide (channel = elevel_rerror) then Some LogError
      else if decide (channel = elevel_fatal) then Some Critical
      else None
  end.

Lemma write_forwarded `{LogChannels} channel msg l :
  write channel msg l =
  if dynamic_test channel l then
    match forwarded (_channelTypeHint l) channel with
    | Some level => _callback l level msg
    | None => []
    end
  else [].
Proof.
  unfold write, forwarded. destruct (dynamic_test channel l); [simpl|done].
  destruct (_channelTypeHint l); [done|].
  repeat (case_match; rewrite ?Z.eqb_eq, ?Z.eqb_neq in * ); try done; subst;
    repeat match goal with
    | H : decide _ = left _ |- _ => clear H
    | H : decide _ = right _ |- _ => clear H
    end; set_solver.
Qed.

(** ** The logs of an endpoint *)

Record Logs := mkLogs {
  access_log : CallbackLogger;
  error_log : CallbackLogger;
}.

(** What the constructor of a server makes of the logs of its endpoint, [callback]
    being its owner's. *)
Definition configured_logs `{LogChannels} (callback : LogCallback) (logs : Logs) : Logs :=
  mkLogs (set_channels alevel_app (clear_channels alevel_all
      (set_callback callback (access_log logs))))
    (set_callback callback (error_log logs)).

Definition new_logs : Logs := mkLogs (new_logger access) (new_logger error).

(** The owner of an endpoint gets the lines on the server's own channel, if the
    access log can write on it at all. *)
Definition app_log `{LogChannels} (l : CallbackLogger) : Prop :=
  _channelTypeHint l = access ∧ static_test alevel_app l = true.

Lemma configured_forwards `{LogChannelsOk} logs msg :
  app_log (access_log logs) →
  write alevel_app msg (access_log (configured_logs owner_callback logs)) = [(LogInfo, msg)].
Proof.
  intros [Hh Hs]. simpl. destruct alevel_app_bit as (k & Hk & Happ). rewrite write_forwarded.
  rewrite Happ, static_test_bit in Hs by lia. unfold set_channels. rewrite Happ.
  rewrite (proj2 (Z.eqb_neq _ _)) by (pose proof (Z.pow_pos_nonneg 2 k); lia).
  rewrite dynamic_test_bit by lia. simpl.
  rewrite Z.lor_spec, !Z.land_spec, Hs, Z.pow2_bits_true by lia. simpl.
  by rewrite orb_true_r, Hh.
Qed.
