(* ===== verification/Interfaces.v ===== *)
(** * The libraries the server is written against

    nlohmann::json and websocketpp are not part of the repository: their
    operations are parameters here, and what the code relies on is stated as
    separate classes of laws. *)

From Stdlib Require Import Strings.Byte Strings.Ascii.
From S2P Require Import Prelude Serialization Common.

Local Open Scope Z_scope.

(** ** nlohmann::json

    Values are built with initializer lists and [push_back], read with [at],
    [get<T>()] and a range-for, and turned to text and back with [dump] and
    [parse].  Every reader may throw, and so may [dump] (on a string that is
    not valid UTF-8). *)
Class Nlohmann := {
  json : Type;
  json_null : json;
  json_string : string → json;
  json_number : Z → json;
  json_array : list json → json;
  json_object : list (string * json) → json;
  json_push_back : json → json → result json;
  json_dump : json → result string;
  json_parse : string → result json;
  json_at : json → string → result json;
  json_get_string : json → result string;
  json_get_uint32 : json → result Z;
  json_items : json → list json;
}.

(** Documented behaviour of the library. *)
Class NlohmannLaws `{Nlohmann} : Prop := {
  parse_dump j s : json_dump j = inr s → json_parse s = inr j;
  at_object kvs k v :
    NoDup kvs.*1 → (k, v) ∈ kvs → json_at (json_object kvs) k = inr v;
  get_string_string s : json_get_string (json_string s) = inr s;
  get_uint32_number n : is_u32 n → json_get_uint32 (json_number n) = inr n;
  get_uint32_range j n : json_get_uint32 j = inr n → is_u32 n;
  items_array l : json_items (json_array l) = l;
  items_null : json_items json_null = [];
  push_back_null j : json_push_back json_null j = inr (json_array [j]);
  push_back_array l j : json_push_back (json_array l) j = inr (json_array (l ++ [j]));
  json_throws_std :
    (∀ j e, json_dump j = inl e → catchable e = true) ∧
    (∀ s e, json_parse s = inl e → catchable e = true) ∧
    (∀ j k e, json_at j k = inl e → catchable e = true) ∧
    (∀ j e, json_get_string j = inl e → catchable e = true) ∧
    (∀ j e, json_get_uint32 j = inl e → catchable e = true);
}.

(** [dump] puts out strings as UTF-8 and throws on one that is not; ASCII is
    UTF-8. *)
Inductive json_valid `{Nlohmann} (valid : string → Prop) : json → Prop :=
| json_valid_null : json_valid valid json_null
| json_valid_string s : valid s → json_valid valid (json_string s)
| json_valid_number n : json_valid valid (json_number n)
| json_valid_array l : (∀ j, j ∈ l → json_valid valid j) → json_valid valid (json_array l)
| json_valid_object kvs :
    (∀ k, k ∈ kvs.*1 → valid k) → (∀ j, j ∈ kvs.*2 → json_valid valid j) →
    json_valid valid (json_object kvs).

Fixpoint is_ascii (s : string) : bool :=
  match s with
  | EmptyString => true
  | String c s => (N_of_ascii c <? 128)%N && is_ascii s
  end.

Class NlohmannUtf8 `{Nlohmann} := {
  valid_utf8 : string → Prop;
  valid_ascii s : is_ascii s = true → valid_utf8 s;
  dump_valid j : json_valid valid_utf8 j → ∃ s, json_dump j = inr s;
}.

(** The elements [payload.at(key)] holds, as a range-for visits them. *)
Definition json_elements `{Nlohmann} (j : json) (key : string) : result (list json) :=
  match json_at j key with
  | inl e => inl e
  | inr v => inr (json_items v)
  end.

(** ** websocketpp *)

(** A WebSocket message: the opcode and the payload.  A text payload is used as
    a [std::string], a binary one as bytes; other opcodes are ignored. *)
Inductive Frame :=
| TextFrame (payload : string)
| BinaryFrame (payload : list byte)
| OtherFrame.

#[export] Instance Frame_eq_dec : EqDecision Frame.
Proof. solve_decision. Defined.

(** The endpoint and its connections: [Net] is whatever state they keep.  An
    operation that throws or sets an error code says so in its result. *)
Class Websocketpp := {
  Net : Type;
  (** [_server.send(hdl, payload, opcode)]; throws. *)
  ws_send : ConnHandle → Frame → Net → Net * result unit;
  (** [connection->send(payload)]; its error code is ignored by the code. *)
  ws_con_send : ConnHandle → Frame → Net → Net;
  (** [_server.get_con_from_hdl(hdl, ec)] finds a connection. *)
  ws_has_con : Net → ConnHandle → bool;
  (** [what()] of the exception [get_con_from_hdl(hdl)] throws otherwise. *)
  ws_bad_connection : string;
  ws_remote_endpoint : Net → ConnHandle → string;
  ws_resource : Net → ConnHandle → string;
  ws_requested_subprotocols : Net → ConnHandle → list string;
  ws_select_subprotocol : ConnHandle → string → Net → Net * result unit;
  ws_buffered_amount : Net → ConnHandle → Z;
  (** [get_raw_socket().set_option(no_delay(true), ec)]: the error message, if any. *)
  ws_set_no_delay : ConnHandle → Net → Net * option string;
  (** Endpoint life cycle. *)
  ws_listen : string → Z → Net → Net * option string;
  ws_start_accept : Net → Net * option string;
  ws_is_listening : Net → bool;
  (** The error message, or (is IPv6, address, port). *)
  ws_local_endpoint : Net → string + (bool * string * Z);
  ws_stopped : Net → bool;
  ws_stop_perpetual : Net → Net;
  ws_stop_listening : Net → Net * option string;
  ws_close : ConnHandle → string → Net → Net * option string;
  ws_terminate : ConnHandle → Net → Net;
  ws_stop : Net → Net;
  ws_spawn_run : Net → Net;
  (** [_serverThread->join()]: what [run()] has done until it returned, or nothing
      if it never returns. *)
  ws_join : Net → option Net;
}.

(** A call that throws, throws a [std::exception]. *)
Class WebsocketppLaws `{Websocketpp} : Prop := {
  ws_throws_std :
    (∀ hdl f n n' e, ws_send hdl f n = (n', inl e) → catchable e = true) ∧
    (∀ hdl p n n' e, ws_select_subprotocol hdl p n = (n', inl e) → catchable e = true);
}.
