(* ===== verification/Server.v ===== *)
(** * The WebSocket server: [Server<ServerConfiguration>] of [websocket_server.hpp]

    The server object, the events it exchanges with its libraries and its
    owner, and one definition per member function.  A member function is a
    computation over a [World]: the server object, websocketpp's state, the
    state [E] of the program that registered the handlers, and the trace of the
    calls the server made outside itself.  Each function runs to its end before
    the next one starts; [ServerThreads] has them with their locks. *)

From Stdlib Require Import Strings.Byte Strings.Ascii.
From S2P Require Import Prelude Serialization Common Logging Interfaces.

Local Open Scope Z_scope.
Local Open Scope string_scope.

(** ** State *)

(** @src foxglove_bridge_base/include/foxglove_bridge/websocket_server.hpp:204-215 Server::ClientInfo *)
Record ClientInfo := mkClientInfo {
  ci_name : string;
  ci_handle : ConnHandle;
  subscriptionsByChannel : gmap ChannelId SubscriptionId;
  advertisedChannels : gset ClientChannelId;
}.

(** The data members.  [_serverThread] is whether the pointer is set; the
    handlers are kept apart, in [Handlers].
    @src foxglove_bridge_base/include/foxglove_bridge/websocket_server.hpp:217-236 Server *)
Record ServerState := mkServer {
  _name : string;
  _capabilities : list string;
  _send_buffer_limit_bytes : Z;
  USES_TLS : bool;
  _serverThread : bool;
  _nextChannelId : Z;
  _clients : gmap ConnHandle ClientInfo;
  _channels : gmap ChannelId Channel;
  _clientChannels : gmap ConnHandle (gmap ClientChannelId ClientAdvertisement);
}.

(** Calls the server makes: log lines, frames handed to websocketpp, connection
    control, and the handlers of its owner. *)
Inductive Event :=
| EvAlog (channel : Z) (msg : string)
| EvElog (channel : Z) (msg : string)
| EvSend (hdl : ConnHandle) (f : Frame)
| EvConSend (hdl : ConnHandle) (f : Frame)
| EvSelectSubprotocol (hdl : ConnHandle) (protocol : string)
| EvClose (hdl : ConnHandle)
| EvTerminate (hdl : ConnHandle)
| EvSubscribe (channelId : ChannelId) (hdl : ConnHandle)
| EvUnsubscribe (channelId : ChannelId) (hdl : ConnHandle)
| EvClientAdvertise (adv : ClientAdvertisement) (hdl : ConnHandle)
| EvClientUnadvertise (channelId : ClientChannelId) (hdl : ConnHandle)
| EvClientMessage (msg : ClientMessage) (hdl : ConnHandle).

(** The handlers a program registers: each acts on that program's state [E].
    An unset [std::function] is [None].
    @src foxglove_bridge_base/include/foxglove_bridge/websocket_server.hpp:231-235 Server *)
Record Handlers (E : Type) := mkHandlers {
  _subscribeHandler : option (ChannelId → ConnHandle → M E unit);
  _unsubscribeHandler : option (ChannelId → ConnHandle → M E unit);
  _clientAdvertiseHandler : option (ClientAdvertisement → ConnHandle → M E unit);
  _clientUnadvertiseHandler : option (ClientChannelId → ConnHandle → M E unit);
  _clientMessageHandler : option (ClientMessage → ConnHandle → M E unit);
}.
Arguments mkHandlers {E}.
Arguments _subscribeHandler {E}.
Arguments _unsubscribeHandler {E}.
Arguments _clientAdvertiseHandler {E}.
Arguments _clientUnadvertiseHandler {E}.
Arguments _clientMessageHandler {E}.

(** Updates of one member. *)
Definition set_thread (b : bool) (s : ServerState) : ServerState :=
  mkServer (_name s) (_capabilities s) (_send_buffer_limit_bytes s) (USES_TLS s) b
    (_nextChannelId s) (_clients s) (_channels s) (_clientChannels s).
Definition set_nextChannelId (n : Z) (s : ServerState) : ServerState :=
  mkServer (_name s) (_capabilities s) (_send_buffer_limit_bytes s) (USES_TLS s)
    (_serverThread s) n (_clients s) (_channels s) (_clientChannels s).
Definition upd_clients (f : gmap ConnHandle ClientInfo → gmap ConnHandle ClientInfo)
    (s : ServerState) : ServerState :=
  mkServer (_name s) (_capabilities s) (_send_buffer_limit_bytes s) (USES_TLS s)
    (_serverThread s) (_nextChannelId s) (f (_clients s)) (_channels s) (_clientChannels s).
Definition upd_channels (f : gmap ChannelId Channel → gmap ChannelId Channel)
    (s : ServerState) : ServerState :=
  mkServer (_name s) (_capabilities s) (_send_buffer_limit_bytes s) (USES_TLS s)
    (_serverThread s) (_nextChannelId s) (_clients s) (f (_channels s)) (_clientChannels s).
Definition upd_clientChannels
    (f : gmap ConnHandle (gmap ClientChannelId ClientAdvertisement) →
         gmap ConnHandle (gmap ClientChannelId ClientAdvertisement))
    (s : ServerState) : ServerState :=
  mkServer (_name s) (_capabilities s) (_send_buffer_limit_bytes s) (USES_TLS s)
    (_serverThread s) (_nextChannelId s) (_clients s) (_channels s) (f (_clientChannels s)).

Definition upd_subscriptions (f : gmap ChannelId SubscriptionId → gmap ChannelId SubscriptionId)
    (c : ClientInfo) : ClientInfo :=
  mkClientInfo (ci_name c) (ci_handle c) (f (subscriptionsByChannel c)) (advertisedChannels c).
Definition upd_advertised (f : gset ClientChannelId → gset ClientChannelId)
    (c : ClientInfo) : ClientInfo :=
  mkClientInfo (ci_name c) (ci_handle c) (subscriptionsByChannel c) (f (advertisedChannels c)).

(** The server after construction.
    @src foxglove_bridge_base/include/foxglove_bridge/websocket_server.hpp:254-263 Server::Server *)
Definition new_Server (name : string) (capabilities : list string)
    (send_buffer_limit_bytes : Z) (tls : bool) : ServerState :=
  mkServer name capabilities send_buffer_limit_bytes tls false 0 ∅ ∅ ∅.

(** What the constructor does to the access logger.
    @src foxglove_bridge_base/include/foxglove_bridge/websocket_server.hpp:274-275 Server::Server *)
Definition configure_alog `{LogChannels} (alog : CallbackLogger) : CallbackLogger :=
  set_channels alevel_app (clear_channels alevel_all alog).

(** @src foxglove_bridge_base/include/foxglove_bridge/websocket_logging.hpp:20-25 IPAddressToString *)
Definition IPAddressToString (is_v6 : bool) (addr : string) : string :=
  if is_v6 then "[" +:+ addr +:+ "]" else addr.

(** [find_if] over a client's subscriptions, in the container's order.
    @src foxglove_bridge_base/include/foxglove_bridge/websocket_server.hpp:603-608 findSubscriptionBySubId *)
Definition findSubscriptionBySubId `{Iteration} (c : ClientInfo) (subId : SubscriptionId)
  : option (ChannelId * SubscriptionId) :=
  List.find (λ mo, Z.eqb mo.2 subId) (iter_map (subscriptionsByChannel c)).

(** ** JSON payloads *)
Section payloads.
Context `{Nlohmann}.

(** @src foxglove_bridge_base/include/foxglove_bridge/websocket_server.hpp:64-72 to_json *)
Definition Channel_to_json (channel : Channel) : json :=
  json_object [
    ("id", json_number channel.(chan_id));
    ("topic", json_string channel.(topic));
    ("encoding", json_string channel.(encoding));
    ("schemaName", json_string channel.(schemaName));
    ("schema", json_string channel.(schema))].

(** @src foxglove_bridge_base/include/foxglove_bridge/websocket_server.hpp:324-328 handleConnectionOpened *)
Definition serverInfo_json (name : string) (capabilities : list string) : json :=
  json_object [
    ("op", json_string "serverInfo");
    ("name", json_string name);
    ("capabilities", json_array (json_string <$> capabilities))].

(** The loop that fills [json channels], which starts out as null.
    @src foxglove_bridge_base/include/foxglove_bridge/websocket_server.hpp:331-335 handleConnectionOpened *)
Fixpoint push_channels (channels : json) (l : list Channel) : result json :=
  match l with
  | [] => inr channels
  | channel :: l =>
      match json_push_back channels (Channel_to_json channel) with
      | inl e => inl e
      | inr channels => push_channels channels l
      end
  end.

Definition advertise_json (channels : json) : json :=
  json_object [("op", json_string "advertise"); ("channels", channels)].

(** @src foxglove_bridge_base/include/foxglove_bridge/websocket_server.hpp:782-782 removeChannel *)
Definition unadvertise_json (chanId : ChannelId) : json :=
  json_object [("op", json_string "unadvertise");
               ("channelIds", json_array [json_number chanId])].

(** @src foxglove_bridge_base/include/foxglove_bridge/websocket_server.hpp:567-571 sendStatus *)
Definition status_json (level : StatusLevel) (message : string) : json :=
  json_object [
    ("op", json_string "status");
    ("level", json_number (StatusLevel_value level));
    ("message", json_string message)].

(** [j.at(key)] converted to a [uint32_t], or to a [std::string]. *)
Definition json_uint32_at (j : json) (key : string) : result Z :=
  match json_at j key with inl e => inl e | inr v => json_get_uint32 v end.
Definition json_string_at (j : json) (key : string) : result string :=
  match json_at j key with inl e => inl e | inr v => json_get_string v end.
End payloads.

(** ** The world a member function runs in *)

Record World `{Websocketpp} (E : Type) := mkWorld {
  srv : ServerState;
  net : Net;
  env : E;
  out : list Event;
}.
Arguments mkWorld {_ E}.
Arguments srv {_ E}.
Arguments net {_ E}.
Arguments env {_ E}.
Arguments out {_ E}.

Section server.
Context `{Platform, Iteration, LogChannels, Nlohmann, Websocketpp}.
Context {E : Type} (handlers : Handlers E).

Definition set_srv (s : ServerState) (w : World E) : World E :=
  mkWorld s (net w) (env w) (out w).

(** Reading and writing the server object. *)
Definition server {A} (f : ServerState → A) : M (World E) A := gets (λ w, f (srv w)).
Definition update (f : ServerState → ServerState) : M (World E) unit :=
  modify (λ w, set_srv (f (srv w)) w).

(** A call outside the server: it is traced, websocketpp's state or the
    owner's state may change, and it may throw. *)
Definition emit (e : Event) : M (World E) unit :=
  modify (λ w, mkWorld (srv w) (net w) (env w) (out w ++ [e])).
Definition on_net {A} (f : Net → Net * result A) : M (World E) A := λ w,
  let (n, r) := f (net w) in (mkWorld (srv w) n (env w) (out w), r).
Definition on_env {A} (m : M E A) : M (World E) A := λ w,
  let (e, r) := m (env w) in (mkWorld (srv w) (net w) e (out w), r).

(** A call that reports failure through an [std::error_code]. *)
Definition on_net_ec (f : Net → Net * option string) : M (World E) (option string) :=
  on_net (λ n, let (n', ec) := f n in (n', inr ec)).

(** A call that only changes websocketpp's state. *)
Definition on_net_ (f : Net → Net) : M (World E) unit := on_net (λ n, (f n, inr tt)).

Definition alog (msg : string) : M (World E) unit := emit (EvAlog alevel_app msg).
Definition elog (msg : string) : M (World E) unit := emit (EvElog elevel_rerror msg).

(** An access outside a buffer is undefined behaviour. *)
Definition in_bounds {A} (o : option A) : M (World E) A :=
  match o with
  | Some a => ret a
  | None => throw (Undefined "out of bounds")
  end.

(** Calling a handler, if it is set. *)
Definition call {X} (h : option (X → ConnHandle → M E unit)) (e : X → ConnHandle → Event)
    (x : X) (hdl : ConnHandle) : M (World E) unit :=
  match h with
  | Some f => emit (e x hdl) ;;; on_env (f x hdl)
  | None => ret tt
  end.

(** [_server.get_con_from_hdl(hdl)] without an error code throws. *)
Definition get_con_from_hdl (hdl : ConnHandle) : M (World E) unit :=
  let! found := gets (λ w, ws_has_con (net w) hdl) in
  if found : bool then ret tt else throw (StdException ws_bad_connection).

(** ** Sending *)

(** @src foxglove_bridge_base/include/foxglove_bridge/websocket_server.hpp:869-874 Server::remoteEndpointString *)
Definition remoteEndpointString (hdl : ConnHandle) : M (World E) string :=
  gets (λ w, if ws_has_con (net w) hdl then ws_remote_endpoint (net w) hdl else "(unknown)").

(** [_server.send(hdl, ...)] *)
Definition send (hdl : ConnHandle) (f : Frame) : M (World E) unit :=
  emit (EvSend hdl f) ;;; on_net (ws_send hdl f).

(** @src foxglove_bridge_base/include/foxglove_bridge/websocket_server.hpp:531-538 Server::sendJson *)
Definition sendJson (hdl : ConnHandle) (payload : json) : M (World E) unit :=
  try_catch
    (let! s := lift (json_dump payload) in
     send hdl (TextFrame s))
    (λ e, elog (what e)).

(** @src foxglove_bridge_base/include/foxglove_bridge/websocket_server.hpp:540-547 Server::sendJsonRaw *)
Definition sendJsonRaw (hdl : ConnHandle) (payload : string) : M (World E) unit :=
  try_catch (send hdl (TextFrame payload)) (λ e, elog (what e)).

(** @src foxglove_bridge_base/include/foxglove_bridge/websocket_server.hpp:549-557 Server::sendBinary *)
Definition sendBinary (hdl : ConnHandle) (payload : list byte) : M (World E) unit :=
  try_catch (send hdl (BinaryFrame payload)) (λ e, elog (what e)).

(** @src foxglove_bridge_base/include/foxglove_bridge/websocket_server.hpp:559-572 Server::sendStatus *)
Definition sendStatus (clientHandle : ConnHandle) (level : StatusLevel) (message : string)
  : M (World E) unit :=
  let! endpoint := remoteEndpointString clientHandle in
  elog ("sendStatus(" +:+ endpoint +:+ ", " +:+ StatusLevelToString level +:+ ", "
        +:+ message +:+ ")") ;;;
  sendJson clientHandle (status_json level message).

(** ** Connections *)

(** @src foxglove_bridge_base/include/foxglove_bridge/websocket_server.hpp:291-298 Server::socketInit *)
Definition socketInit (hdl : ConnHandle) : M (World E) unit :=
  get_con_from_hdl hdl ;;;
  let! ec := on_net_ec (ws_set_no_delay hdl) in
  match ec with
  | Some message => elog ("Failed to set TCP_NODELAY: " +:+ message)
  | None => ret tt
  end.

(** @src foxglove_bridge_base/include/foxglove_bridge/websocket_server.hpp:300-314 Server::validateConnection *)
Definition validateConnection (hdl : ConnHandle) : M (World E) bool :=
  get_con_from_hdl hdl ;;;
  let! subprotocols := gets (λ w, ws_requested_subprotocols (net w) hdl) in
  if bool_decide (SUPPORTED_SUBPROTOCOL ∈ subprotocols) then
    emit (EvSelectSubprotocol hdl SUPPORTED_SUBPROTOCOL) ;;;
    on_net (ws_select_subprotocol hdl SUPPORTED_SUBPROTOCOL) ;;;
    ret true
  else
    let! endpoint := remoteEndpointString hdl in
    alog ("Rejecting client " +:+ endpoint +:+
          " which did not declare support for subprotocol " +:+ SUPPORTED_SUBPROTOCOL) ;;;
    ret false.

(** The channels to advertise, in the order the container yields them. *)
Definition channels_json : M (World E) json :=
  let! channels := server _channels in
  lift (push_channels json_null (iter_map channels).*2).

(** @src foxglove_bridge_base/include/foxglove_bridge/websocket_server.hpp:316-340 Server::handleConnectionOpened *)
Definition handleConnectionOpened (hdl : ConnHandle) : M (World E) unit :=
  get_con_from_hdl hdl ;;;
  let! endpoint := remoteEndpointString hdl in
  let! resource := gets (λ w, ws_resource (net w) hdl) in
  alog ("Client " +:+ endpoint +:+ " connected via " +:+ resource) ;;;
  update (upd_clients (λ cs, (emplace hdl (mkClientInfo endpoint hdl ∅ ∅) cs).1)) ;;;
  let! name := server _name in
  let! capabilities := server _capabilities in
  let! info := lift (json_dump (serverInfo_json name capabilities)) in
  emit (EvConSend hdl (TextFrame info)) ;;;
  on_net_ (ws_con_send hdl (TextFrame info)) ;;;
  let! channels := channels_json in
  sendJson hdl (advertise_json channels).

(** @src foxglove_bridge_base/include/foxglove_bridge/websocket_server.hpp:342-383 Server::handleConnectionClosed *)
Definition handleConnectionClosed (hdl : ConnHandle) : M (World E) unit :=
  let! clients := server _clients in
  match clients !! hdl with
  | None =>
      let! endpoint := remoteEndpointString hdl in
      elog ("Client " +:+ endpoint +:+ " disconnected but not found in _clients")
  | Some client =>
      let clientName := ci_name client in
      alog ("Client " +:+ clientName +:+ " disconnected") ;;;
      let oldSubscriptionsByChannel := subscriptionsByChannel client in
      let oldAdvertisedChannels := advertisedChannels client in
      update (upd_clients (delete hdl)) ;;;
      for_each (iter_set oldAdvertisedChannels) (λ clientChannelId,
        alog ("Client " +:+ clientName +:+ " unadvertising channel " +:+
              to_string clientChannelId +:+ " due to disconnect") ;;;
        call (_clientUnadvertiseHandler handlers) EvClientUnadvertise clientChannelId hdl) ;;;
      update (upd_clientChannels (delete hdl)) ;;;
      for_each (iter_map oldSubscriptionsByChannel) (λ '(chanId, _),
        call (_unsubscribeHandler handlers) EvUnsubscribe chanId hdl)
  end.

(** ** Text messages *)

(** [_clients.at(hdl)]; the reference the C++ code keeps is read again here
    at each use, which is the same value as the lock is held throughout. *)
Definition client_at (hdl : ConnHandle) : M (World E) ClientInfo :=
  let! clients := server _clients in
  match clients !! hdl with
  | Some c => ret c
  | None => throw (StdException "map::at")
  end.

Definition upd_client (hdl : ConnHandle) (f : ClientInfo → ClientInfo) : M (World E) unit :=
  update (upd_clients (alter f hdl)).

(** The body of the loop of [case SUBSCRIBE].
    @src foxglove_bridge_base/include/foxglove_bridge/websocket_server.hpp:617-637 handleTextMessage *)
Definition subscribe_one (hdl : ConnHandle) (sub : json) : M (World E) unit :=
  let! subId := lift (json_uint32_at sub "id") in
  let! channelId := lift (json_uint32_at sub "channelId") in
  let! clientInfo := client_at hdl in
  match findSubscriptionBySubId clientInfo subId with
  | Some _ =>
      sendStatus hdl Error ("Client subscription id " +:+ to_string subId +:+
                            " was already used; ignoring subscription")
  | None =>
      let! channels := server _channels in
      match channels !! channelId with
      | None =>
          sendStatus hdl Warning ("Channel " +:+ to_string channelId +:+
                                  " is not available; ignoring subscription")
      | Some _ =>
          upd_client hdl (upd_subscriptions (λ m, (emplace channelId subId m).1)) ;;;
          call (_subscribeHandler handlers) EvSubscribe channelId hdl
      end
  end.

(** The body of the loop of [case UNSUBSCRIBE].
    @src foxglove_bridge_base/include/foxglove_bridge/websocket_server.hpp:640-654 handleTextMessage *)
Definition unsubscribe_one (hdl : ConnHandle) (subIdJson : json) : M (World E) unit :=
  let! subId := lift (json_get_uint32 subIdJson) in
  let! clientInfo := client_at hdl in
  match findSubscriptionBySubId clientInfo subId with
  | None =>
      sendStatus hdl Warning ("Client subscription id " +:+ to_string subId +:+
                              " did not exist; ignoring unsubscription")
  | Some (chanId, _) =>
      upd_client hdl (upd_subscriptions (delete chanId)) ;;;
      call (_unsubscribeHandler handlers) EvUnsubscribe chanId hdl
  end.

(** The publications [clientPublicationsIt] refers to. *)
Definition publications_of (hdl : ConnHandle)
  : M (World E) (gmap ClientChannelId ClientAdvertisement) :=
  server (λ s, default ∅ (_clientChannels s !! hdl)).

Definition upd_publications (hdl : ConnHandle)
    (f : gmap ClientChannelId ClientAdvertisement → gmap ClientChannelId ClientAdvertisement)
  : M (World E) unit :=
  update (upd_clientChannels (alter f hdl)).

(** The body of the loop of [case ADVERTISE].
    @src foxglove_bridge_base/include/foxglove_bridge/websocket_server.hpp:662-679 handleTextMessage *)
Definition advertise_one (hdl : ConnHandle) (isFirstPublication : bool) (chan : json)
  : M (World E) unit :=
  let! channelId := lift (json_uint32_at chan "id") in
  let! clientPublications := publications_of hdl in
  if negb isFirstPublication && bool_decide (is_Some (clientPublications !! channelId)) then
    sendStatus hdl Error ("Channel " +:+ to_string channelId +:+ " was already advertised")
  else
    let! topic := lift (json_string_at chan "topic") in
    let! encoding := lift (json_string_at chan "encoding") in
    let! schemaName := lift (json_string_at chan "schemaName") in
    let advertisement := mkClientAdvertisement channelId topic encoding schemaName [] in
    upd_publications hdl (λ m, (emplace channelId advertisement m).1) ;;;
    upd_client hdl (upd_advertised (λ X, {[ channelId ]} ∪ X)) ;;;
    call (_clientAdvertiseHandler handlers) EvClientAdvertise advertisement hdl.

(** The body of the loop of [case UNADVERTISE].
    @src foxglove_bridge_base/include/foxglove_bridge/websocket_server.hpp:690-700 handleTextMessage *)
Definition unadvertise_one (hdl : ConnHandle) (chanIdJson : json) : M (World E) unit :=
  let! channelId := lift (json_get_uint32 chanIdJson) in
  let! clientPublications := publications_of hdl in
  match clientPublications !! channelId with
  | None => ret tt
  | Some _ =>
      upd_publications hdl (delete channelId) ;;;
      call (_clientUnadvertiseHandler handlers) EvClientUnadvertise channelId hdl
  end.

(** @src foxglove_bridge_base/include/foxglove_bridge/websocket_server.hpp:616-638 handleTextMessage *)
Definition handleSubscribe (hdl : ConnHandle) (payload : json) : M (World E) unit :=
  let! subscriptions := lift (json_elements payload "subscriptions") in
  for_each subscriptions (subscribe_one hdl).

(** @src foxglove_bridge_base/include/foxglove_bridge/websocket_server.hpp:639-655 handleTextMessage *)
Definition handleUnsubscribe (hdl : ConnHandle) (payload : json) : M (World E) unit :=
  let! subscriptionIds := lift (json_elements payload "subscriptionIds") in
  for_each subscriptionIds (unsubscribe_one hdl).

(** @src foxglove_bridge_base/include/foxglove_bridge/websocket_server.hpp:656-680 handleTextMessage *)
Definition handleAdvertise (hdl : ConnHandle) (payload : json) : M (World E) unit :=
  let! clientChannels := server _clientChannels in
  let isFirstPublication := (emplace hdl ∅ clientChannels).2 in
  update (upd_clientChannels (λ m, (emplace hdl ∅ m).1)) ;;;
  let! channels := lift (json_elements payload "channels") in
  for_each channels (advertise_one hdl isFirstPublication).

(** @src foxglove_bridge_base/include/foxglove_bridge/websocket_server.hpp:681-701 handleTextMessage *)
Definition handleUnadvertise (hdl : ConnHandle) (payload : json) : M (World E) unit :=
  let! clientChannels := server _clientChannels in
  match clientChannels !! hdl with
  | None => sendStatus hdl Error "Client has no advertised channels"
  | Some _ =>
      let! channelIds := lift (json_elements payload "channelIds") in
      for_each channelIds (unadvertise_one hdl)
  end.

(** The [switch] on the hash of the opcode.
    @src foxglove_bridge_base/include/foxglove_bridge/websocket_server.hpp:615-705 handleTextMessage *)
Definition dispatch_op (hdl : ConnHandle) (op : string) (payload : json) : M (World E) unit :=
  let h := Integer op in
  if Z.eqb h SUBSCRIBE then handleSubscribe hdl payload
  else if Z.eqb h UNSUBSCRIBE then handleUnsubscribe hdl payload
  else if Z.eqb h ADVERTISE then handleAdvertise hdl payload
  else if Z.eqb h UNADVERTISE then handleUnadvertise hdl payload
  else sendStatus hdl Error
         ("Unrecognized client opcode " +:+ String "034" (op +:+ String "034" "")).

(** @src foxglove_bridge_base/include/foxglove_bridge/websocket_server.hpp:595-706 Server::handleTextMessage *)
Definition handleTextMessage (hdl : ConnHandle) (msg : string) : M (World E) unit :=
  let! payload := lift (json_parse msg) in
  let! op := lift (json_string_at payload "op") in
  let! _ := client_at hdl in
  dispatch_op hdl op payload.

(** ** Binary messages *)

(** [timestamp] is the reading of the clock, as [count()] returns it.
    @src foxglove_bridge_base/include/foxglove_bridge/websocket_server.hpp:708-762 Server::handleBinaryMessage *)
Definition handleBinaryMessage (timestamp : Z) (hdl : ConnHandle) (msg : list byte)
  : M (World E) unit :=
  let length := Z.of_nat (length msg) in
  if (length <? 1)%Z then sendStatus hdl Error "Received an empty binary message" else
  let! clientChannels := server _clientChannels in
  match clientChannels !! hdl with
  | None => sendStatus hdl Error "Client has no advertised channels"
  | Some clientPublications =>
      let! op := in_bounds (msg !! 0%nat) in
      if Z.eqb (Z_of_byte op) ClientBinaryOpcode_MESSAGE_DATA then
        if (length <? 5)%Z then
          sendStatus hdl Error ("Invalid message length " +:+ to_string length)
        else
          let! channelId := in_bounds (load_native 4 msg 1) in
          match clientPublications !! channelId with
          | None =>
              sendStatus hdl Error ("Channel " +:+ to_string channelId +:+ " is not advertised")
          | Some advertisement =>
              call (_clientMessageHandler handlers) EvClientMessage
                (mkClientMessage (u64 timestamp) (u64 timestamp) 0 advertisement length msg) hdl
          end
      else sendStatus hdl Error ("Unrecognized client opcode " +:+ to_string (Z_of_byte op))
  end.

(** @src foxglove_bridge_base/include/foxglove_bridge/websocket_server.hpp:574-593 Server::handleMessage *)
Definition handleMessage (timestamp : Z) (hdl : ConnHandle) (msg : Frame) : M (World E) unit :=
  try_catch
    match msg with
    | TextFrame payload => handleTextMessage hdl payload
    | BinaryFrame payload => handleBinaryMessage timestamp hdl payload
    | OtherFrame => ret tt
    end
    (λ ex, sendStatus hdl Error ("Error parsing message: " +:+ what ex)).

(** ** Channels *)

(** @src foxglove_bridge_base/include/foxglove_bridge/websocket_server.hpp:764-771 Server::addChannel *)
Definition addChannel (channel : ChannelWithoutId) : M (World E) ChannelId :=
  let! next := server _nextChannelId in
  let newId := u32 (next + 1) in
  update (set_nextChannelId newId) ;;;
  update (upd_channels (λ m, (emplace newId (mkChannel newId channel) m).1)) ;;;
  ret newId.

(** @src foxglove_bridge_base/include/foxglove_bridge/websocket_server.hpp:773-784 Server::removeChannel *)
Definition removeChannel (chanId : ChannelId) : M (World E) unit :=
  update (upd_channels (delete chanId)) ;;;
  let! clients := server _clients in
  for_each (iter_map clients) (λ '(hdl, _),
    upd_client hdl (upd_subscriptions (delete chanId)) ;;;
    sendJson hdl (unadvertise_json chanId)).

(** @src foxglove_bridge_base/include/foxglove_bridge/websocket_server.hpp:786-805 Server::broadcastChannels *)
Definition broadcastChannels : M (World E) unit :=
  let! clients := server _clients in
  if bool_decide (clients = ∅) then ret tt else
  let! channels := channels_json in
  let! msg := lift (json_dump (advertise_json channels)) in
  for_each (iter_map clients) (λ '(hdl, _), sendJsonRaw hdl msg).

(** ** Data *)

(** The buffer [sendMessage] fills: opcode, subscription id, timestamp, data.
    @src foxglove_bridge_base/include/foxglove_bridge/websocket_server.hpp:838-842 Server::sendMessage *)
Definition message_data (subId : SubscriptionId) (timestamp : Z) (data : list byte)
  : option (list byte) :=
  let message := replicate (1 + 4 + 8 + length data) x00 in
  message ← store8 message 0 (BinaryOpcode_value MESSAGE_DATA);
  message ← WriteUint32LE message 1 subId;
  message ← WriteUint64LE message 5 timestamp;
  memcpy message (1 + 4 + 8) data.

(** @src foxglove_bridge_base/include/foxglove_bridge/websocket_server.hpp:807-844 Server::sendMessage *)
Definition sendMessage (clientHandle : ConnHandle) (chanId : ChannelId) (timestamp : Z)
    (data : list byte) : M (World E) unit :=
  let! con := gets (λ w, ws_has_con (net w) clientHandle) in
  if negb con then ret tt else
  let! bufferSizeinBytes := gets (λ w, ws_buffered_amount (net w) clientHandle) in
  let! limit := server _send_buffer_limit_bytes in
  if (limit <=? bufferSizeinBytes)%Z then ret tt else
  let! clients := server _clients in
  match clients !! clientHandle with
  | None => ret tt
  | Some client =>
      match subscriptionsByChannel client !! chanId with
      | None => ret tt
      | Some subId =>
          let! message := in_bounds (message_data subId timestamp data) in
          sendBinary clientHandle message
      end
  end.

(** @src foxglove_bridge_base/include/foxglove_bridge/websocket_server.hpp:848-850 Server::broadcastTime *)
Definition time_data (timestamp : Z) : option (list byte) :=
  let message := replicate (1 + 8) x00 in
  message ← store8 message 0 (BinaryOpcode_value TIME_DATA);
  WriteUint64LE message 1 timestamp.

(** @src foxglove_bridge_base/include/foxglove_bridge/websocket_server.hpp:846-857 Server::broadcastTime *)
Definition broadcastTime (timestamp : Z) : M (World E) unit :=
  let! message := in_bounds (time_data timestamp) in
  let! clients := server _clients in
  for_each (iter_map clients) (λ '(hdl, _), sendBinary hdl message).

(** ** Starting and stopping *)

(** [if (ec) throw std::runtime_error(prefix + ec.message())] *)
Definition throw_if (ec : option string) (prefix : string) : M (World E) unit :=
  match ec with
  | Some message => throw (StdException (prefix +:+ message))
  | None => ret tt
  end.

(** The run loop thread is websocketpp's from [ws_spawn_run] on.
    @src foxglove_bridge_base/include/foxglove_bridge/websocket_server.hpp:490-529 Server::start *)
Definition start (host : string) (port : Z) : M (World E) unit :=
  let! started := server _serverThread in
  if started then throw (StdException "Server already started") else
  let! ec := on_net_ec (ws_listen host port) in
  throw_if ec ("Failed to listen on port " +:+ to_string port +:+ ": ") ;;;
  let! ec := on_net_ec ws_start_accept in
  throw_if ec "Failed to start accepting connections: " ;;;
  on_net_ ws_spawn_run ;;;
  update (set_thread true) ;;;
  let! listening := gets (λ w, ws_is_listening (net w)) in
  if negb listening then
    throw (StdException ("WebSocket server failed to listen on port " +:+ to_string port))
  else
  let! endpoint := gets (λ w, ws_local_endpoint (net w)) in
  match endpoint with
  | inl message => throw (StdException ("Failed to resolve the local endpoint: " +:+ message))
  | inr (is_v6, address, bound_port) =>
      let! tls := server USES_TLS in
      let protocol := if tls : bool then "wss" else "ws" in
      alog ("WebSocket server listening at " +:+ protocol +:+ "://" +:+
            IPAddressToString is_v6 address +:+ ":" +:+ to_string bound_port)
  end.

(** @src foxglove_bridge_base/include/foxglove_bridge/websocket_server.hpp:859-867 Server::localEndpoint *)
Definition localEndpoint : M (World E) (option (bool * string * Z)) :=
  let! endpoint := gets (λ w, ws_local_endpoint (net w)) in
  match endpoint with
  | inl _ => ret None
  | inr endpoint => ret (Some endpoint)
  end.

Definition MAX_SHUTDOWN_MS : Z := 1000.
Definition SLEEP_MS : Z := 10.

(** The loop that waits for the connections to close.  [poll_one] runs at most
    one pending websocketpp handler, so it is any computation over the world.
    The answer says whether the loop ended before the fuel did.
    @src foxglove_bridge_base/include/foxglove_bridge/websocket_server.hpp:454-462 Server::stop *)
Fixpoint stop_wait (poll_one : M (World E) unit) (fuel : nat) (durationMs : Z)
  : M (World E) bool :=
  match fuel with
  | O => ret false
  | S fuel =>
      let! stopped := gets (λ w, ws_stopped (net w)) in
      if negb stopped && (durationMs <? MAX_SHUTDOWN_MS)%Z then
        poll_one ;;;
        stop_wait poll_one fuel (durationMs + SLEEP_MS)
      else ret true
  end.

(** One iteration per [SLEEP_MS], and the one that finds the time is up. *)
Definition stop_fuel : nat := 101.

(** Joining the thread of the run loop waits until [run()] returns; if a connection
    keeps it going, that is for good.
    @src foxglove_bridge_base/include/foxglove_bridge/websocket_server.hpp:481-481 Server::stop *)
Definition join_server_thread : M (World E) unit := on_net (λ n,
  match ws_join n with
  | Some n' => (n', inr tt)
  | None => (n, inl (Blocked "std::thread::join"))
  end).

(** @src foxglove_bridge_base/include/foxglove_bridge/websocket_server.hpp:412-488 Server::stop *)
Definition stop (poll_one : M (World E) unit) : M (World E) unit :=
  let! stopped := gets (λ w, ws_stopped (net w)) in
  if stopped : bool then ret tt else
  alog "Stopping WebSocket server" ;;;
  on_net_ ws_stop_perpetual ;;;
  let! listening := gets (λ w, ws_is_listening (net w)) in
  when listening
    (let! ec := on_net_ec ws_stop_listening in
     match ec with
     | Some message => elog ("Failed to stop listening: " +:+ message)
     | None => ret tt
     end) ;;;
  let! clients := server _clients in
  let! connections :=
    gets (λ w, List.filter (ws_has_con (net w)) (iter_map clients).*1) in
  when (negb (bool_decide (connections = [])))
    (alog ("Closing " +:+ to_string (Z.of_nat (length connections)) +:+
           " client connection(s)") ;;;
     for_each connections (λ connection,
       emit (EvClose connection) ;;;
       let! ec := on_net_ec (ws_close connection "server shutdown") in
       match ec with
       | Some message => elog ("Failed to close connection: " +:+ message)
       | None => ret tt
       end) ;;;
     let! _ := stop_wait poll_one stop_fuel 0 in
     let! stopped := gets (λ w, ws_stopped (net w)) in
     when (negb stopped)
       (elog "Failed to close all connections, forcefully stopping" ;;;
        for_each connections (λ hdl,
          let! con := gets (λ w, ws_has_con (net w) hdl) in
          when con
            (let! endpoint := remoteEndpointString hdl in
             elog ("Terminating connection to " +:+ endpoint) ;;;
             emit (EvTerminate hdl) ;;;
             on_net_ (ws_terminate hdl))) ;;;
        on_net_ ws_stop)) ;;;
  alog "All WebSocket connections closed" ;;;
  let! thread := server _serverThread in
  when thread
    (alog "Waiting for WebSocket server run loop to terminate" ;;;
     join_server_thread ;;;
     update (set_thread false) ;;;
     alog "WebSocket server run loop terminated") ;;;
  update (upd_clients (λ _, ∅)).
End server.
