(* ===== verification/ServerFacts.v ===== *)
(** * Lemmas about the server's building blocks

    Symbolic execution of the monad over a [World], the frame rules of the
    calls that leave the server object alone, and what each sending function
    adds to the trace. *)

From Stdlib Require Import Strings.Byte.
From S2P Require Import Prelude Serialization Common Logging Interfaces Server.

Local Open Scope Z_scope.

(** The frames handed to websocketpp for one connection, oldest first. *)
Definition sent (hdl : ConnHandle) (evs : list Event) : list Frame :=
  omap (λ e, match e with
             | EvSend h f | EvConSend h f => if decide (h = hdl) then Some f else None
             | _ => None
             end) evs.

(** The text frame a JSON value goes out as, if it has a text. *)
Definition json_frames `{Nlohmann} (j : json) : list Frame :=
  match json_dump j with inr s => [TextFrame s] | inl _ => [] end.

Lemma sent_app hdl evs1 evs2 : sent hdl (evs1 ++ evs2) = sent hdl evs1 ++ sent hdl evs2.
Proof. apply omap_app. Qed.

Section facts.
Context `{Platform, Iteration, LogChannels, Nlohmann, Websocketpp}.
Context {E : Type}.
Implicit Types w : World E.

(** ** Symbolic execution *)

Lemma wp_server {A} (f : ServerState → A) Q w :
  wp (server (E:=E) f) Q w ↔ Q (inr (f (srv w))) w.
Proof. done. Qed.

Lemma wp_update f Q w : wp (update (E:=E) f) Q w ↔ Q (inr tt) (set_srv (f (srv w)) w).
Proof. done. Qed.

Lemma wp_emit e Q w :
  wp (emit (E:=E) e) Q w ↔ Q (inr tt) (mkWorld (srv w) (net w) (env w) (out w ++ [e])).
Proof. done. Qed.

Lemma wp_on_net {A} (f : Net → Net * result A) Q w :
  wp (on_net (E:=E) f) Q w ↔
  Q (f (net w)).2 (mkWorld (srv w) (f (net w)).1 (env w) (out w)).
Proof. unfold wp, on_net. by destruct (f (net w)). Qed.

Lemma wp_on_env {A} (m : M E A) Q w :
  wp (on_env m) Q w ↔ Q (m (env w)).2 (mkWorld (srv w) (net w) (m (env w)).1 (out w)).
Proof. unfold wp, on_env. by destruct (m (env w)). Qed.

Lemma wp_in_bounds {A} (a : A) Q w : wp (in_bounds (E:=E) (Some a)) Q w ↔ Q (inr a) w.
Proof. done. Qed.

Lemma wp_client_at hdl Q w :
  wp (client_at (E:=E) hdl) Q w ↔
  match _clients (srv w) !! hdl with
  | Some c => Q (inr c) w
  | None => Q (inl (StdException "map::at")) w
  end.
Proof. unfold client_at. rewrite wp_bind, wp_server. by destruct (_clients (srv w) !! hdl). Qed.

(** ** Frame rules *)

(** The computation leaves the server object, or the server object and its
    owner's state, as they are. *)
Definition same_srv w w' : Prop := srv w' = srv w.
Definition same_srv_env w w' : Prop := srv w' = srv w ∧ env w' = env w.

(** It leaves the server and the trace as they are. *)
Definition untouched w w' : Prop := srv w' = srv w ∧ out w' = out w.

#[export] Instance untouched_preorder : PreOrder untouched.
Proof. split; [done|intros ??? [??] [??]; split; congruence]. Qed.

Lemma on_env_untouched {A} (m : M E A) : preserves untouched (on_env m).
Proof. intros w. unfold on_env. by destruct (m (env w)). Qed.
Lemma on_net_untouched {A} (f : Net → Net * result A) : preserves untouched (on_net (E:=E) f).
Proof. intros w. unfold on_net. by destruct (f (net w)). Qed.

#[export] Instance same_srv_preorder : PreOrder same_srv.
Proof. split; [done|intros ???; unfold same_srv; congruence]. Qed.
#[export] Instance same_srv_env_preorder : PreOrder same_srv_env.
Proof. split; [done|intros ??? [??] [??]; split; congruence]. Qed.

Lemma same_srv_of_env {A} (m : M (World E) A) :
  preserves same_srv_env m → preserves same_srv m.
Proof. intros Hm w. apply Hm. Qed.

(** Running a call that leaves the server alone, then the rest. *)
Lemma wp_bind_same {A B} (m : M (World E) A) (f : A → M (World E) B) Q w :
  preserves same_srv m →
  (∀ r w', srv w' = srv w →
    match r with inl e => Q (inl e) w' | inr a => wp (f a) Q w' end) →
  wp (bind m f) Q w.
Proof. intros Hm HQ. rewrite wp_bind. unfold wp. apply HQ, Hm. Qed.

Lemma wp_bind_srv {A B} (m : M (World E) A) (f : A → M (World E) B)
    (P Q : ServerState → Prop) w :
  preserves same_srv m → (∀ s, P s → Q s) → P (srv w) →
  (∀ a w', P (srv w') → wp (f a) (λ _ w'', Q (srv w'')) w') →
  wp (bind m f) (λ _ w', Q (srv w')) w.
Proof.
  intros Hm HPQ HP Hf. apply wp_bind_same; [done|]. intros [e|a] w' Hw'.
  - rewrite Hw'. auto.
  - apply Hf. by rewrite Hw'.
Qed.

Lemma wp_same {A} (m : M (World E) A) (I : ServerState → Prop) w :
  preserves same_srv m → I (srv w) → wp m (λ _ w', I (srv w')) w.
Proof. intros Hm HI. unfold wp. by rewrite (Hm w). Qed.

Lemma emit_same e : preserves same_srv_env (emit (E:=E) e).
Proof. done. Qed.
Lemma on_net_same {A} (f : Net → Net * result A) : preserves same_srv_env (on_net (E:=E) f).
Proof. intros w. unfold on_net. by destruct (f (net w)). Qed.
Lemma server_same {A} (f : ServerState → A) : preserves same_srv_env (server (E:=E) f).
Proof. done. Qed.
Lemma in_bounds_same {A} (o : option A) : preserves same_srv_env (in_bounds (E:=E) o).
Proof. intros w. by destruct o. Qed.
Lemma on_env_same_srv {A} (m : M E A) : preserves same_srv (on_env m).
Proof. intros w. unfold on_env. by destruct (m (env w)). Qed.

#[local] Hint Resolve same_srv_env_preorder emit_same on_net_same server_same
  in_bounds_same : cpp.

Lemma send_same hdl f : preserves same_srv_env (send (E:=E) hdl f).
Proof. unfold send. auto with cpp. Qed.
Lemma remoteEndpointString_same hdl :
  preserves same_srv_env (remoteEndpointString (E:=E) hdl).
Proof. unfold remoteEndpointString. auto with cpp. Qed.
#[local] Hint Resolve send_same remoteEndpointString_same : cpp.
Lemma alog_same msg : preserves same_srv_env (alog (E:=E) msg).
Proof. unfold alog. auto with cpp. Qed.
Lemma elog_same msg : preserves same_srv_env (elog (E:=E) msg).
Proof. unfold elog. auto with cpp. Qed.
#[local] Hint Resolve alog_same elog_same : cpp.
Lemma sendJson_same hdl j : preserves same_srv_env (sendJson (E:=E) hdl j).
Proof. unfold sendJson. auto with cpp. Qed.
Lemma sendJsonRaw_same hdl s : preserves same_srv_env (sendJsonRaw (E:=E) hdl s).
Proof. unfold sendJsonRaw. auto with cpp. Qed.
Lemma sendBinary_same hdl b : preserves same_srv_env (sendBinary (E:=E) hdl b).
Proof. unfold sendBinary. auto with cpp. Qed.
#[local] Hint Resolve sendJson_same sendJsonRaw_same sendBinary_same : cpp.
Lemma sendStatus_same hdl l m : preserves same_srv_env (sendStatus (E:=E) hdl l m).
Proof. unfold sendStatus. auto with cpp. Qed.
Lemma get_con_same hdl : preserves same_srv_env (get_con_from_hdl (E:=E) hdl).
Proof. unfold get_con_from_hdl. apply preserves_bind; auto with cpp. intros []; auto with cpp. Qed.
Lemma channels_json_same : preserves same_srv_env (channels_json (E:=E)).
Proof. unfold channels_json. auto with cpp. Qed.
#[local] Hint Resolve sendStatus_same get_con_same channels_json_same : cpp.

(** What the owner calls to send neither changes the server nor the owner. *)
Lemma broadcastChannels_same : preserves same_srv_env (broadcastChannels (E:=E)).
Proof.
  unfold broadcastChannels. apply preserves_bind; [tc_solve|auto with cpp|intros cs].
  case_match; [auto with cpp|]. repeat (apply preserves_bind; [tc_solve|auto with cpp|intros ?]).
  apply preserves_for_each; [tc_solve|]. intros [] _. auto with cpp.
Qed.
Lemma broadcastTime_same ts : preserves same_srv_env (broadcastTime (E:=E) ts).
Proof.
  unfold broadcastTime. repeat (apply preserves_bind; [tc_solve|auto with cpp|intros ?]).
  apply preserves_for_each; [tc_solve|]. intros [] _. auto with cpp.
Qed.
Lemma sendMessage_same hdl ch ts data :
  preserves same_srv_env (sendMessage (E:=E) hdl ch ts data).
Proof.
  unfold sendMessage. repeat
    (case_match || (apply preserves_bind; [tc_solve|auto with cpp|intros ?]) || auto with cpp).
Qed.

Lemma call_same_srv {X} (h : option (X → ConnHandle → M E unit)) e x hdl :
  preserves same_srv (call h e x hdl).
Proof.
  unfold call. destruct h; [|intros w; done].
  apply preserves_bind; [tc_solve|apply same_srv_of_env; auto with cpp|].
  intros _. apply on_env_same_srv.
Qed.
End facts.

#[export] Hint Resolve same_srv_env_preorder same_srv_preorder emit_same on_net_same server_same
  in_bounds_same send_same remoteEndpointString_same alog_same elog_same sendJson_same
  sendJsonRaw_same sendBinary_same sendStatus_same get_con_same channels_json_same
  broadcastChannels_same broadcastTime_same sendMessage_same on_env_same_srv call_same_srv same_srv_of_env
  untouched_preorder on_env_untouched on_net_untouched : cpp.

(** ** The trace *)

(** The calls of the owner's handlers, oldest first. *)
Definition is_call (e : Event) : bool :=
  match e with
  | EvSubscribe _ _ | EvUnsubscribe _ _ | EvClientAdvertise _ _ | EvClientUnadvertise _ _
  | EvClientMessage _ _ => true
  | _ => false
  end.

Definition calls (evs : list Event) : list Event := List.filter is_call evs.

Lemma calls_app evs1 evs2 : calls (evs1 ++ evs2) = calls evs1 ++ calls evs2.
Proof. apply List.filter_app. Qed.

(** The run from [w] to [w'] handed the frames [F h] to each connection [h] and
    made the handler calls [C]. *)
Definition emits `{Websocketpp} {E} (F : ConnHandle → list Frame) (C : list Event)
    (w w' : World E) : Prop :=
  ∃ evs, out w' = out w ++ evs ∧ (∀ h, sent h evs = F h) ∧ calls evs = C.

(** Frames for one connection. *)
Definition only (hdl : ConnHandle) (fs : list Frame) (h : ConnHandle) : list Frame :=
  if decide (h = hdl) then fs else [].

Definition silent (h : ConnHandle) : list Frame := [].

Section trace.
Context `{Platform, Iteration, LogChannels, Nlohmann, Websocketpp}.
Context `{!NlohmannLaws, !WebsocketppLaws}.
Context {E : Type}.
Implicit Types w : World E.

Lemma emits_refl w : emits silent [] w w.
Proof. exists []. by rewrite app_nil_r. Qed.

Lemma emits_trans F1 C1 F2 C2 w1 w2 w3 :
  emits F1 C1 w1 w2 → emits F2 C2 w2 w3 →
  emits (λ h, F1 h ++ F2 h) (C1 ++ C2) w1 w3.
Proof.
  intros (evs1 & Ho1 & Hs1 & Hc1) (evs2 & Ho2 & Hs2 & Hc2). exists (evs1 ++ evs2).
  split_and!; [by rewrite Ho2, Ho1, app_assoc|intros h; by rewrite sent_app, Hs1, Hs2|].
  by rewrite calls_app, Hc1, Hc2.
Qed.

Lemma emits_ext F C F' C' w w' :
  emits F C w w' → (∀ h, F h = F' h) → C = C' → emits F' C' w w'.
Proof. intros (evs & ? & Hs & ?) HF <-. exists evs. naive_solver congruence. Qed.

Lemma emits_event w w' e :
  out w' = out w ++ [e] → emits (λ h, sent h [e]) (calls [e]) w w'.
Proof. intros Ho. by exists [e]. Qed.

(** A log line counts neither as a frame nor as a call. *)
Lemma emits_after_log F C s n e w w' msg :
  emits F C (mkWorld s n e (out w ++ [EvAlog alevel_app msg])) w' → emits F C w w'.
Proof.
  intros (evs & Ho & Hs & Hc). exists (EvAlog alevel_app msg :: evs). simpl in *.
  split_and!; [by rewrite Ho, <-app_assoc|done|done].
Qed.

(** A computation that ends normally, changes neither the server nor its
    owner, and whose trace is known. *)
Definition sends (F : ConnHandle → list Frame) w (r : result unit) w' : Prop :=
  r = inr tt ∧ same_srv_env w w' ∧ emits F [] w w'.

Lemma sends_elog msg w : wp (elog msg) (sends silent w) w.
Proof. unfold elog. rewrite wp_emit. split_and!; [done|done|exact (emits_event w (mkWorld _ _ _ _) (EvElog _ msg) eq_refl)]. Qed.

(** A guarded send always ends normally, and hands over one frame. *)
Lemma sends_guarded hdl f w :
  wp (try_catch (send hdl f) (λ e, elog (what e))) (sends (only hdl [f]) w) w.
Proof.
  rewrite wp_try_catch. unfold send. rewrite wp_bind, wp_emit, wp_on_net; simpl.
  assert (emits (only hdl [f]) [] w
    (mkWorld (srv w) (ws_send hdl f (net w)).1 (env w) (out w ++ [EvSend hdl f]))) as He.
  { eapply emits_ext; [by apply (emits_event _ _ (EvSend hdl f))| |done].
    intros h. unfold only. simpl. repeat case_decide; naive_solver. }
  destruct (ws_send hdl f (net w)) as [n [e|[]]] eqn:Hs; simpl in *; [|by split_and!].
  destruct ws_throws_std as [Hth _]. rewrite (Hth _ _ _ _ _ Hs).
  eapply wp_mono; [apply sends_elog|]. intros r w' (-> & [Hsrv Henv] & Hem).
  split_and!; [done|by split|].
  eapply emits_ext; [eapply emits_trans; [exact He|exact Hem]| |done].
  intros h. apply app_nil_r.
Qed.

Lemma sends_sendJsonRaw hdl s w :
  wp (sendJsonRaw hdl s) (sends (only hdl [TextFrame s]) w) w.
Proof. apply sends_guarded. Qed.

Lemma sends_sendBinary hdl b w :
  wp (sendBinary hdl b) (sends (only hdl [BinaryFrame b]) w) w.
Proof. apply sends_guarded. Qed.

Lemma sends_sendJson hdl j w :
  wp (sendJson hdl j) (sends (only hdl (json_frames j)) w) w.
Proof.
  unfold sendJson, json_frames. destruct json_throws_std as [Hth _].
  destruct (json_dump j) as [e|s] eqn:Hd; [|apply sends_guarded].
  rewrite wp_try_catch, wp_bind, wp_lift. rewrite (Hth _ _ Hd).
  eapply wp_mono; [apply sends_elog|]. intros r w' (-> & Hs & Hem).
  split_and!; [done|done|]. eapply emits_ext; [done| |done].
  intros h. unfold only. by case_decide.
Qed.

Lemma sends_sendStatus hdl l m w :
  wp (sendStatus hdl l m) (sends (only hdl (json_frames (status_json l m))) w) w.
Proof.
  unfold sendStatus. rewrite wp_bind. unfold remoteEndpointString. rewrite wp_gets, wp_bind.
  eapply wp_mono; [apply sends_elog|]. intros r w' (-> & [Hs1 He1] & Hem1).
  eapply wp_mono; [apply sends_sendJson|]. intros r w'' (-> & [Hs2 He2] & Hem2).
  split_and!; [done|by split; congruence|].
  eapply emits_ext; [eapply emits_trans; [exact Hem1|exact Hem2]|done|done].
Qed.

(** A loop that sends the same frames to each of several connections. *)
Lemma sends_for_each {X} (l : list X) (key : X → ConnHandle) fs
    (body : X → M (World E) unit) w :
  NoDup (key <$> l) →
  (∀ x w', x ∈ l → wp (body x) (sends (only (key x) fs) w') w') →
  wp (for_each l body)
     (sends (λ h, if decide (h ∈ key <$> l) then fs else []) w) w.
Proof.
  revert w. induction l as [|x l IH]; intros w Hnd Hbody; simpl.
  { split_and!; [done|done|]. eapply emits_ext; [apply emits_refl| |done].
    done. }
  rewrite fmap_cons, NoDup_cons in Hnd. destruct Hnd as [Hx Hnd].
  rewrite wp_bind. eapply wp_mono; [apply Hbody, list_elem_of_here|].
  intros r w1 (-> & [Hs1 He1] & Hem1).
  eapply wp_mono; [apply IH; [done|]|].
  { intros y w' Hy. apply Hbody. by apply list_elem_of_further. }
  intros r w2 (-> & [Hs2 He2] & Hem2). split_and!; [done|by split; congruence|].
  eapply emits_ext; [eapply emits_trans; [exact Hem1|exact Hem2]| |done].
  intros h. unfold only. simpl.
  repeat case_decide; rewrite ?app_nil_r; try done; set_solver.
Qed.
End trace.
