(* ===== verification/ServerInvariant.v ===== *)
(** * The server's well-formedness invariant

    [ServerInv] relates the four containers of the server.  Every member
    function keeps it, whatever the libraries and the handlers do. *)

From S2P Require Import Prelude Serialization Common Logging Interfaces Server ServerFacts.

Local Open Scope Z_scope.

(** One client's subscriptions: each subscription id names one channel, and each
    channel is one the server has. *)
Record ClientOk (channels : gmap ChannelId Channel) (hdl : ConnHandle) (c : ClientInfo)
    : Prop := mkClientOk {
  ok_handle : ci_handle c = hdl;
  ok_sub_inj ch1 ch2 sid :
    subscriptionsByChannel c !! ch1 = Some sid →
    subscriptionsByChannel c !! ch2 = Some sid → ch1 = ch2;
  ok_sub_dom ch : is_Some (subscriptionsByChannel c !! ch) → is_Some (channels !! ch);
}.

(** One client's publications: filed under their own id, and all of them among
    the channels that will be unadvertised when the client disconnects. *)
Definition PublicationsOk (pubs : gmap ClientChannelId ClientAdvertisement)
    (c : option ClientInfo) : Prop :=
  (∀ id adv, pubs !! id = Some adv → adv_channelId adv = id) ∧
  (∀ c', c = Some c' → dom pubs ⊆ advertisedChannels c').

Record ServerInv (s : ServerState) : Prop := mkServerInv {
  inv_channel id ch : _channels s !! id = Some ch → chan_id ch = id ∧ is_u32 id;
  inv_next : is_u32 (_nextChannelId s);
  inv_client hdl c : _clients s !! hdl = Some c → ClientOk (_channels s) hdl c;
  inv_publications hdl pubs :
    _clientChannels s !! hdl = Some pubs → PublicationsOk pubs (_clients s !! hdl);
}.

(** ** Lookup by subscription id *)

Section find.
Context `{Iteration}.

Lemma findSubscriptionBySubId_Some c sid p :
  findSubscriptionBySubId c sid = Some p →
  p.2 = sid ∧ subscriptionsByChannel c !! p.1 = Some sid.
Proof.
  unfold findSubscriptionBySubId. destruct p as [ch sid']. intros Hf.
  apply List.find_some in Hf as [Hin Heq]. apply Z.eqb_eq in Heq. simpl in Heq. subst sid'.
  split; [done|]. by apply elem_of_iter_map, list_elem_of_In.
Qed.

Lemma findSubscriptionBySubId_None c sid ch :
  findSubscriptionBySubId c sid = None → subscriptionsByChannel c !! ch ≠ Some sid.
Proof.
  unfold findSubscriptionBySubId. intros Hf Hch.
  apply elem_of_iter_map, list_elem_of_In in Hch.
  pose proof (List.find_none _ _ Hf _ Hch) as Hn. simpl in Hn. by rewrite Z.eqb_refl in Hn.
Qed.

(** With unique subscription ids, the answer does not depend on the order the
    container is visited in. *)
Lemma findSubscriptionBySubId_iff channels hdl c sid ch :
  ClientOk channels hdl c →
  findSubscriptionBySubId c sid = Some (ch, sid) ↔
  subscriptionsByChannel c !! ch = Some sid.
Proof.
  intros Hok. split.
  - intros Hf. by apply findSubscriptionBySubId_Some in Hf as [_ ?].
  - intros Hch. destruct (findSubscriptionBySubId c sid) as [[ch' sid']|] eqn:Hf.
    + apply findSubscriptionBySubId_Some in Hf as [Heq Hch']. simpl in *. subst sid'.
      by rewrite (ok_sub_inj _ _ _ Hok _ _ _ Hch Hch').
    + by apply (findSubscriptionBySubId_None _ _ ch) in Hf.
Qed.
End find.

(** ** Updates of the state that keep the invariant *)

Section updates.
Implicit Types s : ServerState.

Lemma new_Server_inv name caps limit tls : ServerInv (new_Server name caps limit tls).
Proof. split; simpl; [intros ??; by rewrite lookup_empty|done|intros ??; by rewrite lookup_empty..]. Qed.

Lemma inv_set_thread b s : ServerInv s → ServerInv (set_thread b s).
Proof. intros []. by split. Qed.

Lemma inv_clear_clients s : ServerInv s → ServerInv (upd_clients (λ _, ∅) s).
Proof.
  intros [Hch Hn Hc Hp]. split; simpl; [done|done| |].
  - intros hdl c. by rewrite lookup_empty.
  - intros hdl pubs Hpubs. destruct (Hp _ _ Hpubs) as [? _]. split; [done|].
    intros c'. by rewrite lookup_empty.
Qed.

Lemma inv_delete_client hdl s : ServerInv s → ServerInv (upd_clients (delete hdl) s).
Proof.
  intros [Hch Hn Hc Hp]. split; simpl; [done|done| |].
  - intros hdl' c [_ ?]%lookup_delete_Some. auto.
  - intros hdl' pubs Hpubs. destruct (Hp _ _ Hpubs) as [? Hsub]. split; [done|].
    intros c' [_ ?]%lookup_delete_Some. auto.
Qed.

Lemma inv_delete_publications hdl s :
  ServerInv s → ServerInv (upd_clientChannels (delete hdl) s).
Proof.
  intros [Hch Hn Hc Hp]. split; simpl; [done..|].
  intros hdl' pubs [_ ?]%lookup_delete_Some. auto.
Qed.

(** A client joins on a connection that has no publications yet. *)
Lemma inv_open_client hdl name s :
  _clientChannels s !! hdl = None → ServerInv s →
  ServerInv (upd_clients (λ cs, (emplace hdl (mkClientInfo name hdl ∅ ∅) cs).1) s).
Proof.
  intros Hfresh [Hch Hn Hc Hp]. split; simpl; [done|done| |].
  - intros hdl' c [?|(-> & -> & ?)]%lookup_emplace_Some; [auto|].
    split; simpl; [done|intros ???; by rewrite lookup_empty|].
    intros ch. rewrite lookup_empty. by intros [??].
  - intros hdl' pubs Hpubs. destruct (Hp _ _ Hpubs) as [? Hsub]. split; [done|].
    intros c' [?|(-> & _)]%lookup_emplace_Some; [auto|congruence].
Qed.

(** A change of one client that keeps what the invariant says of it. *)
Lemma inv_upd_client hdl f s :
  ServerInv s →
  (∀ c, _clients s !! hdl = Some c →
        ClientOk (_channels s) hdl c → ClientOk (_channels s) hdl (f c)) →
  (∀ c, advertisedChannels c ⊆ advertisedChannels (f c)) →
  ServerInv (upd_clients (alter f hdl) s).
Proof.
  intros [Hch Hn Hc Hp] Hok Hadv. split; simpl; [done|done| |].
  - intros hdl' c. destruct (decide (hdl = hdl')) as [<-|Hne].
    + rewrite lookup_alter_eq. intros (c0 & ? & ->)%fmap_Some_1. auto.
    + rewrite lookup_alter_ne by done. auto.
  - intros hdl' pubs Hpubs. destruct (Hp _ _ Hpubs) as [? Hsub]. split; [done|].
    intros c'. destruct (decide (hdl = hdl')) as [<-|Hne].
    + rewrite lookup_alter_eq. intros (c0 & Hc0 & ->)%fmap_Some_1.
      etrans; [by apply Hsub|apply Hadv].
    + rewrite lookup_alter_ne by done. auto.
Qed.

Lemma ok_delete_sub channels hdl ch c :
  ClientOk channels hdl c → ClientOk channels hdl (upd_subscriptions (delete ch) c).
Proof.
  intros [Hh Hi Hd]. split; simpl; [done| |].
  - intros ??? [_ ?]%lookup_delete_Some [_ ?]%lookup_delete_Some. eauto.
  - intros ? [? [_ ?]%lookup_delete_Some]. eauto.
Qed.

Lemma ok_emplace_sub channels hdl ch sid c :
  is_Some (channels !! ch) → (∀ ch', subscriptionsByChannel c !! ch' ≠ Some sid) →
  ClientOk channels hdl c →
  ClientOk channels hdl (upd_subscriptions (λ m, (emplace ch sid m).1) c).
Proof.
  intros Hch Hnew [Hh Hi Hd]. split; simpl; [done| |].
  - intros ch1 ch2 sid'
      [H1|(-> & -> & H1)]%lookup_emplace_Some [H2|(-> & H2 & _)]%lookup_emplace_Some;
      naive_solver.
  - intros ch' [sid' [?|(-> & _)]%lookup_emplace_Some]; [eauto|done].
Qed.

Lemma inv_delete_sub hdl ch s :
  ServerInv s → ServerInv (upd_clients (alter (upd_subscriptions (delete ch)) hdl) s).
Proof. intros. apply inv_upd_client; [done|intros; by apply ok_delete_sub|done]. Qed.

Lemma inv_delete_channel ch s :
  (∀ hdl c, _clients s !! hdl = Some c → subscriptionsByChannel c !! ch = None) →
  ServerInv s → ServerInv (upd_channels (delete ch) s).
Proof.
  intros Hno [Hch Hn Hc Hp]. split; simpl; [|done| |done].
  - intros id c [_ ?]%lookup_delete_Some. auto.
  - intros hdl c Hclient. destruct (Hc _ _ Hclient) as [Hh Hi Hd]. split; [done..|].
    intros ch' Hs. destruct (decide (ch = ch')) as [<-|Hne].
    + rewrite (Hno _ _ Hclient) in Hs. by destruct Hs.
    + rewrite lookup_delete_ne by done. auto.
Qed.

Lemma inv_add_channel channel s :
  let id := u32 (_nextChannelId s + 1) in
  ServerInv s →
  ServerInv (upd_channels (λ m, (emplace id (mkChannel id channel) m).1)
               (set_nextChannelId id s)).
Proof.
  intros id [Hch Hn Hc Hp]. split; simpl; [|apply u32_range| |done].
  - intros id' ch [?|(-> & -> & _)]%lookup_emplace_Some; [auto|].
    split; [done|apply u32_range].
  - intros hdl c Hclient. destruct (Hc _ _ Hclient) as [Hh Hi Hd]. split; [done..|].
    intros ch' [ch Hs]%Hd. exists ch. apply lookup_emplace_Some. by left.
Qed.

Lemma inv_emplace_publications hdl s :
  ServerInv s → ServerInv (upd_clientChannels (λ m, (emplace hdl ∅ m).1) s).
Proof.
  intros [Hch Hn Hc Hp]. split; simpl; [done..|].
  intros hdl' pubs [?|(-> & -> & _)]%lookup_emplace_Some; [auto|].
  split; [intros ??; by rewrite lookup_empty|]. intros. rewrite dom_empty_L. set_solver.
Qed.

Lemma inv_unadvertise hdl id s :
  ServerInv s → ServerInv (upd_clientChannels (alter (delete id) hdl) s).
Proof.
  intros [Hch Hn Hc Hp]. split; simpl; [done..|].
  intros hdl' pubs. destruct (decide (hdl = hdl')) as [<-|Hne].
  - rewrite lookup_alter_eq. intros (pubs0 & Hp0 & ->)%fmap_Some_1.
    destruct (Hp _ _ Hp0) as [Hk Hsub]. split.
    + intros id' adv [_ ?]%lookup_delete_Some. auto.
    + intros c' Hc'. rewrite dom_delete_L. specialize (Hsub _ Hc'). set_solver.
  - rewrite lookup_alter_ne by done. auto.
Qed.

(** The two updates of [case ADVERTISE] together. *)
Lemma inv_advertise hdl adv s :
  ServerInv s →
  ServerInv (upd_clients (alter (upd_advertised (λ X, {[ adv_channelId adv ]} ∪ X)) hdl)
    (upd_clientChannels (alter (λ m, (emplace (adv_channelId adv) adv m).1) hdl) s)).
Proof.
  intros [Hch Hn Hc Hp]. split; simpl; [done|done| |].
  - intros hdl' c. destruct (decide (hdl = hdl')) as [<-|Hne].
    + rewrite lookup_alter_eq. intros (c0 & Hc0 & ->)%fmap_Some_1.
      by destruct (Hc _ _ Hc0).
    + rewrite lookup_alter_ne by done. auto.
  - intros hdl' pubs. destruct (decide (hdl = hdl')) as [<-|Hne].
    + rewrite !lookup_alter_eq. intros (pubs0 & Hp0 & ->)%fmap_Some_1.
      destruct (Hp _ _ Hp0) as [Hk Hsub]. split.
      * intros id' adv' [?|(-> & -> & _)]%lookup_emplace_Some; auto.
      * intros c' (c0 & Hc0 & ->)%fmap_Some_1. rewrite dom_emplace. simpl.
        specialize (Hsub _ Hc0). set_solver.
    + rewrite !lookup_alter_ne by done. auto.
Qed.
End updates.

#[export] Hint Resolve inv_set_thread inv_clear_clients inv_delete_client
  inv_delete_publications inv_delete_sub inv_add_channel inv_emplace_publications
  inv_unadvertise inv_advertise : cpp.

(** ** The member functions keep the invariant *)

Section operations.
Context `{Platform, Iteration, LogChannels, Nlohmann, Websocketpp}.
Context {E : Type} (handlers : Handlers E).
Implicit Types w : World E.

Definition keeps_inv w w' : Prop := ServerInv (srv w) → ServerInv (srv w').

#[export] Instance keeps_inv_preorder : PreOrder keeps_inv.
Proof. split; [by intros ??|]. intros ??? Hxy Hyz ?. by apply Hyz, Hxy. Qed.

Lemma keeps_same {A} (m : M (World E) A) :
  preserves same_srv m → preserves keeps_inv m.
Proof. intros Hm w HI. by rewrite (Hm w). Qed.

Lemma keeps_update f :
  (∀ s, ServerInv s → ServerInv (f s)) → preserves keeps_inv (update (E:=E) f).
Proof. intros Hf w HI. simpl. auto. Qed.

#[local] Hint Resolve keeps_inv_preorder keeps_update : cpp.
#[local] Hint Extern 5 (preserves keeps_inv _) =>
  apply keeps_same; first [apply call_same_srv | apply on_env_same_srv
    | apply same_srv_of_env; solve [auto 2 with cpp]] : cpp.

Lemma keeps_advertise_updates hdl adv (k : M (World E) unit) :
  preserves keeps_inv k →
  preserves keeps_inv
    (upd_publications hdl (λ m, (emplace (adv_channelId adv) adv m).1) ;;;
     upd_client hdl (upd_advertised (λ X, {[ adv_channelId adv ]} ∪ X)) ;;; k).
Proof.
  intros Hk w HI. apply (Hk (set_srv _ (set_srv _ w))). by apply inv_advertise.
Qed.

(** Goes through a member function whose updates each keep the invariant. *)
Ltac keeps := traverse (idtac; lazymatch goal with
  | |- preserves _ (bind (upd_publications _ _) _) =>
      apply (keeps_advertise_updates _ (mkClientAdvertisement _ _ _ _ _))
  | |- preserves _ (bind _ _) => fail
  | |- preserves _ _ => solve [auto 4 with cpp]
  end).

Lemma keeps_handleConnectionClosed hdl :
  preserves keeps_inv (handleConnectionClosed handlers hdl).
Proof.
  unfold handleConnectionClosed. keeps.
Qed.

Lemma keeps_unsubscribe_one hdl j : preserves keeps_inv (unsubscribe_one handlers hdl j).
Proof. unfold unsubscribe_one, client_at, upd_client. keeps. Qed.

Lemma keeps_unadvertise_one hdl j : preserves keeps_inv (unadvertise_one handlers hdl j).
Proof. unfold unadvertise_one, publications_of, upd_publications. keeps. Qed.

Lemma keeps_advertise_one hdl first j :
  preserves keeps_inv (advertise_one handlers hdl first j).
Proof.
  unfold advertise_one, publications_of. keeps.
Qed.

Lemma keeps_subscribe_one hdl j : preserves keeps_inv (subscribe_one handlers hdl j).
Proof.
  unfold subscribe_one. do 2 (apply preserves_bind; [tc_solve|auto with cpp|intros ?]).
  intros w HI. unfold client_at, bind, server, gets. simpl.
  destruct (_clients (srv w) !! hdl) as [c|] eqn:Hc; simpl; [|done].
  destruct (findSubscriptionBySubId c _) as [p|] eqn:Hf; simpl.
  { by apply (keeps_same _ (same_srv_of_env _ (sendStatus_same _ _ _))). }
  destruct (_channels (srv w) !! _) as [ch|] eqn:Hch; simpl.
  2: { by apply (keeps_same _ (same_srv_of_env _ (sendStatus_same _ _ _))). }
  apply (keeps_same _ (call_same_srv _ _ _ _) (set_srv _ w)). simpl.
  apply inv_upd_client; [done| |done]. intros c' Hc' Hok.
  rewrite Hc in Hc'. injection Hc' as <-. apply ok_emplace_sub; [by eexists| |done].
  intros ch'. by apply findSubscriptionBySubId_None.
Qed.

#[local] Hint Resolve keeps_subscribe_one keeps_unsubscribe_one keeps_advertise_one
  keeps_unadvertise_one : cpp.

Lemma keeps_handleTextMessage hdl msg :
  preserves keeps_inv (handleTextMessage handlers hdl msg).
Proof.
  unfold handleTextMessage, dispatch_op, handleSubscribe, handleUnsubscribe, handleAdvertise,
    handleUnadvertise, client_at. keeps.
Qed.

Lemma keeps_handleBinaryMessage ts hdl msg :
  preserves keeps_inv (handleBinaryMessage handlers ts hdl msg).
Proof. unfold handleBinaryMessage. keeps. Qed.

Lemma keeps_handleMessage ts hdl msg :
  preserves keeps_inv (handleMessage handlers ts hdl msg).
Proof.
  unfold handleMessage. apply preserves_try_catch; [tc_solve| |keeps].
  case_match; auto using keeps_handleTextMessage, keeps_handleBinaryMessage with cpp.
Qed.

Lemma keeps_addChannel channel : preserves keeps_inv (addChannel (E:=E) channel).
Proof. intros w HI. by apply inv_add_channel. Qed.

Lemma keeps_broadcastChannels : preserves keeps_inv (broadcastChannels (E:=E)).
Proof. unfold broadcastChannels. keeps. Qed.

Lemma keeps_sendMessage hdl ch ts data : preserves keeps_inv (sendMessage (E:=E) hdl ch ts data).
Proof. unfold sendMessage. keeps. Qed.

Lemma keeps_broadcastTime ts : preserves keeps_inv (broadcastTime (E:=E) ts).
Proof. unfold broadcastTime. keeps. Qed.

Lemma keeps_start host port : preserves keeps_inv (start (E:=E) host port).
Proof. unfold start, throw_if, on_net_ec, on_net_. keeps. Qed.

Lemma keeps_stop_wait poll_one fuel ms :
  preserves keeps_inv poll_one → preserves keeps_inv (stop_wait (E:=E) poll_one fuel ms).
Proof. intros Hp. revert ms. induction fuel as [|fuel IH]; intros ms; simpl; keeps. Qed.

Lemma keeps_stop poll_one :
  preserves keeps_inv poll_one → preserves keeps_inv (stop (E:=E) poll_one).
Proof.
  intros Hp. unfold stop, join_server_thread, on_net_ec, on_net_.
  repeat first [ progress keeps | apply keeps_stop_wait; done ].
Qed.

Lemma keeps_validateConnection hdl : preserves keeps_inv (validateConnection (E:=E) hdl).
Proof. unfold validateConnection. keeps. Qed.

(** A connection is opened once, before it can have publications. *)
Lemma keeps_handleConnectionOpened hdl w :
  _clientChannels (srv w) !! hdl = None →
  keeps_inv w (handleConnectionOpened (E:=E) hdl w).1.
Proof.
  intros Hfresh HI. change (wp (handleConnectionOpened hdl) (λ _ w', ServerInv (srv w')) w).
  unfold handleConnectionOpened.
  set (P s := ServerInv s ∧ _clientChannels s !! hdl = None).
  assert (P (srv w)) as HP by done. clear Hfresh HI. revert w HP.
  assert (∀ s, P s → ServerInv s) as HQ by by intros ? [].
  do 4 (intros w HP; apply (wp_bind_srv _ _ P ServerInv); [auto with cpp|done|done|intros ?];
        clear w HP).
  intros w [HI Hfresh]. rewrite wp_bind, wp_update.
  assert (∀ m : M (World E) unit, preserves keeps_inv m →
    ∀ w', ServerInv (srv w') → wp m (λ _ w'', ServerInv (srv w'')) w') as Hrest
    by (intros m Hm w'; apply Hm).
  apply Hrest; [|by apply inv_open_client]. unfold on_net_. keeps.
Qed.
End operations.
