(* ===== verification/ServerSpec.v ===== *)
(** * What the server's member functions do

    The frames they build, the outcome of each one on every branch, and the
    calls and frames they leave in the trace. *)

From Stdlib Require Import Strings.Byte.
From S2P Require Import Prelude Serialization Common Logging Interfaces Server ServerFacts.
From S2P Require Import ServerInvariant.

Local Open Scope Z_scope.

(** ** Binary frames *)

(** The layout of the two binary frames the server sends. *)
Definition message_frame (subId : SubscriptionId) (timestamp : Z) (data : list byte) : list byte :=
  byte_of_Z 1 :: le_split 4 subId ++ le_split 8 timestamp ++ data.
Definition time_frame (timestamp : Z) : list byte :=
  byte_of_Z 2 :: le_split 8 timestamp.

Section frames.
Context `{Platform}.

(** Writing consecutive pieces into a fresh buffer of exactly their size. *)
Lemma memcpy_fill n src :
  length src = n → memcpy (replicate n x00) 0 src = Some src.
Proof.
  intros <-. rewrite memcpy_in by (rewrite length_replicate; lia).
  rewrite take_0, drop_replicate, Nat.sub_diag. simpl. by rewrite app_nil_r.
Qed.

Lemma message_data_frame subId ts data :
  message_data subId ts data = Some (message_frame subId ts data).
Proof.
  unfold message_data, store8.
  transitivity (memcpy (replicate (1 + 4 + 8 + length data) x00) 0
    ([byte_of_Z 1] ++ le_split 4 subId ++ le_split 8 ts ++ data)).
  - rewrite <-memcpy_app. destruct (memcpy _ 0 [_]) as [b1|]; simpl; [|done].
    rewrite WriteUint32LE_memcpy, <-memcpy_app. simpl.
    destruct (memcpy b1 1 _) as [b2|]; simpl; [|done].
    rewrite WriteUint64LE_memcpy, <-memcpy_app. done.
  - rewrite memcpy_fill; [done|]. rewrite !length_app, !length_le_split. simpl. lia.
Qed.

Lemma time_data_frame ts : time_data ts = Some (time_frame ts).
Proof.
  unfold time_data, store8.
  transitivity (memcpy (replicate (1 + 8) x00) 0 ([byte_of_Z 2] ++ le_split 8 ts)).
  - rewrite <-memcpy_app. destruct (memcpy _ 0 [_]) as [b1|]; simpl; [|done].
    apply WriteUint64LE_memcpy.
  - rewrite memcpy_fill; [done|]. rewrite length_app, length_le_split. done.
Qed.
End frames.

(** ** Outcomes *)

Section outcomes.
Context `{Platform, Iteration, LogChannels, Nlohmann, Websocketpp}.
Context `{!NlohmannLaws, !WebsocketppLaws}.
Context {E : Type} (handlers : Handlers E).
Implicit Types w : World E.

(** What [sendMessage] sends to: the subscription id of a connected client
    that is subscribed to the channel and whose buffer is below the limit. *)
Definition delivery (w : World E) (hdl : ConnHandle) (ch : ChannelId)
  : option SubscriptionId :=
  if ws_has_con (net w) hdl &&
     (ws_buffered_amount (net w) hdl <? _send_buffer_limit_bytes (srv w))
  then c ← _clients (srv w) !! hdl; subscriptionsByChannel c !! ch
  else None.

Lemma sendMessage_eq hdl ch ts data w :
  sendMessage hdl ch ts data w =
  match delivery w hdl ch with
  | Some subId => sendBinary hdl (message_frame subId ts data) w
  | None => (w, inr tt)
  end.
Proof.
  unfold sendMessage, delivery, bind, gets, server, gets. simpl.
  destruct (ws_has_con (net w) hdl); simpl; [|done].
  rewrite Z.leb_antisym. destruct (_ <? _); simpl; [|done].
  destruct (_clients (srv w) !! hdl) as [c|]; simpl; [|done].
  destruct (subscriptionsByChannel c !! ch) as [sid|]; simpl; [|done].
  by rewrite message_data_frame.
Qed.

(** ** Exceptions that a handler may catch

    A computation is [tame] when whatever it throws is a [std::exception]:
    in particular it never runs into undefined behaviour. *)
Definition tame_result {A} (r : result A) : Prop :=
  match r with inl e => catchable e = true | inr _ => True end.
Definition tame {S A} (m : M S A) : Prop := ∀ s, tame_result (m s).2.

(** The messages a handler is given: whole frames, header included. *)
Definition whole_frame (msg : ClientMessage) : Prop :=
  msg_dataLength msg = Z.of_nat (length (msg_data msg)) ∧ 5 ≤ msg_dataLength msg.

(** The handlers throw nothing but [std::exception]s. *)
Record HandlersTame : Prop := mkHandlersTame {
  tame_subscribe f ch hdl : _subscribeHandler handlers = Some f → tame (f ch hdl);
  tame_unsubscribe f ch hdl : _unsubscribeHandler handlers = Some f → tame (f ch hdl);
  tame_advertise f adv hdl : _clientAdvertiseHandler handlers = Some f → tame (f adv hdl);
  tame_unadvertise f ch hdl : _clientUnadvertiseHandler handlers = Some f → tame (f ch hdl);
  tame_message f msg hdl :
    _clientMessageHandler handlers = Some f → whole_frame msg → tame (f msg hdl);
}.

Lemma tame_ret {S A} (a : A) : tame (S:=S) (ret a).
Proof. done. Qed.
Lemma tame_gets {S A} (f : S → A) : tame (gets f).
Proof. done. Qed.
Lemma tame_modify {S} (f : S → S) : tame (modify f).
Proof. done. Qed.
Lemma tame_throw {S A} e : catchable e = true → tame (S:=S) (A:=A) (throw e).
Proof. by intros ??. Qed.
Lemma tame_lift {S A} (r : result A) : tame_result r → tame (S:=S) (lift r).
Proof. by intros ??. Qed.
Lemma tame_bind {S A B} (m : M S A) (f : A → M S B) :
  tame m → (∀ a, tame (f a)) → tame (bind m f).
Proof.
  intros Hm Hf s. unfold bind. specialize (Hm s).
  destruct (m s) as [s' [e|a]]; [done|apply Hf].
Qed.
Lemma tame_for_each {S X} (l : list X) (body : X → M S unit) :
  (∀ x, tame (body x)) → tame (for_each l body).
Proof. intros Hb. induction l; simpl; [done|]. apply tame_bind; auto. Qed.

Lemma tame_on_env {A} (m : M E A) : tame m → tame (on_env m).
Proof. intros Hm w. unfold on_env. specialize (Hm (env w)). by destruct (m (env w)). Qed.

Lemma tame_sendStatus hdl l msg : tame (sendStatus (E:=E) hdl l msg).
Proof. intros w. destruct (sends_sendStatus hdl l msg w) as [-> _]. done. Qed.

Lemma tame_client_at hdl : tame (client_at (E:=E) hdl).
Proof. intros w. unfold client_at, bind, server, gets. by destruct (_clients _ !! hdl). Qed.

Lemma tame_call {X} (h : option (X → ConnHandle → M E unit)) e x hdl :
  (∀ f, h = Some f → tame (f x hdl)) → tame (call h e x hdl).
Proof.
  intros Hh. unfold call. destruct h as [f|]; [|done].
  apply tame_bind; [done|intros _]. by apply tame_on_env, Hh.
Qed.

(** The readers of nlohmann::json. *)
Lemma tame_parse s : tame_result (json_parse s).
Proof. destruct (json_parse s) eqn:He; [|done]. destruct json_throws_std as (?&?&?&?&?); simpl; eauto. Qed.
Lemma tame_at j k : tame_result (json_at j k).
Proof. destruct (json_at j k) eqn:He; [|done]. destruct json_throws_std as (?&?&?&?&?); simpl; eauto. Qed.
Lemma tame_get_uint32 j : tame_result (json_get_uint32 j).
Proof. destruct (json_get_uint32 j) eqn:He; [|done]. destruct json_throws_std as (?&?&?&?&?); simpl; eauto. Qed.
Lemma tame_get_string j : tame_result (json_get_string j).
Proof. destruct (json_get_string j) eqn:He; [|done]. destruct json_throws_std as (?&?&?&?&?); simpl; eauto. Qed.
Lemma tame_uint32_at j k : tame_result (json_uint32_at j k).
Proof. unfold json_uint32_at. pose proof (tame_at j k). case_match; [done|apply tame_get_uint32]. Qed.
Lemma tame_string_at j k : tame_result (json_string_at j k).
Proof. unfold json_string_at. pose proof (tame_at j k). case_match; [done|apply tame_get_string]. Qed.
Lemma tame_elements j k : tame_result (json_elements j k).
Proof. unfold json_elements. pose proof (tame_at j k). by case_match. Qed.

#[local] Hint Resolve tame_ret tame_gets tame_modify tame_lift tame_sendStatus
  tame_client_at tame_parse tame_get_uint32 tame_uint32_at tame_string_at tame_elements : cpp.

(** Goes through a member function all of whose calls are tame. *)
Ltac tame := repeat
  match goal with
  | |- tame (bind _ _) => apply tame_bind; [|intros ?]
  | |- tame (for_each _ _) => apply tame_for_each; intros ?
  | |- tame (match _ with _ => _ end) => case_match
  | |- tame (server _) => done
  | |- tame (update _) => done
  | |- tame (call _ _ _ _) => apply tame_call; intros ??
  | |- tame _ => solve [auto 4 with cpp | eauto using tame_subscribe, tame_unsubscribe,
                          tame_advertise, tame_unadvertise]
  end.

Lemma tame_handleTextMessage hdl msg :
  HandlersTame → tame (handleTextMessage handlers hdl msg).
Proof.
  intros Hh. unfold handleTextMessage, dispatch_op, handleSubscribe, handleUnsubscribe,
    handleAdvertise, handleUnadvertise, subscribe_one, unsubscribe_one, advertise_one,
    unadvertise_one, publications_of, upd_publications, upd_client. tame.
Qed.

Lemma load_native_in n buf off :
  (off + n ≤ length buf)%nat → ∃ v, load_native n buf off = Some v.
Proof. intros Hn. unfold load_native. rewrite decide_True by done. eauto. Qed.

(** No read of a client's frame is out of bounds, however short it is. *)
Lemma tame_handleBinaryMessage ts hdl msg :
  HandlersTame → tame (handleBinaryMessage handlers ts hdl msg).
Proof.
  intros Hh. unfold handleBinaryMessage. case_match eqn:Hlen; [tame|].
  apply Z.ltb_ge in Hlen. destruct msg as [|b msg]; [simpl in Hlen; lia|]. tame.
  - done.
  - rename select ((_ <? 5) = false) into Hshort. apply Z.ltb_ge in Hshort.
    destruct (load_native_in 4 (b :: msg) 1) as [v ->]; [simpl in *; lia|done].
  - rename select ((_ <? 5) = false) into Hshort. apply Z.ltb_ge in Hshort.
    by eapply (tame_message Hh).
Qed.

Lemma handleMessage_ok ts hdl msg w :
  HandlersTame → (handleMessage handlers ts hdl msg w).2 = inr tt.
Proof.
  intros Hh. unfold handleMessage, try_catch.
  match goal with |- context [match ?m w with _ => _ end] => assert (tame m) as Hm end.
  { case_match; auto using tame_handleTextMessage, tame_handleBinaryMessage, tame_ret. }
  specialize (Hm w). destruct (_ w) as [w' [e|[]]]; simpl in *; [|done].
  rewrite Hm. apply sends_sendStatus.
Qed.

(** ** Broadcasts *)

Definition remove_channel_state (ch : ChannelId) (s : ServerState) : ServerState :=
  upd_clients (fmap (upd_subscriptions (delete ch))) (upd_channels (delete ch) s).

(** Every connected client, and no other, gets the frames. *)
Definition to_all (s : ServerState) (fs : list Frame) (h : ConnHandle) : list Frame :=
  if decide (is_Some (_clients s !! h)) then fs else [].

Lemma elem_of_iter_clients s h : h ∈ (iter_map (_clients s)).*1 ↔ is_Some (_clients s !! h).
Proof.
  rewrite list_elem_of_fmap. split.
  - intros ([k c] & -> & Hin). apply elem_of_iter_map in Hin. by exists c.
  - intros [c Hc]. exists (h, c). split; [done|]. by apply elem_of_iter_map.
Qed.

(** A loop over the clients that sends each of them the same frames. *)
Lemma sends_to_all fs (body : ConnHandle * ClientInfo → M (World E) unit) w :
  (∀ p w', wp (body p) (sends (only p.1 fs) w') w') →
  wp (for_each (iter_map (_clients (srv w))) body) (sends (to_all (srv w) fs) w) w.
Proof.
  intros Hbody. eapply wp_mono; [apply (sends_for_each _ fst fs)|].
  - apply NoDup_iter_map.
  - auto.
  - intros r w' (-> & Hs & Hem). split_and!; [done|done|].
    eapply emits_ext; [done| |done]. intros h. unfold to_all.
    apply decide_ext, elem_of_iter_clients.
Qed.

Lemma broadcastTime_sends ts w :
  wp (broadcastTime ts) (sends (to_all (srv w) [BinaryFrame (time_frame ts)]) w) w.
Proof.
  unfold broadcastTime. rewrite time_data_frame, wp_bind, wp_in_bounds, wp_bind, wp_server.
  apply sends_to_all. intros [h c] w'. apply sends_sendBinary.
Qed.

(** The text of the advertisement of the current channels, if it has one. *)
Definition advertisement_text (s : ServerState) : result string :=
  match push_channels json_null (iter_map (_channels s)).*2 with
  | inl e => inl e
  | inr channels => json_dump (advertise_json channels)
  end.

Lemma broadcastChannels_sends s w :
  advertisement_text (srv w) = inr s →
  wp broadcastChannels (sends (to_all (srv w) [TextFrame s]) w) w.
Proof.
  unfold advertisement_text, broadcastChannels, channels_json. intros Htxt.
  rewrite wp_bind, wp_server. case_bool_decide as Hempty.
  - rewrite wp_ret. split_and!; [done|done|]. eapply emits_ext; [apply emits_refl| |done].
    intros h. unfold to_all. rewrite Hempty, lookup_empty. by rewrite decide_False by (by intros []).
  - destruct (push_channels _ _) as [e|channels] eqn:Hpush; [done|].
    rewrite !wp_bind, wp_server, wp_lift, Hpush, wp_bind, wp_lift, Htxt.
    apply sends_to_all. intros [h c] w'. apply sends_sendJsonRaw.
Qed.

Lemma lookup_foldl_alter {V} (f : V → V) (l : list ConnHandle) (m : gmap ConnHandle V) k :
  NoDup l →
  foldl (λ m h, alter f h m) m l !! k = if decide (k ∈ l) then f <$> m !! k else m !! k.
Proof.
  revert m. induction l as [|h l IH]; intros m Hnd; simpl; [done|].
  apply NoDup_cons in Hnd as [Hh Hnd]. rewrite IH by done.
  destruct (decide (k = h)) as [->|Hne].
  - rewrite decide_False, decide_True by (done || apply list_elem_of_here).
    apply lookup_alter_eq.
  - rewrite lookup_alter_ne by done. apply decide_ext. rewrite elem_of_cons. naive_solver.
Qed.

(** ** Removing a channel *)

Lemma removeChannel_loop ch (l : list (ConnHandle * ClientInfo)) w :
  NoDup l.*1 →
  wp (for_each l (λ '(hdl, _),
        upd_client hdl (upd_subscriptions (delete ch)) ;;; sendJson hdl (unadvertise_json ch)))
     (λ r w', r = inr tt ∧ env w' = env w ∧
        srv w' = upd_clients (λ m, foldl (λ m h, alter (upd_subscriptions (delete ch)) h m) m l.*1)
                   (srv w) ∧
        emits (λ h, if decide (h ∈ l.*1) then json_frames (unadvertise_json ch) else []) [] w w')
     w.
Proof.
  revert w. induction l as [|[hdl c] l IH]; intros w Hnd; simpl.
  { rewrite wp_ret. split_and!; [done|done|by destruct (srv w)|].
    eapply emits_ext; [apply emits_refl|done|done]. }
  rewrite fmap_cons in Hnd. apply NoDup_cons in Hnd as [Hh Hnd].
  rewrite wp_bind, wp_bind. unfold upd_client at 1. rewrite wp_update.
  eapply wp_mono; [apply sends_sendJson|]. intros r w1 (-> & [Hs1 He1] & Hem1).
  eapply wp_mono; [by apply IH|]. intros r w2 (-> & He2 & Hs2 & Hem2).
  split_and!; [done|by rewrite He2, He1|by rewrite Hs2, Hs1|].
  eapply emits_ext; [eapply emits_trans; [exact Hem1|exact Hem2]| |done].
  intros h. unfold only. simpl. destruct (decide (h = hdl)) as [->|Hne].
  - rewrite decide_False, app_nil_r, decide_True by (done || apply list_elem_of_here). done.
  - simpl. apply decide_ext. rewrite elem_of_cons. naive_solver.
Qed.

Lemma removeChannel_run ch w :
  wp (removeChannel ch)
     (λ r w', r = inr tt ∧ env w' = env w ∧ srv w' = remove_channel_state ch (srv w) ∧
        emits (to_all (srv w) (json_frames (unadvertise_json ch))) [] w w') w.
Proof.
  unfold removeChannel. rewrite wp_bind, wp_update, wp_bind, wp_server. simpl.
  eapply wp_mono; [apply removeChannel_loop, NoDup_iter_map|].
  intros r w' (-> & He & Hs & Hem). split_and!; [done|done| |].
  - rewrite Hs. unfold remove_channel_state, upd_clients. simpl. f_equal.
    apply map_eq. intros h. rewrite lookup_foldl_alter by apply NoDup_iter_map.
    rewrite lookup_fmap. case_decide as Hin; [done|].
    rewrite elem_of_iter_clients in Hin. simpl in Hin.
    destruct (_clients (srv w) !! h); [|done]. by destruct Hin.
  - eapply emits_ext; [exact Hem| |done]. intros h. unfold to_all.
    apply decide_ext. apply (elem_of_iter_clients (srv w)).
Qed.

Lemma keeps_remove_channel_state ch s : ServerInv s → ServerInv (remove_channel_state ch s).
Proof.
  intros [Hch Hn Hc Hp]. unfold remove_channel_state. split; simpl.
  - intros id c [_ ?]%lookup_delete_Some. auto.
  - done.
  - intros hdl c. rewrite lookup_fmap. intros (c0 & Hc0 & ->)%fmap_Some_1.
    destruct (Hc _ _ Hc0) as [Hh Hi Hd]. split; simpl; [done| |].
    + intros ??? [_ ?]%lookup_delete_Some [_ ?]%lookup_delete_Some. eauto.
    + intros ch' [sid [Hne Hsub]%lookup_delete_Some]. rewrite lookup_delete_ne by done.
      apply Hd. by exists sid.
  - intros hdl pubs Hpubs. destruct (Hp _ _ Hpubs) as [? Hsub]. split; [done|].
    intros c'. rewrite lookup_fmap. intros (c0 & Hc0 & ->)%fmap_Some_1. simpl. auto.
Qed.

Lemma keeps_removeChannel ch : preserves (keeps_inv (E:=E)) (removeChannel ch).
Proof.
  intros w HI. destruct (removeChannel_run ch w) as (_ & _ & -> & _).
  by apply keeps_remove_channel_state.
Qed.

(** ** Disconnection *)

(** Handlers that always return. *)
Definition returns {S} (m : M S unit) : Prop := ∀ s, (m s).2 = inr tt.

Definition handler_returns {X} (h : option (X → ConnHandle → M E unit)) : Prop :=
  ∀ f x hdl, h = Some f → returns (f x hdl).

(** The events of calling [h] on each of [l], if it is set. *)
Definition calls_of {X} (h : option (X → ConnHandle → M E unit))
    (e : X → ConnHandle → Event) (hdl : ConnHandle) (l : list X) : list Event :=
  match h with Some _ => (λ x, e x hdl) <$> l | None => [] end.

(** A loop whose iterations make known handler calls and nothing else. *)
Definition only_calls (C : list Event) w (r : result unit) w' : Prop :=
  r = inr tt ∧ srv w' = srv w ∧ emits silent C w w'.

Lemma only_calls_for_each {X} (l : list X) (g : X → list Event) body w :
  (∀ x w', wp (body x) (only_calls (g x) w') w') →
  wp (for_each l body) (only_calls (l ≫= g) w) w.
Proof.
  intros Hbody. revert w. induction l as [|x l IH]; intros w; simpl.
  { rewrite wp_ret. split_and!; [done|done|apply emits_refl]. }
  rewrite wp_bind. eapply wp_mono; [apply Hbody|]. intros r w1 (-> & Hs1 & Hem1).
  eapply wp_mono; [apply IH|]. intros r w2 (-> & Hs2 & Hem2).
  split_and!; [done|congruence|]. exact (emits_trans _ _ _ _ _ _ _ Hem1 Hem2).
Qed.

Lemma call_only_calls {X} (h : option (X → ConnHandle → M E unit)) e x hdl w :
  handler_returns h → is_call (e x hdl) = true →
  wp (call h e x hdl) (only_calls (calls_of h e hdl [x]) w) w.
Proof.
  intros Hret Hcall. unfold call, calls_of. destruct h as [f|].
  - rewrite wp_bind, wp_emit, wp_on_env. simpl. split_and!; [by apply Hret|done|].
    exists [e x hdl]. split_and!; [done| |simpl; by rewrite Hcall].
    intros h. destruct (e x hdl); done.
  - rewrite wp_ret. split_and!; [done|done|apply emits_refl].
Qed.

Lemma calls_of_bind {X Y} (h : option (X → ConnHandle → M E unit)) e hdl (f : Y → X)
    (l : list Y) :
  (l ≫= λ y, calls_of h e hdl [f y]) = calls_of h e hdl (f <$> l).
Proof.
  unfold calls_of. destruct h; simpl; [|by induction l].
  induction l as [|y l IH]; [done|]. simpl. by f_equal.
Qed.

Definition close_state (hdl : ConnHandle) (s : ServerState) : ServerState :=
  upd_clientChannels (delete hdl) (upd_clients (delete hdl) s).

Lemma handleConnectionClosed_run hdl c w :
  handler_returns (_clientUnadvertiseHandler handlers) →
  handler_returns (_unsubscribeHandler handlers) →
  _clients (srv w) !! hdl = Some c →
  wp (handleConnectionClosed handlers hdl)
     (λ r w', r = inr tt ∧ srv w' = close_state hdl (srv w) ∧
        emits silent
          (calls_of (_clientUnadvertiseHandler handlers) EvClientUnadvertise hdl
             (iter_set (advertisedChannels c)) ++
           calls_of (_unsubscribeHandler handlers) EvUnsubscribe hdl
             (iter_map (subscriptionsByChannel c)).*1) w w') w.
Proof.
  intros Hua Hus Hc. unfold handleConnectionClosed. rewrite wp_bind, wp_server, Hc.
  unfold alog at 1. rewrite wp_bind, wp_emit, wp_bind, wp_update, wp_bind.
  eapply wp_mono.
  { apply (only_calls_for_each _
      (λ id, calls_of (_clientUnadvertiseHandler handlers) EvClientUnadvertise hdl [id])).
    intros id w'. unfold alog. rewrite wp_bind, wp_emit.
    eapply wp_mono; [by apply call_only_calls|]. intros r w'' (-> & Hs & Hem).
    split_and!; [done|done|by eapply emits_after_log]. }
  intros r w1 (-> & Hs1 & Hem1). rewrite wp_bind, wp_update.
  eapply wp_mono.
  { apply (only_calls_for_each _
      (λ p, calls_of (_unsubscribeHandler handlers) EvUnsubscribe hdl [p.1])).
    intros [ch sid] w'. by apply call_only_calls. }
  intros r w2 (-> & Hs2 & Hem2). split_and!; [done|by rewrite Hs2; simpl; rewrite Hs1|].
  rewrite (calls_of_bind _ _ _ id), list_fmap_id in Hem1. rewrite calls_of_bind in Hem2.
  eapply emits_after_log, emits_ext; [eapply emits_trans; [exact Hem1|exact Hem2]|done|done].
Qed.

End outcomes.

#[export] Hint Resolve tame_ret tame_gets tame_modify tame_throw tame_lift tame_sendStatus
  tame_client_at tame_parse tame_at tame_get_uint32 tame_get_string tame_uint32_at
  tame_string_at tame_elements : cpp.
