(* ===== verification/Client.v ===== *)
(** * The WebSocket client of [websocket_client.hpp]

    The client turns calls into text and binary frames for the server and
    forwards what it receives to two callbacks.  It is used by the tests and by
    [test_client.cpp], whose message handlers are modelled here as well. *)

From Stdlib Require Import Strings.Byte.
From S2P Require Import Prelude Serialization Common Interfaces Server.

Local Open Scope Z_scope.
Local Open Scope string_scope.

(** ** Payloads *)

Section payloads.
Context `{Platform, Nlohmann}.

(** @src foxglove_bridge_base/include/foxglove_bridge/websocket_client.hpp:19-24 to_json *)
Definition ClientAdvertisement_to_json (p : ClientAdvertisement) : json :=
  json_object [
    ("id", json_number (adv_channelId p));
    ("topic", json_string (adv_topic p));
    ("encoding", json_string (adv_encoding p));
    ("schemaName", json_string (adv_schemaName p))].

(** One entry of a subscribe message.
    @src foxglove_bridge_base/include/foxglove_bridge/websocket_client.hpp:145-145 Client::subscribe *)
Definition subscription_json (s : SubscriptionId * ChannelId) : json :=
  json_object [("id", json_number s.1); ("channelId", json_number s.2)].

(** [push_back] of one value after the other. *)
Fixpoint push_all (j : json) (l : list json) : result json :=
  match l with
  | [] => inr j
  | x :: l => match json_push_back j x with inl e => inl e | inr j => push_all j l end
  end.

(** The text [subscribe] sends.
    @src foxglove_bridge_base/include/foxglove_bridge/websocket_client.hpp:142-149 Client::subscribe *)
Definition subscribe_text (subscriptions : list (SubscriptionId * ChannelId)) : result string :=
  match push_all json_null (subscription_json <$> subscriptions) with
  | inl e => inl e
  | inr subscriptionsJson =>
      json_dump (json_object [("op", json_string "subscribe");
                              ("subscriptions", subscriptionsJson)])
  end.

(** @src foxglove_bridge_base/include/foxglove_bridge/websocket_client.hpp:153-155 Client::unsubscribe *)
Definition unsubscribe_text (subscriptionIds : list SubscriptionId) : result string :=
  json_dump (json_object [("op", json_string "unsubscribe");
                          ("subscriptionIds", json_array (json_number <$> subscriptionIds))]).

(** @src foxglove_bridge_base/include/foxglove_bridge/websocket_client.hpp:159-160 Client::advertise *)
Definition advertise_text (channels : list ClientAdvertisement) : result string :=
  json_dump (json_object [("op", json_string "advertise");
                          ("channels", json_array (ClientAdvertisement_to_json <$> channels))]).

(** @src foxglove_bridge_base/include/foxglove_bridge/websocket_client.hpp:164-166 Client::unadvertise *)
Definition unadvertise_text (channelIds : list ClientChannelId) : result string :=
  json_dump (json_object [("op", json_string "unadvertise");
                          ("channelIds", json_array (json_number <$> channelIds))]).

(** The buffer [publish] fills.
    @src foxglove_bridge_base/include/foxglove_bridge/websocket_client.hpp:170-174 Client::publish *)
Definition publish_data (channelId : ClientChannelId) (buffer : list byte)
  : option (list byte) :=
  let payload := replicate (1 + 4 + length buffer) x00 in
  payload ← store8 payload 0 ClientBinaryOpcode_MESSAGE_DATA;
  payload ← WriteUint32LE payload 1 channelId;
  memcpy payload (1 + 4) buffer.
End payloads.

(** ** The client object *)

(** websocketpp's client endpoint. *)
Class WebsocketppClient := {
  ClientNet : Type;
  wc_get_connection : string → ClientNet → ClientNet * (string + ConnHandle);
  wc_set_handlers : ConnHandle → bool → bool → ClientNet → ClientNet;
  wc_add_subprotocol : ConnHandle → string → ClientNet → ClientNet;
  wc_connect : ConnHandle → ClientNet → ClientNet;
  (** Throws when the connection cannot be closed. *)
  wc_close : ConnHandle → ClientNet → ClientNet * result unit;
  (** [None] is the null connection of a closed client. *)
  wc_send : option ConnHandle → Frame → ClientNet → ClientNet * result unit;
  (** A constructed endpoint, without log channels. *)
  wc_new : ClientNet;
  wc_init_asio : ClientNet → ClientNet * result unit;
  wc_start_perpetual : ClientNet → ClientNet;
  wc_stop_perpetual : ClientNet → ClientNet;
  (** The thread that runs the endpoint: starting and joining it; the thread may
      never end. *)
  wc_spawn_run : ClientNet → ClientNet;
  wc_join : ClientNet → option ClientNet;
}.

(** The connection pointer, and whether each callback is set.
    @src foxglove_bridge_base/include/foxglove_bridge/websocket_client.hpp:198-204 Client *)
Record ClientState `{WebsocketppClient} := mkClient {
  _con : option ConnHandle;
  _textMessageHandler : bool;
  _binaryMessageHandler : bool;
  _endpoint : ClientNet;
}.

Arguments mkClient {_}.

(** What the client passes to its callbacks. *)
Inductive Received :=
| GotText (payload : string)
| GotBinary (payload : list byte).

Section client.
Context `{Platform, Nlohmann, WebsocketppClient}.

Definition set_con (c : option ConnHandle) (s : ClientState) : ClientState :=
  mkClient c (_textMessageHandler s) (_binaryMessageHandler s) (_endpoint s).
Definition on_endpoint {A} (f : ClientNet → ClientNet * result A) : M ClientState A := λ s,
  let (n, r) := f (_endpoint s) in
  (mkClient (_con s) (_textMessageHandler s) (_binaryMessageHandler s) n, r).
Definition on_endpoint_ (f : ClientNet → ClientNet) : M ClientState unit :=
  on_endpoint (λ n, (f n, inr tt)).

(** The pointer [get_connection] returns: null if it sets an error. *)
Definition connection_of (r : string + ConnHandle) : option ConnHandle :=
  match r with inr con => Some con | inl _ => None end.

(** The message handler is [messageHandler].
    @src foxglove_bridge_base/include/foxglove_bridge/websocket_client.hpp:56-67 Client::Client *)
Definition Client_new : result ClientState :=
  let (n, r) := wc_init_asio wc_new in
  match r with
  | inl e => inl e
  | inr _ => inr (mkClient None false false (wc_spawn_run (wc_start_perpetual n)))
  end.

(** [_con] is assigned before the error is looked at: a connection that fails
    leaves it null.
    @src foxglove_bridge_base/include/foxglove_bridge/websocket_client.hpp:75-96 Client::connect *)
Definition connect (uri : string) (onOpenHandler onCloseHandler : bool) : M ClientState unit :=
  let! r := on_endpoint (λ n, let (n, r) := wc_get_connection uri n in (n, inr r)) in
  modify (set_con (connection_of r)) ;;;
  match r with
  | inl _ => throw (StdException ("Failed to get connection from URI " +:+ uri))
  | inr con =>
      on_endpoint_ (wc_set_handlers con onOpenHandler onCloseHandler) ;;;
      on_endpoint_ (wc_add_subprotocol con SUPPORTED_SUBPROTOCOL) ;;;
      on_endpoint_ (wc_connect con)
  end.

(** @src foxglove_bridge_base/include/foxglove_bridge/websocket_client.hpp:109-117 Client::close *)
Definition close : M ClientState unit :=
  let! con := gets _con in
  match con with
  | None => ret tt
  | Some con => on_endpoint (wc_close con) ;;; modify (set_con None)
  end.

(** The open handler sets the promise.
    @src foxglove_bridge_base/include/foxglove_bridge/websocket_client.hpp:98-107 Client::connect *)
Definition connect_future (uri : string) : M ClientState unit := connect uri true false.

(** @src foxglove_bridge_base/include/foxglove_bridge/websocket_client.hpp:69-73 Client::~Client *)
Definition Client_delete : M ClientState unit :=
  noexcept
    (close ;;;
     on_endpoint_ wc_stop_perpetual ;;;
     on_endpoint (λ n, match wc_join n with
                       | Some n' => (n', inr tt)
                       | None => (n, inl (Blocked "std::thread::join"))
                       end)).

(** @src foxglove_bridge_base/include/foxglove_bridge/websocket_client.hpp:178-181 Client::setTextMessageHandler *)
Definition setTextMessageHandler (handler : bool) : M ClientState unit :=
  modify (λ s, mkClient (_con s) handler (_binaryMessageHandler s) (_endpoint s)).

(** @src foxglove_bridge_base/include/foxglove_bridge/websocket_client.hpp:183-186 Client::setBinaryMessageHandler *)
Definition setBinaryMessageHandler (handler : bool) : M ClientState unit :=
  modify (λ s, mkClient (_con s) (_textMessageHandler s) handler (_endpoint s)).

(** @src foxglove_bridge_base/include/foxglove_bridge/websocket_client.hpp:119-140 Client::messageHandler *)
Definition messageHandler (msg : Frame) (s : ClientState) : list Received :=
  match msg with
  | TextFrame payload => if _textMessageHandler s then [GotText payload] else []
  | BinaryFrame payload => if _binaryMessageHandler s then [GotBinary payload] else []
  | OtherFrame => []
  end.

(** @src foxglove_bridge_base/include/foxglove_bridge/websocket_client.hpp:188-191 Client::sendText *)
Definition sendText (payload : string) : M ClientState unit :=
  let! con := gets _con in on_endpoint (wc_send con (TextFrame payload)).

(** @src foxglove_bridge_base/include/foxglove_bridge/websocket_client.hpp:193-196 Client::sendBinary *)
Definition client_sendBinary (data : list byte) : M ClientState unit :=
  let! con := gets _con in on_endpoint (wc_send con (BinaryFrame data)).

(** @src foxglove_bridge_base/include/foxglove_bridge/websocket_client.hpp:142-151 Client::subscribe *)
Definition subscribe (subscriptions : list (SubscriptionId * ChannelId)) : M ClientState unit :=
  let! payload := lift (subscribe_text subscriptions) in sendText payload.

(** @src foxglove_bridge_base/include/foxglove_bridge/websocket_client.hpp:153-157 Client::unsubscribe *)
Definition unsubscribe (subscriptionIds : list SubscriptionId) : M ClientState unit :=
  let! payload := lift (unsubscribe_text subscriptionIds) in sendText payload.

(** @src foxglove_bridge_base/include/foxglove_bridge/websocket_client.hpp:159-162 Client::advertise *)
Definition advertise (channels : list ClientAdvertisement) : M ClientState unit :=
  let! payload := lift (advertise_text channels) in sendText payload.

(** @src foxglove_bridge_base/include/foxglove_bridge/websocket_client.hpp:164-168 Client::unadvertise *)
Definition unadvertise (channelIds : list ClientChannelId) : M ClientState unit :=
  let! payload := lift (unadvertise_text channelIds) in sendText payload.

(** @src foxglove_bridge_base/include/foxglove_bridge/websocket_client.hpp:170-176 Client::publish *)
Definition publish (channelId : ClientChannelId) (buffer : list byte) : M ClientState unit :=
  match publish_data channelId buffer with
  | Some payload => client_sendBinary payload
  | None => throw (Undefined "out of bounds")
  end.
End client.

(** ** The interface *)

(** What the user of a client whose state is [S] can ask of it.  A handler is
    whether it is set: what it does is its user's.
    @src foxglove_bridge_base/include/foxglove_bridge/websocket_client.hpp:30-47 ClientInterface *)
Class ClientInterface (S : Type) := {
  ci_connect : string → bool → bool → M S unit;
  ci_connect_future : string → M S unit;
  ci_close : M S unit;
  ci_subscribe : list (SubscriptionId * ChannelId) → M S unit;
  ci_unsubscribe : list SubscriptionId → M S unit;
  ci_advertise : list ClientAdvertisement → M S unit;
  ci_unadvertise : list ClientChannelId → M S unit;
  ci_publish : ClientChannelId → list byte → M S unit;
  ci_setTextMessageHandler : bool → M S unit;
  ci_setBinaryMessageHandler : bool → M S unit;
}.

#[export] Instance client_interface `{Platform, Nlohmann, WebsocketppClient}
  : ClientInterface ClientState := {
  ci_connect := connect;
  ci_connect_future := connect_future;
  ci_close := close;
  ci_subscribe := subscribe;
  ci_unsubscribe := unsubscribe;
  ci_advertise := advertise;
  ci_unadvertise := unadvertise;
  ci_publish := publish;
  ci_setTextMessageHandler := setTextMessageHandler;
  ci_setBinaryMessageHandler := setBinaryMessageHandler;
}.

(** ** The handlers of [connectClientAndReceiveMsg] *)

Section test_client.
Context `{Nlohmann}.

(** The binary handler: the payload behind the 13 bytes of the header.  A
    shorter frame makes the length wrap around, which no allocation survives.
    @src foxglove_bridge_base/src/test/test_client.cpp:40-45 connectClientAndReceiveMsg *)
Definition test_binary_handler (data : list byte) : option (list byte) :=
  if decide (1 + 4 + 8 ≤ length data)%nat then Some (drop (1 + 4 + 8) data) else None.

(** [promise.set_value]: a promise is set once. *)
Definition set_value {A} (value : A) : M (option A) unit :=
  let! promise := gets id in
  match promise with
  | Some _ => throw (StdException "std::future_error: Promise already satisfied")
  | None => modify (λ _, Some value)
  end.

(** [topic_name == j]: the comparison of a string with a JSON value. *)
Definition string_is (topic_name : string) (j : json) : bool :=
  match json_get_string j with inr s => String.eqb topic_name s | inl _ => false end.

(** The text handler, over the state of [channelPromise].
    @src foxglove_bridge_base/src/test/test_client.cpp:18-28 connectClientAndReceiveMsg *)
Definition test_text_handler (topic_name : string) (payload : string) : M (option json) unit :=
  let! msg := lift (json_parse payload) in
  let! op := lift (json_string_at msg "op") in
  when (String.eqb op "advertise")
    (let! channels := lift (json_elements msg "channels") in
     for_each channels (λ channel,
       let! topic := lift (json_at channel "topic") in
       when (string_is topic_name topic) (set_value channel))).
End test_client.

(** ** [connectClientAndReceiveMsg] *)

(** What reaches the client's thread: the connection opens, or a frame comes. *)
Inductive Arrival := Opened | Arrived (f : Frame).

(** The client and the three promises of the test. *)
Record TestWorld `{Nlohmann, WebsocketppClient} := mkTestWorld {
  wsClient : ClientState;
  openPromise : option unit;
  channelPromise : option json;
  msgPromise : option (list byte);
}.
Arguments mkTestWorld {_ _}.

Section test.
Context `{Platform, Nlohmann, WebsocketppClient}.

Definition on_client {A} (m : M ClientState A) : M TestWorld A := λ t,
  let (c, r) := m (wsClient t) in
  (mkTestWorld c (openPromise t) (channelPromise t) (msgPromise t), r).
Definition on_open (m : M (option unit) unit) : M TestWorld unit := λ t,
  let (p, r) := m (openPromise t) in
  (mkTestWorld (wsClient t) p (channelPromise t) (msgPromise t), r).
Definition on_channel (m : M (option json) unit) : M TestWorld unit := λ t,
  let (p, r) := m (channelPromise t) in
  (mkTestWorld (wsClient t) (openPromise t) p (msgPromise t), r).
Definition on_msg (m : M (option (list byte)) unit) : M TestWorld unit := λ t,
  let (p, r) := m (msgPromise t) in
  (mkTestWorld (wsClient t) (openPromise t) (channelPromise t) p, r).

(** A call of one of the two handlers. *)
Definition on_received (topic_name : string) (r : Received) : M TestWorld unit :=
  match r with
  | GotText payload => on_channel (test_text_handler topic_name payload)
  | GotBinary data =>
      match test_binary_handler data with
      | Some dataCopy => on_msg (set_value dataCopy)
      | None => throw (StdException "std::length_error")
      end
  end.

Definition on_arrival (topic_name : string) (a : Arrival) : M TestWorld unit :=
  match a with
  | Opened => on_open (set_value tt)
  | Arrived f =>
      let! c := gets wsClient in
      for_each (messageHandler f c) (on_received topic_name)
  end.

(** [future.wait_for(5s)]: [arrivals] is what the client's thread gets in the
    meantime; an exception that leaves a handler leaves that thread, and ends the
    process.
    @src foxglove_bridge_base/src/test/test_client.cpp:31-35 connectClientAndReceiveMsg *)
Definition wait_for {A} (topic_name : string) (arrivals : list Arrival)
    (promise : TestWorld → option A) (failure : string) : M TestWorld A :=
  noexcept (for_each arrivals (on_arrival topic_name)) ;;;
  let! value := gets promise in
  match value with
  | Some a => ret a
  | None => throw (StdException failure)
  end.

(** The body, with what arrives during each of its three waits.
    @src foxglove_bridge_base/src/test/test_client.cpp:12-56 connectClientAndReceiveMsg *)
Definition receive_msg (uri topic_name : string) (opening advertising receiving : list Arrival)
  : M TestWorld (list byte) :=
  on_client (setTextMessageHandler true) ;;;
  on_client (connect_future uri) ;;;
  wait_for topic_name opening openPromise "Client failed to connect" ;;;
  let! channel := wait_for topic_name advertising channelPromise
                    "Client failed to receive channel" in
  on_client (setBinaryMessageHandler true) ;;;
  let! channelId := lift (json_uint32_at channel "id") in
  on_client (subscribe [(1, channelId)]) ;;;
  wait_for topic_name receiving msgPromise "Client failed to receive message".

(** The client is destroyed however the body ends, unless the process has ended.
    @src foxglove_bridge_base/src/test/test_client.cpp:12-56 connectClientAndReceiveMsg *)
Definition connectClientAndReceiveMsg (uri topic_name : string)
    (opening advertising receiving : list Arrival) : result (list byte) :=
  match Client_new with
  | inl e => inl e
  | inr client =>
      let (t, r) := receive_msg uri topic_name opening advertising receiving
                      (mkTestWorld client None None None) in
      match r with
      | inl (Undefined _) | inl (Blocked _) => r
      | _ =>
          match (on_client Client_delete t).2 with
          | inl e => inl e
          | inr _ => r
          end
      end
  end.
End test.
