(* ===== verification/Protocol.v ===== *)
(** * Client and server together

    What the server does with the messages the client of [websocket_client.hpp]
    builds, against an abstract account of subscriptions and publications, and
    what a client reads from the frames the server builds. *)

From Stdlib Require Import Strings.Byte.
From S2P Require Import Prelude Serialization Common Logging Interfaces Server ServerFacts.
From S2P Require Import ServerInvariant ServerSpec Client.

Local Open Scope Z_scope.
Local Open Scope string_scope.

(** ** Reading back what was built *)

Section json.
Context `{Nlohmann} `{!NlohmannLaws}.

Lemma string_at_object kvs k s :
  NoDup kvs.*1 → (k, json_string s) ∈ kvs → json_string_at (json_object kvs) k = inr s.
Proof. intros. unfold json_string_at. erewrite at_object by done. apply get_string_string. Qed.

Lemma uint32_at_object kvs k n :
  NoDup kvs.*1 → (k, json_number n) ∈ kvs → is_u32 n →
  json_uint32_at (json_object kvs) k = inr n.
Proof. intros. unfold json_uint32_at. erewrite at_object by done. by apply get_uint32_number. Qed.

Lemma elements_object kvs k v :
  NoDup kvs.*1 → (k, v) ∈ kvs → json_elements (json_object kvs) k = inr (json_items v).
Proof. intros. unfold json_elements. by erewrite at_object. Qed.

Lemma push_all_array l0 l : push_all (json_array l0) l = inr (json_array (l0 ++ l)).
Proof.
  revert l0. induction l as [|j l IH]; intros l0; simpl; [by rewrite app_nil_r|].
  rewrite push_back_array, IH, <-app_assoc. done.
Qed.

(** A sequence of [push_back]s on null builds an array; none leaves null. *)
Lemma push_all_null l :
  ∃ j, push_all json_null l = inr j ∧ json_items j = l ∧ (l = [] → j = json_null) ∧
       (l ≠ [] → j = json_array l).
Proof.
  destruct l as [|x l]; simpl.
  - exists json_null. split_and!; [done|apply items_null|done|done].
  - rewrite push_back_null, push_all_array. exists (json_array (x :: l)).
    split_and!; [done|apply items_array|done|done].
Qed.

Lemma push_channels_all j l : push_channels j l = push_all j (Channel_to_json <$> l).
Proof. revert j. induction l as [|c l IH]; intros j; simpl; [done|]. by case_match. Qed.
End json.

(** Distinct keys of an object literal; one of its entries. *)
Ltac solve_object :=
  lazymatch goal with
  | |- NoDup _ => apply (bool_decide_unpack _); vm_compute; exact I
  | |- _ ∈ _ => repeat first [apply list_elem_of_here | apply list_elem_of_further]
  | |- _ => done
  end.

Section dispatch.
Context `{Platform, Iteration, LogChannels, Nlohmann, Websocketpp}.
Context {E : Type} (handlers : Handlers E).

(** The four opcodes hash to different numbers, so each reaches its case. *)
Ltac solve_dispatch :=
  unfold dispatch_op;
  change (Integer "subscribe") with SUBSCRIBE; change (Integer "unsubscribe") with UNSUBSCRIBE;
  change (Integer "advertise") with ADVERTISE; change (Integer "unadvertise") with UNADVERTISE;
  rewrite SUBSCRIBE_value, UNSUBSCRIBE_value, ADVERTISE_value, UNADVERTISE_value; reflexivity.

Lemma dispatch_subscribe hdl p :
  dispatch_op handlers hdl "subscribe" p = handleSubscribe handlers hdl p.
Proof. solve_dispatch. Qed.
Lemma dispatch_unsubscribe hdl p :
  dispatch_op handlers hdl "unsubscribe" p = handleUnsubscribe handlers hdl p.
Proof. solve_dispatch. Qed.
Lemma dispatch_advertise hdl p :
  dispatch_op handlers hdl "advertise" p = handleAdvertise handlers hdl p.
Proof. solve_dispatch. Qed.
Lemma dispatch_unadvertise hdl p :
  dispatch_op handlers hdl "unadvertise" p = handleUnadvertise handlers hdl p.
Proof. solve_dispatch. Qed.

(** A message of a connected client whose opcode can be read is dispatched. *)
Lemma handleTextMessage_dispatch `{!NlohmannLaws} hdl op kvs txt w :
  json_dump (json_object kvs) = inr txt → NoDup kvs.*1 →
  ("op", json_string op) ∈ kvs → is_Some (_clients (srv w) !! hdl) →
  handleTextMessage handlers hdl txt w = dispatch_op handlers hdl op (json_object kvs) w.
Proof.
  intros Hd Hnd Hop [c Hc]. unfold handleTextMessage, client_at, bind, lift, server, gets.
  rewrite (parse_dump _ _ Hd), (string_at_object _ _ _ Hnd Hop), Hc. done.
Qed.
End dispatch.

(** ** Subscriptions, abstractly

    A client's subscriptions are a one-to-one correspondence of subscription
    ids and channels.  A request is refused when its id is in use or its
    channel does not exist. *)
Module Subscriptions.
Definition t : Type := gmap ChannelId SubscriptionId.

Inductive outcome := Used | Unavailable | Accepted.

Definition classify (channels : gset ChannelId) (m : gmap ChannelId SubscriptionId)
    (r : SubscriptionId * ChannelId) : outcome :=
  if decide (r.1 ∈ (map_img m : gset SubscriptionId)) then Used
  else if decide (r.2 ∈ channels) then Accepted else Unavailable.

(** The new correspondence: a channel that already has an id keeps it. *)
Definition step channels (m : gmap ChannelId SubscriptionId)
    (r : SubscriptionId * ChannelId) : gmap ChannelId SubscriptionId :=
  match classify channels m r with
  | Accepted => (emplace r.2 r.1 m).1
  | _ => m
  end.

Definition run channels m (l : list (SubscriptionId * ChannelId))
  : gmap ChannelId SubscriptionId := foldl (step channels) m l.

(** The channels the program is asked to subscribe to, in order. *)
Fixpoint requested channels m (l : list (SubscriptionId * ChannelId)) : list ChannelId :=
  match l with
  | [] => []
  | r :: l =>
      match classify channels m r with Accepted => [r.2] | _ => [] end
      ++ requested channels (step channels m r) l
  end.

(** A cancelled id takes its channel with it. *)
Definition cancel (m : gmap ChannelId SubscriptionId) (sid : SubscriptionId)
  : gmap ChannelId SubscriptionId := filter (λ p, p.2 ≠ sid) m.

Definition cancel_all (m : gmap ChannelId SubscriptionId) (l : list SubscriptionId)
  : gmap ChannelId SubscriptionId := foldl cancel m l.

(** The channels the program is asked to unsubscribe from, in order. *)
Definition channel_of (m : gmap ChannelId SubscriptionId) (sid : SubscriptionId)
  : list ChannelId := (filter (λ p, p.2 = sid) (map_to_list m)).*1.

Fixpoint cancelled (m : gmap ChannelId SubscriptionId) (l : list SubscriptionId)
  : list ChannelId :=
  match l with
  | [] => []
  | sid :: l => channel_of m sid ++ cancelled (cancel m sid) l
  end.

(** Each id names one channel. *)
Definition inj (m : gmap ChannelId SubscriptionId) : Prop :=
  ∀ ch1 ch2 sid, m !! ch1 = Some sid → m !! ch2 = Some sid → ch1 = ch2.

(** Requests that are all accepted: ids and channels that are new, and
    channels that exist. *)
Definition fresh (channels : gset ChannelId) (m : gmap ChannelId SubscriptionId)
    (l : list (SubscriptionId * ChannelId)) : Prop :=
  NoDup l.*1 ∧ NoDup l.*2 ∧
  ∀ sid ch, (sid, ch) ∈ l →
    (sid ∉ (map_img m : gset SubscriptionId)) ∧ m !! ch = None ∧ ch ∈ channels.

Lemma channel_of_inj m ch sid : inj m → m !! ch = Some sid → channel_of m sid = [ch].
Proof.
  intros Hinj Hch. unfold channel_of.
  apply Permutation_singleton_r, NoDup_Permutation.
  - apply NoDup_fmap_fst, NoDup_filter, NoDup_map_to_list.
    intros ch' s1 s2 [? ?]%list_elem_of_filter [? ?]%list_elem_of_filter. simpl in *. congruence.
  - apply NoDup_singleton.
  - intros ch'. rewrite list_elem_of_fmap, list_elem_of_singleton. split.
    + intros ([ch1 s1] & -> & [Hs1 Hin]%list_elem_of_filter). simpl in *. subst s1.
      apply elem_of_map_to_list in Hin. by apply (Hinj _ _ sid).
    + intros ->. exists (ch, sid). split; [done|]. apply list_elem_of_filter.
      split; [done|]. by apply elem_of_map_to_list.
Qed.

Lemma lookup_cancel_Some m sid ch sid' :
  cancel m sid !! ch = Some sid' ↔ m !! ch = Some sid' ∧ sid' ≠ sid.
Proof. unfold cancel. by rewrite map_lookup_filter_Some. Qed.

Lemma inj_cancel m sid : inj m → inj (cancel m sid).
Proof. intros Hm ch1 ch2 s [? _]%lookup_cancel_Some [? _]%lookup_cancel_Some. eauto. Qed.

Lemma lookup_cancel_all_Some m l ch sid :
  cancel_all m l !! ch = Some sid ↔ m !! ch = Some sid ∧ sid ∉ l.
Proof.
  revert m. induction l as [|s l IH]; intros m; simpl.
  - split; [intros ?; split; [done|apply not_elem_of_nil]|by intros [? _]].
  - rewrite IH, lookup_cancel_Some, not_elem_of_cons. naive_solver.
Qed.

(** A list of live ids is cancelled one channel each. *)
Lemma cancelled_live m (l : list (SubscriptionId * ChannelId)) :
  inj m → NoDup l.*1 → (∀ sid ch, (sid, ch) ∈ l → m !! ch = Some sid) →
  cancelled m l.*1 = l.*2.
Proof.
  revert m. induction l as [|[sid ch] l IH]; intros m Hinj Hnd Hlive; simpl; [done|].
  rewrite fmap_cons in Hnd. apply NoDup_cons in Hnd as [Hsid Hnd].
  rewrite (channel_of_inj m ch) by (try apply Hlive, list_elem_of_here; done).
  simpl. f_equal. apply IH; [by apply inj_cancel|done|].
  intros s c Hin. apply lookup_cancel_Some. split; [by apply Hlive, list_elem_of_further|].
  intros ->. apply Hsid. apply list_elem_of_fmap. by exists (sid, c).
Qed.

Section fresh.
Context (channels : gset ChannelId).

Lemma fresh_cons m sid ch l :
  fresh channels m ((sid, ch) :: l) →
  classify channels m (sid, ch) = Accepted ∧
  step channels m (sid, ch) = <[ch := sid]> m ∧
  fresh channels (<[ch := sid]> m) l ∧ m !! ch = None.
Proof.
  intros ([Hs Hn1]%NoDup_cons & [Hc Hn2]%NoDup_cons & Hf).
  destruct (Hf sid ch) as (Hsid & Hch & Hex); [apply list_elem_of_here|].
  assert (classify channels m (sid, ch) = Accepted) as Hcl.
  { unfold classify. by rewrite decide_False, decide_True. }
  split_and!; [done| | |done].
  - unfold step. rewrite Hcl. simpl. by rewrite emplace_fresh.
  - split_and!; [done|done|]. intros s c Hin.
    destruct (Hf s c) as (Hs' & Hc' & Hex'); [by apply list_elem_of_further|].
    assert (s ≠ sid) by (intros ->; apply Hs, list_elem_of_fmap; by exists (sid, c)).
    assert (c ≠ ch) by (intros ->; apply Hc, list_elem_of_fmap; by exists (s, ch)).
    split_and!; [|by rewrite lookup_insert_ne|done].
    rewrite elem_of_map_img in Hs' |- *. intros [c' [[<- <-]|[_ Hl]]%lookup_insert_Some]; eauto.
Qed.

Lemma lookup_run_fresh m l ch sid :
  fresh channels m l →
  run channels m l !! ch = Some sid ↔ (sid, ch) ∈ l ∨ m !! ch = Some sid.
Proof.
  revert m. induction l as [|[s c] l IH]; intros m Hf; simpl.
  - split; [by right|]. by intros [?%not_elem_of_nil|?].
  - destruct (fresh_cons _ _ _ _ Hf) as (_ & -> & Hf' & Hnone).
    rewrite IH by done. rewrite elem_of_cons, lookup_insert_Some. split.
    + intros [?|[[<- <-]|[_ ?]]]; auto.
    + intros [[[= <- <-]|?]|Hl]; auto. right. right. split; [congruence|done].
Qed.

Lemma requested_fresh m l : fresh channels m l → requested channels m l = l.*2.
Proof.
  revert m. induction l as [|[s c] l IH]; intros m Hf; simpl; [done|].
  destruct (fresh_cons _ _ _ _ Hf) as (-> & -> & Hf' & _). simpl. f_equal. auto.
Qed.

Lemma inj_run_fresh m l : inj m → fresh channels m l → inj (run channels m l).
Proof.
  revert m. induction l as [|[s c] l IH]; intros m Hm Hf; simpl; [done|].
  destruct (fresh_cons _ _ _ _ Hf) as (_ & -> & Hf' & _). apply IH; [|done].
  destruct (proj2 (proj2 Hf) s c) as (Hs & _); [apply list_elem_of_here|].
  rewrite elem_of_map_img in Hs.
  intros ch1 ch2 sid [[<- <-]|[? ?]]%lookup_insert_Some [[<- Heq]|[? ?]]%lookup_insert_Some;
    [done| | |by eapply Hm]; exfalso; apply Hs; subst; eauto.
Qed.

(** Subscribing and then cancelling the same ids restores everything. *)
Lemma cancel_all_run_fresh m l :
  fresh channels m l → cancel_all (run channels m l) l.*1 = m.
Proof.
  intros Hf. apply map_eq. intros ch. apply option_eq. intros sid.
  rewrite lookup_cancel_all_Some, lookup_run_fresh by done. split.
  - intros [[Hin|?] Hn]; [|done]. exfalso. apply Hn, list_elem_of_fmap. by exists (sid, ch).
  - intros Hl. split; [by right|]. intros ([s c] & -> & Hin)%list_elem_of_fmap.
    destruct (proj2 (proj2 Hf) s c Hin) as (Hs & _). apply Hs, elem_of_map_img. by exists ch.
Qed.

Lemma cancelled_run_fresh m l :
  inj m → fresh channels m l → cancelled (run channels m l) l.*1 = l.*2.
Proof.
  intros Hm Hf. apply cancelled_live; [by apply inj_run_fresh|apply Hf|].
  intros sid ch Hin. apply lookup_run_fresh; auto.
Qed.
End fresh.

Section replies.
Context `{Nlohmann}.

Definition cancel_reply (m : gmap ChannelId SubscriptionId) (sid : SubscriptionId)
  : list Frame :=
  if decide (sid ∈ (map_img m : gset SubscriptionId)) then []
  else json_frames (status_json Warning ("Client subscription id " +:+ to_string sid +:+
                                         " did not exist; ignoring unsubscription")).

Fixpoint cancel_replies (m : gmap ChannelId SubscriptionId) (l : list SubscriptionId)
  : list Frame :=
  match l with
  | [] => []
  | sid :: l => cancel_reply m sid ++ cancel_replies (cancel m sid) l
  end.

Definition reply channels m (r : SubscriptionId * ChannelId) : list Frame :=
  match classify channels m r with
  | Used => json_frames (status_json Error ("Client subscription id " +:+ to_string r.1 +:+
                                            " was already used; ignoring subscription"))
  | Unavailable => json_frames (status_json Warning ("Channel " +:+ to_string r.2 +:+
                                            " is not available; ignoring subscription"))
  | Accepted => []
  end.

(** The status messages that go back, in order. *)
Fixpoint replies channels m (l : list (SubscriptionId * ChannelId)) : list Frame :=
  match l with
  | [] => []
  | r :: l => reply channels m r ++ replies channels (step channels m r) l
  end.
Lemma replies_fresh channels m l : fresh channels m l → replies channels m l = [].
Proof.
  revert m. induction l as [|[s c] l IH]; intros m Hf; simpl; [done|].
  unfold reply. destruct (fresh_cons _ _ _ _ _ Hf) as (-> & -> & Hf' & _). simpl. auto.
Qed.

Lemma cancel_replies_live m (l : list (SubscriptionId * ChannelId)) :
  NoDup l.*1 → (∀ sid ch, (sid, ch) ∈ l → m !! ch = Some sid) →
  cancel_replies m l.*1 = [].
Proof.
  revert m. induction l as [|[sid ch] l IH]; intros m Hnd Hlive; simpl; [done|].
  rewrite fmap_cons in Hnd. apply NoDup_cons in Hnd as [Hsid Hnd]. unfold cancel_reply.
  rewrite decide_True.
  2: { apply elem_of_map_img. exists ch. apply Hlive, list_elem_of_here. }
  apply IH; [done|]. intros s c Hin.
  apply lookup_cancel_Some. split; [by apply Hlive, list_elem_of_further|].
  intros ->. apply Hsid. apply list_elem_of_fmap. by exists (sid, c).
Qed.
End replies.
End Subscriptions.

(** The server after one client's subscriptions became [m]. *)
Definition set_subscriptions (hdl : ConnHandle) (m : gmap ChannelId SubscriptionId)
    (s : ServerState) : ServerState :=
  upd_clients (alter (upd_subscriptions (λ _, m)) hdl) s.

Section set_subscriptions.
Implicit Types s : ServerState.

Lemma set_subscriptions_upd hdl c f s :
  _clients s !! hdl = Some c →
  upd_clients (alter (upd_subscriptions f) hdl) s =
  set_subscriptions hdl (f (subscriptionsByChannel c)) s.
Proof.
  intros Hc. unfold set_subscriptions, upd_clients. f_equal.
  apply alter_ext. naive_solver.
Qed.

Lemma set_subscriptions_same hdl c s :
  _clients s !! hdl = Some c → set_subscriptions hdl (subscriptionsByChannel c) s = s.
Proof.
  intros Hc. unfold set_subscriptions, upd_clients. rewrite alter_id; [by destruct s|].
  rewrite Hc. intros c' [= <-]. by destruct c.
Qed.

Lemma set_subscriptions_twice hdl m1 m2 s :
  set_subscriptions hdl m2 (set_subscriptions hdl m1 s) = set_subscriptions hdl m2 s.
Proof.
  unfold set_subscriptions, upd_clients. simpl. f_equal. apply map_eq. intros h.
  destruct (decide (hdl = h)) as [<-|Hne]; simplify_map_eq; [|done].
  by destruct (_clients s !! hdl).
Qed.

Lemma set_subscriptions_lookup hdl c m s :
  _clients s !! hdl = Some c →
  _clients (set_subscriptions hdl m s) !! hdl = Some (upd_subscriptions (λ _, m) c).
Proof. intros Hc. simpl. by rewrite lookup_alter_eq, Hc. Qed.
End set_subscriptions.

Section requests.
Context `{Platform, Iteration, LogChannels, Nlohmann, Websocketpp}.
Context `{!NlohmannLaws, !WebsocketppLaws}.
Context {E : Type} (handlers : Handlers E).
Implicit Types w : World E.

Lemma used_iff c sid :
  sid ∈ (map_img (subscriptionsByChannel c) : gset SubscriptionId) ↔
  findSubscriptionBySubId c sid ≠ None.
Proof.
  rewrite elem_of_map_img. split.
  - intros [ch Hch] Hf. by apply (findSubscriptionBySubId_None _ _ ch) in Hf.
  - destruct (findSubscriptionBySubId c sid) as [[ch sid']|] eqn:Hf; [|done].
    intros _. apply findSubscriptionBySubId_Some in Hf as [_ ?]. eauto.
Qed.

Lemma subscribe_one_run hdl c sid ch w :
  handler_returns (_subscribeHandler handlers) →
  is_u32 sid → is_u32 ch → _clients (srv w) !! hdl = Some c →
  let channels := dom (_channels (srv w)) in
  let m := subscriptionsByChannel c in
  wp (subscribe_one handlers hdl (subscription_json (sid, ch)))
     (λ r w', r = inr tt ∧
        srv w' = set_subscriptions hdl (Subscriptions.step channels m (sid, ch)) (srv w) ∧
        emits (only hdl (Subscriptions.reply channels m (sid, ch)))
          (calls_of (_subscribeHandler handlers) EvSubscribe hdl
             (Subscriptions.requested channels m [(sid, ch)])) w w') w.
Proof.
  intros Hret Hsid Hch Hc channels m. unfold subscribe_one, subscription_json.
  rewrite wp_bind, wp_lift, (uint32_at_object _ _ sid) by solve_object.
  rewrite wp_bind, wp_lift, (uint32_at_object _ _ ch) by solve_object.
  rewrite wp_bind, wp_client_at, Hc.
  unfold Subscriptions.step, Subscriptions.reply. simpl.
  destruct (findSubscriptionBySubId c sid) as [p|] eqn:Hf.
  - assert (Subscriptions.classify channels m (sid, ch) = Subscriptions.Used) as Hcl.
    { unfold Subscriptions.classify. rewrite decide_True; [done|]. apply used_iff. simpl. by rewrite Hf. }
    eapply wp_mono; [apply sends_sendStatus|]. intros r w' (-> & [Hs _] & Hem).
    split_and!; [done|rewrite Hcl, Hs; symmetry; by apply set_subscriptions_same|].
    rewrite Hcl. unfold calls_of. by destruct (_subscribeHandler handlers).
  - assert (sid ∉ (map_img m : gset SubscriptionId)) as Hno by (by intros Hin%used_iff).
    rewrite wp_bind, wp_server.
    destruct (_channels (srv w) !! ch) as [chan|] eqn:Hchan.
    + assert (Subscriptions.classify channels m (sid, ch) = Subscriptions.Accepted) as Hcl.
      { unfold Subscriptions.classify. rewrite decide_False, decide_True; [done| |done].
        by apply elem_of_dom_2 in Hchan. }
      rewrite Hcl, wp_bind. unfold upd_client. rewrite wp_update.
      eapply wp_mono; [by apply call_only_calls|]. intros r w' (-> & Hs & Hem).
      split_and!; [done|rewrite Hs; by apply (set_subscriptions_upd hdl c (λ m, (emplace ch sid m).1))|].
      eapply emits_ext; [exact Hem| |done]. intros h. unfold only. by case_decide.
    + assert (Subscriptions.classify channels m (sid, ch) = Subscriptions.Unavailable) as Hcl.
      { unfold Subscriptions.classify. rewrite !decide_False; [done| |done].
        by apply not_elem_of_dom. }
      eapply wp_mono; [apply sends_sendStatus|]. intros r w' (-> & [Hs _] & Hem).
      split_and!; [done|rewrite Hcl, Hs; symmetry; by apply set_subscriptions_same|].
      rewrite Hcl. unfold calls_of. by destruct (_subscribeHandler handlers).
Qed.

Lemma calls_of_app {X} (h : option (X → ConnHandle → M E unit)) e hdl l1 l2 :
  (calls_of h e hdl (l1 ++ l2) = calls_of h e hdl l1 ++ calls_of h e hdl l2)%list.
Proof. unfold calls_of. destruct h; [apply fmap_app|done]. Qed.

Lemma subscribe_list_run hdl c subs w :
  handler_returns (_subscribeHandler handlers) →
  Forall (λ r, is_u32 r.1 ∧ is_u32 r.2) subs → _clients (srv w) !! hdl = Some c →
  let channels := dom (_channels (srv w)) in
  wp (for_each (subscription_json <$> subs) (subscribe_one handlers hdl))
     (λ r w', r = inr tt ∧
        srv w' = set_subscriptions hdl
                   (Subscriptions.run channels (subscriptionsByChannel c) subs) (srv w) ∧
        emits (only hdl (Subscriptions.replies channels (subscriptionsByChannel c) subs))
          (calls_of (_subscribeHandler handlers) EvSubscribe hdl
             (Subscriptions.requested channels (subscriptionsByChannel c) subs)) w w') w.
Proof.
  intros Hret. revert c w. induction subs as [|[sid ch] subs IH]; intros c w Hr Hc channels.
  { simpl. rewrite wp_ret. split_and!; [done|symmetry; by apply set_subscriptions_same|].
    eapply emits_ext; [apply emits_refl| |by destruct (_subscribeHandler handlers)].
    intros h. unfold only. by case_decide. }
  apply Forall_cons in Hr as [[Hsid Hch] Hr]. cbn [fmap list_fmap for_each]. rewrite wp_bind.
  eapply wp_mono; [by apply (subscribe_one_run hdl c sid ch)|].
  intros r w1 (-> & Hs1 & Hem1).
  set (m1 := Subscriptions.step channels (subscriptionsByChannel c) (sid, ch)) in *.
  eapply wp_mono.
  { apply (IH (upd_subscriptions (λ _, m1) c)); [done|].
    rewrite Hs1. by apply set_subscriptions_lookup. }
  assert (dom (_channels (srv w1)) = channels) as -> by (by rewrite Hs1).
  intros r w2 (-> & Hs2 & Hem2). split_and!; [done| |].
  - by rewrite Hs2, Hs1, set_subscriptions_twice.
  - eapply emits_ext; [eapply emits_trans; [exact Hem1|exact Hem2]| |].
    + intros h. unfold only. by case_decide.
    + simpl. rewrite <-calls_of_app, app_nil_r. done.
Qed.

(** The client's subscribe message, as the server handles it. *)
Lemma client_subscribe_run hdl c subs txt w :
  handler_returns (_subscribeHandler handlers) →
  Forall (λ r, is_u32 r.1 ∧ is_u32 r.2) subs → _clients (srv w) !! hdl = Some c →
  subscribe_text subs = inr txt →
  let channels := dom (_channels (srv w)) in
  wp (handleTextMessage handlers hdl txt)
     (λ r w', r = inr tt ∧
        srv w' = set_subscriptions hdl
                   (Subscriptions.run channels (subscriptionsByChannel c) subs) (srv w) ∧
        emits (only hdl (Subscriptions.replies channels (subscriptionsByChannel c) subs))
          (calls_of (_subscribeHandler handlers) EvSubscribe hdl
             (Subscriptions.requested channels (subscriptionsByChannel c) subs)) w w') w.
Proof.
  intros Hret Hr Hc Htxt channels. unfold subscribe_text in Htxt.
  destruct (push_all_null (subscription_json <$> subs)) as (j & Hj & Hitems & _).
  rewrite Hj in Htxt. unfold wp.
  erewrite (handleTextMessage_dispatch handlers hdl "subscribe");
    [|exact Htxt|solve_object|solve_object|by eexists].
  rewrite dispatch_subscribe. unfold handleSubscribe.
  erewrite elements_object; [|solve_object|solve_object]. rewrite Hitems.
  by apply subscribe_list_run.
Qed.

Lemma cancel_delete channels hdl c ch sid :
  ClientOk channels hdl c → subscriptionsByChannel c !! ch = Some sid →
  Subscriptions.cancel (subscriptionsByChannel c) sid = delete ch (subscriptionsByChannel c).
Proof.
  intros Hok Hch. apply map_eq. intros ch'. apply option_eq. intros sid'.
  unfold Subscriptions.cancel. rewrite map_lookup_filter_Some, lookup_delete_Some. simpl.
  split; [intros [Hl Hne]; split; [congruence|done]|].
  intros [Hne Hl]. split; [done|]. intros ->.
  by apply Hne, (ok_sub_inj _ _ _ Hok _ _ sid).
Qed.

Lemma cancel_absent c sid :
  findSubscriptionBySubId c sid = None →
  Subscriptions.cancel (subscriptionsByChannel c) sid = subscriptionsByChannel c.
Proof.
  intros Hf. unfold Subscriptions.cancel. apply map_filter_id. intros ch sid' Hl Heq. simpl in Heq. subst sid'.
  by apply (findSubscriptionBySubId_None _ _ ch) in Hf.
Qed.

Lemma channel_of_Some channels hdl c ch sid :
  ClientOk channels hdl c → subscriptionsByChannel c !! ch = Some sid →
  Subscriptions.channel_of (subscriptionsByChannel c) sid = [ch].
Proof. intros Hok. apply Subscriptions.channel_of_inj. intros ch1 ch2 s. apply (ok_sub_inj _ _ _ Hok). Qed.

Lemma channel_of_None c sid :
  findSubscriptionBySubId c sid = None →
  Subscriptions.channel_of (subscriptionsByChannel c) sid = [].
Proof.
  intros Hf. unfold Subscriptions.channel_of.
  destruct (filter _ _) as [|[ch s] l] eqn:Hl; [done|].
  assert ((ch, s) ∈ filter (λ p, p.2 = sid) (map_to_list (subscriptionsByChannel c)))
    as [Hs Hin]%list_elem_of_filter by (rewrite Hl; apply list_elem_of_here).
  simpl in Hs. subst s. apply elem_of_map_to_list in Hin.
  by apply (findSubscriptionBySubId_None _ _ ch) in Hf.
Qed.

Lemma unsubscribe_one_run hdl c sid w :
  handler_returns (_unsubscribeHandler handlers) →
  is_u32 sid → _clients (srv w) !! hdl = Some c → ClientOk (_channels (srv w)) hdl c →
  wp (unsubscribe_one handlers hdl (json_number sid))
     (λ r w', r = inr tt ∧
        srv w' = set_subscriptions hdl
                   (Subscriptions.cancel (subscriptionsByChannel c) sid) (srv w) ∧
        emits (only hdl (Subscriptions.cancel_reply (subscriptionsByChannel c) sid))
          (calls_of (_unsubscribeHandler handlers) EvUnsubscribe hdl
             (Subscriptions.channel_of (subscriptionsByChannel c) sid)) w w') w.
Proof.
  intros Hret Hsid Hc Hok. unfold unsubscribe_one, Subscriptions.cancel_reply.
  rewrite wp_bind, wp_lift, get_uint32_number, wp_bind, wp_client_at, Hc by done.
  destruct (findSubscriptionBySubId c sid) as [[ch sid']|] eqn:Hf.
  - rewrite decide_True by (by rewrite used_iff, Hf).
    apply findSubscriptionBySubId_Some in Hf as [Heq Hch]. simpl in Heq, Hch. subst sid'.
    rewrite (channel_of_Some _ _ _ _ _ Hok Hch), (cancel_delete _ _ _ _ _ Hok Hch).
    rewrite wp_bind. unfold upd_client. rewrite wp_update.
    eapply wp_mono; [by apply call_only_calls|]. intros r w' (-> & Hs & Hem).
    split_and!; [done|rewrite Hs; by apply set_subscriptions_upd|].
    eapply emits_ext; [exact Hem| |done]. intros h. unfold only. by case_decide.
  - rewrite decide_False by (rewrite used_iff, Hf; naive_solver).
    rewrite channel_of_None, cancel_absent by done.
    eapply wp_mono; [apply sends_sendStatus|]. intros r w' (-> & [Hs _] & Hem).
    split_and!; [done|rewrite Hs; symmetry; by apply set_subscriptions_same|].
    unfold calls_of. by destruct (_unsubscribeHandler handlers).
Qed.

Lemma ok_cancel channels hdl c sid :
  ClientOk channels hdl c →
  ClientOk channels hdl
    (upd_subscriptions (λ _, Subscriptions.cancel (subscriptionsByChannel c) sid) c).
Proof.
  intros [Hh Hi Hd]. split; simpl; [done| |].
  - intros ??? [? _]%map_lookup_filter_Some [? _]%map_lookup_filter_Some. eauto.
  - intros ch [s [? _]%map_lookup_filter_Some]. eauto.
Qed.

Lemma unsubscribe_list_run hdl c sids w :
  handler_returns (_unsubscribeHandler handlers) →
  Forall is_u32 sids → _clients (srv w) !! hdl = Some c → ClientOk (_channels (srv w)) hdl c →
  wp (for_each (json_number <$> sids) (unsubscribe_one handlers hdl))
     (λ r w', r = inr tt ∧
        srv w' = set_subscriptions hdl
                   (Subscriptions.cancel_all (subscriptionsByChannel c) sids) (srv w) ∧
        emits (only hdl (Subscriptions.cancel_replies (subscriptionsByChannel c) sids))
          (calls_of (_unsubscribeHandler handlers) EvUnsubscribe hdl
             (Subscriptions.cancelled (subscriptionsByChannel c) sids)) w w') w.
Proof.
  intros Hret. revert c w. induction sids as [|sid sids IH]; intros c w Hr Hc Hok.
  { simpl. rewrite wp_ret. split_and!; [done|symmetry; by apply set_subscriptions_same|].
    eapply emits_ext; [apply emits_refl| |by destruct (_unsubscribeHandler handlers)].
    intros h. unfold only. by case_decide. }
  apply Forall_cons in Hr as [Hsid Hr]. cbn [fmap list_fmap for_each]. rewrite wp_bind.
  eapply wp_mono; [by apply (unsubscribe_one_run hdl c sid)|].
  intros r w1 (-> & Hs1 & Hem1).
  eapply wp_mono.
  { apply (IH (upd_subscriptions (λ _, Subscriptions.cancel (subscriptionsByChannel c) sid) c));
      [done| |].
    - rewrite Hs1. by apply set_subscriptions_lookup.
    - rewrite Hs1. by apply ok_cancel. }
  intros r w2 (-> & Hs2 & Hem2). split_and!; [done| |].
  - by rewrite Hs2, Hs1, set_subscriptions_twice.
  - eapply emits_ext; [eapply emits_trans; [exact Hem1|exact Hem2]| |].
    + intros h. unfold only. by case_decide.
    + simpl. by rewrite <-calls_of_app.
Qed.

(** The client's unsubscribe message, as the server handles it. *)
Lemma client_unsubscribe_run hdl c sids txt w :
  handler_returns (_unsubscribeHandler handlers) →
  Forall is_u32 sids → _clients (srv w) !! hdl = Some c → ClientOk (_channels (srv w)) hdl c →
  unsubscribe_text sids = inr txt →
  wp (handleTextMessage handlers hdl txt)
     (λ r w', r = inr tt ∧
        srv w' = set_subscriptions hdl
                   (Subscriptions.cancel_all (subscriptionsByChannel c) sids) (srv w) ∧
        emits (only hdl (Subscriptions.cancel_replies (subscriptionsByChannel c) sids))
          (calls_of (_unsubscribeHandler handlers) EvUnsubscribe hdl
             (Subscriptions.cancelled (subscriptionsByChannel c) sids)) w w') w.
Proof.
  intros Hret Hr Hc Hok Htxt. unfold unsubscribe_text in Htxt. unfold wp.
  erewrite (handleTextMessage_dispatch handlers hdl "unsubscribe");
    [|exact Htxt|solve_object|solve_object|by eexists].
  rewrite dispatch_unsubscribe. unfold handleUnsubscribe.
  erewrite elements_object; [|solve_object|solve_object]. rewrite items_array.
  by apply unsubscribe_list_run.
Qed.

(** ** Publishing *)

Definition publish_frame (channelId : ClientChannelId) (buffer : list byte) : list byte :=
  byte_of_Z 1 :: le_split 4 channelId ++ buffer.

Lemma publish_data_frame channelId buffer :
  publish_data channelId buffer = Some (publish_frame channelId buffer).
Proof.
  unfold publish_data, store8.
  transitivity (memcpy (replicate (1 + 4 + length buffer) x00) 0
    ([byte_of_Z 1] ++ le_split 4 channelId ++ buffer)).
  - rewrite <-memcpy_app. destruct (memcpy _ 0 [_]) as [b1|]; simpl; [|done].
    rewrite WriteUint32LE_memcpy, <-memcpy_app. done.
  - rewrite memcpy_fill; [done|]. rewrite !length_app, length_le_split. simpl. lia.
Qed.

(** The id the server reads from the frame: the client's on little-endian
    machines, its bytes in the opposite order on big-endian ones. *)
Definition received_id (channelId : ClientChannelId) : Z :=
  if big_endian then le_combine (rev (le_split 4 channelId)) else u32 channelId.

Lemma publish_frame_id channelId buffer :
  load_native 4 (publish_frame channelId buffer) 1 = Some (received_id channelId).
Proof.
  unfold load_native, publish_frame, received_id. rewrite decide_True.
  2: { simpl. rewrite length_app, length_le_split. lia. }
  f_equal. simpl. rewrite drop_0.
  rewrite (take_app_length' (le_split 4 channelId)) by (by rewrite length_le_split).
  destruct big_endian; [done|]. apply le_combine_split.
Qed.

(** The message the handler gets for a published payload. *)
Definition published (ts : Z) (adv : ClientAdvertisement) (channelId : ClientChannelId)
    (buffer : list byte) : ClientMessage :=
  mkClientMessage (u64 ts) (u64 ts) 0 adv (Z.of_nat (length (publish_frame channelId buffer)))
    (publish_frame channelId buffer).

Lemma getData_published ts adv id buffer : getData (published ts adv id buffer) = buffer.
Proof.
  unfold getData, published, publish_frame, MSG_PAYLOAD_OFFSET. simpl.
  rewrite drop_app_ge, length_le_split; [done|by rewrite length_le_split].
Qed.

Lemma getLength_published ts adv id buffer :
  Z.of_nat (length buffer) < 2 ^ 64 →
  getLength (published ts adv id buffer) = Z.of_nat (length buffer).
Proof.
  intros Hl. unfold getLength, published, publish_frame, MSG_PAYLOAD_OFFSET. simpl.
  rewrite length_app, length_le_split, u64_id; [lia|]. split; lia.
Qed.

(** The client's publish frame, as the server handles it. *)
Lemma client_publish_eq ts hdl pubs channelId buffer w :
  _clientChannels (srv w) !! hdl = Some pubs →
  handleBinaryMessage handlers ts hdl (publish_frame channelId buffer) w =
  match pubs !! received_id channelId with
  | Some adv => call (_clientMessageHandler handlers) EvClientMessage
                  (published ts adv channelId buffer) hdl w
  | None => sendStatus hdl Error ("Channel " +:+ to_string (received_id channelId) +:+
                                  " is not advertised") w
  end.
Proof.
  intros Hpubs. unfold handleBinaryMessage.
  set (len := Z.of_nat (length (publish_frame channelId buffer))).
  assert (5 ≤ len)%Z as Hlen
    by (unfold len, publish_frame; simpl; rewrite length_app, length_le_split; lia).
  cbv zeta. rewrite (proj2 (Z.ltb_ge len 1)) by lia.
  unfold bind, server, gets. rewrite Hpubs.
  change (publish_frame channelId buffer !! 0%nat) with (Some (byte_of_Z 1)).
  change (Z.eqb (Z_of_byte (byte_of_Z 1)) ClientBinaryOpcode_MESSAGE_DATA) with true. simpl.
  rewrite (proj2 (Z.ltb_ge len 5)) by lia. rewrite publish_frame_id. simpl.
  by destruct (pubs !! received_id channelId).
Qed.
End requests.
