(* ===== verification/EndToEnd.v ===== *)
(** * From a ROS message to the client that subscribed to its topic

    What the test client of [test_client.cpp] does with the frames of a server,
    what the server does with the client's subscription, and with a message. *)

From Stdlib Require Import Strings.Byte.
From S2P Require Import Prelude Serialization Common Logging Interfaces Server ServerFacts.
From S2P Require Import ServerInvariant ServerSpec Client Protocol.

Local Open Scope Z_scope.
Local Open Scope string_scope.
Local Open Scope list_scope.

(** The endpoint of a client that has just been constructed. *)
Definition fresh_endpoint `{WebsocketppClient} (n : ClientNet) : Prop :=
  ∃ n0, wc_init_asio wc_new = (n0, inr tt) ∧ n = wc_spawn_run (wc_start_perpetual n0).

(** There is a server at the URI: a fresh client that connects to it is connected,
    until it closes the connection. *)
Class ReliableClient `{WebsocketppClient} (uri : string) := {
  connected : ConnHandle → ClientNet → Prop;
  connect_ok n : fresh_endpoint n → ∃ n' con, wc_get_connection uri n = (n', inr con) ∧
    connected con (wc_connect con (wc_add_subprotocol con SUPPORTED_SUBPROTOCOL
      (wc_set_handlers con true false n')));
  send_ok con f n : connected con n →
    ∃ n', wc_send (Some con) f n = (n', inr tt) ∧ connected con n';
  close_ok con n : connected con n →
    ∃ n' n'', wc_close con n = (n', inr tt) ∧ wc_join (wc_stop_perpetual n') = Some n'';
}.

(** One element of a list without duplicates satisfies the predicate. *)
Lemma filter_unique {A} (P : A → Prop) `{!∀ x, Decision (P x)} (l : list A) a :
  NoDup l → a ∈ l → (∀ x, x ∈ l → P x ↔ x = a) → filter P l = [a].
Proof.
  intros Hnd Ha Hiff. apply Permutation_singleton_r, NoDup_Permutation.
  - by apply NoDup_filter.
  - apply NoDup_singleton.
  - intros x. rewrite list_elem_of_filter, list_elem_of_singleton. naive_solver.
Qed.

Section client.
Context `{Platform, Iteration, LogChannels, Nlohmann, WebsocketppClient}.
Context `{!NlohmannLaws} (uri : string) `{!ReliableClient uri}.
Implicit Types t : TestWorld.

(** ** The test client *)

Lemma Client_new_fresh client :
  Client_new = inr client →
  fresh_endpoint (_endpoint client) ∧ client = mkClient None false false (_endpoint client).
Proof.
  unfold Client_new. destruct (wc_init_asio wc_new) as [n0 [e|[]]] eqn:Hn; [done|].
  intros [= <-]. split; [by exists n0|done].
Qed.

(** One step of the text handler's loop. *)
Lemma channel_step topic_name (c : Channel) (p : option json) :
  (let! topic := lift (json_at (Channel_to_json c) "topic") in
   when (string_is topic_name topic) (set_value (Channel_to_json c))) p =
  if decide (topic c = topic_name) then set_value (Channel_to_json c) p else (p, inr tt).
Proof.
  unfold bind, lift.
  assert (json_at (Channel_to_json c) "topic" = inr (json_string (topic c))) as ->
    by (apply at_object; solve_object).
  unfold string_is.
  rewrite get_string_string.
  destruct (String.eqb_spec topic_name (topic c)), (decide (topic c = topic_name));
    congruence || done.
Qed.

Lemma channels_skip topic_name l (p : option json) :
  filter (λ c : Channel, topic c = topic_name) l = [] →
  for_each (Channel_to_json <$> l) (λ channel,
    let! topic := lift (json_at channel "topic") in
    when (string_is topic_name topic) (set_value channel)) p = (p, inr tt).
Proof.
  induction l as [|c l IH]; [done|]. rewrite filter_cons. case_decide as Hc; [done|]. intros Hf.
  cbn [fmap list_fmap for_each]. unfold bind at 1. rewrite channel_step, decide_False by done.
  by apply IH.
Qed.

(** The text handler keeps the one channel of the topic. *)
Lemma text_handler_advertise topic_name txt j l ch :
  json_parse txt = inr j → json_string_at j "op" = inr "advertise" →
  json_elements j "channels" = inr (Channel_to_json <$> l) →
  filter (λ c : Channel, topic c = topic_name) l = [ch] →
  test_text_handler topic_name txt None = (Some (Channel_to_json ch), inr tt).
Proof.
  intros Hj Hop Hel Hf. unfold test_text_handler. unfold bind at 1, lift at 1. rewrite Hj.
  unfold bind at 1, lift at 1. rewrite Hop. simpl. unfold bind at 1, lift at 1. rewrite Hel.
  clear Hel. induction l as [|c l IH]; [done|]. rewrite filter_cons in Hf.
  cbn [fmap list_fmap for_each]. unfold bind at 1. rewrite channel_step.
  case_decide as Hc; [|by apply IH]. injection Hf as -> Hf. simpl. by apply channels_skip.
Qed.

(** A message with another opcode is ignored. *)
Lemma text_handler_other topic_name txt j op p :
  json_parse txt = inr j → json_string_at j "op" = inr op → op ≠ "advertise" →
  test_text_handler topic_name txt p = (p, inr tt).
Proof.
  intros Hj Hop Hne. unfold test_text_handler, bind, lift. rewrite Hj, Hop.
  by destruct (String.eqb_spec op "advertise").
Qed.

(** ** A run of the test client *)

Lemma bind_run {S A B} (m : M S A) (f : A → M S B) s s' a :
  m s = (s', inr a) → bind m f s = f a s'.
Proof. intros Hm. unfold bind. by rewrite Hm. Qed.

Lemma noexcept_run {S A} (m : M S A) s s' a : m s = (s', inr a) → noexcept m s = (s', inr a).
Proof. intros Hm. unfold noexcept. by rewrite Hm. Qed.

Lemma on_client_run {A} (m : M ClientState A) t c r :
  m (wsClient t) = (c, r) →
  on_client m t = (mkTestWorld c (openPromise t) (channelPromise t) (msgPromise t), r).
Proof. intros Hm. unfold on_client. by rewrite Hm. Qed.

Lemma connect_run c :
  fresh_endpoint (_endpoint c) →
  ∃ con n, connected con n ∧ connect_future uri c =
    (mkClient (Some con) (_textMessageHandler c) (_binaryMessageHandler c) n, inr tt).
Proof.
  intros (n & con & Hcon & Hn)%connect_ok. exists con. eexists. split; [exact Hn|].
  unfold connect_future, connect. erewrite bind_run.
  2: { unfold on_endpoint. by rewrite Hcon. }
  done.
Qed.

Definition listening_client (con : ConnHandle) (binary : bool) (n : ClientNet) : ClientState :=
  mkClient (Some con) true binary n.

Lemma delete_run con binary n :
  connected con n → ∃ c, Client_delete (listening_client con binary n) = (c, inr tt).
Proof.
  intros (n' & n'' & Hclose & Hjoin)%close_ok. exists (mkClient None true binary n'').
  unfold Client_delete, noexcept. erewrite bind_run.
  2: { unfold close. erewrite bind_run by done. cbn [listening_client _con]. erewrite bind_run; [done|].
       unfold on_endpoint. cbn [listening_client _endpoint]. by rewrite Hclose. }
  erewrite bind_run by done. unfold on_endpoint. cbn. by rewrite Hjoin.
Qed.

Section run.
Context (topic_name info txt : string) (ch : Channel).
Hypothesis handler_info : ∀ p, test_text_handler topic_name info p = (p, inr tt).
Hypothesis handler_txt : test_text_handler topic_name txt None = (Some (Channel_to_json ch), inr tt).

Lemma arrival_text payload c op ms :
  _textMessageHandler c = true → ∀ p p' r, test_text_handler topic_name payload p = (p', r) →
  on_arrival topic_name (Arrived (TextFrame payload)) (mkTestWorld c op p ms) =
    (mkTestWorld c op p' ms, r).
Proof.
  intros Hc p p' r Hp. unfold on_arrival, bind at 1, gets. cbn [wsClient messageHandler].
  rewrite Hc. cbn [for_each on_received]. unfold bind, on_channel. cbn [channelPromise].
  rewrite Hp. by destruct r as [e|[]].
Qed.

(** However the greeting is spread over the two waits, the channel is there at
    the end of the second. *)
Lemma greeting_run c opening advertising :
  _textMessageHandler c = true →
  opening ++ advertising = [Opened; Arrived (TextFrame info); Arrived (TextFrame txt)] →
  opening ≠ [] →
  ∀ B (k : json → M TestWorld B),
  (wait_for topic_name opening openPromise "Client failed to connect" ;;;
   let! channel := wait_for topic_name advertising channelPromise
                     "Client failed to receive channel" in k channel)
    (mkTestWorld c None None None) =
  k (Channel_to_json ch) (mkTestWorld c (Some tt) (Some (Channel_to_json ch)) None).
Proof.
  intros Hc Hsplit Hne B k.
  assert (∀ p, on_arrival topic_name (Arrived (TextFrame info)) (mkTestWorld c (Some tt) p None) =
    (mkTestWorld c (Some tt) p None, inr tt)) as Hinfo
    by (intros p; by eapply arrival_text).
  assert (on_arrival topic_name (Arrived (TextFrame txt)) (mkTestWorld c (Some tt) None None) =
    (mkTestWorld c (Some tt) (Some (Channel_to_json ch)) None, inr tt)) as Htxt
    by (by eapply arrival_text).
  destruct opening as [|a1 opening]; [done|]. injection Hsplit as -> Hsplit.
  unfold wait_for, noexcept, bind. cbn [for_each]. unfold bind.
  assert (on_arrival topic_name Opened (mkTestWorld c None None None) =
    (mkTestWorld c (Some tt) None None, inr tt)) as -> by done.
  destruct opening as [|a2 opening]; simpl in Hsplit.
  { subst advertising. cbn [for_each gets ret openPromise]. unfold bind. rewrite Hinfo, Htxt. done. }
  injection Hsplit as -> Hsplit. cbn [for_each]. unfold bind. rewrite Hinfo.
  destruct opening as [|a3 opening]; simpl in Hsplit.
  { subst advertising. cbn [for_each gets ret openPromise]. unfold bind. rewrite Htxt. done. }
  injection Hsplit as -> Hsplit. cbn [for_each]. unfold bind. rewrite Htxt.
  destruct opening; [|done]. simpl in Hsplit. by subst advertising.
Qed.

(** The client connects, gets the channel and sends its subscription; then it
    waits. *)
Lemma receive_msg_run opening advertising receiving c text :
  fresh_endpoint (_endpoint c) →
  opening ++ advertising = [Opened; Arrived (TextFrame info); Arrived (TextFrame txt)] →
  opening ≠ [] → is_u32 (chan_id ch) → subscribe_text [(1, chan_id ch)] = inr text →
  ∃ con n, connected con n ∧ receive_msg uri topic_name opening advertising receiving (mkTestWorld c None None None) =
    (on_client (sendText text) ;;;
     wait_for topic_name receiving msgPromise "Client failed to receive message")
      (mkTestWorld (listening_client con true n) (Some tt) (Some (Channel_to_json ch)) None).
Proof.
  intros Hfresh Hsplit Hne Hid Htext. unfold receive_msg. erewrite bind_run by done.
  destruct (connect_run (mkClient (_con c) true (_binaryMessageHandler c) (_endpoint c)) Hfresh)
    as (con & n & Hn & Hcon). exists con, n. split; [exact Hn|].
  erewrite bind_run by (by apply on_client_run). cbn [wsClient openPromise channelPromise msgPromise].
  rewrite greeting_run by done. erewrite bind_run by done.
  erewrite bind_run.
  2: { unfold lift, Channel_to_json. erewrite uint32_at_object; [done|solve_object|solve_object|exact Hid]. }
  assert (subscribe [(1, chan_id ch)] = sendText text) as Hsub.
  { unfold subscribe. by rewrite Htext. }
  by rewrite Hsub.
Qed.

(** The client that then gets a frame answers its payload. *)
Lemma test_client_receives client opening advertising frame payload text :
  Client_new = inr client →
  opening ++ advertising = [Opened; Arrived (TextFrame info); Arrived (TextFrame txt)] →
  opening ≠ [] → is_u32 (chan_id ch) → subscribe_text [(1, chan_id ch)] = inr text →
  test_binary_handler frame = Some payload →
  connectClientAndReceiveMsg uri topic_name opening advertising [Arrived (BinaryFrame frame)] =
    inr payload.
Proof.
  intros Hnew Hsplit Hne Hid Htext Hframe. unfold connectClientAndReceiveMsg. rewrite Hnew.
  apply Client_new_fresh in Hnew as (Hfresh & _).
  destruct (receive_msg_run opening advertising [Arrived (BinaryFrame frame)] client text)
    as (con & n & Hn & ->); [done..|].
  destruct (send_ok con (TextFrame text) n Hn) as (n1 & Hsend & Hn1).
  erewrite bind_run.
  2: { apply on_client_run. unfold sendText. erewrite bind_run by done.
       unfold on_endpoint. cbn [_con _endpoint listening_client wsClient]. by rewrite Hsend. }
  unfold wait_for. erewrite bind_run.
  2: { unfold noexcept. cbn [for_each on_arrival]. erewrite bind_run; [done|].
       erewrite bind_run by done. cbn. rewrite Hframe. done. }
  destruct (delete_run con true n1 Hn1) as [c' Hdelete]. unfold bind at 1. cbn.
  match goal with |- match (on_client _ ?t).2 with _ => _ end = _ =>
    by rewrite (on_client_run Client_delete t _ _ Hdelete) end.
Qed.
End run.
End client.

(** ** What the server does with the subscription *)

Section server.
Context `{Platform, Iteration, LogChannels, Nlohmann, Websocketpp}.
Context `{!NlohmannLaws, !WebsocketppLaws}.
Context {E : Type} (handlers : Handlers E).
Implicit Types w : World E.

(** A subscription that is granted: the client's entry, and one call of the
    owner's handler. *)
Lemma handleMessage_grants f ts hdl c sid id text w :
  _subscribeHandler handlers = Some f → is_u32 sid → is_u32 id →
  _clients (srv w) !! hdl = Some c → findSubscriptionBySubId c sid = None →
  is_Some (_channels (srv w) !! id) → subscribe_text [(sid, id)] = inr text →
  (f id hdl (env w)).2 = inr tt →
  handleMessage handlers ts hdl (TextFrame text) w =
    (mkWorld (upd_clients (alter (upd_subscriptions (λ m, (emplace id sid m).1)) hdl) (srv w))
       (net w) (f id hdl (env w)).1 (out w ++ [EvSubscribe id hdl]), inr tt).
Proof.
  intros Hf Hsid Hid Hc Hfind [ch Hch] Htext Hok. unfold handleMessage, try_catch.
  unfold subscribe_text in Htext. simpl in Htext. rewrite push_back_null in Htext.
  erewrite (handleTextMessage_dispatch handlers hdl "subscribe");
    [|exact Htext|solve_object|solve_object|by eexists].
  rewrite dispatch_subscribe. unfold handleSubscribe. erewrite bind_run.
  2: { unfold lift. by erewrite elements_object by solve_object. }
  rewrite items_array. simpl. erewrite bind_run; [done|]. unfold subscribe_one, subscription_json.
  erewrite bind_run. 2: { unfold lift. by erewrite (uint32_at_object _ _ sid) by solve_object. }
  erewrite bind_run. 2: { unfold lift. by erewrite (uint32_at_object _ _ id) by solve_object. }
  erewrite bind_run. 2: { unfold client_at. erewrite bind_run by done. by rewrite Hc. }
  rewrite Hfind. erewrite bind_run by done. rewrite Hch. erewrite bind_run by done.
  unfold call. rewrite Hf. erewrite bind_run by done. unfold on_env. simpl.
  destruct (f id hdl (env w)) as [e r]. simpl in *. by subst r.
Qed.
End server.

(** ** A connection that does not open *)

Section failure.
Context `{Platform, Nlohmann, WebsocketppClient}.

(** The client is closed while its connection has not opened, which websocketpp
    answers with an exception; as this happens in a destructor, the process ends
    and "Client failed to connect" reaches nobody. *)
Lemma failed_connection_terminates uri topic_name advertising receiving :
  (wc_init_asio wc_new).2 = inr tt →
  (∀ n, ∃ con, (wc_get_connection uri n).2 = inr con) →
  (∀ con n, ∃ w, (wc_close con n).2 = inl (StdException w)) →
  connectClientAndReceiveMsg uri topic_name [] advertising receiving =
  inl (Undefined "std::terminate").
Proof.
  intros Hinit Hget Hclose. unfold connectClientAndReceiveMsg, Client_new.
  destruct (wc_init_asio wc_new) as [n0 r0]. simpl in Hinit. subst r0.
  unfold receive_msg, on_client, setTextMessageHandler, connect_future, connect, bind, on_endpoint,
    modify. simpl.
  match goal with |- context [wc_get_connection uri ?n] => destruct (Hget n) as [con Hcon] end.
  destruct (wc_get_connection uri _) as [n1 r1]. simpl in Hcon. subst r1. simpl.
  unfold Client_delete, noexcept, close, bind, gets, on_endpoint. simpl.
  match goal with |- context [wc_close con ?n] => destruct (Hclose con n) as [msg Hmsg] end.
  destruct (wc_close con _) as [n2 r2]. simpl in Hmsg. by subst r2.
Qed.
End failure.
