(* ===== verification/Publications.v ===== *)
(** * Client publications, from the client's message to the server's state

    What the server does with the advertise and unadvertise messages the client
    of [websocket_client.hpp] builds, against an abstract account of one
    client's publications. *)

From S2P Require Import Prelude Serialization Common Logging Interfaces Server ServerFacts.
From S2P Require Import ServerInvariant ServerSpec Client Protocol.

Local Open Scope Z_scope.
Local Open Scope string_scope.

(** ** Publications, abstractly

    The advertised channels by id, and the ids ever advertised by the client:
    the latter are what a disconnect unadvertises. *)
Module Publications.
Record t := mk {
  live : gmap ClientChannelId ClientAdvertisement;
  ever : gset ClientChannelId;
}.

(** The schema of an advertisement is not part of the message. *)
Definition strip (adv : ClientAdvertisement) : ClientAdvertisement :=
  mkClientAdvertisement (adv_channelId adv) (adv_topic adv) (adv_encoding adv)
    (adv_schemaName adv) [].

(** An id in use is refused, except in a client's first advertise message. *)
Definition refused (first : bool) (p : t) (adv : ClientAdvertisement) : bool :=
  negb first && bool_decide (is_Some (live p !! adv_channelId adv)).

Definition advertise (first : bool) (p : t) (adv : ClientAdvertisement) : t :=
  if refused first p adv then p
  else mk (emplace (adv_channelId adv) (strip adv) (live p)).1
          ({[ adv_channelId adv ]} ∪ ever p).

Definition advertise_all (first : bool) (p : t) (l : list ClientAdvertisement) : t :=
  foldl (advertise first) p l.

(** The advertisements the program is told of, in order. *)
Fixpoint announced (first : bool) (p : t) (l : list ClientAdvertisement)
  : list ClientAdvertisement :=
  match l with
  | [] => []
  | adv :: l => (if refused first p adv then [] else [strip adv])
                ++ announced first (advertise first p adv) l
  end.

Definition unadvertise (p : t) (id : ClientChannelId) : t := mk (delete id (live p)) (ever p).

Definition unadvertise_all (p : t) (l : list ClientChannelId) : t := foldl unadvertise p l.

(** The ids the program is told are gone, in order. *)
Fixpoint withdrawn (p : t) (l : list ClientChannelId) : list ClientChannelId :=
  match l with
  | [] => []
  | id :: l => (if decide (is_Some (live p !! id)) then [id] else [])
               ++ withdrawn (unadvertise p id) l
  end.

Section replies.
Context `{Nlohmann}.

Definition reply (first : bool) (p : t) (adv : ClientAdvertisement) : list Frame :=
  if refused first p adv
  then json_frames (status_json Error ("Channel " +:+ to_string (adv_channelId adv) +:+
                                       " was already advertised"))
  else [].

Fixpoint replies (first : bool) (p : t) (l : list ClientAdvertisement) : list Frame :=
  match l with
  | [] => []
  | adv :: l => reply first p adv ++ replies first (advertise first p adv) l
  end.
End replies.
End Publications.

(** The server holds these publications for the client. *)
Definition holds (s : ServerState) (hdl : ConnHandle) (p : Publications.t) : Prop :=
  _clientChannels s !! hdl = Some (Publications.live p) ∧
  ∃ c, _clients s !! hdl = Some c ∧ advertisedChannels c = Publications.ever p.

(** The server after one client's publications became [p]. *)
Definition set_publications (hdl : ConnHandle) (p : Publications.t) (s : ServerState)
  : ServerState :=
  upd_clients (alter (upd_advertised (λ _, Publications.ever p)) hdl)
    (upd_clientChannels (<[ hdl := Publications.live p ]>) s).

Section set_publications.
Implicit Types s : ServerState.

Lemma set_publications_holds hdl p s :
  is_Some (_clients s !! hdl) → holds (set_publications hdl p s) hdl p.
Proof.
  intros [c Hc]. split; simpl; [apply lookup_insert_eq|].
  exists (upd_advertised (λ _, Publications.ever p) c).
  split; [by rewrite lookup_alter_eq, Hc|done].
Qed.

Lemma set_publications_same hdl p s : holds s hdl p → set_publications hdl p s = s.
Proof.
  intros [Hm (c & Hc & Hx)]. unfold set_publications, upd_clients, upd_clientChannels. simpl.
  rewrite insert_id by done. rewrite alter_id; [by destruct s|].
  rewrite Hc. intros c' [= <-]. rewrite <-Hx. by destruct c.
Qed.

Lemma set_publications_twice hdl p1 p2 s :
  set_publications hdl p2 (set_publications hdl p1 s) = set_publications hdl p2 s.
Proof.
  unfold set_publications, upd_clients, upd_clientChannels. simpl. f_equal.
  - apply map_eq. intros h. destruct (decide (hdl = h)) as [<-|Hne]; simplify_map_eq; [|done].
    by destruct (_clients s !! hdl).
  - apply insert_insert_eq.
Qed.

(** The updates of the code are such changes. *)
Lemma set_publications_advertise hdl p f g s :
  holds s hdl p →
  upd_clients (alter (upd_advertised g) hdl) (upd_clientChannels (alter f hdl) s) =
  set_publications hdl
    (Publications.mk (f (Publications.live p)) (g (Publications.ever p))) s.
Proof.
  intros [Hm (c & Hc & Hx)]. unfold set_publications, upd_clients, upd_clientChannels. simpl.
  f_equal.
  - apply alter_ext. rewrite Hc. intros c' [= <-]. unfold upd_advertised. by rewrite Hx.
  - apply map_eq. intros h. destruct (decide (hdl = h)) as [<-|Hne]; simplify_map_eq; [|done].
    by rewrite ?lookup_alter_eq, ?Hm.
Qed.

Lemma set_publications_unadvertise hdl p f s :
  holds s hdl p →
  upd_clientChannels (alter f hdl) s =
  set_publications hdl (Publications.mk (f (Publications.live p)) (Publications.ever p)) s.
Proof.
  intros Hh. etrans; [|by apply (set_publications_advertise hdl p f (λ X, X))].
  unfold upd_clients. rewrite alter_id; [by destruct s|]. by intros [] _.
Qed.
End set_publications.

Section messages.
Context `{Platform, Iteration, LogChannels, Nlohmann, Websocketpp}.
Context `{!NlohmannLaws, !WebsocketppLaws}.
Context {E : Type} (handlers : Handlers E).
Implicit Types w : World E.

Lemma wp_publications_of hdl p Q w :
  holds (srv w) hdl p →
  wp (publications_of (E:=E) hdl) Q w ↔ Q (inr (Publications.live p)) w.
Proof. intros [Hm _]. unfold publications_of. rewrite wp_server, Hm. done. Qed.

Lemma only_nil hdl h : only hdl [] h = [].
Proof. unfold only. by case_decide. Qed.

Lemma advertise_one_run hdl first p adv w :
  handler_returns (_clientAdvertiseHandler handlers) →
  is_u32 (adv_channelId adv) → holds (srv w) hdl p →
  wp (advertise_one handlers hdl first (ClientAdvertisement_to_json adv))
     (λ r w', r = inr tt ∧
        srv w' = set_publications hdl (Publications.advertise first p adv) (srv w) ∧
        emits (only hdl (Publications.reply first p adv))
          (calls_of (_clientAdvertiseHandler handlers) EvClientAdvertise hdl
             (Publications.announced first p [adv])) w w') w.
Proof.
  intros Hret Hid Hh. unfold advertise_one, ClientAdvertisement_to_json.
  rewrite wp_bind, wp_lift, (uint32_at_object _ _ (adv_channelId adv)) by solve_object.
  rewrite wp_bind, wp_publications_of by done.
  change (negb first && _) with (Publications.refused first p adv).
  unfold Publications.advertise, Publications.reply. simpl.
  destruct (Publications.refused first p adv) eqn:Href.
  - eapply wp_mono; [apply sends_sendStatus|]. intros r w' (-> & [Hs _] & Hem).
    split_and!; [done|rewrite Hs; symmetry; by apply set_publications_same|].
    unfold calls_of. by destruct (_clientAdvertiseHandler handlers).
  - rewrite wp_bind, wp_lift, (string_at_object _ _ (adv_topic adv)) by solve_object.
    rewrite wp_bind, wp_lift, (string_at_object _ _ (adv_encoding adv)) by solve_object.
    rewrite wp_bind, wp_lift, (string_at_object _ _ (adv_schemaName adv)) by solve_object.
    rewrite wp_bind. unfold upd_publications, upd_client. rewrite wp_update, wp_bind, wp_update.
    eapply wp_mono; [by apply call_only_calls|]. intros r w' (-> & Hs & Hem).
    split_and!; [done| |].
    + rewrite Hs. by apply (set_publications_advertise hdl p
        (λ m, (emplace (adv_channelId adv) (Publications.strip adv) m).1)
        (λ X, {[ adv_channelId adv ]} ∪ X)).
    + eapply emits_ext; [exact Hem|intros h; by rewrite only_nil|done].
Qed.

Lemma advertise_list_run hdl first p advs w :
  handler_returns (_clientAdvertiseHandler handlers) →
  Forall (λ adv, is_u32 (adv_channelId adv)) advs → holds (srv w) hdl p →
  wp (for_each (ClientAdvertisement_to_json <$> advs) (advertise_one handlers hdl first))
     (λ r w', r = inr tt ∧
        srv w' = set_publications hdl (Publications.advertise_all first p advs) (srv w) ∧
        emits (only hdl (Publications.replies first p advs))
          (calls_of (_clientAdvertiseHandler handlers) EvClientAdvertise hdl
             (Publications.announced first p advs)) w w') w.
Proof.
  intros Hret. revert p w. induction advs as [|adv advs IH]; intros p w Hr Hh.
  { simpl. rewrite wp_ret. split_and!; [done|symmetry; by apply set_publications_same|].
    eapply emits_ext; [apply emits_refl|intros h; by rewrite only_nil|
                       by destruct (_clientAdvertiseHandler handlers)]. }
  apply Forall_cons in Hr as [Hid Hr]. cbn [fmap list_fmap for_each]. rewrite wp_bind.
  eapply wp_mono; [by apply (advertise_one_run hdl first p adv)|].
  intros r w1 (-> & Hs1 & Hem1).
  eapply wp_mono.
  { apply (IH (Publications.advertise first p adv)); [done|]. rewrite Hs1.
    apply set_publications_holds. destruct Hh as [_ (c & Hc & _)]. by exists c. }
  intros r w2 (-> & Hs2 & Hem2). split_and!; [done| |].
  - by rewrite Hs2, Hs1, set_publications_twice.
  - eapply emits_ext; [eapply emits_trans; [exact Hem1|exact Hem2]| |].
    + intros h. unfold only. by case_decide.
    + simpl. rewrite <-calls_of_app, app_nil_r. done.
Qed.

(** The client's advertise message, as the server handles it.  A client
    without publications is one whose message is its first. *)
Lemma client_advertise_run hdl c advs txt w :
  handler_returns (_clientAdvertiseHandler handlers) →
  Forall (λ adv, is_u32 (adv_channelId adv)) advs → _clients (srv w) !! hdl = Some c →
  advertise_text advs = inr txt →
  let first := bool_decide (_clientChannels (srv w) !! hdl = None) in
  let p := Publications.mk (default ∅ (_clientChannels (srv w) !! hdl))
             (advertisedChannels c) in
  wp (handleTextMessage handlers hdl txt)
     (λ r w', r = inr tt ∧
        srv w' = set_publications hdl (Publications.advertise_all first p advs) (srv w) ∧
        emits (only hdl (Publications.replies first p advs))
          (calls_of (_clientAdvertiseHandler handlers) EvClientAdvertise hdl
             (Publications.announced first p advs)) w w') w.
Proof.
  intros Hret Hr Hc Htxt first p. unfold advertise_text in Htxt. unfold wp.
  erewrite (handleTextMessage_dispatch handlers hdl "advertise");
    [|exact Htxt|solve_object|solve_object|by eexists].
  rewrite dispatch_advertise. fold (wp (handleAdvertise handlers hdl
    (json_object [("op", json_string "advertise");
                  ("channels", json_array (ClientAdvertisement_to_json <$> advs))]))
    (λ r w', r = inr tt ∧
        srv w' = set_publications hdl (Publications.advertise_all first p advs) (srv w) ∧
        emits (only hdl (Publications.replies first p advs))
          (calls_of (_clientAdvertiseHandler handlers) EvClientAdvertise hdl
             (Publications.announced first p advs)) w w') w).
  unfold handleAdvertise. rewrite wp_bind, wp_server, wp_bind, wp_update, wp_bind, wp_lift.
  erewrite elements_object; [|solve_object|solve_object]. rewrite items_array.
  assert ((emplace hdl ∅ (_clientChannels (srv w))).2 = first) as ->.
  { unfold emplace, first. by destruct (_clientChannels (srv w) !! hdl). }
  eapply wp_mono.
  { apply (advertise_list_run hdl first p); [done|done|]. split; [|by exists c]. simpl.
    unfold emplace. destruct (_clientChannels (srv w) !! hdl) eqn:Hp; simpl; [done|].
    apply lookup_insert_eq. }
  intros r w' (-> & Hs & Hem). split_and!; [done| |exact Hem].
  rewrite Hs. unfold set_publications, upd_clients, upd_clientChannels. simpl. f_equal.
  unfold emplace. destruct (_clientChannels (srv w) !! hdl); simpl; [done|].
  apply insert_insert_eq.
Qed.

Lemma unadvertise_one_run hdl p id w :
  handler_returns (_clientUnadvertiseHandler handlers) →
  is_u32 id → holds (srv w) hdl p →
  wp (unadvertise_one handlers hdl (json_number id))
     (λ r w', r = inr tt ∧
        srv w' = set_publications hdl (Publications.unadvertise p id) (srv w) ∧
        emits silent
          (calls_of (_clientUnadvertiseHandler handlers) EvClientUnadvertise hdl
             (Publications.withdrawn p [id])) w w') w.
Proof.
  intros Hret Hid Hh. unfold unadvertise_one.
  rewrite wp_bind, wp_lift, get_uint32_number, wp_bind, wp_publications_of by done.
  simpl. destruct (Publications.live p !! id) as [adv|] eqn:Hadv; simpl.
  - rewrite wp_bind. unfold upd_publications. rewrite wp_update.
    eapply wp_mono; [by apply call_only_calls|]. intros r w' (-> & Hs & Hem).
    split_and!; [done| |done]. rewrite Hs. by apply set_publications_unadvertise.
  - rewrite wp_ret. split_and!; [done| |].
    + unfold Publications.unadvertise. rewrite delete_id by done. symmetry.
      apply set_publications_same. by destruct p.
    + eapply emits_ext; [apply emits_refl|done|].
      by destruct (_clientUnadvertiseHandler handlers).
Qed.

Lemma unadvertise_list_run hdl p ids w :
  handler_returns (_clientUnadvertiseHandler handlers) →
  Forall is_u32 ids → holds (srv w) hdl p →
  wp (for_each (json_number <$> ids) (unadvertise_one handlers hdl))
     (λ r w', r = inr tt ∧
        srv w' = set_publications hdl (Publications.unadvertise_all p ids) (srv w) ∧
        emits silent
          (calls_of (_clientUnadvertiseHandler handlers) EvClientUnadvertise hdl
             (Publications.withdrawn p ids)) w w') w.
Proof.
  intros Hret. revert p w. induction ids as [|id ids IH]; intros p w Hr Hh.
  { simpl. rewrite wp_ret. split_and!; [done|symmetry; by apply set_publications_same|].
    eapply emits_ext; [apply emits_refl|done|by destruct (_clientUnadvertiseHandler handlers)]. }
  apply Forall_cons in Hr as [Hid Hr]. cbn [fmap list_fmap for_each]. rewrite wp_bind.
  eapply wp_mono; [by apply (unadvertise_one_run hdl p id)|].
  intros r w1 (-> & Hs1 & Hem1).
  eapply wp_mono.
  { apply (IH (Publications.unadvertise p id)); [done|]. rewrite Hs1.
    apply set_publications_holds. destruct Hh as [_ (c & Hc & _)]. by exists c. }
  intros r w2 (-> & Hs2 & Hem2). split_and!; [done| |].
  - by rewrite Hs2, Hs1, set_publications_twice.
  - eapply emits_ext; [eapply emits_trans; [exact Hem1|exact Hem2]|done|].
    simpl. rewrite <-calls_of_app, app_nil_r. done.
Qed.

(** The client's unadvertise message, as the server handles it. *)
Lemma client_unadvertise_run hdl p ids txt w :
  handler_returns (_clientUnadvertiseHandler handlers) →
  Forall is_u32 ids → holds (srv w) hdl p →
  unadvertise_text ids = inr txt →
  wp (handleTextMessage handlers hdl txt)
     (λ r w', r = inr tt ∧
        srv w' = set_publications hdl (Publications.unadvertise_all p ids) (srv w) ∧
        emits silent
          (calls_of (_clientUnadvertiseHandler handlers) EvClientUnadvertise hdl
             (Publications.withdrawn p ids)) w w') w.
Proof.
  intros Hret Hr Hh Htxt. unfold unadvertise_text in Htxt. unfold wp.
  erewrite (handleTextMessage_dispatch handlers hdl "unadvertise");
    [|exact Htxt|solve_object|solve_object|by destruct Hh as [_ (c & ? & _)]; exists c].
  rewrite dispatch_unadvertise. unfold handleUnadvertise, bind, server, gets.
  rewrite (proj1 Hh). unfold lift. erewrite elements_object; [|solve_object|solve_object].
  rewrite items_array. by apply unadvertise_list_run.
Qed.

(** Without a publication there is nothing to unadvertise. *)
Lemma client_unadvertise_none hdl ids txt w :
  is_Some (_clients (srv w) !! hdl) → _clientChannels (srv w) !! hdl = None →
  unadvertise_text ids = inr txt →
  handleTextMessage handlers hdl txt w =
  sendStatus hdl Error "Client has no advertised channels" w.
Proof.
  intros Hc Hno Htxt. unfold unadvertise_text in Htxt.
  erewrite (handleTextMessage_dispatch handlers hdl "unadvertise");
    [|exact Htxt|solve_object|solve_object|done].
  rewrite dispatch_unadvertise. unfold handleUnadvertise, bind, server, gets. by rewrite Hno.
Qed.
End messages.
