(* ===== verification/SmokeTest.v ===== *)
(** * Publishing, as in the smoke tests

    The clients of [smoke_test.cpp] connect, advertise a channel, publish on it
    and unadvertise it again.  What such a client sends, and what the server does
    with it, up to what the owner's handlers do. *)

From Stdlib Require Import Strings.Byte.
From S2P Require Import Prelude Serialization Common Logging Interfaces Server ServerFacts.
From S2P Require Import ServerInvariant ServerSpec Client Protocol EndToEnd Publications.

Local Open Scope Z_scope.
Local Open Scope string_scope.
Local Open Scope list_scope.

Definition frames_of (t1 : string) (frame : list byte) (t2 : string) : list Frame :=
  [TextFrame t1; BinaryFrame frame; TextFrame t2].

Section client.
Context `{Platform, Nlohmann, WebsocketppClient}.

(** The client's part of the test: [arrivals] is what its thread gets while it
    waits for the connection, and a failed assertion leaves the test.
    @src ros2_foxglove_bridge/tests/smoke_test.cpp:98-103 testPublishing *)
Definition testPublishing (uri : string) (arrivals : list Arrival)
    (advertisement : ClientAdvertisement) (buffer : list byte) : M TestWorld unit :=
  on_client (connect_future uri) ;;;
  wait_for "" arrivals openPromise "ASSERT_EQ" ;;;
  on_client (advertise [advertisement]) ;;;
  on_client (publish (adv_channelId advertisement) buffer) ;;;
  on_client (unadvertise [adv_channelId advertisement]).

(** The client's connection is asked for one frame after the other. *)
Definition sends_all (frames : list Frame) : M ClientState unit :=
  for_each frames (λ f, let! con := gets _con in on_endpoint (wc_send con f)).

Context (uri : string) `{!ReliableClient uri}.

(** Without a handler, what comes before the frames are sent is dropped. *)
Lemma arrivals_dropped frames c op :
  _textMessageHandler c = false → _binaryMessageHandler c = false →
  for_each (Arrived <$> frames) (on_arrival "") (mkTestWorld c op None None) =
    (mkTestWorld c op None None, inr tt).
Proof.
  intros Ht Hb. induction frames as [|f frames IH]; [done|]. cbn [fmap list_fmap for_each].
  erewrite bind_run; [exact IH|]. unfold on_arrival. erewrite bind_run by done.
  cbn [wsClient]. destruct f; cbn [messageHandler]; rewrite ?Ht, ?Hb; done.
Qed.

Lemma testPublishing_run greeting adv buffer c frame t1 t2 :
  fresh_endpoint (_endpoint c) → _textMessageHandler c = false → _binaryMessageHandler c = false →
  advertise_text [adv] = inr t1 → publish_data (adv_channelId adv) buffer = Some frame →
  unadvertise_text [adv_channelId adv] = inr t2 →
  ∃ con n,
    testPublishing uri (Opened :: (Arrived <$> greeting)) adv buffer (mkTestWorld c None None None) =
    on_client (sends_all [TextFrame t1; BinaryFrame frame; TextFrame t2])
      (mkTestWorld (mkClient (Some con) false false n) (Some tt) None None) ∧
    (sends_all [TextFrame t1; BinaryFrame frame; TextFrame t2]
      (mkClient (Some con) false false n)).2 = inr tt.
Proof.
  intros Hfresh Ht Hb Ht1 Hf Ht2. destruct (connect_run uri c Hfresh) as (con & n & Hn & Hc).
  rewrite Ht, Hb in Hc. exists con, n.
  assert (∀ f n, connected con n → ∃ n', connected con n' ∧ (let! con := gets _con in on_endpoint (wc_send con f) : M ClientState unit)
    (mkClient (Some con) false false n) = (mkClient (Some con) false false n', inr tt)) as Hsend.
  { intros f n0 Hn0. destruct (send_ok con f n0 Hn0) as (n' & Hn' & Hcn). exists n'.
    split; [done|]. erewrite bind_run by done. unfold on_endpoint. cbn [_con _endpoint]. by rewrite Hn'. }
  destruct (Hsend (TextFrame t1) n Hn) as (n1 & Hc1 & Hn1).
  destruct (Hsend (BinaryFrame frame) n1 Hc1) as (n2 & Hc2 & Hn2).
  destruct (Hsend (TextFrame t2) n2 Hc2) as (n3 & _ & Hn3).
  assert (sends_all [TextFrame t1; BinaryFrame frame; TextFrame t2] (mkClient (Some con) false false n) =
    (mkClient (Some con) false false n3, inr tt)) as Hall.
  { unfold sends_all. cbn [for_each]. erewrite bind_run by exact Hn1. erewrite bind_run by exact Hn2.
    by erewrite bind_run by exact Hn3. }
  split; [|by rewrite Hall]. erewrite (on_client_run (sends_all _)) by exact Hall.
  unfold testPublishing. erewrite bind_run by (by apply on_client_run).
  cbn [wsClient openPromise channelPromise msgPromise]. erewrite bind_run.
  2: { unfold wait_for. set (t := mkTestWorld (mkClient (Some con) false false n) (Some tt) None None).
       rewrite (bind_run _ _ _ t tt); [done|]. erewrite noexcept_run; [done|].
       cbn [for_each].
       rewrite (bind_run (on_arrival "" Opened) _ _ t tt) by done. by apply arrivals_dropped. }
  erewrite bind_run.
  2: { apply on_client_run. unfold advertise. erewrite bind_run; [exact Hn1|]. unfold lift. by rewrite Ht1. }
  erewrite bind_run.
  2: { apply on_client_run. unfold publish. rewrite Hf. exact Hn2. }
  apply on_client_run. unfold unadvertise. erewrite bind_run; [exact Hn3|]. unfold lift. by rewrite Ht2.
Qed.

(** The test's own client, which has just been constructed. *)
Lemma testPublishing_fresh greeting adv buffer client t1 t2 :
  Client_new = inr client →
  advertise_text [adv] = inr t1 → unadvertise_text [adv_channelId adv] = inr t2 →
  let frames := frames_of t1 (publish_frame (adv_channelId adv) buffer) t2 in
  ∃ con n,
    testPublishing uri (Opened :: (Arrived <$> greeting)) adv buffer (mkTestWorld client None None None) =
    on_client (sends_all frames) (mkTestWorld (mkClient (Some con) false false n) (Some tt) None None) ∧
    (sends_all frames (mkClient (Some con) false false n)).2 = inr tt.
Proof.
  intros [Hfresh ->]%Client_new_fresh Ht1 Ht2.
  apply testPublishing_run; [done..|apply publish_data_frame|done].
Qed.
End client.

Section server.
Context `{Platform, Iteration, LogChannels, Nlohmann, Websocketpp}.
Context `{!NlohmannLaws, !WebsocketppLaws}.
Context {E : Type} (handlers : Handlers E).
Implicit Types w : World E.

Definition with_env (e : E) (evs : list Event) (s : ServerState) w : World E :=
  mkWorld s (net w) e (out w ++ evs).

(** The first channel of a client that has not advertised before. *)
Lemma handleMessage_advertises f ts hdl c adv text w :
  _clientAdvertiseHandler handlers = Some f → is_u32 (adv_channelId adv) →
  _clients (srv w) !! hdl = Some c → _clientChannels (srv w) !! hdl = None →
  advertise_text [adv] = inr text → (f (Publications.strip adv) hdl (env w)).2 = inr tt →
  handleMessage handlers ts hdl (TextFrame text) w =
    (with_env (f (Publications.strip adv) hdl (env w)).1
       [EvClientAdvertise (Publications.strip adv) hdl]
       (set_publications hdl (Publications.mk {[ adv_channelId adv := Publications.strip adv ]}
          ({[ adv_channelId adv ]} ∪ advertisedChannels c)) (srv w)) w, inr tt).
Proof.
  intros Hf Hid Hc Hno Htext Hok. unfold handleMessage, try_catch.
  unfold advertise_text in Htext.
  erewrite (handleTextMessage_dispatch handlers hdl "advertise");
    [|exact Htext|solve_object|solve_object|by eexists].
  rewrite dispatch_advertise. unfold handleAdvertise. erewrite bind_run by done.
  erewrite bind_run by done. erewrite bind_run.
  2: { unfold lift. by erewrite elements_object by solve_object. }
  rewrite items_array. cbn [fmap list_fmap for_each]. erewrite bind_run; [done|].
  unfold advertise_one, ClientAdvertisement_to_json. erewrite bind_run.
  2: { unfold lift. by erewrite (uint32_at_object _ _ (adv_channelId adv)) by solve_object. }
  assert (emplace hdl (∅ : gmap ClientChannelId ClientAdvertisement) (_clientChannels (srv w)) =
    (<[ hdl := ∅ ]> (_clientChannels (srv w)), true)) as Hem by (unfold emplace; by rewrite Hno).
  erewrite bind_run.
  2: { unfold publications_of, server, gets. done. }
  rewrite Hem. cbn [snd negb andb].
  erewrite bind_run. 2: { unfold lift. by erewrite (string_at_object _ _ (adv_topic adv)) by solve_object. }
  erewrite bind_run. 2: { unfold lift. by erewrite (string_at_object _ _ (adv_encoding adv)) by solve_object. }
  erewrite bind_run. 2: { unfold lift. by erewrite (string_at_object _ _ (adv_schemaName adv)) by solve_object. }
  cbv zeta. fold (Publications.strip adv). erewrite bind_run by done. erewrite bind_run by done.
  unfold call. rewrite Hf. erewrite bind_run by done. unfold on_env. simpl.
  destruct (f (Publications.strip adv) hdl (env w)) as [e r]. simpl in *. subst r.
  unfold with_env. do 2 f_equal. unfold set_publications, upd_clients, upd_clientChannels. simpl.
  rewrite Hem. f_equal.
  - apply alter_ext. rewrite Hc. by intros c' [= <-].
  - apply map_eq. intros h. destruct (decide (hdl = h)) as [<-|Hne]; simplify_map_eq; [|done].
    by rewrite emplace_fresh.
Qed.

(** What is published on a channel that is live reaches the handler. *)
Lemma handleMessage_publishes f ts hdl pubs adv id buffer w :
  big_endian = false → is_u32 id → _clientMessageHandler handlers = Some f →
  _clientChannels (srv w) !! hdl = Some pubs → pubs !! id = Some adv →
  (f (published ts adv id buffer) hdl (env w)).2 = inr tt →
  handleMessage handlers ts hdl (BinaryFrame (publish_frame id buffer)) w =
    (with_env (f (published ts adv id buffer) hdl (env w)).1
       [EvClientMessage (published ts adv id buffer) hdl] (srv w) w, inr tt).
Proof.
  intros Hle Hid Hf Hpubs Hadv Hok. unfold handleMessage, try_catch.
  rewrite (client_publish_eq handlers ts hdl pubs) by done.
  unfold received_id. rewrite Hle, u32_id, Hadv by done. unfold call. rewrite Hf.
  erewrite bind_run by done. unfold on_env. simpl.
  destruct (f _ hdl (env w)) as [e r]. simpl in *. by subst r.
Qed.

(** A live channel is unadvertised. *)
Lemma handleMessage_unadvertises f ts hdl p id adv text w :
  _clientUnadvertiseHandler handlers = Some f → is_u32 id → holds (srv w) hdl p →
  Publications.live p !! id = Some adv → unadvertise_text [id] = inr text →
  (f id hdl (env w)).2 = inr tt →
  handleMessage handlers ts hdl (TextFrame text) w =
    (with_env (f id hdl (env w)).1 [EvClientUnadvertise id hdl]
       (set_publications hdl (Publications.unadvertise p id) (srv w)) w, inr tt).
Proof.
  intros Hf Hid Hh Hadv Htext Hok. unfold handleMessage, try_catch. unfold unadvertise_text in Htext.
  erewrite (handleTextMessage_dispatch handlers hdl "unadvertise");
    [|exact Htext|solve_object|solve_object|by destruct Hh as [_ (c & ? & _)]; exists c].
  rewrite dispatch_unadvertise. unfold handleUnadvertise. erewrite bind_run by done.
  rewrite (proj1 Hh). erewrite bind_run.
  2: { unfold lift. by erewrite elements_object by solve_object. }
  rewrite items_array. cbn [fmap list_fmap for_each]. erewrite bind_run; [done|].
  unfold unadvertise_one. erewrite bind_run. 2: { unfold lift. by rewrite get_uint32_number. }
  erewrite bind_run. 2: { unfold publications_of, server, gets. by rewrite (proj1 Hh). }
  simpl. rewrite Hadv. erewrite bind_run by done. unfold call. rewrite Hf.
  erewrite bind_run by done. unfold on_env. simpl.
  destruct (f id hdl (env w)) as [e r]. simpl in *. subst r. unfold with_env. do 2 f_equal.
  by apply set_publications_unadvertise.
Qed.

(** ** The three frames, one after the other *)

Lemma publishing_run fa fm fu ts hdl c adv buffer t1 t2 w e1 e2 e3 :
  let id := adv_channelId adv in
  let sadv := Publications.strip adv in
  let msg := published ts sadv id buffer in
  big_endian = false → is_u32 id → _clients (srv w) !! hdl = Some c →
  _clientChannels (srv w) !! hdl = None →
  advertise_text [adv] = inr t1 → unadvertise_text [id] = inr t2 →
  _clientAdvertiseHandler handlers = Some fa → _clientMessageHandler handlers = Some fm →
  _clientUnadvertiseHandler handlers = Some fu →
  fa sadv hdl (env w) = (e1, inr tt) → fm msg hdl e1 = (e2, inr tt) → fu id hdl e2 = (e3, inr tt) →
  ∃ s', for_each (frames_of t1 (publish_frame id buffer) t2) (handleMessage handlers ts hdl) w =
    (mkWorld s' (net w) e3 (out w ++ [EvClientAdvertise sadv hdl; EvClientMessage msg hdl;
                                      EvClientUnadvertise id hdl]), inr tt) ∧
    s' = set_publications hdl (Publications.mk ∅ ({[ id ]} ∪ advertisedChannels c)) (srv w).
Proof.
  intros id sadv msg Hle Hid Hc Hno Ht1 Ht2 Hfa Hfm Hfu Hr1 Hr2 Hr3. subst id sadv msg.
  eexists. split; [|reflexivity]. unfold frames_of. cbn [for_each].
  set (p := Publications.mk {[ adv_channelId adv := Publications.strip adv ]}
    ({[ adv_channelId adv ]} ∪ advertisedChannels c)).
  set (s1 := set_publications hdl p (srv w)).
  assert (holds s1 hdl p) as Hh by (apply set_publications_holds; by eexists).
  set (w1 := with_env e1 [EvClientAdvertise (Publications.strip adv) hdl] s1 w).
  rewrite (bind_run _ _ _ w1 tt).
  2: { rewrite (handleMessage_advertises fa ts hdl c adv) by (done || by rewrite Hr1). by rewrite Hr1. }
  set (msg := published ts (Publications.strip adv) (adv_channelId adv) buffer) in *.
  set (w2 := with_env e2 [EvClientMessage msg hdl] s1 w1).
  rewrite (bind_run _ _ _ w2 tt).
  2: { rewrite (handleMessage_publishes fm ts hdl (Publications.live p) (Publications.strip adv));
         [|done..|apply Hh|apply lookup_singleton_eq|unfold w1; cbn [with_env env]; fold msg; by rewrite Hr2].
       unfold w1. cbn [with_env env]. fold msg. by rewrite Hr2. }
  erewrite bind_run; [done|].
  rewrite (handleMessage_unadvertises fu ts hdl p (adv_channelId adv) (Publications.strip adv));
    [|done..|apply lookup_singleton_eq|done|unfold w2; cbn [with_env env]; by rewrite Hr3].
  unfold w2, w1. cbn [with_env env srv]. rewrite Hr3. unfold with_env. cbn [fst net out].
  do 2 f_equal; [|by rewrite <-!app_assoc].
  unfold s1. rewrite set_publications_twice. f_equal. unfold Publications.unadvertise. simpl.
  by rewrite delete_singleton_eq.
Qed.
End server.
