(* ===== verification/Reachable.v ===== *)
(** * The runs of the server

    The server as a transition system: its member functions, called in any
    order by its owner and by websocketpp, interleaved with anything the two do
    on their own.  Then what its shutdown does. *)

From Stdlib Require Import Strings.Byte.
From S2P Require Import Prelude Serialization Common Logging Interfaces Server ServerFacts.
From S2P Require Import ServerInvariant ServerSpec.

Local Open Scope Z_scope.

(** What websocketpp's run loop may have to run next. *)
Inductive Pending :=
| PValidate (hdl : ConnHandle)
| POpen (hdl : ConnHandle)
| PMessage (timestamp : Z) (hdl : ConnHandle) (msg : Frame)
| PClose (hdl : ConnHandle).

Section steps.
Context `{Platform, Iteration, LogChannels, Nlohmann, Websocketpp}.
Context `{!NlohmannLaws, !WebsocketppLaws}.
Context {E : Type} (handlers : Handlers E).
Implicit Types w : World E.

Definition run_pending (p : Pending) : M (World E) unit :=
  match p with
  | PValidate hdl => validateConnection hdl ;;; ret tt
  | POpen hdl => handleConnectionOpened hdl
  | PMessage timestamp hdl msg => handleMessage handlers timestamp hdl msg
  | PClose hdl => handleConnectionClosed handlers hdl
  end.

(** A connection opens once: when it does, nothing is published on it. *)
Definition may_run (p : Pending) w : Prop :=
  match p with POpen hdl => _clientChannels (srv w) !! hdl = None | _ => True end.

(** [poll_one], when [next] says which handler is pending. *)
Definition poll (next : World E → option Pending) : M (World E) unit := λ w,
  match next w with Some p => run_pending p w | None => (w, inr tt) end.

Inductive server_step : World E → World E → Prop :=
| step_pending p w : may_run p w → server_step w (run_pending p w).1
| step_addChannel channel w : server_step w (addChannel channel w).1
| step_removeChannel chanId w : server_step w (removeChannel chanId w).1
| step_broadcastChannels w : server_step w (broadcastChannels w).1
| step_sendMessage hdl chanId timestamp data w :
    server_step w (sendMessage hdl chanId timestamp data w).1
| step_broadcastTime timestamp w : server_step w (broadcastTime timestamp w).1
| step_start host port w : server_step w (start host port w).1
| step_stop next w :
    (∀ w' p, next w' = Some p → may_run p w') → server_step w (stop (poll next) w).1
| step_outside w w' : srv w' = srv w → out w' = out w → server_step w w'.

Lemma keeps_run_pending p w : may_run p w → keeps_inv w (run_pending p w).1.
Proof.
  destruct p as [hdl|hdl|ts hdl msg|hdl]; simpl; intros Hp.
  - apply (preserves_bind keeps_inv); [apply keeps_validateConnection|].
    intros b. apply preserves_ret. tc_solve.
  - by apply keeps_handleConnectionOpened.
  - apply keeps_handleMessage.
  - apply keeps_handleConnectionClosed.
Qed.

Lemma keeps_poll next :
  (∀ w p, next w = Some p → may_run p w) → preserves keeps_inv (poll next).
Proof.
  intros Hn w. unfold poll. destruct (next w) as [p|] eqn:Hp; [|done].
  by apply keeps_run_pending, Hn.
Qed.

Lemma server_step_inv w w' : server_step w w' → keeps_inv w w'.
Proof.
  destruct 1 as [p w Hp|c w|ch w|w|hdl ch ts d w|ts w|host port w|next w Hn|w w' Hs _].
  - by apply keeps_run_pending.
  - exact (keeps_addChannel c w).
  - exact (keeps_removeChannel ch w).
  - exact (keeps_broadcastChannels w).
  - exact (keeps_sendMessage hdl ch ts d w).
  - exact (keeps_broadcastTime ts w).
  - exact (keeps_start host port w).
  - exact (keeps_stop _ (keeps_poll next Hn) w).
  - intros HI. by rewrite Hs.
Qed.

Lemma server_steps_inv w w' : rtc server_step w w' → keeps_inv w w'.
Proof. induction 1; [done|]. etrans; [by apply server_step_inv|done]. Qed.
End steps.

(** ** What the handlers keep of their owner *)

Section owner.
Context `{Platform, Iteration, LogChannels, Nlohmann, Websocketpp}.
Context {E : Type} (handlers : Handlers E) (R : E → E → Prop) `{!PreOrder R}.
Implicit Types w : World E.

Definition handler_keeps {X} (h : option (X → ConnHandle → M E unit)) : Prop :=
  ∀ f x hdl, h = Some f → preserves R (f x hdl).

Record HandlersKeep : Prop := mkHandlersKeep {
  keep_subscribe : handler_keeps (_subscribeHandler handlers);
  keep_unsubscribe : handler_keeps (_unsubscribeHandler handlers);
  keep_advertise : handler_keeps (_clientAdvertiseHandler handlers);
  keep_unadvertise : handler_keeps (_clientUnadvertiseHandler handlers);
  keep_message : handler_keeps (_clientMessageHandler handlers);
}.

Definition keeps_env w w' : Prop := R (env w) (env w').

#[export] Instance keeps_env_preorder : PreOrder keeps_env.
Proof. unfold keeps_env. split; [by intros w|]. intros w1 w2 w3 H12 H23. by etrans. Qed.

Lemma keeps_env_same {A} (m : M (World E) A) :
  preserves same_srv_env m → preserves keeps_env m.
Proof. intros Hm w. unfold keeps_env. by rewrite (proj2 (Hm w)). Qed.

Lemma keeps_env_call {X} (h : option (X → ConnHandle → M E unit)) e x hdl :
  handler_keeps h → preserves keeps_env (call h e x hdl).
Proof.
  intros Hh. unfold call. destruct h as [f|] eqn:Hf; [|apply preserves_ret; tc_solve].
  apply preserves_bind; [tc_solve|apply keeps_env_same; auto with cpp|intros _ w].
  unfold keeps_env, on_env. pose proof (Hh f x hdl eq_refl (env w)) as Hr.
  by destruct (f x hdl (env w)).
Qed.

(** Whatever websocketpp has the server do, the owner only changes as its
    handlers change it. *)
Lemma keeps_env_run_pending p : HandlersKeep → preserves keeps_env (run_pending handlers p).
Proof.
  intros []. destruct p; simpl;
    unfold validateConnection, handleConnectionOpened, handleMessage, handleConnectionClosed,
      handleTextMessage, dispatch_op, handleSubscribe, handleUnsubscribe, handleAdvertise,
      handleUnadvertise, subscribe_one, unsubscribe_one, advertise_one, unadvertise_one,
      handleBinaryMessage, client_at, publications_of, upd_publications, upd_client, on_net_;
    traverse (idtac; lazymatch goal with
    | |- preserves _ (bind _ _) => fail
    | |- preserves _ (call _ _ _ _) => by apply keeps_env_call
    | |- preserves _ (update _) => by intros w; unfold keeps_env
    | |- preserves _ _ => apply keeps_env_same; solve [auto 2 with cpp]
    end).
Qed.

Lemma keeps_env_start host port : preserves keeps_env (start (E:=E) host port).
Proof.
  unfold start, throw_if, on_net_ec, on_net_.
  traverse (idtac; lazymatch goal with
    | |- preserves _ (bind _ _) => fail
    | |- preserves _ (update _) => by intros w; unfold keeps_env
    | |- preserves _ _ => apply keeps_env_same; solve [auto 2 with cpp]
    end).
Qed.
End owner.

Lemma handlers_keep_mono {E} (handlers : Handlers E) (R R' : E → E → Prop) :
  HandlersKeep handlers R → (∀ e e', R e e' → R' e e') → HandlersKeep handlers R'.
Proof.
  intros [Hs Hu Ha Hd Hm] HR.
  split; intros f x hdl Hf e; apply HR; [by apply Hs|by apply Hu|by apply Ha|by apply Hd|by apply Hm].
Qed.

(** ** Computations that always return *)

Section total.
Context {S : Type}.

Definition total {A} (m : M S A) : Prop := ∀ s, is_ok (m s).2 = true.

Lemma total_bind {A B} (m : M S A) (f : A → M S B) :
  total m → (∀ a, total (f a)) → total (bind m f).
Proof. intros Hm Hf s. unfold bind. specialize (Hm s). destruct (m s) as [s' [e|a]]; [done|apply Hf]. Qed.

Lemma total_for_each {X} (l : list X) (body : X → M S unit) :
  (∀ x, total (body x)) → total (for_each l body).
Proof. intros Hb. induction l; simpl; [done|]. by apply total_bind. Qed.

Lemma total_when b (m : M S unit) : total m → total (when b m).
Proof. by destruct b. Qed.

(** What holds at the end of a computation that ends normally. *)
Definition finally {A} (P : S → Prop) (m : M S A) : Prop :=
  ∀ s, is_ok (m s).2 = true → P (m s).1.

Lemma finally_bind {A B} (P : S → Prop) (m : M S A) (f : A → M S B) :
  (∀ a, finally P (f a)) → finally P (bind m f).
Proof. intros Hf s. unfold bind. destruct (m s) as [s' [e|a]]; [done|apply Hf]. Qed.
End total.

(** ** Shutdown *)

Section stop.
Context `{Platform, Iteration, LogChannels, Nlohmann, Websocketpp}.
Context {E : Type}.
Implicit Types w : World E.

Lemma total_alog msg : total (alog (E:=E) msg).
Proof. done. Qed.
Lemma total_elog msg : total (elog (E:=E) msg).
Proof. done. Qed.
Lemma total_on_net_ f : total (on_net_ (E:=E) f).
Proof. done. Qed.
Lemma total_on_net_ec f : total (on_net_ec (E:=E) f).
Proof. intros w. unfold on_net_ec, on_net. by destruct (f (net w)). Qed.

Lemma total_stop_wait poll_one fuel ms :
  total poll_one → total (stop_wait (E:=E) poll_one fuel ms).
Proof.
  intros Hp. revert ms. induction fuel as [|fuel IH]; intros ms; simpl; [done|].
  apply total_bind; [done|]. intros b. case_match; [|done]. apply total_bind; auto.
Qed.

(** The time limit ends the loop before the fuel does. *)
Lemma stop_wait_ends poll_one fuel ms w :
  MAX_SHUTDOWN_MS ≤ ms + SLEEP_MS * Z.of_nat fuel →
  (stop_wait poll_one (S fuel) ms w).2 ≠ inr false.
Proof.
  revert ms w. induction fuel as [|fuel IH]; intros ms w Hms.
  - unfold stop_wait, bind, gets. rewrite (proj2 (Z.ltb_ge ms MAX_SHUTDOWN_MS)) by lia.
    by rewrite andb_false_r.
  - remember (S fuel) as n. simpl. unfold bind, gets. case_match; [|done].
    destruct (poll_one w) as [w' [e|a]]; [done|]. subst n. apply IH. lia.
Qed.

(** More fuel changes nothing. *)
Lemma stop_wait_fuel poll_one fuel1 fuel2 ms w :
  MAX_SHUTDOWN_MS ≤ ms + SLEEP_MS * Z.of_nat fuel1 → (fuel1 ≤ fuel2)%nat →
  stop_wait (E:=E) poll_one (S fuel2) ms w = stop_wait poll_one (S fuel1) ms w.
Proof.
  revert fuel2 ms w. induction fuel1 as [|fuel1 IH]; intros fuel2 ms w Hms Hle.
  - simpl. unfold bind, gets. rewrite (proj2 (Z.ltb_ge ms MAX_SHUTDOWN_MS)) by lia.
    by rewrite andb_false_r.
  - destruct fuel2 as [|fuel2]; [lia|].
    remember (S fuel1) as n1. remember (S fuel2) as n2. simpl. unfold bind, gets.
    case_match; [|done]. destruct (poll_one w) as [w' [e|a]]; [done|].
    subst n1 n2. apply IH; lia.
Qed.

Definition shut_down w : Prop := _clients (srv w) = ∅ ∧ _serverThread (srv w) = false.

(** The thread of the run loop is joined for good. *)
Definition join_blocks (r : result unit) w : Prop :=
  r = inl (Blocked "std::thread::join") ∧ _serverThread (srv w) = true ∧ ws_join (net w) = None.

(** What [stop] does once the connections are closed. *)
Lemma stop_tail_run w :
  wp (alog "All WebSocket connections closed" ;;;
      let! thread := server (E:=E) _serverThread in
      when thread
        (alog "Waiting for WebSocket server run loop to terminate" ;;;
         join_server_thread ;;;
         update (set_thread false) ;;;
         alog "WebSocket server run loop terminated") ;;;
      update (upd_clients (λ _, ∅)))
    (λ r w', (r = inr tt ∧ shut_down w') ∨ join_blocks r w') w.
Proof.
  unfold join_blocks, shut_down, wp, join_server_thread, on_net, server, gets, bind, when, alog, emit,
    update, modify. simpl. destruct (_serverThread (srv w)) eqn:Ht; simpl; [|by left].
  destruct (ws_join (net w)) as [n|] eqn:Hj; simpl; [by left|by right].
Qed.

Ltac total_step := repeat
    match goal with
    | |- total (bind _ _) => apply total_bind; [|intros ?]
    | |- total (when _ _) => apply total_when
    | |- total (for_each _ _) => apply total_for_each; intros ?
    | |- total (stop_wait _ _ _) => apply total_stop_wait
    | |- total (match _ with _ => _ end) => case_match
    | |- total (on_net_ec _) => apply total_on_net_ec
    | |- total _ => done
    end.

(** A server that runs is stopped, unless a handler that is run meanwhile throws or
    the thread of the run loop never ends. *)
Lemma stop_run poll_one w :
  ws_stopped (net w) = false →
  wp (stop (E:=E) poll_one) (λ r w', (total poll_one → r = inr tt ∨ join_blocks r w') ∧
    (r = inr tt → shut_down w')) w.
Proof.
  intros Hns. set (Q := λ (r : result unit) (w' : World E), _).
  assert (∀ A (m : M (World E) A) f w0, (total poll_one → total m) → (∀ a w', wp (f a) Q w') →
    wp (bind m f) Q w0) as Hstep.
  { intros A m f w0 Hm Hf. rewrite wp_bind. unfold wp at 1. destruct (m w0) as [w' [e|a]] eqn:Heq; simpl.
    - split; [|done]. intros Ht. specialize (Hm Ht w0). by rewrite Heq in Hm.
    - apply Hf. }
  unfold stop. rewrite wp_bind, wp_gets, Hns.
  clear Hns. do 7 (apply Hstep; [intros Hp; total_step|clear w; intros ? w]).
  eapply wp_mono; [apply stop_tail_run|]. intros r w' [[-> Hd]|Hb]; split; auto.
  destruct Hb as [-> _]. done.
Qed.

(** ** When the join does not wait for good *)

(** [run()] returns once the endpoint has been stopped, and has returned when it says
    that it is stopped. *)
Definition run_returns_when_stopped : Prop :=
  (∀ n, is_Some (ws_join (ws_stop n))) ∧ (∀ n, ws_stopped n = true → is_Some (ws_join n)).

(** The network when [stop] looks for the connections it has to close. *)
Definition not_listening (n : Net) : Net :=
  let n := ws_stop_perpetual n in
  if ws_is_listening n then (ws_stop_listening n).1 else n.

(** A client that [stop] finds connected. *)
Definition somebody_connected w : Prop :=
  ∃ hdl, is_Some (_clients (srv w) !! hdl) ∧ ws_has_con (not_listening (net w)) hdl = true.

Lemma wp_total {A B} (m : M (World E) A) (f : A → M (World E) B) (Q : result B → World E → Prop) w :
  total m → (∀ a w', wp (f a) Q w') → wp (bind m f) Q w.
Proof.
  intros Hm Hf. rewrite wp_bind. unfold wp at 1. specialize (Hm w).
  destruct (m w) as [w' [e|a]]; [done|apply Hf].
Qed.

(** The loop that waits, and the stop that is forced when it was in vain. *)
Lemma close_run poll_one connections w :
  run_returns_when_stopped → total poll_one →
  wp (let! _ := stop_wait (E:=E) poll_one stop_fuel 0 in
      let! stopped := gets (λ w, ws_stopped (net w)) in
      when (negb stopped)
        (elog "Failed to close all connections, forcefully stopping" ;;;
         for_each connections (λ hdl,
           let! con := gets (λ w, ws_has_con (net w) hdl) in
           when con
             (let! endpoint := remoteEndpointString hdl in
              elog ("Terminating connection to " +:+ endpoint) ;;;
              emit (EvTerminate hdl) ;;;
              on_net_ (ws_terminate hdl))) ;;;
         on_net_ ws_stop))
    (λ r w', r = inr tt ∧ is_Some (ws_join (net w'))) w.
Proof.
  intros [Hstop Hstopped] Hp. apply wp_total; [by apply total_stop_wait|]. intros _ w1.
  rewrite wp_bind, wp_gets. destruct (ws_stopped (net w1)) eqn:Hs; simpl.
  - rewrite wp_ret. split; [done|by apply Hstopped].
  - apply wp_total; [total_step|]. intros _ w2. apply wp_total; [total_step|]. intros _ w3.
    split; [done|apply Hstop].
Qed.

(** When some client is connected, [stop] closes it and then stops the endpoint, so
    the join returns. *)
Lemma stop_returns poll_one w :
  run_returns_when_stopped → total poll_one → ws_stopped (net w) = false →
  somebody_connected w → (stop (E:=E) poll_one w).2 = inr tt.
Proof.
  intros Hrun Hp Hns (hdl & [c Hc] & Hcon). change (wp (stop poll_one) (λ r _, r = inr tt) w).
  unfold stop. rewrite wp_bind, wp_gets, Hns. unfold alog at 1.
  rewrite wp_bind, wp_emit. unfold on_net_ at 1. rewrite wp_bind, wp_on_net. simpl.
  rewrite wp_bind, wp_gets. simpl.
  set (Q := λ (r : result unit) w1, r = inr tt ∧ srv w1 = srv w ∧ net w1 = not_listening (net w)).
  rewrite wp_bind. apply (wp_mono _ Q).
  { unfold Q, not_listening. rewrite wp_when. destruct (ws_is_listening _); [|done].
    unfold on_net_ec. rewrite wp_bind, wp_on_net. destruct (ws_stop_listening _) as [n [msg|]]; done. }
  intros r w1 (-> & Hs1 & Hn1). rewrite wp_bind, wp_server, wp_bind, wp_gets, Hs1, Hn1.
  rewrite bool_decide_eq_false_2.
  2: { intros Hnil. assert (hdl ∈ []) as Hin; [|by apply not_elem_of_nil in Hin].
    rewrite <-Hnil. apply list_elem_of_In, List.filter_In. split; [|done].
    apply list_elem_of_In, list_elem_of_fmap. exists (hdl, c). split; [done|].
    by apply elem_of_iter_map. }
  cbn [negb when]. rewrite wp_bind. eapply wp_mono.
  { apply wp_total; [total_step|]. intros _ w2. apply wp_total; [total_step|]. intros _ w3.
    by apply close_run. }
  intros r w4 (-> & n & Hj).
  unfold wp, join_server_thread, on_net, server, gets, bind, when, alog, emit, update, modify. simpl.
  destruct (_serverThread (srv w4)); simpl; [by rewrite Hj|done].
Qed.
End stop.
