(* ===== verification/Session.v ===== *)
(** * Sessions of clients, abstractly

    What the server keeps for each connected client is an account: its
    subscriptions, its publications, and the ids it ever advertised.  A session is
    what the clients send and do, in the order in which the server handles it; the
    accounts, the frames each client gets, and the calls the server's owner gets
    are functions of the session. *)

From Stdlib Require Import Strings.Byte.
From S2P Require Import Prelude Serialization Common Logging Interfaces Server ServerFacts.
From S2P Require Import ServerInvariant ServerSpec Client Protocol Publications Reachable.

Local Open Scope Z_scope.
Local Open Scope string_scope.
Local Open Scope list_scope.

Module Session.
(** What a client asks for through [websocket_client.hpp], and its end. *)
Inductive Request :=
| Subscribe (subs : list (SubscriptionId * ChannelId))
| Unsubscribe (sids : list SubscriptionId)
| Advertise (advs : list ClientAdvertisement)
| Unadvertise (ids : list ClientChannelId)
| Publish (id : ClientChannelId) (buffer : list byte)
| Close.

Record Account := mkAccount {
  subscriptions : gmap ChannelId SubscriptionId;
  publications : option (gmap ClientChannelId ClientAdvertisement);
  ever_advertised : gset ClientChannelId;
}.

Definition Accounts : Type := ConnHandle → option Account.

(** A request, the client it is from, and the time it is handled. *)
Record Input := mkInput {
  handled_at : Z;
  from : ConnHandle;
  request : Request;
}.

(** The numbers are what the client's types hold. *)
Definition sound (q : Request) : Prop :=
  match q with
  | Subscribe subs => Forall (λ r, is_u32 r.1 ∧ is_u32 r.2) subs
  | Unsubscribe ids | Unadvertise ids => Forall is_u32 ids
  | Advertise advs => Forall (λ adv, is_u32 (adv_channelId adv)) advs
  | Publish id _ => is_u32 id
  | Close => True
  end.

Definition publications_of (a : Account) : Publications.t :=
  Publications.mk (default ∅ (publications a)) (ever_advertised a).
Definition first_publication (a : Account) : bool := bool_decide (publications a = None).

(** The account after the request; [channels] are those of the server. *)
Definition step (channels : gset ChannelId) (a : Account) (q : Request) : option Account :=
  match q with
  | Subscribe subs =>
      Some (mkAccount (Subscriptions.run channels (subscriptions a) subs) (publications a)
        (ever_advertised a))
  | Unsubscribe sids =>
      Some (mkAccount (Subscriptions.cancel_all (subscriptions a) sids) (publications a)
        (ever_advertised a))
  | Advertise advs =>
      let p := Publications.advertise_all (first_publication a) (publications_of a) advs in
      Some (mkAccount (subscriptions a) (Some (Publications.live p)) (Publications.ever p))
  | Unadvertise ids =>
      match publications a with
      | None => Some a
      | Some _ =>
          let p := Publications.unadvertise_all (publications_of a) ids in
          Some (mkAccount (subscriptions a) (Some (Publications.live p)) (Publications.ever p))
      end
  | Publish _ _ => Some a
  | Close => None
  end.

Definition set_account (A : Accounts) (hdl : ConnHandle) (a : option Account) : Accounts :=
  λ h, if decide (h = hdl) then a else A h.

Fixpoint run (channels : gset ChannelId) (A : Accounts) (l : list Input) : Accounts :=
  match l with
  | [] => A
  | i :: l =>
      match A (from i) with
      | Some a => run channels (set_account A (from i) (step channels a (request i))) l
      | None => run channels A l
      end
  end.

(** Only connected clients ask. *)
Fixpoint valid (channels : gset ChannelId) (A : Accounts) (l : list Input) : Prop :=
  match l with
  | [] => True
  | i :: l => sound (request i) ∧ ∃ a, A (from i) = Some a ∧
      valid channels (set_account A (from i) (step channels a (request i))) l
  end.

Section replies.
Context `{Nlohmann}.

(** The frames the client gets. *)
Definition reply (channels : gset ChannelId) (a : Account) (q : Request) : list Frame :=
  match q with
  | Subscribe subs => Subscriptions.replies channels (subscriptions a) subs
  | Unsubscribe sids => Subscriptions.cancel_replies (subscriptions a) sids
  | Advertise advs => Publications.replies (first_publication a) (publications_of a) advs
  | Unadvertise _ =>
      match publications a with
      | None => json_frames (status_json Error "Client has no advertised channels")
      | Some _ => []
      end
  | Publish id _ =>
      match publications a with
      | None => json_frames (status_json Error "Client has no advertised channels")
      | Some pubs =>
          match pubs !! id with
          | None => json_frames (status_json Error ("Channel " +:+ to_string id +:+ " is not advertised"))
          | Some _ => []
          end
      end
  | Close => []
  end.

Fixpoint replies (channels : gset ChannelId) (A : Accounts) (l : list Input) (h : ConnHandle)
  : list Frame :=
  match l with
  | [] => []
  | i :: l =>
      match A (from i) with
      | Some a => only (from i) (reply channels a (request i)) h ++
          replies channels (set_account A (from i) (step channels a (request i))) l h
      | None => replies channels A l h
      end
  end.
End replies.

Section calls.
Context `{Platform, Iteration, Websocketpp} {E : Type} (handlers : Handlers E).

(** The calls of the owner's handlers. *)
Definition call (channels : gset ChannelId) (a : Account) (i : Input) : list Event :=
  let hdl := from i in
  match request i with
  | Subscribe subs =>
      calls_of (_subscribeHandler handlers) EvSubscribe hdl
        (Subscriptions.requested channels (subscriptions a) subs)
  | Unsubscribe sids =>
      calls_of (_unsubscribeHandler handlers) EvUnsubscribe hdl
        (Subscriptions.cancelled (subscriptions a) sids)
  | Advertise advs =>
      calls_of (_clientAdvertiseHandler handlers) EvClientAdvertise hdl
        (Publications.announced (first_publication a) (publications_of a) advs)
  | Unadvertise ids =>
      calls_of (_clientUnadvertiseHandler handlers) EvClientUnadvertise hdl
        (Publications.withdrawn (publications_of a) ids)
  | Publish id buffer =>
      calls_of (_clientMessageHandler handlers) EvClientMessage hdl
        match default ∅ (publications a) !! id with
        | Some adv => [published (handled_at i) adv id buffer]
        | None => []
        end
  | Close =>
      calls_of (_clientUnadvertiseHandler handlers) EvClientUnadvertise hdl
        (iter_set (ever_advertised a)) ++
      calls_of (_unsubscribeHandler handlers) EvUnsubscribe hdl (iter_map (subscriptions a)).*1
  end.

Fixpoint calls (channels : gset ChannelId) (A : Accounts) (l : list Input) : list Event :=
  match l with
  | [] => []
  | i :: l =>
      match A (from i) with
      | Some a => call channels a i ++
          calls channels (set_account A (from i) (step channels a (request i))) l
      | None => calls channels A l
      end
  end.
End calls.
End Session.

(** ** What the server keeps, as accounts *)

Definition account_of (s : ServerState) : Session.Accounts := λ hdl,
  c ← _clients s !! hdl;
  Some (Session.mkAccount (subscriptionsByChannel c) (_clientChannels s !! hdl) (advertisedChannels c)).

(** What the run loop delivers for a request of a client. *)
Definition input_pending `{Platform, Nlohmann} (i : Session.Input) : result Pending :=
  let message (r : result string) :=
    match r with
    | inr txt => inr (PMessage (Session.handled_at i) (Session.from i) (TextFrame txt))
    | inl e => inl e
    end in
  match Session.request i with
  | Session.Subscribe subs => message (subscribe_text subs)
  | Session.Unsubscribe sids => message (unsubscribe_text sids)
  | Session.Advertise advs => message (advertise_text advs)
  | Session.Unadvertise ids => message (unadvertise_text ids)
  | Session.Publish id buffer =>
      match publish_data id buffer with
      | Some frame => inr (PMessage (Session.handled_at i) (Session.from i) (BinaryFrame frame))
      | None => inl (Undefined "out of bounds")
      end
  | Session.Close => inr (PClose (Session.from i))
  end.

Section accounts.
Implicit Types s : ServerState.

Lemma account_of_client s hdl c :
  _clients s !! hdl = Some c →
  account_of s hdl = Some (Session.mkAccount (subscriptionsByChannel c) (_clientChannels s !! hdl)
    (advertisedChannels c)).
Proof. intros Hc. unfold account_of. by rewrite Hc. Qed.

Lemma account_of_inv s hdl a :
  account_of s hdl = Some a →
  ∃ c, _clients s !! hdl = Some c ∧ a = Session.mkAccount (subscriptionsByChannel c)
    (_clientChannels s !! hdl) (advertisedChannels c).
Proof. unfold account_of. intros (c & Hc & [= <-])%bind_Some. by exists c. Qed.

Lemma account_set_subscriptions s hdl c m h :
  _clients s !! hdl = Some c →
  account_of (set_subscriptions hdl m s) h =
  Session.set_account (account_of s) hdl
    (Some (Session.mkAccount m (_clientChannels s !! hdl) (advertisedChannels c))) h.
Proof.
  intros Hc. unfold Session.set_account, account_of, set_subscriptions. simpl.
  destruct (decide (h = hdl)) as [->|Hne]; [by rewrite lookup_alter_eq, Hc|].
  by rewrite lookup_alter_ne.
Qed.

Lemma account_set_publications s hdl c p h :
  _clients s !! hdl = Some c →
  account_of (set_publications hdl p s) h =
  Session.set_account (account_of s) hdl
    (Some (Session.mkAccount (subscriptionsByChannel c) (Some (Publications.live p))
      (Publications.ever p))) h.
Proof.
  intros Hc. unfold Session.set_account, account_of, set_publications. simpl.
  destruct (decide (h = hdl)) as [->|Hne].
  - by rewrite lookup_alter_eq, Hc, lookup_insert_eq.
  - by rewrite lookup_alter_ne, lookup_insert_ne.
Qed.

Lemma account_close s hdl h :
  account_of (close_state hdl s) h = Session.set_account (account_of s) hdl None h.
Proof.
  unfold Session.set_account, account_of, close_state. simpl.
  destruct (decide (h = hdl)) as [->|Hne]; [by rewrite (lookup_delete_eq (_clients s))|].
  by rewrite !lookup_delete_ne.
Qed.

Lemma set_account_same (A : Session.Accounts) hdl a h :
  A hdl = a → Session.set_account A hdl a h = A h.
Proof. intros <-. unfold Session.set_account. by case_decide; subst. Qed.
End accounts.

Section server.
Context `{Platform, Iteration, LogChannels, Nlohmann, Websocketpp}.
Context `{!NlohmannLaws, !WebsocketppLaws}.
Context {E : Type} (handlers : Handlers E).
Implicit Types w : World E.

Lemma handleMessage_text_ok ts hdl txt (P : World E → Prop) w :
  wp (handleTextMessage handlers hdl txt) (λ r w', r = inr tt ∧ P w') w →
  wp (handleMessage handlers ts hdl (TextFrame txt)) (λ r w', r = inr tt ∧ P w') w.
Proof.
  intros Hw. unfold handleMessage. rewrite wp_try_catch. eapply wp_mono; [exact Hw|].
  by intros r w' [-> ?].
Qed.

(** Handlers that always return. *)
Record HandlersReturn : Prop := {
  return_subscribe : handler_returns (_subscribeHandler handlers);
  return_unsubscribe : handler_returns (_unsubscribeHandler handlers);
  return_advertise : handler_returns (_clientAdvertiseHandler handlers);
  return_unadvertise : handler_returns (_clientUnadvertiseHandler handlers);
  return_message : handler_returns (_clientMessageHandler handlers);
}.

(** What a request comes to: the account of its client, the frames it gets and the
    calls. *)
Definition input_done (i : Session.Input) (a : Session.Account) w (r : result unit) w' : Prop :=
  let channels := dom (_channels (srv w)) in
  r = inr tt ∧
  (∀ h, account_of (srv w') h =
     Session.set_account (account_of (srv w)) (Session.from i)
       (Session.step channels a (Session.request i)) h) ∧
  dom (_channels (srv w')) = channels ∧
  emits (only (Session.from i) (Session.reply channels a (Session.request i)))
    (Session.call handlers channels a i) w w'.

Lemma withdrawn_none p ids : Publications.live p = ∅ → Publications.withdrawn p ids = [].
Proof.
  revert p. induction ids as [|id ids IH]; intros p Hp; [done|]. simpl. rewrite Hp.
  rewrite lookup_empty, decide_False by (by intros [??]). apply IH. simpl. by rewrite Hp, delete_empty.
Qed.

Lemma publish_done ts hdl id buffer a w :
  big_endian = false → handler_returns (_clientMessageHandler handlers) → is_u32 id →
  account_of (srv w) hdl = Some a →
  wp (handleMessage handlers ts hdl (BinaryFrame (publish_frame id buffer)))
    (input_done (Session.mkInput ts hdl (Session.Publish id buffer)) a w) w.
Proof.
  intros Hle Hret Hid Ha. pose proof Ha as (c & Hc & ->)%account_of_inv.
  assert (∀ h, account_of (srv w) h = Session.set_account (account_of (srv w)) hdl
    (Some (Session.mkAccount (subscriptionsByChannel c) (_clientChannels (srv w) !! hdl)
       (advertisedChannels c))) h) as Hsame by (intros h; by rewrite set_account_same).
  unfold handleMessage. rewrite wp_try_catch.
  assert (∀ msg, wp (sendStatus (E:=E) hdl Error msg) (λ r w', r = inr tt ∧ srv w' = srv w ∧
    emits (only hdl (json_frames (status_json Error msg))) [] w w') w) as Hstatus.
  { intros msg. eapply wp_mono; [apply sends_sendStatus|]. by intros r w' (-> & [Hs _] & Hem). }
  unfold input_done. cbn [Session.request Session.from Session.handled_at Session.step Session.reply
    Session.call Session.publications].
  revert Hsame. destruct (_clientChannels (srv w) !! hdl) as [pubs|] eqn:Hpubs; intros Hsame;
    cbn [from_option Datatypes.id].
  - unfold wp at 1. rewrite (client_publish_eq handlers ts hdl pubs) by done.
    unfold received_id. rewrite Hle, u32_id by done. destruct (pubs !! id) as [adv|].
    + eapply wp_mono; [by apply call_only_calls|]. intros r w' (-> & Hs & Hem).
      rewrite Hs. split_and!; [done|done|done|].
      eapply emits_ext; [exact Hem|intros h; by rewrite only_nil|done].
    + eapply wp_mono; [apply Hstatus|]. intros r w' (-> & Hs & Hem).
      rewrite Hs. split_and!; [done..|]. eapply emits_ext; [exact Hem|done|].
      unfold calls_of. by case_match.
  - unfold handleBinaryMessage.
    set (len := Z.of_nat (length (publish_frame id buffer))).
    assert (1 <= len) as Hlen by (unfold len, publish_frame; simpl; lia).
    cbv zeta. rewrite (proj2 (Z.ltb_ge len 1)) by lia.
    rewrite wp_bind, wp_server, Hpubs.
    eapply wp_mono; [apply Hstatus|]. intros r w' (-> & Hs & Hem).
    rewrite Hs. split_and!; [done..|]. eapply emits_ext; [exact Hem|done|].
    unfold calls_of. by case_match.
Qed.

Lemma input_run i a p w :
  HandlersReturn → big_endian = false → ServerInv (srv w) → Session.sound (Session.request i) →
  account_of (srv w) (Session.from i) = Some a → input_pending i = inr p →
  wp (run_pending handlers p) (input_done i a w) w.
Proof.
  intros [Hrs Hru Hra Hrua Hrm] Hle HI Hsound Ha Hp. destruct i as [ts hdl q].
  pose proof Ha as (c & Hc & Heq)%account_of_inv. unfold input_done.
  destruct q as [subs|sids|advs|ids|id buffer|]; cbn [Session.request Session.from Session.handled_at
    Session.sound Session.step Session.reply Session.call input_pending] in *.
  - destruct (subscribe_text subs) as [e|txt] eqn:Htxt; [done|]. injection Hp as <-.
    apply handleMessage_text_ok. eapply wp_mono; [by apply (client_subscribe_run handlers hdl c subs)|].
    subst a. cbn. intros r w' (-> & Hs & Hem). rewrite Hs. split_and!; [done| |done|done].
    intros h. by apply account_set_subscriptions.
  - destruct (unsubscribe_text sids) as [e|txt] eqn:Htxt; [done|]. injection Hp as <-.
    apply handleMessage_text_ok.
    eapply wp_mono; [by apply (client_unsubscribe_run handlers hdl c sids); try apply HI|].
    subst a. cbn. intros r w' (-> & Hs & Hem). rewrite Hs. split_and!; [done| |done|done].
    intros h. by apply account_set_subscriptions.
  - destruct (advertise_text advs) as [e|txt] eqn:Htxt; [done|]. injection Hp as <-.
    apply handleMessage_text_ok. eapply wp_mono; [by apply (client_advertise_run handlers hdl c advs)|].
    subst a. cbn. intros r w' (-> & Hs & Hem). rewrite Hs. split_and!; [done| |done|done].
    intros h. by apply account_set_publications.
  - destruct (unadvertise_text ids) as [e|txt] eqn:Htxt; [done|]. injection Hp as <-.
    apply handleMessage_text_ok. subst a. cbn [Session.publications].
    destruct (_clientChannels (srv w) !! hdl) as [pubs|] eqn:Hpubs.
    + eapply wp_mono.
      { apply (client_unadvertise_run handlers hdl (Publications.mk pubs (advertisedChannels c)) ids);
          [done..| |done]. split; [done|]. by exists c. }
      cbn. intros r w' (-> & Hs & Hem). rewrite Hs. split_and!; [done| |done|].
      * intros h. by apply account_set_publications.
      * eapply emits_ext; [exact Hem|intros h; by rewrite only_nil|done].
    + unfold wp. erewrite client_unadvertise_none; [|by eexists|done|exact Htxt].
      match goal with |- ?Q => match Q with context [(?m w).1] =>
        pattern (m w).2, (m w).1; match goal with |- ?P _ _ => change (wp m P w) end end end.
      eapply wp_mono; [apply sends_sendStatus|]. intros r w' (-> & [Hs _] & Hem).
      cbv beta. rewrite Hs. split_and!; [done| |done|].
      * intros h. rewrite set_account_same; [done|]. by rewrite (account_of_client _ _ _ Hc), Hpubs.
      * eapply emits_ext; [exact Hem|done|]. rewrite withdrawn_none by done.
        unfold calls_of. by case_match.
  - rewrite publish_data_frame in Hp. injection Hp as <-. by apply publish_done.
  - injection Hp as <-. eapply wp_mono; [by apply (handleConnectionClosed_run handlers hdl c)|].
    subst a. cbn. intros r w' (-> & Hs & Hem). rewrite Hs. split_and!; [done| |done|].
    + intros h. apply account_close.
    + eapply emits_ext; [exact Hem|intros h; by rewrite only_nil|done].
Qed.

Lemma input_may_run i p w : input_pending i = inr p → may_run p w.
Proof.
  destruct i as [ts hdl q]. unfold input_pending. cbn. intros Hp. repeat case_match; simplify_eq; done.
Qed.

(** A whole session. *)
Lemma session_run l ps w :
  HandlersReturn → big_endian = false → ServerInv (srv w) →
  Session.valid (dom (_channels (srv w))) (account_of (srv w)) l →
  Forall2 (λ i p, input_pending i = inr p) l ps →
  wp (for_each ps (run_pending handlers))
    (λ r w', r = inr tt ∧
       (∀ h, account_of (srv w') h = Session.run (dom (_channels (srv w))) (account_of (srv w)) l h) ∧
       emits (Session.replies (dom (_channels (srv w))) (account_of (srv w)) l)
         (Session.calls handlers (dom (_channels (srv w))) (account_of (srv w)) l) w w') w.
Proof.
  intros Hret Hle. set (channels := dom (_channels (srv w))).
  assert (dom (_channels (srv w)) = channels) as Hch by done.
  assert (∀ h, account_of (srv w) h = account_of (srv w) h) as HA by done.
  revert HA. generalize (account_of (srv w)) at 2 3 4 5 6 as A. clearbody channels.
  revert ps w Hch. induction l as [|i l IH]; intros ps w Hch A HA HI Hv Hps.
  { apply Forall2_nil_inv_l in Hps as ->. simpl. rewrite wp_ret. split_and!; [done|done|apply emits_refl]. }
  apply Forall2_cons_inv_l in Hps as (p & ps' & Hp & Hps & ->).
  destruct Hv as (Hsound & a & Hfrom & Hv). cbn [for_each Session.run Session.replies Session.calls].
  rewrite Hfrom, wp_bind.
  pose proof (input_run i a p w Hret Hle HI Hsound (eq_trans (HA _) Hfrom) Hp) as Hrun.
  assert (ServerInv (srv (run_pending handlers p w).1)) as HI1
    by (apply (keeps_run_pending handlers p w (input_may_run i p w Hp)), HI).
  unfold wp in Hrun. destruct Hrun as (Hr1 & HA1 & Hch1 & Hem1). rewrite Hch in HA1, Hch1, Hem1.
  revert HI1 Hr1 HA1 Hch1 Hem1. unfold wp at 1.
  destruct (run_pending handlers p w) as [w1 r1]. cbn [fst snd]. intros HI1 -> HA1 Hch1 Hem1.
  eapply wp_mono.
  { apply (IH ps' w1 Hch1 (Session.set_account A (Session.from i)
      (Session.step channels a (Session.request i)))); [|done..].
    intros h. rewrite HA1. unfold Session.set_account. by case_decide. }
  intros r w2 (-> & HA2 & Hem2). split_and!; [done|done|by eapply emits_trans].
Qed.
End server.
