(* ===== verification/ServerTypes.v ===== *)
(** * The types of what the server keeps, calls and sends

    Ids live in the model as integers.  Whatever clients, network and owner do,
    every id the server keeps or hands to a handler fits the C++ type it has
    there, and everything it sends is a frame of the protocol. *)

From Stdlib Require Import Strings.Byte.
From S2P Require Import Prelude Serialization Common Logging Interfaces Server ServerFacts.
From S2P Require Import ServerInvariant ServerSpec Reachable.

Local Open Scope Z_scope.

(** ** Types *)

Definition typed_client (c : ClientInfo) : Prop :=
  map_Forall (λ ch sid, is_u32 ch ∧ is_u32 sid) (subscriptionsByChannel c) ∧
  ∀ id, id ∈ advertisedChannels c → is_u32 id.

Definition typed_publications (pubs : gmap ClientChannelId ClientAdvertisement) : Prop :=
  map_Forall (λ id adv, is_u32 id ∧ adv_channelId adv = id) pubs.

Definition typed_server (s : ServerState) : Prop :=
  is_u32 (_nextChannelId s) ∧
  map_Forall (λ id ch, is_u32 id ∧ chan_id ch = id) (_channels s) ∧
  map_Forall (λ _, typed_client) (_clients s) ∧
  map_Forall (λ _, typed_publications) (_clientChannels s).

(** A message as the handler gets it: the frame and its length, received now. *)
Definition typed_message (m : ClientMessage) : Prop :=
  is_u64 (msg_logTime m) ∧ msg_publishTime m = msg_logTime m ∧ is_u32 (msg_sequence m) ∧
  is_u32 (adv_channelId (msg_advertisement m)) ∧
  msg_dataLength m = Z.of_nat (length (msg_data m)) ∧ (MSG_PAYLOAD_OFFSET ≤ length (msg_data m))%nat.

Section types.
Context `{Platform, Iteration, LogChannels, Nlohmann, Websocketpp}.

(** A frame the server may send: the text of a JSON value, or one of its two
    kinds of binary message. *)
Definition typed_frame (f : Frame) : Prop :=
  match f with
  | TextFrame s => ∃ j, json_dump j = inr s
  | BinaryFrame b =>
      (∃ subId timestamp data, is_u32 subId ∧ message_data subId timestamp data = Some b) ∨
      (∃ timestamp, time_data timestamp = Some b)
  | OtherFrame => False
  end.

Definition typed_event (e : Event) : Prop :=
  match e with
  | EvSend _ f | EvConSend _ f => typed_frame f
  | EvSubscribe id _ | EvUnsubscribe id _ | EvClientUnadvertise id _ => is_u32 id
  | EvClientAdvertise adv _ => is_u32 (adv_channelId adv)
  | EvClientMessage m _ => typed_message m
  | _ => True
  end.

Context {E : Type} (handlers : Handlers E).
Implicit Types w : World E.

Definition typed w : Prop := typed_server (srv w) ∧ Forall typed_event (out w).
Definition keeps_types w w' : Prop := typed w → typed w'.

#[export] Instance keeps_types_preorder : PreOrder keeps_types.
Proof. split; [by intros ??|]. intros ??? Hxy Hyz ?. by apply Hyz, Hxy. Qed.

(** ** Maps whose entries have types *)

Lemma typed_emplace `{Countable K} {V} (P : K → V → Prop) k v (m : gmap K V) :
  map_Forall P m → P k v → map_Forall P (emplace k v m).1.
Proof. intros Hm Hk k' v' [?|(-> & -> & _)]%lookup_emplace_Some; [by apply Hm|done]. Qed.

Lemma typed_alter `{Countable K} {V} (P : K → V → Prop) f k (m : gmap K V) :
  map_Forall P m → (∀ v, P k v → P k (f v)) → map_Forall P (alter f k m).
Proof.
  intros Hm Hf k' v'. destruct (decide (k = k')) as [<-|Hne].
  - rewrite lookup_alter_eq. intros (v & Hv & ->)%fmap_Some_1. by apply Hf, Hm.
  - rewrite lookup_alter_ne by done. apply Hm.
Qed.

Lemma typed_delete_sub ch c : typed_client c → typed_client (upd_subscriptions (delete ch) c).
Proof. intros [Hs Ha]. split; [by apply map_Forall_delete|done]. Qed.

(** ** The building blocks *)

Lemma types_emit e : typed_event e → preserves keeps_types (emit (E:=E) e).
Proof. intros He w [Hs Ho]. split; [done|]. simpl. by apply Forall_app_2; [|constructor]. Qed.

Lemma types_quiet {A} (m : M (World E) A) :
  (∀ w, srv (m w).1 = srv w ∧ out (m w).1 = out w) → preserves keeps_types m.
Proof. intros Hm w [Hs Ho]. destruct (Hm w) as [Hsrv Hout]. split; [by rewrite Hsrv|by rewrite Hout]. Qed.

Lemma types_on_net {A} (f : Net → Net * result A) : preserves keeps_types (on_net (E:=E) f).
Proof. apply types_quiet. intros w. unfold on_net. by destruct (f (net w)). Qed.

Lemma types_on_env {A} (m : M E A) : preserves keeps_types (on_env m).
Proof. apply types_quiet. intros w. unfold on_env. by destruct (m (env w)). Qed.

Lemma types_update f :
  (∀ s, typed_server s → typed_server (f s)) → preserves keeps_types (update (E:=E) f).
Proof. intros Hf w [Hs Ho]. split; [by apply Hf|done]. Qed.

Lemma types_upd_client hdl f :
  (∀ c, typed_client c → typed_client (f c)) → preserves keeps_types (upd_client (E:=E) hdl f).
Proof.
  intros Hf. apply types_update. intros s (Hn & Hch & Hc & Hp). split_and!; [done..| |done].
  apply typed_alter; [done|]. apply Hf.
Qed.

Lemma types_upd_publications hdl f :
  (∀ pubs, typed_publications pubs → typed_publications (f pubs)) →
  preserves keeps_types (upd_publications (E:=E) hdl f).
Proof.
  intros Hf. apply types_update. intros s (Hn & Hch & Hc & Hp). split_and!; [done..|].
  apply typed_alter; [done|]. apply Hf.
Qed.

(** What is read from a typed server is typed. *)
Lemma types_bind_server {A B} (f : ServerState → A) (k : A → M (World E) B) :
  (∀ s, typed_server s → preserves keeps_types (k (f s))) →
  preserves keeps_types (bind (server f) k).
Proof. intros Hk w Hw. by apply Hk; [apply Hw|]. Qed.

Lemma types_bind_lift {A B} (r : result A) (k : A → M (World E) B) :
  (∀ a, r = inr a → preserves keeps_types (k a)) → preserves keeps_types (bind (lift r) k).
Proof. intros Hk w. destruct r as [e|a]; [done|]. by apply Hk. Qed.

Lemma types_bind_in_bounds {A B} (o : option A) (k : A → M (World E) B) :
  (∀ a, o = Some a → preserves keeps_types (k a)) →
  preserves keeps_types (bind (in_bounds o) k).
Proof. intros Hk w. destruct o as [a|]; [by apply Hk|done]. Qed.

Lemma types_call {X} h (e : X → ConnHandle → Event) x hdl :
  typed_event (e x hdl) → preserves keeps_types (call (E:=E) h e x hdl).
Proof.
  intros He. unfold call. destruct h; [|by apply preserves_ret; tc_solve].
  apply preserves_bind; [tc_solve|by apply types_emit|intros ?; apply types_on_env].
Qed.

Lemma types_bind_client_at {B} hdl (k : ClientInfo → M (World E) B) :
  (∀ c, typed_client c → preserves keeps_types (k c)) →
  preserves keeps_types (bind (client_at hdl) k).
Proof.
  intros Hk w Hw. unfold client_at, bind, server, gets.
  destruct (_clients (srv w) !! hdl) as [c|] eqn:Hc; simpl; [|done].
  apply Hk; [|done]. destruct Hw as [(_ & _ & Hcs & _) _]. exact (Hcs _ _ Hc).
Qed.
End types.

(** ** The member functions *)

Section operations.
Context `{Platform, Iteration, LogChannels, Nlohmann, Websocketpp, !NlohmannLaws}.
Context {E : Type} (handlers : Handlers E).
Implicit Types w : World E.

(** Goes through a member function, keeping what it reads typed. *)
Ltac types := traverse (idtac; match goal with
  | |- preserves _ (bind (server _) _) => apply types_bind_server; intros ? ?
  | |- preserves _ (bind (client_at _) _) => apply types_bind_client_at; intros ? ?
  | |- preserves _ (bind (lift _) _) => apply types_bind_lift; intros ? ?
  | |- preserves _ (bind (in_bounds _) _) => apply types_bind_in_bounds; intros ? ?
  | |- preserves _ (call _ _ _ _) => apply types_call; simpl
  | |- preserves _ (elog _) => apply types_emit; exact I
  | |- preserves _ (alog _) => apply types_emit; exact I
  | |- preserves _ (emit _) => apply types_emit; simpl
  | |- preserves _ (on_net _) => apply types_on_net
  | |- True => exact I
  end).

Lemma types_sendJson hdl j : preserves keeps_types (sendJson (E:=E) hdl j).
Proof. unfold sendJson, send. types. by eexists. Qed.

Lemma types_sendBinary hdl b :
  typed_frame (BinaryFrame b) → preserves keeps_types (sendBinary (E:=E) hdl b).
Proof. intros Hb. unfold sendBinary, send. types. exact Hb. Qed.

Lemma types_sendStatus hdl level message :
  preserves keeps_types (sendStatus (E:=E) hdl level message).
Proof. unfold sendStatus, remoteEndpointString. types. apply types_sendJson. Qed.

Lemma types_uint32_at j k n : json_uint32_at j k = inr n → is_u32 n.
Proof. unfold json_uint32_at. case_match; [done|]. apply get_uint32_range. Qed.

Lemma types_subscribe_one hdl j : preserves keeps_types (subscribe_one handlers hdl j).
Proof.
  unfold subscribe_one. types; try apply types_sendStatus; try by eapply types_uint32_at.
  apply types_upd_client. intros ? [Hs Ha]. split; [|done].
  apply typed_emplace; [done|]. split; by eapply types_uint32_at.
Qed.

Lemma types_unsubscribe_one hdl j : preserves keeps_types (unsubscribe_one handlers hdl j).
Proof.
  unfold unsubscribe_one. types; try apply types_sendStatus.
  - apply types_upd_client. apply typed_delete_sub.
  - match goal with Hf : findSubscriptionBySubId ?c _ = _, Hc : typed_client ?c |- _ =>
      apply findSubscriptionBySubId_Some in Hf as [_ Hf]; exact (proj1 (proj1 Hc _ _ Hf)) end.
Qed.

Lemma types_advertise_one hdl first j :
  preserves keeps_types (advertise_one handlers hdl first j).
Proof.
  unfold advertise_one, publications_of. types; try apply types_sendStatus;
    try by eapply types_uint32_at.
  - apply types_upd_publications. intros pubs Hp. apply typed_emplace; [done|].
    split; [by eapply types_uint32_at|done].
  - apply types_upd_client. intros ? [Hs Ha]. split; [done|].
    intros id [->%elem_of_singleton|Hid]%elem_of_union; [by eapply types_uint32_at|by apply Ha].
Qed.

Lemma types_unadvertise_one hdl j : preserves keeps_types (unadvertise_one handlers hdl j).
Proof.
  unfold unadvertise_one, publications_of. types; try by eapply get_uint32_range.
  apply types_upd_publications. intros pubs Hp. by apply map_Forall_delete.
Qed.

Lemma types_handleTextMessage hdl msg :
  preserves keeps_types (handleTextMessage handlers hdl msg).
Proof.
  unfold handleTextMessage, dispatch_op, handleSubscribe, handleUnsubscribe, handleAdvertise,
    handleUnadvertise.
  types; auto using types_sendStatus, types_subscribe_one, types_unsubscribe_one,
    types_advertise_one, types_unadvertise_one.
  apply types_update. intros ? (Hn & Hch & Hc & Hp). split_and!; [done..|].
  apply typed_emplace; [done|]. apply map_Forall_empty.
Qed.

Lemma types_handleBinaryMessage timestamp hdl msg :
  preserves keeps_types (handleBinaryMessage handlers timestamp hdl msg).
Proof.
  unfold handleBinaryMessage. types; auto using types_sendStatus.
  match goal with Hs : typed_server ?s, Hp : _clientChannels ?s !! _ = Some _,
    Hc : _ !! _ = Some ?c, Hlt : (_ <? 5) = false |- _ =>
      destruct Hs as (_ & _ & _ & Hpubs); destruct (Hpubs _ _ Hp _ _ Hc) as [? Hid];
      apply Z.ltb_ge in Hlt
  end.
  split; [apply u64_range|]. split; [done|]. split; [split; done|]. simpl.
  rewrite Hid. split; [done|]. split; [done|]. unfold MSG_PAYLOAD_OFFSET. lia.
Qed.

Lemma types_handleMessage timestamp hdl msg :
  preserves keeps_types (handleMessage handlers timestamp hdl msg).
Proof.
  unfold handleMessage.
  types; auto using types_sendStatus, types_handleTextMessage, types_handleBinaryMessage.
Qed.

Lemma types_channels_json : preserves keeps_types (channels_json (E:=E)).
Proof. unfold channels_json. types. Qed.

Lemma types_handleConnectionOpened hdl : preserves keeps_types (handleConnectionOpened (E:=E) hdl).
Proof.
  unfold handleConnectionOpened, get_con_from_hdl, remoteEndpointString, on_net_.
  types; auto using types_channels_json, types_sendJson.
  - apply types_update. intros ? (Hn & Hch & Hc & Hp). split_and!; [done..| |done].
    apply typed_emplace; [done|]. split; [apply map_Forall_empty|].
    intros id Hid. by apply not_elem_of_empty in Hid.
  - by eexists.
Qed.

Lemma types_handleConnectionClosed hdl :
  preserves keeps_types (handleConnectionClosed handlers hdl).
Proof.
  unfold handleConnectionClosed, remoteEndpointString. types.
  all: try match goal with Hs : typed_server ?s, Hc : _clients ?s !! _ = Some ?c |- is_u32 _ =>
    destruct Hs as (_ & _ & Hcs & _); destruct (Hcs _ _ Hc) as [Hsub Hadv] end.
  - apply types_update. intros ? (Hn & Hch & Hc & Hp). split_and!; [done..| |done].
    by apply map_Forall_delete.
  - apply Hadv. by apply elem_of_iter_set.
  - apply types_update. intros ? (Hn & Hch & Hc & Hp). split_and!; [done..|].
    by apply map_Forall_delete.
  - match goal with Hin : _ ∈ iter_map _ |- _ => apply elem_of_iter_map in Hin end.
    match goal with Hz : subscriptionsByChannel _ !! _ = Some _ |- _ => exact (proj1 (Hsub _ _ Hz)) end.
Qed.

Lemma types_addChannel channel : preserves keeps_types (addChannel (E:=E) channel).
Proof.
  unfold addChannel. types; apply types_update; intros ? (Hn & Hch & Hc & Hp); split_and!;
    try done; try apply u32_range.
  apply typed_emplace; [done|]. split; [apply u32_range|done].
Qed.

Lemma types_removeChannel chanId : preserves keeps_types (removeChannel (E:=E) chanId).
Proof.
  unfold removeChannel. types; try apply types_sendJson.
  - apply types_update. intros ? (Hn & Hch & Hc & Hp). split_and!; [done| |done..].
    by apply map_Forall_delete.
  - apply types_upd_client, typed_delete_sub.
Qed.

Lemma types_broadcastChannels : preserves keeps_types (broadcastChannels (E:=E)).
Proof.
  unfold broadcastChannels, sendJsonRaw, send. types; try apply types_channels_json. by eexists.
Qed.

Lemma types_sendMessage hdl chanId timestamp data :
  preserves keeps_types (sendMessage (E:=E) hdl chanId timestamp data).
Proof.
  unfold sendMessage. types. apply types_sendBinary. left. do 3 eexists.
  match goal with Hm : message_data _ _ _ = Some _ |- _ => split; [|exact Hm] end.
  match goal with Hs : typed_server ?s, Hc : _clients ?s !! _ = Some ?c,
    Hch : subscriptionsByChannel ?c !! _ = Some _ |- _ =>
      destruct Hs as (_ & _ & Hcs & _); exact (proj2 (proj1 (Hcs _ _ Hc) _ _ Hch)) end.
Qed.

Lemma types_broadcastTime timestamp : preserves keeps_types (broadcastTime (E:=E) timestamp).
Proof. unfold broadcastTime. types. apply types_sendBinary. right. by eexists. Qed.

Lemma types_set_thread b s : typed_server s → typed_server (set_thread b s).
Proof. done. Qed.

Lemma types_start host port : preserves keeps_types (start (E:=E) host port).
Proof.
  unfold start, on_net_ec, on_net_, throw_if. types. apply types_update, types_set_thread.
Qed.

Lemma types_stop poll_one :
  preserves keeps_types poll_one → preserves keeps_types (stop (E:=E) poll_one).
Proof.
  intros Hp. unfold stop, join_server_thread, on_net_ec, on_net_, remoteEndpointString. types.
  - generalize stop_fuel 0. intros fuel. induction fuel as [|fuel IH]; intros ms; simpl; types.
    + done.
    + apply IH.
  - apply types_update, types_set_thread.
  - apply types_update. intros ? (Hn & Hch & Hc & Hpubs). split_and!; [done..| |done].
    apply map_Forall_empty.
Qed.

Lemma types_run_pending p : preserves keeps_types (run_pending handlers p).
Proof.
  destruct p; simpl; auto using types_handleMessage, types_handleConnectionOpened,
    types_handleConnectionClosed.
  unfold validateConnection, get_con_from_hdl, remoteEndpointString. types.
Qed.

Lemma server_step_types w w' : server_step handlers w w' → keeps_types w w'.
Proof.
  destruct 1 as [p w Hp|c w|ch w|w|hdl ch ts d w|ts w|host port w|next w Hn|w w' Hs Ho].
  - apply types_run_pending.
  - apply types_addChannel.
  - apply types_removeChannel.
  - apply types_broadcastChannels.
  - apply types_sendMessage.
  - apply types_broadcastTime.
  - apply types_start.
  - apply types_stop. intros w1. unfold poll. destruct (next w1) as [p|]; [apply types_run_pending|].
    by intros ?.
  - intros [Hsrv Hout]. split; [by rewrite Hs|by rewrite Ho].
Qed.
End operations.
