(* ===== verification/Views.v ===== *)
(** * What a client knows

    A client of the Foxglove protocol learns the channels from the frames it is
    sent: [serverInfo] starts a session, [advertise] adds channels or describes
    them anew, [unadvertise] takes channels away.  Its view is the fold of these
    over its frames.  The server keeps every connected client's view inside its
    own table of channels, and a broadcast makes the two equal. *)

From Stdlib Require Import Strings.Byte.
From S2P Require Import Prelude Serialization Common Logging Interfaces Server ServerFacts.
From S2P Require Import ServerInvariant ServerSpec Client Protocol Reachable.

Local Open Scope Z_scope.
Local Open Scope string_scope.
Local Open Scope list_scope.

(** ** A client's side of the protocol *)

Abbreviation View := (gmap ChannelId Channel) (only parsing).

Section receive.
Context `{Nlohmann}.

Definition decode_channel (j : json) : option Channel :=
  match json_uint32_at j "id", json_string_at j "topic", json_string_at j "encoding",
        json_string_at j "schemaName", json_string_at j "schema" with
  | inr id, inr topic, inr encoding, inr schemaName, inr schema =>
      Some (mkChannel id (mkChannelWithoutId topic encoding schemaName schema))
  | _, _, _, _, _ => None
  end.

Definition decode_id (j : json) : option ChannelId :=
  match json_get_uint32 j with inr id => Some id | inl _ => None end.

(** The elements under a key that can be decoded. *)
Definition decoded {A} (f : json → option A) (j : json) (key : string) : list A :=
  match json_elements j key with inr l => omap f l | inl _ => [] end.

Definition learn (v : View) (channels : list Channel) : View :=
  foldl (λ v ch, <[ chan_id ch := ch ]> v) v channels.
Definition unlearn (v : View) (ids : list ChannelId) : View :=
  foldl (λ v id, delete id v) v ids.

Definition receive_json (v : View) (j : json) : View :=
  match json_string_at j "op" with
  | inl _ => v
  | inr op =>
      if String.eqb op "serverInfo" then ∅
      else if String.eqb op "advertise" then learn v (decoded decode_channel j "channels")
      else if String.eqb op "unadvertise" then unlearn v (decoded decode_id j "channelIds")
      else v
  end.

Definition receive (v : View) (f : Frame) : View :=
  match f with
  | TextFrame s => match json_parse s with inr j => receive_json v j | inl _ => v end
  | _ => v
  end.

(** What a client that knows [v] knows after some frames, and after all of them. *)
Definition replay (v : View) (fs : list Frame) : View := foldl receive v fs.
Definition view (fs : list Frame) : View := replay ∅ fs.

Lemma replay_app v fs1 fs2 : replay v (fs1 ++ fs2) = replay (replay v fs1) fs2.
Proof. apply foldl_app. Qed.
Lemma replay_one v f : replay v [f] = receive v f.
Proof. done. Qed.

(** ** Learning *)

Lemma lookup_learn v l id :
  NoDup (chan_id <$> l) →
  learn v l !! id = match List.find (λ ch, Z.eqb (chan_id ch) id) l with
                    | Some ch => Some ch
                    | None => v !! id
                    end.
Proof.
  revert v. induction l as [|ch l IH]; intros v; simpl; [done|].
  intros [Hch Hnd]%NoDup_cons. rewrite IH by done.
  destruct (Z.eqb_spec (chan_id ch) id) as [<-|Hne].
  - destruct (List.find _ l) as [ch'|] eqn:Hf; [|apply lookup_insert_eq].
    apply List.find_some in Hf as [Hin Heq%Z.eqb_eq]. destruct Hch.
    apply list_elem_of_fmap. exists ch'. split; [done|]. by apply list_elem_of_In.
  - by rewrite lookup_insert_ne.
Qed.

(** Learning all the entries of a table whose channels are filed under their ids. *)
Lemma learn_table v (m : View) l :
  l ≡ₚ (map_to_list m).*2 → (∀ id ch, m !! id = Some ch → chan_id ch = id) →
  learn v l = m ∪ v.
Proof.
  intros Hl Hid.
  assert (∀ ch, ch ∈ l ↔ m !! chan_id ch = Some ch) as Hin.
  { intros ch. rewrite Hl, list_elem_of_fmap. split.
    - intros ([id ch'] & -> & Hm%elem_of_map_to_list). simpl. by rewrite (Hid _ _ Hm).
    - intros Hm. exists (chan_id ch, ch). split; [done|]. by apply elem_of_map_to_list. }
  assert (NoDup (chan_id <$> l)) as Hnd.
  { rewrite Hl, <-list_fmap_compose.
    rewrite (Forall_fmap_ext_1 _ fst); [apply NoDup_fst_map_to_list|].
    apply Forall_forall. intros [id ch] Hm%elem_of_map_to_list. by apply Hid. }
  apply map_eq. intros id. rewrite lookup_learn by done.
  destruct (List.find _ l) as [ch|] eqn:Hf.
  - apply List.find_some in Hf as [Hch%list_elem_of_In%Hin Heq%Z.eqb_eq]. subst id.
    by erewrite lookup_union_Some_l.
  - rewrite lookup_union_r; [done|]. apply eq_None_not_Some. intros [ch Hch].
    pose proof Hch as Hch'. rewrite <-(Hid _ _ Hch) in Hch'. apply Hin, list_elem_of_In in Hch'.
    pose proof (List.find_none _ _ Hf _ Hch') as Hn. simpl in Hn.
    by rewrite (Hid _ _ Hch), Z.eqb_refl in Hn.
Qed.

(** ** The server's messages, as a client reads them *)

Context `{!NlohmannLaws}.

Lemma decode_Channel_to_json ch :
  is_u32 (chan_id ch) → decode_channel (Channel_to_json ch) = Some ch.
Proof.
  intros Hid. unfold decode_channel, Channel_to_json.
  rewrite (uint32_at_object _ _ (chan_id ch)) by solve_object.
  rewrite (string_at_object _ "topic" (topic ch)), (string_at_object _ "encoding" (encoding ch)),
    (string_at_object _ "schemaName" (schemaName ch)), (string_at_object _ "schema" (schema ch))
    by solve_object.
  by destruct ch as [? []].
Qed.

Lemma decoded_channels l :
  Forall (λ ch, is_u32 (chan_id ch)) l → omap decode_channel (Channel_to_json <$> l) = l.
Proof.
  induction 1 as [|ch l Hch _ IH]; [done|].
  cbn [fmap list_fmap omap list_omap]. by rewrite decode_Channel_to_json, IH.
Qed.

Lemma receive_dumped v j s : json_dump j = inr s → receive v (TextFrame s) = receive_json v j.
Proof. intros Hj%parse_dump. simpl. by rewrite Hj. Qed.

(** A JSON value that goes out as a text, or not at all. *)
Lemma replay_json v j :
  replay v (json_frames j) = match json_dump j with inr _ => receive_json v j | inl _ => v end.
Proof.
  unfold json_frames. destruct (json_dump j) as [e|s] eqn:Hj; [done|].
  rewrite replay_one. by apply receive_dumped.
Qed.

Lemma receive_status v level message : receive_json v (status_json level message) = v.
Proof.
  unfold receive_json, status_json. by erewrite string_at_object; [|solve_object|solve_object].
Qed.

Lemma receive_serverInfo v name capabilities :
  receive_json v (serverInfo_json name capabilities) = ∅.
Proof.
  unfold receive_json, serverInfo_json. by erewrite string_at_object; [|solve_object|solve_object].
Qed.

Lemma receive_unadvertise v id :
  is_u32 id → receive_json v (unadvertise_json id) = delete id v.
Proof.
  intros Hid. unfold receive_json, unadvertise_json.
  erewrite string_at_object by solve_object. simpl. unfold decoded.
  erewrite elements_object by solve_object. rewrite items_array. simpl. unfold decode_id.
  by rewrite get_uint32_number.
Qed.
End receive.

(** ** Steps that tell clients nothing new *)

Section server.
Context `{Platform, Iteration, LogChannels, Nlohmann, Websocketpp}.
Context `{!NlohmannLaws, !WebsocketppLaws}.
Context {E : Type} (handlers : Handlers E).
Implicit Types w : World E.

(** What the client of a connection knows. *)
Definition known w (hdl : ConnHandle) : View := view (sent hdl (out w)).

(** A frame that leaves every view as it is. *)
Definition neutral (f : Frame) : Prop := ∀ v, receive v f = v.

Definition neutral_event (e : Event) : Prop :=
  match e with EvSend _ f | EvConSend _ f => neutral f | _ => True end.

(** The frames of the step do not matter to a client, nobody joins, and the
    channels and the server's name stay. *)
Record undisturbed w w' : Prop := mkUndisturbed {
  und_channels : _channels (srv w') = _channels (srv w);
  und_name : _name (srv w') = _name (srv w);
  und_capabilities : _capabilities (srv w') = _capabilities (srv w);
  und_clients hdl : is_Some (_clients (srv w') !! hdl) → is_Some (_clients (srv w) !! hdl);
  und_replay hdl v : replay v (sent hdl (out w')) = replay v (sent hdl (out w));
}.

#[export] Instance undisturbed_preorder : PreOrder undisturbed.
Proof.
  split; [by split|]. intros w1 w2 w3 [Hc Hn Hp Hcl Hr] [Hc' Hn' Hp' Hcl' Hr'].
  split; [congruence..|auto|]. intros hdl v. by rewrite Hr', Hr.
Qed.

(** A run that changes the server only in what does not matter here. *)
Lemma undisturbed_emits F C w w' :
  _channels (srv w') = _channels (srv w) → _name (srv w') = _name (srv w) →
  _capabilities (srv w') = _capabilities (srv w) →
  (∀ hdl, is_Some (_clients (srv w') !! hdl) → is_Some (_clients (srv w) !! hdl)) →
  emits F C w w' → (∀ hdl v, replay v (F hdl) = v) → undisturbed w w'.
Proof.
  intros Hc Hn Hp Hcl (evs & Ho & Hs & _) HF. split; [done..|].
  intros hdl v. by rewrite Ho, sent_app, replay_app, Hs, HF.
Qed.

Lemma undisturbed_quiet {A} (m : M (World E) A) : preserves untouched m → preserves undisturbed m.
Proof. intros Hm w. destruct (Hm w) as [Hs Ho]. by split; rewrite ?Hs, ?Ho. Qed.

Lemma undisturbed_on_net {A} (f : Net → Net * result A) : preserves undisturbed (on_net (E:=E) f).
Proof. apply undisturbed_quiet, on_net_untouched. Qed.

Lemma undisturbed_on_env {A} (m : M E A) : preserves undisturbed (on_env m).
Proof. apply undisturbed_quiet, on_env_untouched. Qed.

Lemma undisturbed_emit e : neutral_event e → preserves undisturbed (emit (E:=E) e).
Proof.
  intros He w. apply (undisturbed_emits (λ h, sent h [e]) (calls [e])); try done.
  { by apply emits_event. }
  intros hdl v. destruct e; try done; simpl in *; unfold sent; simpl;
    (case_decide; [apply He|done]).
Qed.

Lemma undisturbed_update f :
  (∀ s, _channels (f s) = _channels s ∧ _name (f s) = _name s ∧
        _capabilities (f s) = _capabilities s ∧
        ∀ hdl, is_Some (_clients (f s) !! hdl) → is_Some (_clients s !! hdl)) →
  preserves undisturbed (update (E:=E) f).
Proof. intros Hf w. destruct (Hf (srv w)) as (?&?&?&?). by split. Qed.

(** A computation that only sends frames that do not matter. *)
Lemma undisturbed_sends (m : M (World E) unit) F :
  (∀ w, wp m (sends F w) w) → (∀ hdl v, replay v (F hdl) = v) → preserves undisturbed m.
Proof.
  intros Hm HF w. destruct (Hm w) as (_ & [Hs _] & Hem).
  eapply undisturbed_emits; [by rewrite Hs..|exact Hem|exact HF].
Qed.

Lemma neutral_binary b : neutral (BinaryFrame b).
Proof. done. Qed.

Lemma undisturbed_sendBinary hdl b : preserves undisturbed (sendBinary (E:=E) hdl b).
Proof.
  eapply undisturbed_sends; [intros w; apply sends_sendBinary|].
  intros h v. unfold only. by case_decide.
Qed.

Lemma undisturbed_sendStatus hdl l msg : preserves undisturbed (sendStatus (E:=E) hdl l msg).
Proof.
  eapply undisturbed_sends; [intros w; apply sends_sendStatus|].
  intros h v. unfold only. case_decide; [|done].
  rewrite replay_json, receive_status. by case_match.
Qed.

Lemma undisturbed_call {X} h (e : X → ConnHandle → Event) x hdl :
  neutral_event (e x hdl) → preserves undisturbed (call (E:=E) h e x hdl).
Proof.
  intros He. unfold call. destruct h; [|apply preserves_ret; tc_solve].
  apply preserves_bind; [tc_solve|by apply undisturbed_emit|intros ?; apply undisturbed_on_env].
Qed.

(** Updates of the entries of the clients there are, and of what is no client's. *)
Lemma undisturbed_upd_client hdl f : preserves undisturbed (upd_client (E:=E) hdl f).
Proof.
  apply undisturbed_update. intros s. split_and!; [done..|]. simpl.
  intros h [c [(_ & c0 & Hc & _)|[_ Hc]]%lookup_alter_Some]; [|by exists c].
  by exists c0; subst.
Qed.

Lemma undisturbed_fewer_clients f :
  (∀ cs : gmap ConnHandle ClientInfo, f cs ⊆ cs) →
  preserves undisturbed (update (E:=E) (upd_clients f)).
Proof.
  intros Hf. apply undisturbed_update. intros s. split_and!; [done..|]. simpl.
  intros h [c Hc]. exists c. by eapply lookup_weaken.
Qed.

#[local] Hint Resolve undisturbed_on_net undisturbed_on_env undisturbed_sendBinary
  undisturbed_sendStatus undisturbed_upd_client : cpp.

(** Goes through a member function that tells clients nothing new. *)
Ltac undisturbed := traverse (idtac; match goal with
  | |- preserves _ (call _ _ _ _) => apply undisturbed_call; exact I
  | |- preserves _ (elog _) => apply undisturbed_emit; exact I
  | |- preserves _ (alog _) => apply undisturbed_emit; exact I
  | |- preserves _ (emit _) => apply undisturbed_emit; exact I
  | |- preserves _ (server _) => apply undisturbed_quiet; done
  | |- preserves _ (in_bounds ?o) => destruct o; apply undisturbed_quiet; done
  | |- preserves _ (upd_publications _ _) => apply undisturbed_update; done
  | |- preserves _ (update (upd_clients _)) => apply undisturbed_fewer_clients; intros ?;
      first [apply delete_subseteq | apply map_empty_subseteq]
  | |- preserves _ (update _) => apply undisturbed_update; done
  | |- preserves _ _ => solve [auto 2 with cpp nocore]
  end).

Lemma undisturbed_handleMessage timestamp hdl msg :
  preserves undisturbed (handleMessage handlers timestamp hdl msg).
Proof.
  unfold handleMessage, handleTextMessage, dispatch_op, handleSubscribe, handleUnsubscribe,
    handleAdvertise, handleUnadvertise, subscribe_one, unsubscribe_one, advertise_one,
    unadvertise_one, handleBinaryMessage, client_at, publications_of. undisturbed.
Qed.

Lemma undisturbed_handleConnectionClosed hdl :
  preserves undisturbed (handleConnectionClosed handlers hdl).
Proof. unfold handleConnectionClosed, remoteEndpointString. undisturbed. Qed.

Lemma undisturbed_validateConnection hdl :
  preserves undisturbed (validateConnection (E:=E) hdl).
Proof. unfold validateConnection, get_con_from_hdl, remoteEndpointString. undisturbed. Qed.

Lemma undisturbed_get_con hdl : preserves undisturbed (get_con_from_hdl (E:=E) hdl).
Proof. unfold get_con_from_hdl. undisturbed. Qed.

Lemma undisturbed_remoteEndpointString hdl :
  preserves undisturbed (remoteEndpointString (E:=E) hdl).
Proof. unfold remoteEndpointString. undisturbed. Qed.

Lemma undisturbed_server {A} (f : ServerState → A) : preserves undisturbed (server (E:=E) f).
Proof. undisturbed. Qed.

Lemma undisturbed_in_bounds {A} (o : option A) : preserves undisturbed (in_bounds (E:=E) o).
Proof. undisturbed. Qed.

Lemma undisturbed_channels_json : preserves undisturbed (channels_json (E:=E)).
Proof. unfold channels_json. undisturbed. Qed.

Lemma undisturbed_alog msg : preserves undisturbed (alog (E:=E) msg).
Proof. undisturbed. Qed.

Lemma undisturbed_elog msg : preserves undisturbed (elog (E:=E) msg).
Proof. undisturbed. Qed.

Lemma undisturbed_sendMessage hdl ch ts data :
  preserves undisturbed (sendMessage (E:=E) hdl ch ts data).
Proof. unfold sendMessage. undisturbed. Qed.

Lemma undisturbed_broadcastTime ts : preserves undisturbed (broadcastTime (E:=E) ts).
Proof. unfold broadcastTime. undisturbed. Qed.

Lemma undisturbed_start host port : preserves undisturbed (start (E:=E) host port).
Proof. unfold start, throw_if, on_net_ec, on_net_. undisturbed. Qed.

(** ** What clients know is what the server has *)

(** Channels are filed under their ids. *)
Definition table_ok (channels : View) : Prop :=
  ∀ id ch, channels !! id = Some ch → chan_id ch = id ∧ is_u32 id.

Lemma table_ok_inv s : ServerInv s → table_ok (_channels s).
Proof. intros [Hch _ _ _]. exact Hch. Qed.

(** Exceptions: nobody's, and those of a channel that clients in a list still know. *)
Definition none_gone (ch : ChannelId) (hdl : ConnHandle) : Prop := False.
Definition gone (chanId : ChannelId) (l : list ConnHandle) (ch : ChannelId) (hdl : ConnHandle)
  : Prop := ch = chanId ∧ hdl ∈ l.

Context `{!NlohmannUtf8}.

(** Every client knows only channels of the server, but for the exceptions [P];
    and the server can introduce itself. *)
Record InformedX (P : ChannelId → ConnHandle → Prop) w : Prop := mkInformed {
  inf_view hdl id ch :
    is_Some (_clients (srv w) !! hdl) → known w hdl !! id = Some ch →
    P id hdl ∨ _channels (srv w) !! id = Some ch;
  inf_name : valid_utf8 (_name (srv w));
  inf_capabilities : Forall valid_utf8 (_capabilities (srv w));
}.
Abbreviation Informed := (InformedX none_gone).

Lemma informed_view w hdl :
  Informed w → is_Some (_clients (srv w) !! hdl) → known w hdl ⊆ _channels (srv w).
Proof.
  intros HI Hc. apply map_subseteq_spec. intros id ch Hk.
  by destruct (inf_view _ _ HI _ _ _ Hc Hk) as [[]|].
Qed.

Lemma known_emits F C w w' hdl : emits F C w w' → known w' hdl = replay (known w hdl) (F hdl).
Proof.
  intros (evs & Ho & Hs & _). unfold known, view. by rewrite Ho, sent_app, replay_app, Hs.
Qed.

Lemma informed_undisturbed P w w' : undisturbed w w' → InformedX P w → InformedX P w'.
Proof.
  intros [Hc Hn Hp Hcl Hr] [Hv Hname Hcap]. split; rewrite ?Hn, ?Hp, ?Hc; [|done..].
  intros hdl id ch Hs%Hcl. unfold known, view. rewrite Hr. by apply Hv.
Qed.

(** ** The steps that matter *)

Lemma serverInfo_dumps w :
  valid_utf8 (_name (srv w)) → Forall valid_utf8 (_capabilities (srv w)) →
  ∃ info, json_dump (serverInfo_json (_name (srv w)) (_capabilities (srv w))) = inr info.
Proof.
  intros Hn Hc. apply dump_valid. unfold serverInfo_json. constructor; simpl.
  - intros k. rewrite !elem_of_cons. intros [->|[->|[->|[]%elem_of_nil]]]; by apply valid_ascii.
  - intros j. rewrite !elem_of_cons. intros [->|[->|[->|[]%elem_of_nil]]].
    + constructor. by apply valid_ascii.
    + by constructor.
    + constructor. intros j' (s & -> & Hs)%list_elem_of_fmap. constructor.
      by eapply Forall_forall in Hc.
Qed.

Lemma unadvertise_dumps id : ∃ s, json_dump (unadvertise_json id) = inr s.
Proof.
  apply dump_valid. unfold unadvertise_json. constructor; simpl.
  - intros k. rewrite !elem_of_cons. intros [->|[->|[]%elem_of_nil]]; by apply valid_ascii.
  - intros j. rewrite !elem_of_cons. intros [->|[->|[]%elem_of_nil]]; constructor.
    + by apply valid_ascii.
    + intros j'. rewrite list_elem_of_singleton. intros ->. constructor.
Qed.

Lemma receive_advertise v (m : View) j :
  table_ok m → push_channels json_null (iter_map m).*2 = inr j →
  receive_json v (advertise_json j) = m ∪ v.
Proof.
  intros Hm Hj. rewrite push_channels_all in Hj.
  destruct (push_all_null (Channel_to_json <$> (iter_map m).*2)) as (j' & Hj' & Hitems & _).
  rewrite Hj' in Hj. injection Hj as ->.
  unfold receive_json, advertise_json. erewrite string_at_object by solve_object. simpl.
  unfold decoded. erewrite elements_object by solve_object. rewrite Hitems, decoded_channels.
  - apply learn_table; [by rewrite iter_map_perm|]. intros id ch Hch. by apply Hm.
  - apply Forall_forall. intros ch ([id ch'] & -> & Hin)%list_elem_of_fmap.
    apply elem_of_iter_map in Hin. destruct (Hm _ _ Hin) as [Heq Hid]. simpl. by rewrite Heq.
Qed.

(** Frames for one client. *)
Lemma informed_send P Q hdl fs C w w' :
  InformedX P w → srv w' = srv w → emits (only hdl fs) C w w' →
  (∀ id h, h ≠ hdl → P id h → Q id h) →
  (∀ id ch, is_Some (_clients (srv w) !! hdl) → replay (known w hdl) fs !! id = Some ch →
     Q id hdl ∨ _channels (srv w) !! id = Some ch) →
  InformedX Q w'.
Proof.
  intros [Hv Hn Hc] Hs Hem HPQ Hhdl. split; rewrite ?Hs; [|done..].
  intros h id ch Hcl. rewrite (known_emits _ _ _ _ h Hem). unfold only.
  case_decide as Hh; [subst h; by apply Hhdl|]. intros Hk.
  destruct (Hv _ _ _ Hcl Hk) as [HP|?]; [left; by apply HPQ|by right].
Qed.

(** A client joins: whatever it knows from before is forgotten with the greeting. *)
Definition joining (hdl : ConnHandle) (ch : ChannelId) (h : ConnHandle) : Prop := h = hdl.

Lemma informed_open hdl name w :
  Informed w →
  InformedX (joining hdl)
    (set_srv (upd_clients (λ cs, (emplace hdl (mkClientInfo name hdl ∅ ∅) cs).1) (srv w)) w).
Proof.
  intros [Hv Hn Hc]. split; simpl; [|done..]. intros h id ch [c Hcl] Hk.
  destruct (decide (h = hdl)) as [->|Hne]; [by left|]. right.
  apply lookup_emplace_Some in Hcl as [Hcl|(-> & _)]; [|done].
  by destruct (Hv h id ch (ex_intro _ c Hcl) Hk) as [[]|].
Qed.

Lemma informed_greet hdl info w :
  InformedX (joining hdl) w →
  json_dump (serverInfo_json (_name (srv w)) (_capabilities (srv w))) = inr info →
  Informed (mkWorld (srv w) (net w) (env w) (out w ++ [EvConSend hdl (TextFrame info)])).
Proof.
  intros HI Hinfo.
  apply (informed_send (joining hdl) none_gone hdl [TextFrame info] [] w); [done|done| | |].
  - eexists. split; [done|]. split; [|done]. intros h. unfold only, sent. simpl.
    repeat case_decide; congruence.
  - intros id h Hne Hj. by destruct Hne.
  - intros id ch _. rewrite replay_one, (receive_dumped _ _ _ Hinfo), receive_serverInfo.
    by rewrite lookup_empty.
Qed.

Lemma informed_add newId channel w :
  Informed w →
  Informed (set_srv (upd_channels (λ m, (emplace newId channel m).1) (srv w)) w).
Proof.
  intros [Hv Hn Hc]. split; simpl; [|done..]. intros h id ch Hcl Hk. right.
  apply lookup_emplace_Some. left. by destruct (Hv h id ch Hcl Hk) as [[]|].
Qed.

(** All the channels go to one client, as far as they have a text. *)
Lemma informed_advertise hdl j w :
  Informed w → table_ok (_channels (srv w)) →
  push_channels json_null (iter_map (_channels (srv w))).*2 = inr j →
  Informed (sendJson hdl (advertise_json j) w).1.
Proof.
  intros HI Hm Hj. destruct (sends_sendJson hdl (advertise_json j) w) as (_ & [Hs _] & Hem).
  eapply informed_send; [exact HI|exact Hs|exact Hem|by intros ??? []|].
  intros id ch Hcl. rewrite replay_json. destruct (json_dump _) as [e|s].
  - intros Hk. destruct (inf_view _ _ HI _ _ _ Hcl Hk) as [[]|?]; by right.
  - rewrite (receive_advertise _ _ _ Hm Hj). intros [?|[_ Hk]]%lookup_union_Some_raw; [by right|].
    by destruct (inf_view _ _ HI _ _ _ Hcl Hk) as [[]|]; right.
Qed.

Lemma informed_advertise_raw hdl j s w :
  Informed w → table_ok (_channels (srv w)) →
  push_channels json_null (iter_map (_channels (srv w))).*2 = inr j →
  json_dump (advertise_json j) = inr s →
  Informed (sendJsonRaw hdl s w).1.
Proof.
  intros HI Hm Hj Hs. pose proof (informed_advertise hdl j w HI Hm Hj) as Ha.
  unfold sendJson in Ha. unfold sendJsonRaw. revert Ha. unfold try_catch, bind, lift.
  by rewrite Hs.
Qed.

(** A view is a table of channels itself. *)
Lemma decode_channel_u32 j ch : decode_channel j = Some ch → is_u32 (chan_id ch).
Proof.
  unfold decode_channel. repeat case_match; try done. intros [= <-]. simpl.
  unfold json_uint32_at in *. destruct (json_at j "id"); [done|]. by eapply get_uint32_range.
Qed.

Lemma learn_table_ok l v :
  table_ok v → Forall (λ ch, is_u32 (chan_id ch)) l → table_ok (learn v l).
Proof.
  intros Hv Hl. revert v Hv. induction Hl as [|ch l Hch _ IH]; intros v Hv; simpl; [done|].
  apply IH. by intros id ch' [[<- <-]|[_ ?]]%lookup_insert_Some; [|apply Hv].
Qed.

Lemma unlearn_subseteq l v : unlearn v l ⊆ v.
Proof.
  revert v. induction l as [|id l IH]; intros v; simpl; [done|]. etrans; [apply IH|].
  apply delete_subseteq.
Qed.

Lemma table_ok_subseteq (m m' : View) : m ⊆ m' → table_ok m' → table_ok m.
Proof. intros Hsub Hm' id ch Hch. apply Hm'. by eapply lookup_weaken. Qed.

Lemma receive_table_ok v f : table_ok v → table_ok (receive v f).
Proof.
  intros Hv. destruct f as [s|b|]; simpl; [|done..]. destruct (json_parse s) as [e|j]; [done|].
  unfold receive_json. destruct (json_string_at j "op") as [e|op]; [done|]. repeat case_match.
  - intros id ch. by rewrite lookup_empty.
  - apply learn_table_ok; [done|]. apply Forall_forall. intros ch. unfold decoded.
    destruct (json_elements _ _); [by intros ?%not_elem_of_nil|].
    intros (x & _ & Hx)%list_elem_of_omap. by eapply decode_channel_u32.
  - eapply table_ok_subseteq; [apply unlearn_subseteq|done].
  - done.
Qed.

Lemma known_table_ok w hdl : table_ok (known w hdl).
Proof.
  unfold known, view, replay. generalize (sent hdl (out w)). intros fs.
  assert (table_ok ∅) as Hempty by (intros ??; by rewrite lookup_empty).
  revert Hempty.
  generalize (∅ : View). induction fs as [|f fs IH]; intros v Hv; simpl; [done|].
  by apply IH, receive_table_ok.
Qed.

(** An unadvertisement takes its channel away, whatever the id is. *)
Lemma receive_unadvertise_subseteq v id :
  table_ok v → receive_json v (unadvertise_json id) ⊆ delete id v.
Proof.
  intros Hv. destruct (decide (0 <= id < 2 ^ 32)) as [Hid|Hid]; [by rewrite receive_unadvertise|].
  rewrite delete_id.
  - unfold receive_json, unadvertise_json. erewrite string_at_object by solve_object.
    apply unlearn_subseteq.
  - apply eq_None_not_Some. by intros [ch [_ ?]%Hv].
Qed.

(** A channel goes: first from the table, then client by client. *)
Lemma informed_gone chanId l w :
  Informed w → (∀ hdl, is_Some (_clients (srv w) !! hdl) → hdl ∈ l) →
  InformedX (gone chanId l) (set_srv (upd_channels (delete chanId) (srv w)) w).
Proof.
  intros [Hv Hn Hc] Hl. split; simpl; [|done..]. intros h id ch Hcl Hk.
  destruct (decide (id = chanId)) as [->|Hne]; [left; split; [done|by apply Hl]|right].
  rewrite lookup_delete_ne by done. by destruct (Hv h id ch Hcl Hk) as [[]|].
Qed.

Lemma informed_unadvertise chanId hdl l w :
  InformedX (gone chanId (hdl :: l)) w →
  InformedX (gone chanId l) (sendJson hdl (unadvertise_json chanId) w).1.
Proof.
  intros HI. destruct (sends_sendJson hdl (unadvertise_json chanId) w) as (_ & [Hs _] & Hem).
  eapply informed_send; [exact HI|exact Hs|exact Hem| |].
  - intros id h Hne [-> [->|Hin]%elem_of_cons]; [done|by split].
  - intros id ch Hcl. rewrite replay_json. destruct (unadvertise_dumps chanId) as [s ->].
    intros Hk. eapply lookup_weaken in Hk; [|by apply receive_unadvertise_subseteq, known_table_ok].
    apply lookup_delete_Some in Hk as [Hne Hk].
    destruct (inf_view _ _ HI _ _ _ Hcl Hk) as [[-> _]|?]; [done|by right].
Qed.

Lemma informed_gone_nil chanId w : InformedX (gone chanId []) w → Informed w.
Proof.
  intros [Hv Hn Hc]. split; [|done..]. intros h id ch Hcl Hk.
  destruct (Hv _ _ _ Hcl Hk) as [[_ Hin]|]; [by apply not_elem_of_nil in Hin|by right].
Qed.
End server.

Abbreviation Informed := (InformedX none_gone).

#[export] Hint Resolve undisturbed_preorder undisturbed_on_net undisturbed_on_env
  undisturbed_sendBinary undisturbed_sendStatus undisturbed_upd_client
  undisturbed_handleMessage undisturbed_handleConnectionClosed undisturbed_validateConnection
  undisturbed_get_con undisturbed_remoteEndpointString undisturbed_alog undisturbed_elog
  undisturbed_server undisturbed_in_bounds undisturbed_channels_json
  undisturbed_sendMessage undisturbed_broadcastTime undisturbed_start : cpp.
