(* ===== verification/ViewSteps.v ===== *)
(** * Every step of the server keeps its clients informed

    A connected client knows only channels that exist, whatever is called in
    whatever order; after a broadcast it knows them all; and nothing but the
    addition of a channel makes it lag behind. *)

From Stdlib Require Import Strings.Byte.
From S2P Require Import Prelude Serialization Common Logging Interfaces Server ServerFacts.
From S2P Require Import ServerInvariant ServerSpec Client Protocol Reachable Views.

Local Open Scope Z_scope.
Local Open Scope string_scope.
Local Open Scope list_scope.

Section steps.
Context `{Platform, Iteration, LogChannels, Nlohmann, Websocketpp}.
Context `{!NlohmannLaws, !WebsocketppLaws, !NlohmannUtf8}.
Context {E : Type} (handlers : Handlers E).
Implicit Types w : World E.

(** ** The member functions keep clients informed *)

Definition informed w : Prop := ServerInv (srv w) ∧ Informed w.
Definition keeps_informed w w' : Prop := informed w → informed w'.

#[export] Instance keeps_informed_preorder : PreOrder keeps_informed.
Proof. split; [by intros ??|]. intros ??? Hxy Hyz ?. by apply Hyz, Hxy. Qed.

Lemma informed_kept {A} (m : M (World E) A) w :
  preserves keeps_inv m → preserves undisturbed m → keeps_informed w (m w).1.
Proof.
  intros Hk Hu [HI Hv]. split; [by apply Hk|].
  eapply informed_undisturbed; [apply Hu|done].
Qed.

Lemma informed_removeChannel chanId w : keeps_informed w (removeChannel (E:=E) chanId w).1.
Proof.
  intros [HI Hv]. split; [by apply keeps_removeChannel|].
  destruct (removeChannel_run chanId w) as (_ & _ & Hs & Hem).
  split; rewrite ?Hs; simpl; [|apply Hv..]. intros h id ch Hcl.
  rewrite (known_emits _ _ _ _ h Hem). unfold to_all. rewrite lookup_fmap, fmap_is_Some in Hcl.
  rewrite decide_True by done. rewrite replay_json. destruct (unadvertise_dumps chanId) as [s ->].
  intros Hk. right.
  eapply lookup_weaken in Hk; [|by apply receive_unadvertise_subseteq, known_table_ok].
  eapply lookup_weaken; [exact Hk|]. apply delete_mono. by apply informed_view.
Qed.

Lemma informed_addChannel channel w : keeps_informed w (addChannel (E:=E) channel w).1.
Proof.
  intros [HI Hv]. split; [by apply keeps_addChannel|].
  set (newId := u32 (_nextChannelId (srv w) + 1)).
  apply (informed_add newId (mkChannel newId channel)
    (set_srv (set_nextChannelId newId (srv w)) w)). by destruct Hv.
Qed.

(** A step in the middle of a computation. *)
Definition table_informed w : Prop := Informed w ∧ table_ok (_channels (srv w)).

Lemma table_informed_undisturbed w w' : undisturbed w w' → table_informed w → table_informed w'.
Proof.
  intros Hu [Hv Ht]. split; [by eapply informed_undisturbed|]. by rewrite (und_channels _ _ Hu).
Qed.

(** A statement that clients do not notice, then the rest. *)
Lemma wp_bind_undisturbed {A B} (P Q : World E → Prop) (m : M (World E) A)
    (f : A → M (World E) B) w :
  (∀ w w', undisturbed w w' → P w → P w') → (∀ w, P w → Q w) →
  preserves undisturbed m → P w → (∀ a w', P w' → wp (f a) (λ _, Q) w') →
  wp (bind m f) (λ _, Q) w.
Proof.
  intros HP HPQ Hm Hw Hf. rewrite wp_bind. unfold wp at 1.
  assert (P (m w).1) as Hw' by (eapply HP; [apply Hm|done]).
  destruct (m w).2; [by apply HPQ|by apply Hf].
Qed.

(** The advertisement of all channels, as [channels_json] leaves it. *)
Lemma wp_channels_json (Q : result json → World E → Prop) w :
  wp channels_json Q w ↔ Q (push_channels json_null (iter_map (_channels (srv w))).*2) w.
Proof. unfold channels_json. by rewrite wp_bind, wp_server, wp_lift. Qed.

Lemma greeted_channels hdl w :
  table_informed w →
  wp (let! channels := channels_json in sendJson hdl (advertise_json channels))
     (λ _, table_informed) w.
Proof.
  intros [Hv Ht]. rewrite wp_bind, wp_channels_json.
  destruct (push_channels _ _) as [e|j] eqn:Hj; [done|]. split; [by apply informed_advertise|].
  by destruct (sends_sendJson hdl (advertise_json j) w) as (_ & [-> _] & _).
Qed.

Lemma informed_handleConnectionOpened hdl w :
  _clientChannels (srv w) !! hdl = None →
  keeps_informed w (handleConnectionOpened (E:=E) hdl w).1.
Proof.
  intros Hfresh [HI Hv]. split; [by apply keeps_handleConnectionOpened|].
  assert (table_informed w) as Hw by (split; [done|by apply table_ok_inv]).
  enough (wp (handleConnectionOpened hdl) (λ _, table_informed) w) as [? _] by done.
  clear Hfresh HI Hv. unfold handleConnectionOpened. revert w Hw.
  do 4 (intros w Hw; apply (wp_bind_undisturbed _ _ _ _ _ table_informed_undisturbed);
        [done|auto with cpp|done|intros ?]; clear w Hw).
  intros w [Hv Ht]. rewrite wp_bind, wp_update, wp_bind, wp_server, wp_bind, wp_server.
  pose proof (informed_open hdl a0 w Hv) as Hj. set (w1 := set_srv _ _) in *.
  destruct (serverInfo_dumps w1) as [info Hinfo]; [apply Hj..|].
  rewrite wp_bind, wp_lift, Hinfo, wp_bind, wp_emit.
  pose proof (informed_greet hdl info w1 Hj Hinfo) as Hg.
  apply (wp_bind_undisturbed _ _ _ _ _ table_informed_undisturbed);
    [done|apply undisturbed_on_net|by split|].
  intros _ w2 Hw2. by apply greeted_channels.
Qed.

(** ** Broadcasts *)

(** When the channels have no text, nobody is sent anything. *)
Lemma broadcastChannels_fails e w :
  advertisement_text (srv w) = inl e → (broadcastChannels (E:=E) w).1 = w.
Proof.
  unfold advertisement_text, broadcastChannels, channels_json, bind, server, gets, lift.
  simpl. case_bool_decide; [done|]. destruct (push_channels _ _) as [e'|j]; [done|].
  by intros ->.
Qed.

(** A client that is sent the text knows the channels, and beyond them what it
    knew. *)
Lemma receive_advertisement v s txt :
  table_ok (_channels s) → advertisement_text s = inr txt →
  receive v (TextFrame txt) = _channels s ∪ v.
Proof.
  unfold advertisement_text. intros Ht. destruct (push_channels _ _) as [e|j] eqn:Hj; [done|].
  intros Htxt. by rewrite (receive_dumped _ _ _ Htxt), (receive_advertise _ _ _ Ht Hj).
Qed.

Lemma union_known (m v : gmap ChannelId Channel) : v ⊆ m → m ∪ v = m.
Proof.
  intros Hv. apply map_eq. intros id. rewrite lookup_union.
  destruct (m !! id) eqn:Hm; [by destruct (v !! id)|].
  by rewrite (lookup_weaken_None _ _ _ Hm Hv).
Qed.

(** Every connected client knows all the channels and no others. *)
Definition up_to_date w : Prop :=
  ∀ hdl, is_Some (_clients (srv w) !! hdl) → known w hdl = _channels (srv w).

Lemma broadcastChannels_updates txt w :
  informed w → advertisement_text (srv w) = inr txt → up_to_date (broadcastChannels (E:=E) w).1.
Proof.
  intros [HI Hv] Htxt hdl.
  destruct (broadcastChannels_sends _ w Htxt) as (_ & [Hs _] & Hem). rewrite Hs. intros Hcl.
  rewrite (known_emits _ _ _ _ hdl Hem). unfold to_all. rewrite decide_True by done.
  rewrite replay_one, (receive_advertisement _ _ _ (table_ok_inv _ HI) Htxt).
  by apply union_known, informed_view.
Qed.

Lemma informed_of_up_to_date w w' :
  srv w' = srv w → informed w → up_to_date w' → informed w'.
Proof.
  intros Hs [HI [_ Hn Hc]] Hu. split; [by rewrite Hs|]. split; rewrite ?Hs; [|done..].
  intros hdl id ch Hcl Hk. right. rewrite <-Hs, <-(Hu hdl); [done|]. by rewrite Hs.
Qed.

Lemma informed_broadcastChannels w : keeps_informed w (broadcastChannels (E:=E) w).1.
Proof.
  intros Hw. destruct (advertisement_text (srv w)) as [e|txt] eqn:Htxt.
  - by rewrite (broadcastChannels_fails e).
  - eapply informed_of_up_to_date; [|exact Hw|by eapply broadcastChannels_updates].
    by destruct (broadcastChannels_sends _ w Htxt) as (_ & [Hs _] & _).
Qed.

(** ** Runs *)

Lemma informed_run_pending p w : may_run p w → keeps_informed w (run_pending handlers p w).1.
Proof.
  destruct p as [hdl|hdl|ts hdl msg|hdl]; simpl; intros Hp.
  - apply (preserves_bind keeps_informed); [|intros ?; apply preserves_ret; tc_solve].
    intros w'. apply informed_kept; [apply keeps_validateConnection|auto with cpp].
  - by apply informed_handleConnectionOpened.
  - apply informed_kept; [apply keeps_handleMessage|auto with cpp].
  - apply informed_kept; [apply keeps_handleConnectionClosed|auto with cpp].
Qed.

Lemma informed_poll next :
  (∀ w p, next w = Some p → may_run p w) → preserves keeps_informed (poll handlers next).
Proof.
  intros Hn w. unfold poll. destruct (next w) as [p|] eqn:Hp; [|done].
  by apply informed_run_pending, Hn.
Qed.

Lemma informed_update f :
  (∀ s, ServerInv s → ServerInv (f s)) → preserves undisturbed (update (E:=E) f) →
  preserves keeps_informed (update (E:=E) f).
Proof. intros Hf Hu w. apply informed_kept; [|done]. intros w' HI. by apply Hf. Qed.

Lemma informed_same {A} (m : M (World E) A) :
  preserves same_srv m → preserves undisturbed m → preserves keeps_informed m.
Proof. intros Hs Hu w. apply informed_kept; [by apply keeps_same|done]. Qed.

Lemma informed_stop poll_one :
  preserves keeps_informed poll_one → preserves keeps_informed (stop (E:=E) poll_one).
Proof.
  intros Hp.
  assert (∀ A (f : Net → Net * result A), preserves keeps_informed (on_net (E:=E) f)) as Hnet.
  { intros A f. apply informed_same; auto with cpp. }
  assert (∀ e, neutral_event e → preserves keeps_informed (emit (E:=E) e)) as Hemit.
  { intros e He. apply informed_same; [auto with cpp|by apply undisturbed_emit]. }
  unfold stop, join_server_thread, on_net_ec, on_net_, remoteEndpointString, alog, elog.
  traverse (idtac; match goal with
    | |- preserves _ (on_net _) => apply Hnet
    | |- preserves _ (emit _) => apply Hemit; exact I
    | |- preserves _ (server _) => apply informed_same; auto with cpp
    | |- preserves _ (stop_wait _ ?n ?ms) => generalize n ms; intros fuel; induction fuel; intros ?; simpl
    | |- preserves _ (update _) => apply informed_update; [auto with cpp|]
    end); try done.
  apply undisturbed_fewer_clients. intros ?. apply map_empty_subseteq.
Qed.

Lemma server_step_informed w w' : server_step handlers w w' → keeps_informed w w'.
Proof.
  destruct 1 as [p w Hp|c w|ch w|w|hdl ch ts d w|ts w|host port w|next w Hn|w w' Hs Ho].
  - by apply informed_run_pending.
  - apply informed_addChannel.
  - apply informed_removeChannel.
  - apply informed_broadcastChannels.
  - apply informed_kept; [apply keeps_sendMessage|auto with cpp].
  - apply informed_kept; [apply keeps_broadcastTime|auto with cpp].
  - apply informed_kept; [apply keeps_start|auto with cpp].
  - by apply informed_stop, informed_poll.
  - intros [HI Hv]. split; [by rewrite Hs|].
    eapply informed_undisturbed; [|exact Hv]. by split; rewrite ?Hs, ?Ho.
Qed.

(** ** Up to date *)

Definition valid_channel (ch : ChannelWithoutId) : Prop :=
  valid_utf8 (topic ch) ∧ valid_utf8 (encoding ch) ∧ valid_utf8 (schemaName ch) ∧
  valid_utf8 (schema ch).

Lemma valid_Channel_to_json (ch : Channel) : valid_channel ch → json_valid valid_utf8 (Channel_to_json ch).
Proof.
  intros (Ht & He & Hn & Hs). unfold Channel_to_json. constructor; simpl.
  - intros k. rewrite !elem_of_cons.
    intros [->|[->|[->|[->|[->|[]%elem_of_nil]]]]]; by apply valid_ascii.
  - intros j. rewrite !elem_of_cons.
    intros [->|[->|[->|[->|[->|[]%elem_of_nil]]]]]; by constructor.
Qed.

Lemma advertisement_has_text s :
  (∀ id (ch : Channel), _channels s !! id = Some ch → valid_channel ch) →
  ∃ txt, advertisement_text s = inr txt.
Proof.
  intros Hv. unfold advertisement_text. rewrite push_channels_all.
  destruct (push_all_null (Channel_to_json <$> (iter_map (_channels s)).*2))
    as (j & -> & _ & Hnil & Hcons).
  apply dump_valid. unfold advertise_json. constructor; simpl.
  { intros k. rewrite !elem_of_cons. intros [->|[->|[]%elem_of_nil]]; by apply valid_ascii. }
  intros k. rewrite !elem_of_cons. intros [->|[->|[]%elem_of_nil]].
  { constructor. by apply valid_ascii. }
  destruct (decide (Channel_to_json <$> (iter_map (_channels s)).*2 = [])) as [Hn|Hn].
  { rewrite (Hnil Hn). constructor. }
  rewrite (Hcons Hn). constructor. intros x (ch & -> & Hch)%list_elem_of_fmap.
  apply list_elem_of_fmap in Hch as ([id ch'] & -> & Hin%elem_of_iter_map).
  by apply valid_Channel_to_json, (Hv id).
Qed.

(** The channels have a text, and every client has been sent them. *)
Definition all_valid w : Prop := ∀ id (ch : Channel), _channels (srv w) !! id = Some ch → valid_channel ch.

Record synced w : Prop := mkSynced {
  sync_informed : informed w;
  sync_known : up_to_date w;
  sync_valid : all_valid w;
}.
Definition keeps_synced w w' : Prop := synced w → synced w'.

#[export] Instance keeps_synced_preorder : PreOrder keeps_synced.
Proof. split; [by intros ??|]. intros ??? Hxy Hyz ?. by apply Hyz, Hxy. Qed.

Lemma synced_kept {A} (m : M (World E) A) :
  preserves keeps_inv m → preserves undisturbed m → preserves keeps_synced m.
Proof.
  intros Hk Hu w [HI Hu' Hv]. destruct (Hu w) as [Hc Hn Hp Hcl Hr]. split.
  - by apply informed_kept.
  - intros hdl Hs%Hcl. unfold known, view. rewrite Hr, Hc. by apply Hu'.
  - unfold all_valid. by rewrite Hc.
Qed.

(** What happens outside the server and its connections' frames does not matter. *)
Lemma synced_outside w w' : srv w' = srv w → out w' = out w → synced w → synced w'.
Proof.
  intros Hs Ho [[HI [Hv Hn Hc]] Hu Hval]. unfold known in *.
  split; [split; [by rewrite Hs|]|unfold up_to_date, known|unfold all_valid]; rewrite ?Hs, ?Ho; [|done..].
  split; unfold known; rewrite ?Hs, ?Ho; done.
Qed.

Lemma synced_removeChannel chanId w :
  is_Some (_channels (srv w) !! chanId) → keeps_synced w (removeChannel (E:=E) chanId w).1.
Proof.
  intros [ch0 Hch0] [HI Hu Hv]. pose proof HI as [Hinv _].
  destruct (table_ok_inv _ Hinv _ _ Hch0) as [_ Hid].
  split; [by apply informed_removeChannel|..];
    destruct (removeChannel_run chanId w) as (_ & _ & Hs & Hem).
  - intros h. rewrite Hs. simpl. intros Hcl.
    rewrite (known_emits _ _ _ _ h Hem). unfold to_all. rewrite lookup_fmap, fmap_is_Some in Hcl.
    rewrite decide_True by done. rewrite replay_json.
    destruct (unadvertise_dumps chanId) as [s ->].
    by rewrite receive_unadvertise, Hu.
  - unfold all_valid. rewrite Hs. simpl. intros id ch [_ ?]%lookup_delete_Some. by apply (Hv id).
Qed.

Lemma synced_broadcastChannels w :
  informed w → all_valid w → synced (broadcastChannels (E:=E) w).1.
Proof.
  intros HI Hv. destruct (advertisement_has_text _ Hv) as [txt Htxt].
  split; [by apply informed_broadcastChannels|by eapply broadcastChannels_updates|].
  unfold all_valid. by destruct (broadcastChannels_sends _ w Htxt) as (_ & [-> _] & _).
Qed.

(** All clients but [X] are up to date. *)
Record current (X : ConnHandle → Prop) w : Prop := mkCurrent {
  cur_informed : table_informed w;
  cur_known hdl : is_Some (_clients (srv w) !! hdl) → ¬ X hdl → known w hdl = _channels (srv w);
  cur_valid : all_valid w;
}.

Lemma current_undisturbed X w w' : undisturbed w w' → current X w → current X w'.
Proof.
  intros Hu [HI Hk Hv]. pose proof Hu as [Hc Hn Hp Hcl Hr]. split.
  - by eapply table_informed_undisturbed.
  - intros hdl Hs%Hcl HX. unfold known, view. rewrite Hr, Hc. by apply Hk.
  - unfold all_valid. by rewrite Hc.
Qed.

Lemma current_greeted_channels hdl w :
  current (eq hdl) w →
  wp (let! channels := channels_json in sendJson hdl (advertise_json channels))
     (λ _, current (λ _, False)) w.
Proof.
  intros [HI Hk Hv]. pose proof (greeted_channels hdl w HI) as Hg. revert Hg.
  destruct (advertisement_has_text _ Hv) as [txt Htxt]. pose proof Htxt as Htxt'.
  unfold advertisement_text in Htxt.
  rewrite !wp_bind, !wp_channels_json. destruct (push_channels _ _) as [e|j]; [done|]. intros Hg.
  destruct (sends_sendJson hdl (advertise_json j) w) as (_ & [Hs _] & Hem).
  split; [exact Hg| |unfold all_valid; by rewrite Hs].
  intros h. rewrite Hs. intros Hcl _. rewrite (known_emits _ _ _ _ h Hem). unfold only.
  case_decide as Hh; [subst h|by apply Hk].
  unfold json_frames. rewrite Htxt, replay_one.
  rewrite (receive_advertisement _ _ _ (proj2 HI) Htxt').
  by apply union_known, informed_view; [apply HI|].
Qed.

Lemma current_handleConnectionOpened hdl w :
  current (λ _, False) w →
  wp (handleConnectionOpened (E:=E) hdl) (λ _, current (λ _, False)) w.
Proof.
  unfold handleConnectionOpened. revert w.
  do 4 (intros w Hw; apply (wp_bind_undisturbed _ _ _ _ _ (current_undisturbed (λ _, False)));
        [done|auto with cpp|done|intros ?]; clear w Hw).
  intros w [[Hv Ht] Hk Hval]. rewrite wp_bind, wp_update, wp_bind, wp_server, wp_bind, wp_server.
  pose proof (informed_open hdl a0 w Hv) as Hj. set (w1 := set_srv _ _) in *.
  destruct (serverInfo_dumps w1) as [info Hinfo]; [apply Hj..|].
  rewrite wp_bind, wp_lift, Hinfo, wp_bind, wp_emit.
  pose proof (informed_greet hdl info w1 Hj Hinfo) as Hg.
  unfold on_net_. rewrite wp_bind, wp_on_net. apply current_greeted_channels. split.
  - split; [|exact Ht]. eapply informed_undisturbed; [|exact Hg]. by split.
  - simpl. intros h [c [Hcl|(<- & _)]%lookup_emplace_Some] Hne; [|by destruct Hne].
    unfold known. simpl. rewrite sent_app. unfold view, sent at 2. simpl.
    rewrite decide_False, app_nil_r by congruence. apply Hk; [by exists c|by intros []].
  - exact Hval.
Qed.

Lemma synced_current w : synced w ↔ ServerInv (srv w) ∧ current (λ _, False) w.
Proof.
  split.
  - intros [[HI Hv] Hu Hval]. split; [done|]. split; [|by auto|done].
    split; [done|by apply table_ok_inv].
  - intros [HI [[Hv _] Hk Hval]]. split; [by split|intros h Hcl; apply Hk; [done|by intros []]|done].
Qed.

Lemma synced_handleConnectionOpened hdl w :
  _clientChannels (srv w) !! hdl = None →
  keeps_synced w (handleConnectionOpened (E:=E) hdl w).1.
Proof.
  unfold keeps_synced. rewrite !synced_current. intros Hfresh [HI Hc].
  split; [by apply keeps_handleConnectionOpened|by apply current_handleConnectionOpened].
Qed.

Lemma synced_run_pending p w : may_run p w → keeps_synced w (run_pending handlers p w).1.
Proof.
  destruct p as [hdl|hdl|ts hdl msg|hdl]; simpl; intros Hp.
  - apply (preserves_bind keeps_synced); [|intros ?; apply preserves_ret; tc_solve].
    apply synced_kept; [apply keeps_validateConnection|auto with cpp].
  - by apply synced_handleConnectionOpened.
  - apply synced_kept; [apply keeps_handleMessage|auto with cpp].
  - apply synced_kept; [apply keeps_handleConnectionClosed|auto with cpp].
Qed.

(** ** The beginning *)

Lemma informed_fresh name capabilities limit tls w :
  srv w = new_Server name capabilities limit tls →
  valid_utf8 name → Forall valid_utf8 capabilities → informed w.
Proof.
  intros Hs Hn Hc. split; [rewrite Hs; apply new_Server_inv|]. split; rewrite Hs; [|done..].
  intros h id ch [c Hl]. simpl in Hl. by apply lookup_empty_Some in Hl.
Qed.

Lemma synced_fresh name capabilities limit tls w :
  srv w = new_Server name capabilities limit tls →
  valid_utf8 name → Forall valid_utf8 capabilities → synced w.
Proof.
  intros Hs Hn Hc. split; [by eapply informed_fresh| |].
  - intros h [c Hl]. rewrite Hs in Hl. simpl in Hl. by apply lookup_empty_Some in Hl.
  - intros id ch Hl. rewrite Hs in Hl. simpl in Hl. by apply lookup_empty_Some in Hl.
Qed.
End steps.
