(* ===== verification/Regex.v ===== *)
(** * The part of [std::regex] that the message definition cache uses

    Regular expressions are matched by backtracking, in the order of ECMAScript:
    the matcher lists every way to match at a position, the preferred one
    first.  Repetition is over single characters, which is all the three
    expressions of [message_definition_cache.cpp] need. *)

From Stdlib Require Import Strings.Ascii.
From S2P Require Import Prelude.

Local Open Scope string_scope.
Local Open Scope list_scope.
Local Open Scope nat_scope.

Abbreviation text := (list ascii) (only parsing).

Inductive regex :=
| Eps
| Class_ (p : ascii → bool)
| Star (p : ascii → bool)
| Seq (r1 r2 : regex)
| Alt (r1 r2 : regex)
| Group (n : nat) (r : regex)
| Bol
| Eol.

Definition Plus (p : ascii → bool) : regex := Seq (Class_ p) (Star p).
Definition Opt (r : regex) : regex := Alt r Eps.
Definition Chr (c : ascii) : regex := Class_ (Ascii.eqb c).
Fixpoint Lit (s : string) : regex :=
  match s with EmptyString => Eps | String c s => Seq (Chr c) (Lit s) end.

(** The captures, innermost last, and the text that is left. *)
Definition outcome : Type := list (nat * text) * text.

(** A greedy repetition: the longest one first. *)
Fixpoint star (p : ascii → bool) (s : text) : list text :=
  match s with
  | c :: s' => if p c then star p s' ++ [s] else [s]
  | [] => [[]]
  end.

(** What [s] lost to become [rest]. *)
Definition consumed (s rest : text) : text := take (length s - length rest) s.

(** [begin] says that [s] is the whole subject: only there does [^] match. *)
Fixpoint exec (r : regex) (begin : bool) (s : text) : list outcome :=
  match r with
  | Eps => [([], s)]
  | Class_ p => match s with c :: s' => if p c then [([], s')] else [] | [] => [] end
  | Star p => (λ rest, ([], rest)) <$> star p s
  | Seq r1 r2 =>
      exec r1 begin s ≫= λ o1,
        (λ o2 : outcome, (o1.1 ++ o2.1, o2.2)) <$>
          exec r2 (begin && (length o1.2 =? length s)) o1.2
  | Alt r1 r2 => exec r1 begin s ++ exec r2 begin s
  | Group n r => (λ o : outcome, ((n, consumed s o.2) :: o.1, o.2)) <$> exec r begin s
  | Bol => if begin then [([], s)] else []
  | Eol => match s with [] => [([], s)] | _ => [] end
  end.

(** [match[n]] *)
Definition capture (n : nat) (caps : list (nat * text)) : text :=
  match List.find (λ p, n =? p.1) caps with Some (_, t) => t | None => [] end.

(** [std::regex_match]: the preferred way to match all of [s]. *)
Definition regex_match (r : regex) (s : text) : option (list (nat * text)) :=
  match List.find (λ o : outcome, match o.2 with [] => true | _ => false end) (exec r true s) with
  | Some o => Some o.1
  | None => None
  end.

(** [std::regex_search]: the preferred match at the first position with one. *)
Fixpoint regex_search (r : regex) (begin : bool) (s : text) : option outcome :=
  match exec r begin s with
  | o :: _ => Some o
  | [] => match s with [] => None | _ :: s' => regex_search r false s' end
  end.

(** [std::sregex_iterator], for an expression that never matches the empty
    text: the captures of the successive matches. *)
Fixpoint regex_iterate (r : regex) (fuel : nat) (begin : bool) (s : text)
  : list (list (nat * text)) :=
  match fuel with
  | O => []
  | S fuel =>
      match regex_search r begin s with
      | None => []
      | Some (caps, rest) => caps :: regex_iterate r fuel false rest
      end
  end.

Definition sregex_iterator (r : regex) (s : text) : list (list (nat * text)) :=
  regex_iterate r (S (length s)) true s.

(** ** The matcher against the meaning of regular expressions *)

(** [r] matches [w] followed by [rest]; [begin] as above. *)
Inductive matches : regex → bool → text → text → list (nat * text) → Prop :=
| m_eps b rest : matches Eps b [] rest []
| m_class p b c rest : p c = true → matches (Class_ p) b [c] rest []
| m_star p b w rest : Forall (λ c, p c = true) w → matches (Star p) b w rest []
| m_seq r1 r2 b w1 w2 rest caps1 caps2 :
    matches r1 b w1 (w2 ++ rest) caps1 →
    matches r2 (b && (length w1 =? 0)) w2 rest caps2 →
    matches (Seq r1 r2) b (w1 ++ w2) rest (caps1 ++ caps2)
| m_alt_l r1 r2 b w rest caps : matches r1 b w rest caps → matches (Alt r1 r2) b w rest caps
| m_alt_r r1 r2 b w rest caps : matches r2 b w rest caps → matches (Alt r1 r2) b w rest caps
| m_group n r b w rest caps :
    matches r b w rest caps → matches (Group n r) b w rest ((n, w) :: caps)
| m_bol rest : matches Bol true [] rest []
| m_eol b : matches Eol b [] [] [].

Lemma elem_of_star p s rest :
  rest ∈ star p s ↔ ∃ w, s = w ++ rest ∧ Forall (λ c, p c = true) w.
Proof.
  revert rest. induction s as [|c s IH]; intros rest; simpl.
  - rewrite list_elem_of_singleton. split.
    + intros ->. exists []. auto.
    + intros (w & Heq & _). symmetry in Heq. by apply app_eq_nil in Heq as [_ ->].
  - destruct (p c) eqn:Hc.
    + rewrite elem_of_app, IH, list_elem_of_singleton. split.
      * intros [(w & -> & Hw)| ->]; [exists (c :: w); auto|by exists []].
      * intros ([|c' w] & Heq & Hw); [right; done|].
        injection Heq as -> Heq. left. exists w. by apply Forall_cons in Hw as [_ ?].
    + rewrite list_elem_of_singleton. split; [intros ->; by exists []|].
      intros ([|c' w] & Heq & Hw); [done|]. injection Heq as -> Heq.
      apply Forall_cons in Hw as [? _]. congruence.
Qed.

Lemma consumed_app w rest : consumed (w ++ rest) rest = w.
Proof. unfold consumed. rewrite length_app. replace (_ - _) with (length w) by lia. apply take_app_length. Qed.

Lemma length_app_eqb (w rest : text) : (length rest =? length (w ++ rest)) = (length w =? 0).
Proof. rewrite length_app. destruct (Nat.eqb_spec (length w) 0); [apply Nat.eqb_eq|apply Nat.eqb_neq]; lia. Qed.

Lemma exec_sound r begin s caps rest :
  (caps, rest) ∈ exec r begin s → ∃ w, s = w ++ rest ∧ matches r begin w rest caps.
Proof.
  revert begin s caps rest. induction r as [|p|p|r1 IH1 r2 IH2|r1 IH1 r2 IH2|n r IH| |];
    intros begin s caps rest; simpl.
  - intros [= -> ->]%list_elem_of_singleton. exists []. split; [done|constructor].
  - destruct s as [|c s]; [by intros ?%not_elem_of_nil|]. destruct (p c) eqn:Hc.
    + intros [= -> ->]%list_elem_of_singleton. exists [c]. split; [done|by constructor].
    + by intros ?%not_elem_of_nil.
  - intros (? & [= -> ->] & (w & -> & Hw)%elem_of_star)%list_elem_of_fmap.
    exists w. split; [done|by constructor].
  - intros ([caps1 rest1] & Ho & H1)%list_elem_of_bind.
    apply list_elem_of_fmap in Ho as ([caps2 rest2] & [= -> ->] & H2).
    apply IH1 in H1 as (w1 & -> & H1). simpl in H2. rewrite length_app_eqb in H2.
    apply IH2 in H2 as (w2 & -> & H2). exists (w1 ++ w2). split; [by rewrite app_assoc|].
    by constructor.
  - intros [H1|H2]%elem_of_app.
    + apply IH1 in H1 as (w & -> & H1). exists w. split; [done|by apply m_alt_l].
    + apply IH2 in H2 as (w & -> & H2). exists w. split; [done|by apply m_alt_r].
  - intros ([caps' rest'] & [= -> ->] & H1)%list_elem_of_fmap.
    apply IH in H1 as (w & -> & H1). exists w. rewrite consumed_app. split; [done|by constructor].
  - destruct begin; [|by intros ?%not_elem_of_nil].
    intros [= -> ->]%list_elem_of_singleton. exists []. split; [done|constructor].
  - destruct s; [|by intros ?%not_elem_of_nil].
    intros [= -> ->]%list_elem_of_singleton. exists []. split; [done|constructor].
Qed.

Lemma exec_complete r begin w rest caps :
  matches r begin w rest caps → (caps, rest) ∈ exec r begin (w ++ rest).
Proof.
  induction 1 as [|p b c rest Hc|p b w rest Hw|r1 r2 b w1 w2 rest caps1 caps2 _ IH1 _ IH2
    |r1 r2 b w rest caps _ IH|r1 r2 b w rest caps _ IH|n r b w rest caps _ IH| |]; simpl.
  - apply list_elem_of_here.
  - rewrite Hc. apply list_elem_of_here.
  - apply list_elem_of_fmap. exists rest. split; [done|]. apply elem_of_star. by exists w.
  - rewrite <-app_assoc. apply list_elem_of_bind. exists (caps1, w2 ++ rest). split; [|done].
    simpl. rewrite length_app_eqb. apply list_elem_of_fmap. by exists (caps2, rest).
  - apply elem_of_app. by left.
  - apply elem_of_app. by right.
  - apply list_elem_of_fmap. exists (caps, rest). by rewrite consumed_app.
  - apply list_elem_of_here.
  - apply list_elem_of_here.
Qed.

(** [regex_match] succeeds exactly on the texts of the expression. *)
Lemma regex_match_Some r s caps :
  regex_match r s = Some caps → matches r true s [] caps.
Proof.
  unfold regex_match. destruct (List.find _ _) as [[caps' rest]|] eqn:Hf; [|done].
  intros [= <-]. apply List.find_some in Hf as [Hin Hrest]. destruct rest; [|done].
  apply list_elem_of_In, exec_sound in Hin as (w & -> & Hm). by rewrite app_nil_r.
Qed.

Lemma regex_match_None r s caps :
  regex_match r s = None → ¬ matches r true s [] caps.
Proof.
  unfold regex_match. destruct (List.find _ _) as [|] eqn:Hf; [done|]. intros _ Hm.
  apply exec_complete in Hm. rewrite app_nil_r in Hm. apply list_elem_of_In in Hm.
  by apply (List.find_none _ _ Hf) in Hm.
Qed.

(** ** Iteration *)

(** An expression that never matches the empty text. *)
Definition consumes (r : regex) : Prop :=
  ∀ b w rest caps, matches r b w rest caps → w ≠ [].

Lemma regex_search_shorter r begin s caps rest :
  consumes r → regex_search r begin s = Some (caps, rest) → length rest < length s.
Proof.
  intros Hr. revert begin. induction s as [|c s IH]; intros begin; simpl;
    (destruct (exec r begin _) as [|o l] eqn:He; [|intros [= ->];
      assert ((caps, rest) ∈ exec r begin _) as (w & Heq & Hm)%exec_sound
        by (rewrite He; apply list_elem_of_here)]).
  - done.
  - destruct w; [by apply Hr in Hm|done].
  - intros Hs. apply IH in Hs. lia.
  - destruct w as [|c' w]; [by apply Hr in Hm|]. injection Heq as -> ->.
    rewrite length_app. lia.
Qed.

(** Every match uses up some text, so the fuel is enough. *)
Lemma regex_iterate_fuel r fuel1 fuel2 begin s :
  consumes r → length s < fuel1 → length s < fuel2 →
  regex_iterate r fuel1 begin s = regex_iterate r fuel2 begin s.
Proof.
  intros Hr. revert fuel2 begin s. induction fuel1 as [|fuel1 IH]; intros fuel2 begin s Hl1 Hl2; [lia|].
  destruct fuel2 as [|fuel2]; [lia|]. simpl.
  destruct (regex_search r begin s) as [[caps rest]|] eqn:Hs; [|done].
  apply regex_search_shorter in Hs; [|done]. f_equal. apply IH; lia.
Qed.
