(* ===== verification/MessageDefinitionCache.v ===== *)
(** * The message definition cache of the ROS 2 bridge

    [message_definition_cache.hpp] and [message_definition_cache.cpp]: a message
    type's definition is read from the share directory of its package, its
    dependencies are found with regular expressions, and [get_full_text] puts
    the definition and all it depends on into one text. *)

From Stdlib Require Import Strings.Ascii.
From S2P Require Import Prelude Regex.

Local Open Scope string_scope.
Local Open Scope list_scope.

(** ** Definitions and their identifiers *)

(** @src foxglove_bridge_base/include/foxglove_bridge/message_definition_cache.hpp:11-14 MessageDefinitionFormat *)
Inductive MessageDefinitionFormat := IDL | MSG.

(** [dependencies] is a [std::set]: sorted, without duplicates.
    @src foxglove_bridge_base/include/foxglove_bridge/message_definition_cache.hpp:16-21 MessageSpec *)
Record MessageSpec := mkMessageSpec {
  dependencies : list string;
  spec_text : string;
  spec_format : MessageDefinitionFormat;
}.

(** @src foxglove_bridge_base/include/foxglove_bridge/message_definition_cache.hpp:23-30 DefinitionIdentifier *)
Record DefinitionIdentifier := mkDefinitionIdentifier {
  di_format : MessageDefinitionFormat;
  package_resource_name : string;
}.

#[export] Instance MessageDefinitionFormat_eq_dec : EqDecision MessageDefinitionFormat.
Proof. solve_decision. Defined.
#[export] Instance DefinitionIdentifier_eq_dec : EqDecision DefinitionIdentifier.
Proof. solve_decision. Defined.
#[export] Instance DefinitionIdentifier_countable : Countable DefinitionIdentifier.
Proof.
  apply (inj_countable'
    (λ d, (match di_format d with IDL => false | MSG => true end, package_resource_name d))
    (λ p, mkDefinitionIdentifier (if p.1 then MSG else IDL) p.2)).
  by intros [[] n].
Defined.

(** The hash of the identifiers in the cache and in the set of seen dependencies;
    nothing but the order in which they are stored depends on it.
    @src foxglove_bridge_base/include/foxglove_bridge/message_definition_cache.hpp:59-65 DefinitionIdentifierHash *)
Definition DefinitionIdentifierHash `{StdHash MessageDefinitionFormat, StdHash string}
    (di : DefinitionIdentifier) : Z :=
  let h1 := std_hash (di_format di) in
  let h2 := std_hash (package_resource_name di) in
  Z.lxor h1 h2.

Lemma DefinitionIdentifierHash_range `{StdHash MessageDefinitionFormat, StdHash string} di :
  is_u64 (DefinitionIdentifierHash di).
Proof. apply lxor_u64; apply std_hash_range. Qed.

(** ** Regular expressions *)

Definition newline : ascii := "010".
Definition quote : ascii := "034".

Definition in_range (lo hi c : ascii) : bool :=
  (nat_of_ascii lo <=? nat_of_ascii c)%nat && (nat_of_ascii c <=? nat_of_ascii hi)%nat.

(** [[a-zA-Z0-9_]], the same with a slash, [\s], and [[^\]]]. *)
Definition word (c : ascii) : bool :=
  in_range "a" "z" c || in_range "A" "Z" c || in_range "0" "9" c || Ascii.eqb c "_".
Definition word_or_slash (c : ascii) : bool := word c || Ascii.eqb c "/".
Definition space (c : ascii) : bool := Ascii.eqb c " " || in_range "009" "013" c.
Definition not_bracket (c : ascii) : bool := negb (Ascii.eqb c "]").

(** @src ros2_foxglove_bridge/src/message_definition_cache.cpp:20-20 PACKAGE_TYPENAME_REGEX *)
Definition PACKAGE_TYPENAME_REGEX : regex :=
  Seq Bol (Seq (Group 1 (Plus word)) (Seq (Chr "/") (Seq (Opt (Lit "msg/"))
    (Seq (Group 2 (Plus word)) Eol)))).

(** @src ros2_foxglove_bridge/src/message_definition_cache.cpp:23-23 MSG_FIELD_TYPE_REGEX *)
Definition MSG_FIELD_TYPE_REGEX : regex :=
  Seq (Alt Bol (Chr newline)) (Seq (Star space) (Seq (Group 1 (Plus word_or_slash))
    (Seq (Opt (Seq (Chr "[") (Seq (Star not_bracket) (Chr "]")))) (Plus space)))).

(** @src ros2_foxglove_bridge/src/message_definition_cache.cpp:26-27 IDL_FIELD_TYPE_REGEX *)
Definition IDL_FIELD_TYPE_REGEX : regex :=
  Seq (Alt Bol (Chr newline)) (Seq (Lit "#include") (Seq (Plus space)
    (Seq (Alt (Chr quote) (Chr "<")) (Seq (Group 1 (Plus word_or_slash))
      (Seq (Lit ".idl") (Alt (Chr quote) (Chr ">"))))))).

(** ** Dependencies *)

(** @src ros2_foxglove_bridge/src/message_definition_cache.cpp:29-31 PRIMITIVE_TYPES *)
Definition PRIMITIVE_TYPES : list string :=
  ["bool"; "byte"; "char"; "float32"; "float64"; "int8"; "uint8";
   "int16"; "uint16"; "int32"; "uint32"; "int64"; "uint64"; "string"].

(** [std::set<std::string>::insert]: in the order of the bytes. *)
Fixpoint set_insert (x : string) (l : list string) : list string :=
  match l with
  | [] => [x]
  | y :: l' =>
      match String.compare x y with
      | Lt => x :: l
      | Eq => l
      | Gt => y :: set_insert x l'
      end
  end.

(** The text of a capture. *)
Definition captured (caps : list (nat * list ascii)) (n : nat) : string :=
  String.string_of_list_ascii (capture n caps).

Definition has_slash (s : string) : bool :=
  existsb (λ c, Ascii.eqb c "/") (String.list_ascii_of_string s).

(** The name a field's type goes by, if it is not primitive.
    @src ros2_foxglove_bridge/src/message_definition_cache.cpp:39-47 parse_msg_dependencies *)
Definition msg_dependency (package_context type : string) : option string :=
  if bool_decide (type ∈ PRIMITIVE_TYPES) then None
  else if negb (has_slash type) then Some (package_context +:+ "/" +:+ type)
  else Some type.

(** @src ros2_foxglove_bridge/src/message_definition_cache.cpp:33-50 parse_msg_dependencies *)
Definition parse_msg_dependencies (text package_context : string) : list string :=
  foldl (λ deps caps,
    match msg_dependency package_context (captured caps 1) with
    | Some d => set_insert d deps
    | None => deps
    end) [] (sregex_iterator MSG_FIELD_TYPE_REGEX (String.list_ascii_of_string text)).

(** @src ros2_foxglove_bridge/src/message_definition_cache.cpp:52-60 parse_idl_dependencies *)
Definition parse_idl_dependencies (text : string) : list string :=
  foldl (λ deps caps, set_insert (captured caps 1) deps)
    [] (sregex_iterator IDL_FIELD_TYPE_REGEX (String.list_ascii_of_string text)).

(** @src ros2_foxglove_bridge/src/message_definition_cache.cpp:62-72 parse_dependencies *)
Definition parse_dependencies (format : MessageDefinitionFormat)
    (text package_context : string) : list string :=
  match format with
  | MSG => parse_msg_dependencies text package_context
  | IDL => parse_idl_dependencies text
  end.

(** @src ros2_foxglove_bridge/src/message_definition_cache.cpp:74-83 extension_for_format *)
Definition extension_for_format (format : MessageDefinitionFormat) : string :=
  match format with MSG => ".msg" | IDL => ".idl" end.

Definition nl : string := String newline "".

(** @src ros2_foxglove_bridge/src/message_definition_cache.cpp:85-101 delimiter *)
Definition delimiter (definition_identifier : DefinitionIdentifier) : string :=
  "================================================================================" +:+ nl +:+
  (match di_format definition_identifier with MSG => "MSG: " | IDL => "IDL: " end) +:+
  package_resource_name definition_identifier +:+ nl.

(** The loop of [split_string] from [prev] on; it advances by the size of the
    delimiter, so one more than the length of the text is enough fuel unless
    the delimiter is empty.
    @src ros2_foxglove_bridge/src/message_definition_cache.cpp:109-115 split_string *)
Fixpoint split_from (fuel : nat) (delim str : string) (prev : nat) : option (list string) :=
  match fuel with
  | O => None
  | S fuel =>
      match String.index prev delim str with
      | Some pos =>
          rest ← split_from fuel delim str (pos + String.length delim);
          Some (String.substring prev (pos - prev) str :: rest)
      | None => Some [String.substring prev (String.length str - prev) str]
      end
  end.

(** @src ros2_foxglove_bridge/src/message_definition_cache.cpp:103-118 split_string *)
Definition split_string (str delim : string) : option (list string) :=
  split_from (S (String.length str)) delim str 0.

(** @src ros2_foxglove_bridge/src/message_definition_cache.cpp:120-124 MessageSpec::MessageSpec *)
Definition new_MessageSpec (format : MessageDefinitionFormat) (text package_context : string)
  : MessageSpec :=
  mkMessageSpec (parse_dependencies format text package_context) text format.

(** [std::filesystem::path::filename]: what follows the last slash. *)
Fixpoint path_filename (path : string) : string :=
  match path with
  | EmptyString => EmptyString
  | String c path' =>
      if has_slash path' then path_filename path'
      else if Ascii.eqb c "/" then path' else path
  end.

(** ** Loading *)

(** What the ament index and the file system hold.  Nothing changes them while
    a text is put together. *)
Class Ament := {
  package_share_directory : gmap string string;
  rosidl_interfaces : gmap string string;
  files : gmap string string;
}.

(** [msg_specs_by_definition_identifier_] *)
Abbreviation Cache := (gmap DefinitionIdentifier MessageSpec) (only parsing).

(** The cache and the local [seen_deps] of [get_full_text].
    @src foxglove_bridge_base/include/foxglove_bridge/message_definition_cache.hpp:72-73 MessageDefinitionCache *)
Record TextState := mkTextState {
  cache : gmap DefinitionIdentifier MessageSpec;
  seen_deps : gset DefinitionIdentifier;
}.

Section load.
Context `{Ament}.

(** What reading a definition from the file system gives.
    @src ros2_foxglove_bridge/src/message_definition_cache.cpp:132-171 MessageDefinitionCache::load_message_spec *)
Definition read_spec (di : DefinitionIdentifier) : result MessageSpec :=
  let name := package_resource_name di in
  match regex_match PACKAGE_TYPENAME_REGEX (String.list_ascii_of_string name) with
  | None => inl (StdException ("Invalid package resource name: " +:+ name))
  | Some m =>
      let package := captured m 1 in
      let filename := captured m 2 +:+ extension_for_format (di_format di) in
      match package_share_directory !! package with
      | None => inl (StdException "package not found")
      | Some share_dir =>
          match rosidl_interfaces !! package with
          | None => inl (DefinitionNotFoundError name)
          | Some index_contents =>
              match split_string index_contents nl with
              | None => inl (Undefined "split_string")
              | Some lines =>
                  match List.find (λ line, String.eqb (path_filename line) filename) lines with
                  | None => inl (DefinitionNotFoundError name)
                  | Some it =>
                      match files !! (share_dir +:+ "/" +:+ it) with
                      | None => inl (DefinitionNotFoundError name)
                      | Some contents => inr (new_MessageSpec (di_format di) contents package)
                      end
                  end
              end
          end
      end
  end.

(** @src ros2_foxglove_bridge/src/message_definition_cache.cpp:126-177 MessageDefinitionCache::load_message_spec *)
Definition load_message_spec (di : DefinitionIdentifier) : M TextState MessageSpec :=
  let! c := gets cache in
  match c !! di with
  | Some spec => ret spec
  | None =>
      let! spec := lift (read_spec di) in
      modify (λ s, mkTextState (emplace di spec (cache s)).1 (seen_deps s)) ;;;
      ret spec
  end.

(** [seen_deps.insert(dep).second] *)
Definition insert_seen (dep : DefinitionIdentifier) : M TextState bool :=
  let! inserted := gets (λ s, bool_decide (dep ∉ seen_deps s)) in
  modify (λ s, mkTextState (cache s) ({[ dep ]} ∪ seen_deps s)) ;;;
  ret inserted.

(** The loop over the dependencies of one definition.
    @src ros2_foxglove_bridge/src/message_definition_cache.cpp:187-195 MessageDefinitionCache::get_full_text *)
Fixpoint append_dependencies (rec : DefinitionIdentifier → M TextState string)
    (format : MessageDefinitionFormat) (deps : list string) (result : string)
  : M TextState string :=
  match deps with
  | [] => ret result
  | dep_name :: deps =>
      let dep := mkDefinitionIdentifier format dep_name in
      let! inserted := insert_seen dep in
      if inserted : bool then
        let! sub := rec dep in
        append_dependencies rec format deps (result +:+ nl +:+ delimiter dep +:+ sub)
      else append_dependencies rec format deps result
  end.

(** The recursive lambda.  The fuel bounds the depth of the recursion; running
    out of it would be an overflow of the stack.
    @src ros2_foxglove_bridge/src/message_definition_cache.cpp:183-197 MessageDefinitionCache::get_full_text *)
Fixpoint append_recursive (fuel : nat) (di : DefinitionIdentifier) : M TextState string :=
  match fuel with
  | O => throw (Undefined "stack overflow")
  | S fuel =>
      let! spec := load_message_spec di in
      append_dependencies (append_recursive fuel) (di_format di) (dependencies spec)
        (spec_text spec)
  end.

(** [catch (const DefinitionNotFoundError&)] *)
Definition catch_not_found {S A} (m : M S A) (h : M S A) : M S A := λ s,
  match m s with
  | (s', inl (DefinitionNotFoundError _)) => h s'
  | o => o
  end.

(** A computation with its own [seen_deps]. *)
Definition with_seen {A} (m : M TextState A) : M Cache A := λ c,
  let (s, r) := m (mkTextState c ∅) in (cache s, r).

(** @src ros2_foxglove_bridge/src/message_definition_cache.cpp:179-212 MessageDefinitionCache::get_full_text *)
Definition get_full_text (fuel : nat) (root : string)
  : M Cache (MessageDefinitionFormat * string) :=
  with_seen (catch_not_found
    (let! result := append_recursive fuel (mkDefinitionIdentifier MSG root) in
     ret (MSG, result))
    (let root_definition_identifier := mkDefinitionIdentifier IDL root in
     let! result := append_recursive fuel root_definition_identifier in
     ret (IDL, delimiter root_definition_identifier +:+ result))).
End load.
