(* ===== verification/DefinitionNames.v ===== *)
(** * Names and index files of message definitions

    What the regular expression of package resource names accepts and captures,
    and what [split_string] makes of an index file. *)

From Stdlib Require Import Strings.Ascii.
From S2P Require Import Prelude Regex MessageDefinitionCache.

Local Open Scope string_scope.
Local Open Scope list_scope.
Local Open Scope nat_scope.

(** ** Package resource names *)

Abbreviation chars := String.list_ascii_of_string (only parsing).

Lemma chars_app s1 s2 : chars (s1 +:+ s2) = chars s1 ++ chars s2.
Proof. induction s1 as [|c s1 IH]; [done|]. exact (f_equal (cons c) IH). Qed.

Lemma chars_inj s1 s2 : chars s1 = chars s2 → s1 = s2.
Proof.
  intros Heq. rewrite <-(String.string_of_list_ascii_of_string s1), Heq.
  apply String.string_of_list_ascii_of_string.
Qed.

Lemma length_chars s : length (chars s) = String.length s.
Proof. induction s as [|c s IH]; [done|]. exact (f_equal S IH). Qed.

(** A non-empty run of word characters. *)
Definition is_word (w : list ascii) : Prop := w ≠ [] ∧ Forall (λ c, word c = true) w.

Lemma word_not_slash w c : Forall (λ c, word c = true) w → c ∈ w → c ≠ "/"%char.
Proof. rewrite Forall_forall. intros Hw Hc ->. by apply Hw in Hc. Qed.

Lemma matches_plus p b w rest caps :
  matches (Plus p) b w rest caps ↔ caps = [] ∧ w ≠ [] ∧ Forall (λ c, p c = true) w.
Proof.
  split.
  - intros Hm. inversion Hm as [| | |? ? ? ? ? ? ? ? Hm1 Hm2| | | | |]; subst.
    inversion Hm1; inversion Hm2; subst. split_and!; [done|done|]. by constructor.
  - intros (-> & Hne & Hw). destruct w as [|c w]; [done|]. apply Forall_cons in Hw as [Hc Hw].
    by apply (m_seq _ _ b [c] w rest [] []); constructor.
Qed.

Lemma matches_lit s b w rest caps :
  matches (Lit s) b w rest caps ↔ caps = [] ∧ w = chars s.
Proof.
  revert b w caps. induction s as [|c s IH]; intros b w caps; simpl; split.
  - intros Hm. by inversion Hm.
  - intros [-> ->]. constructor.
  - intros Hm. inversion Hm as [| | |? ? ? ? ? ? ? ? Hm1 Hm2| | | | |]; subst.
    inversion Hm1 as [|? ? ? ? Hc| | | | | | |]; subst. apply Ascii.eqb_eq in Hc as <-.
    apply IH in Hm2 as [-> ->]. done.
  - intros [-> ->]. apply (m_seq _ _ b [c] (chars s) rest [] []).
    + constructor. apply Ascii.eqb_refl.
    + by apply IH.
Qed.

(** The parts of a resource name, as the expression sees them. *)
Definition name_parts (pkg mid typ : list ascii) : Prop :=
  is_word pkg ∧ is_word typ ∧ (mid = [] ∨ mid = chars "msg/").

Lemma matches_package s caps :
  matches PACKAGE_TYPENAME_REGEX true s [] caps ↔
  ∃ pkg mid typ, name_parts pkg mid typ ∧ caps = [(1, pkg); (2, typ)] ∧
    s = pkg ++ "/"%char :: mid ++ typ.
Proof.
  unfold PACKAGE_TYPENAME_REGEX, Opt. split.
  - intros Hm.
    repeat match goal with
    | Hx : matches (Seq _ _) _ _ _ _ |- _ => inversion Hx; subst; clear Hx
    | Hx : matches (Group _ _) _ _ _ _ |- _ => inversion Hx; subst; clear Hx
    | Hx : matches Bol _ _ _ _ |- _ => inversion Hx; subst; clear Hx
    | Hx : matches Eol _ _ _ _ |- _ => inversion Hx; subst; clear Hx
    | Hx : matches (Plus _) _ _ _ _ |- _ => apply matches_plus in Hx as (-> & ? & ?)
    | Hx : matches (Chr _) _ _ _ _ |- _ => inversion Hx; subst; clear Hx
    end.
    rename select (_ = true) into Hc. apply Ascii.eqb_eq in Hc as <-.
    match goal with Hx : matches (Alt _ _) _ ?mid _ ?cs |- _ =>
      assert (cs = [] ∧ (mid = [] ∨ mid = chars "msg/")) as [-> Hmid] end.
    { match goal with Hx : matches (Alt _ _) _ _ _ _ |- _ => inversion Hx; subst; clear Hx end.
      - match goal with Hx : matches (Seq _ _) ?b ?w ?r ?cs |- _ =>
          change (matches (Lit "msg/") b w r cs) in Hx; apply matches_lit in Hx as [-> ->] end. auto.
      - match goal with Hx : matches Eps _ _ _ _ |- _ => inversion Hx; subst end. auto. }
    eexists _, _, _. split_and!; [|done|by rewrite !app_nil_r].
    by split_and!.
  - intros (pkg & mid & typ & ((Hp1 & Hp2) & (Ht1 & Ht2) & Hmid) & -> & ->).
    apply (m_seq _ _ true [] _ [] [] [(1, pkg); (2, typ)]); [constructor|].
    apply (m_seq _ _ _ pkg _ [] [(1, pkg)] [(2, typ)]).
    { apply m_group. by apply matches_plus. }
    apply (m_seq _ _ _ ["/"%char] _ [] [] [(2, typ)]); [by constructor|].
    apply (m_seq _ _ _ mid _ [] [] [(2, typ)]).
    { destruct Hmid as [->| ->]; [apply m_alt_r; constructor|apply m_alt_l; by apply matches_lit]. }
    rewrite <-(app_nil_r typ) at 1. apply (m_seq _ _ _ typ [] [] [(2, typ)] []).
    + apply m_group. by apply matches_plus.
    + constructor.
Qed.

Lemma split_at_slash (a1 a2 b1 b2 : list ascii) :
  (∀ c, c ∈ a1 → c ≠ "/"%char) → (∀ c, c ∈ a2 → c ≠ "/"%char) →
  a1 ++ "/"%char :: b1 = a2 ++ "/"%char :: b2 → a1 = a2 ∧ b1 = b2.
Proof.
  revert a2. induction a1 as [|c a1 IH]; intros [|c2 a2] H1 H2 Heq; simpl in Heq.
  - by injection Heq.
  - injection Heq as <- _. by destruct (H2 "/"%char); [apply list_elem_of_here|].
  - injection Heq as -> _. by destruct (H1 "/"%char); [apply list_elem_of_here|].
  - injection Heq as <- Heq. destruct (IH a2) as [-> ->]; [| |done|done];
      intros x Hx; [apply H1|apply H2]; by apply list_elem_of_further.
Qed.

(** A name can be taken apart in one way only. *)
Lemma name_parts_unique pkg1 mid1 typ1 pkg2 mid2 typ2 :
  name_parts pkg1 mid1 typ1 → name_parts pkg2 mid2 typ2 →
  pkg1 ++ "/"%char :: mid1 ++ typ1 = pkg2 ++ "/"%char :: mid2 ++ typ2 →
  pkg1 = pkg2 ∧ typ1 = typ2.
Proof.
  intros ((_ & Hp1) & (_ & Ht1) & Hm1) ((_ & Hp2) & (_ & Ht2) & Hm2) Heq.
  apply split_at_slash in Heq as [-> Heq]; [|intros c; by apply word_not_slash..].
  split; [done|].
  assert (∀ typ (x : list ascii), Forall (λ c, word c = true) typ → typ = chars "msg/" ++ x → False) as Hno.
  { intros typ x Ht ->. apply Forall_app in Ht as [Ht _].
    apply (word_not_slash _ "/"%char) in Ht; [done|]. simpl. set_solver. }
  destruct Hm1 as [->| ->], Hm2 as [->| ->].
  - done.
  - by destruct (Hno typ1 typ2).
  - by destruct (Hno typ2 typ1).
  - by apply app_inv_head in Heq.
Qed.

Lemma regex_match_package s :
  regex_match PACKAGE_TYPENAME_REGEX s = None ∨
  ∃ pkg mid typ, name_parts pkg mid typ ∧ s = pkg ++ "/"%char :: mid ++ typ ∧
    regex_match PACKAGE_TYPENAME_REGEX s = Some [(1, pkg); (2, typ)].
Proof.
  destruct (regex_match PACKAGE_TYPENAME_REGEX s) as [caps|] eqn:Hm; [right|by left].
  pose proof (regex_match_Some _ _ _ Hm) as Hs.
  apply matches_package in Hs as (pkg & mid & typ & Hn & -> & ->). by exists pkg, mid, typ.
Qed.

(** ** Splitting *)

Lemma index_char c q :
  match String.index 0 (String c "") q with
  | Some pos => ∃ a b, q = a +:+ String c b ∧ pos = String.length a ∧ (c ∉ chars a)
  | None => c ∉ chars q
  end.
Proof.
  induction q as [|x q IH]; simpl; [apply not_elem_of_nil|].
  destruct (Ascii.ascii_dec c x) as [<-|Hne].
  - destruct q; (exists ""; eexists; split_and!; [reflexivity|done|apply not_elem_of_nil]).
  - destruct (String.index 0 (String c "") q) as [pos|].
    + destruct IH as (a & b & -> & -> & Hno). exists (String x a), b.
      split_and!; [done|done|]. simpl. apply not_elem_of_cons. by split.
    + apply not_elem_of_cons. by split.
Qed.

Lemma index_skip c p q :
  String.index (String.length p) (String c "") (p +:+ q) =
  (λ n, String.length p + n) <$> String.index 0 (String c "") q.
Proof.
  induction p as [|x p IH].
  - simpl. change ("" +:+ q) with q. by destruct (String.index 0 _ q).
  - change (match String.index (String.length p) (String c "") (p +:+ q) with
            | Some n => Some (S n) | None => None end =
            (λ n, S (String.length p) + n) <$> String.index 0 (String c "") q).
    rewrite IH. by destruct (String.index 0 (String c "") q).
Qed.

Lemma substring_here a b : String.substring 0 (String.length a) (a +:+ b) = a.
Proof.
  induction a as [|x a IH]; [by destruct b|].
  change (String x (String.substring 0 (String.length a) (a +:+ b)) = String x a). by rewrite IH.
Qed.

Lemma substring_skip p n m s :
  n = String.length p → String.substring n m (p +:+ s) = String.substring 0 m s.
Proof. intros ->. induction p as [|x p IH]; [done|]. exact IH. Qed.

Lemma split_from_run fuel c p q :
  String.length q < fuel →
  ∃ l, split_from fuel (String c "") (p +:+ q) (String.length p) = Some l ∧ l ≠ [] ∧
    String.concat (String c "") l = q ∧ Forall (λ s, c ∉ chars s) l.
Proof.
  revert p q. induction fuel as [|fuel IH]; intros p q Hlen; [lia|]. cbn [split_from].
  rewrite index_skip. pose proof (index_char c q) as Hidx.
  destruct (String.index 0 (String c "") q) as [pos|]; cbn [fmap option_fmap option_map].
  - destruct Hidx as (a & b & -> & -> & Hno).
    destruct (IH ((p +:+ a) +:+ String c "") b) as (l & Hl & Hne & Hcat & Hall).
    { rewrite string_length_app in Hlen. simpl in Hlen. lia. }
    rewrite !string_length_app in Hl. rewrite <-!string_app_assoc in Hl.
    change (String c "" +:+ b) with (String c b) in Hl. rewrite Hl.
    eexists. split; [reflexivity|]. rewrite substring_skip by done.
    replace (String.length p + String.length a - String.length p) with (String.length a) by lia.
    rewrite substring_here. split_and!; [done| |by constructor].
    destruct l as [|s l]; [done|].
    change (a +:+ String c "" +:+ String.concat (String c "") (s :: l) = a +:+ String c b).
    by rewrite Hcat.
  - rewrite substring_skip by done.
    replace (String.length (p +:+ q) - String.length p) with (String.length q)
      by (rewrite string_length_app; lia).
    assert (String.substring 0 (String.length q) q = q) as ->
      by (rewrite <-(string_app_nil_r q) at 2; apply substring_here).
    eexists. split; [reflexivity|]. split_and!; [done|done|by constructor].
Qed.

Lemma split_string_run c s :
  ∃ l, split_string s (String c "") = Some l ∧ l ≠ [] ∧
    String.concat (String c "") l = s ∧ Forall (λ x, c ∉ chars x) l.
Proof. apply (split_from_run (S (String.length s)) c "" s). lia. Qed.
