(* ===== verification/FullText.v ===== *)
(** * Putting a full message definition together

    The dependency graph of the definitions on disk, and what [get_full_text]
    computes in terms of it: which definitions it visits, that it ends, that the
    cache makes no difference. *)

From Stdlib Require Import Strings.Ascii.
From S2P Require Import Prelude Regex MessageDefinitionCache.

Local Open Scope string_scope.
Local Open Scope list_scope.
Local Open Scope nat_scope.

(** ** Sorted sets of strings *)

Lemma elem_of_set_insert x y l : y ∈ set_insert x l ↔ y = x ∨ y ∈ l.
Proof.
  induction l as [|z l IH]; simpl; [set_solver|].
  destruct (String.compare x z) eqn:Hc; [|set_solver|rewrite !elem_of_cons, IH; naive_solver].
  apply String.compare_eq_iff in Hc as ->. set_solver.
Qed.

(** ** The graph *)

Section graph.
Context `{Ament}.
Implicit Types d : DefinitionIdentifier.

(** The text of a definition; what it depends on directly. *)
Definition text_of d : string :=
  match read_spec d with inr spec => spec_text spec | inl _ => "" end.
Definition edge d d' : Prop :=
  ∃ spec, read_spec d = inr spec ∧ di_format d' = di_format d ∧
    package_resource_name d' ∈ dependencies spec.
Definition loads d : Prop := ∃ spec, read_spec d = inr spec.

(** The part of the full text that a dependency contributes. *)
Definition section d : string := nl +:+ delimiter d +:+ text_of d.

Fixpoint sections (l : list DefinitionIdentifier) : string :=
  match l with [] => "" | d :: l => section d +:+ sections l end.

(** Every name a file can depend on, under any package it may belong to. *)
Definition names_of (contents : string) : gset string :=
  list_to_set (parse_idl_dependencies contents) ∪
  ⋃ ((λ p, list_to_set (parse_msg_dependencies contents p.1)) <$> map_to_list rosidl_interfaces).
Definition names : gset string := ⋃ ((λ p, names_of p.2) <$> map_to_list files).

(** The definitions of one format that a definition can depend on. *)
Definition universe (format : MessageDefinitionFormat) : gset DefinitionIdentifier :=
  set_map (mkDefinitionIdentifier format) names.

(** Deep enough for every recursion. *)
Definition full_text_fuel : nat := size (universe MSG) + size (universe IDL) + 1.

Lemma read_spec_inr d spec :
  read_spec d = inr spec →
  ∃ path contents package index, files !! path = Some contents ∧
    rosidl_interfaces !! package = Some index ∧
    spec = new_MessageSpec (di_format d) contents package.
Proof.
  unfold read_spec. intros Hr.
  repeat match type of Hr with
  | match ?x with _ => _ end = _ => destruct x eqn:?; try discriminate Hr
  end.
  injection Hr as <-. eauto 10.
Qed.

Lemma edge_universe d d' : edge d d' → d' ∈ universe (di_format d).
Proof.
  intros (spec & Hs & Hf & Hin).
  apply read_spec_inr in Hs as (path & contents & package & index & Hfile & Hpkg & ->).
  unfold universe. apply elem_of_map. exists (package_resource_name d').
  split; [by destruct d'; simpl in *; subst|].
  unfold names. apply elem_of_union_list. exists (names_of contents). split.
  { apply list_elem_of_fmap. exists (path, contents). split; [done|]. by apply elem_of_map_to_list. }
  unfold names_of. simpl in Hin. apply elem_of_union.
  destruct (di_format d); simpl in Hin; [left; by apply elem_of_list_to_set|right].
  apply elem_of_union_list. exists (list_to_set (parse_msg_dependencies contents package)).
  split; [|by apply elem_of_list_to_set]. apply list_elem_of_fmap. exists (package, index).
  split; [done|]. by apply elem_of_map_to_list.
Qed.

Lemma size_universe format X : size (universe format ∖ X) < full_text_fuel.
Proof.
  assert (size (universe format ∖ X) ≤ size (universe format)) by (apply subseteq_size; set_solver).
  unfold full_text_fuel. destruct format; lia.
Qed.

Lemma edge_format d d' : edge d d' → di_format d' = di_format d.
Proof. by intros (? & ? & ? & ?). Qed.

Lemma reach_format d d' : rtc edge d d' → di_format d' = di_format d.
Proof. induction 1 as [|d d' d'' He _ IH]; [done|]. rewrite IH. by apply edge_format. Qed.

Lemma edge_spec d spec name :
  read_spec d = inr spec → name ∈ dependencies spec →
  edge d (mkDefinitionIdentifier (di_format d) name).
Proof. intros. by exists spec. Qed.

(** ** The cache holds what is on disk *)

Definition CacheOk (c : Cache) : Prop := ∀ d spec, c !! d = Some spec → read_spec d = inr spec.

Lemma CacheOk_empty : CacheOk ∅.
Proof. intros ??. by rewrite lookup_empty. Qed.

Lemma load_message_spec_run d st :
  CacheOk (cache st) →
  wp (load_message_spec d) (λ r st', r = read_spec d ∧ CacheOk (cache st') ∧
    seen_deps st' = seen_deps st) st.
Proof.
  intros Hok. unfold load_message_spec. rewrite wp_bind, wp_gets.
  destruct (cache st !! d) as [spec|] eqn:Hc.
  - rewrite wp_ret. by rewrite (Hok _ _ Hc).
  - rewrite wp_bind, wp_lift. destruct (read_spec d) as [e|spec] eqn:Hr; [done|].
    rewrite wp_bind, wp_modify, wp_ret. split_and!; [done| |done]. simpl.
    intros d' spec' [Hl|(-> & -> & _)]%lookup_emplace_Some; [by apply Hok|done].
Qed.

(** ** What a run visits *)

(** The run of [append_recursive] on [d] with [S] seen: it visits [L], all new
    and reachable; if it ends normally the text is complete and everything the
    visited definitions depend on has been seen; if not, it is because one
    definition cannot be loaded. *)
Record visited d (S : gset DefinitionIdentifier) (L : list DefinitionIdentifier)
    (st' : TextState) : Prop := mkVisited {
  vis_cache : CacheOk (cache st');
  vis_seen : seen_deps st' = S ∪ list_to_set L;
  vis_nodup : NoDup L;
  vis_new d' : d' ∈ L → d' ∉ S;
  vis_reach d' : d' ∈ L → tc edge d d';
}.

Definition complete (R : gset DefinitionIdentifier) (L : list DefinitionIdentifier) : Prop :=
  ∀ d', d' ∈ L → loads d' ∧ ∀ d'', edge d' d'' → d'' ∈ R.

Definition failed d (e : exn) : Prop := ∃ d', rtc edge d d' ∧ read_spec d' = inl e.

Definition appends d (S : gset DefinitionIdentifier) (r : result string) (st' : TextState) : Prop :=
  ∃ L, visited d S L st' ∧
    match r with
    | inr txt => loads d ∧ txt = text_of d +:+ sections L ∧
        (∀ d', edge d d' → d' ∈ seen_deps st') ∧ complete (seen_deps st') L
    | inl e => failed d e
    end.

Lemma sections_app l1 l2 : sections (l1 ++ l2) = sections l1 +:+ sections l2.
Proof. induction l1 as [|d l1 IH]; [done|]. simpl. by rewrite IH, string_app_assoc. Qed.

(** What one pass over some dependencies of [d] adds to the text [acc]. *)
Definition appends_deps d (S : gset DefinitionIdentifier) (deps : list string) (acc : string)
    (r : result string) (st' : TextState) : Prop :=
  ∃ L, visited d S L st' ∧
    match r with
    | inr txt => txt = acc +:+ sections L ∧
        (∀ name, name ∈ deps → mkDefinitionIdentifier (di_format d) name ∈ seen_deps st') ∧
        complete (seen_deps st') L
    | inl e => failed d e
    end.

Definition appends_below (n : nat) (rec : DefinitionIdentifier → M TextState string) : Prop :=
  ∀ d st, CacheOk (cache st) → size (universe (di_format d) ∖ seen_deps st) < n →
    wp (rec d) (appends d (seen_deps st)) st.

Lemma complete_mono R R' L : complete R L → R ⊆ R' → complete R' L.
Proof. intros Hc Hsub d' Hd'. destruct (Hc d' Hd') as [? He]. split; [done|]. eauto. Qed.

(** Visiting a new dependency [d1] of [d] and then the rest. *)
Lemma visited_cons d S d1 L1 L2 st1 st2 :
  edge d d1 → d1 ∉ S → visited d1 ({[ d1 ]} ∪ S) L1 st1 → visited d (seen_deps st1) L2 st2 →
  visited d S (d1 :: L1 ++ L2) st2.
Proof.
  intros He Hnew [_ Hs1 Hnd1 Hnew1 Hr1] [Hok2 Hs2 Hnd2 Hnew2 Hr2]. split; [done| | | |].
  - rewrite Hs2, Hs1. simpl. rewrite list_to_set_app_L. set_solver.
  - constructor.
    + rewrite elem_of_app. intros [Hin|Hin]; [by apply Hnew1 in Hin; set_solver|].
      apply Hnew2 in Hin. rewrite Hs1 in Hin. set_solver.
    + apply NoDup_app. split_and!; [done| |done]. intros d' Hd1 Hd2. apply Hnew2 in Hd2.
      rewrite Hs1 in Hd2. apply Hd2, elem_of_union. right. by apply elem_of_list_to_set.
  - intros d' [->|[Hin|Hin]%elem_of_app]%elem_of_cons; [done| |].
    + apply Hnew1 in Hin. set_solver.
    + apply Hnew2 in Hin. rewrite Hs1 in Hin. set_solver.
  - intros d' [->|[Hin|Hin]%elem_of_app]%elem_of_cons.
    + by apply tc_once.
    + eapply tc_l; [exact He|]. by apply Hr1.
    + by apply Hr2.
Qed.

Lemma visited_nil d S st : CacheOk (cache st) → seen_deps st = S → visited d S [] st.
Proof.
  intros Hok Hs. split; [done|rewrite Hs; set_solver|constructor| |];
    by intros ? ?%not_elem_of_nil.
Qed.

Lemma failed_edge d d1 e : edge d d1 → failed d1 e → failed d e.
Proof. intros He (d' & Hr & Hf). exists d'. split; [by eapply rtc_l|done]. Qed.

(** A dependency that has been seen already, and one that has not. *)
Lemma appends_deps_seen d S name deps acc r st :
  mkDefinitionIdentifier (di_format d) name ∈ S →
  appends_deps d S deps acc r st → appends_deps d S (name :: deps) acc r st.
Proof.
  intros Hseen (L & Hv & Hr). exists L. split; [done|].
  destruct r as [e|txt]; [done|]. destruct Hr as (-> & Hd & Hc). split_and!; [done| |done].
  intros x [->|Hx]%elem_of_cons; [|by apply Hd]. rewrite (vis_seen _ _ _ _ Hv). set_solver.
Qed.

Lemma appends_deps_new d S name deps acc sub st2 r st3 :
  let d1 := mkDefinitionIdentifier (di_format d) name in
  d1 ∉ S → edge d d1 → appends d1 ({[ d1 ]} ∪ S) (inr sub) st2 →
  appends_deps d (seen_deps st2) deps (acc +:+ nl +:+ delimiter d1 +:+ sub) r st3 →
  appends_deps d S (name :: deps) acc r st3.
Proof.
  intros d1 Hnew He (L1 & Hv1 & Hl1 & -> & Hd1 & Hc1) (L2 & Hv2 & Hr2).
  exists (d1 :: L1 ++ L2). split; [by eapply visited_cons|]. destruct r as [e|txt]; [done|].
  destruct Hr2 as (-> & Hd2 & Hc2).
  assert (seen_deps st2 ⊆ seen_deps st3) as Hmono2 by (rewrite (vis_seen _ _ _ _ Hv2); set_solver).
  assert (d1 ∈ seen_deps st2) as Hin1 by (rewrite (vis_seen _ _ _ _ Hv1); set_solver).
  split_and!.
  - simpl. unfold section. by rewrite sections_app, <-!string_app_assoc.
  - intros x [->|Hx]%elem_of_cons; [|by apply Hd2]. by apply Hmono2.
  - intros d' [->|[Hin|Hin]%elem_of_app]%elem_of_cons.
    + split; [done|]. intros d'' He''. by apply Hmono2, Hd1.
    + by apply (complete_mono _ _ _ Hc1 Hmono2).
    + by apply Hc2.
Qed.

Lemma append_dependencies_run n rec d deps acc st :
  appends_below n rec → CacheOk (cache st) →
  size (universe (di_format d) ∖ seen_deps st) ≤ n →
  (∀ name, name ∈ deps → edge d (mkDefinitionIdentifier (di_format d) name)) →
  wp (append_dependencies rec (di_format d) deps acc)
     (appends_deps d (seen_deps st) deps acc) st.
Proof.
  intros Hrec. revert acc st. induction deps as [|name deps IH]; intros acc st Hok Hn Hedge; simpl.
  { rewrite wp_ret. exists []. split; [by apply visited_nil|]. simpl.
    rewrite string_app_nil_r. split_and!; [done|..]; by intros ? ?%not_elem_of_nil. }
  set (d1 := mkDefinitionIdentifier (di_format d) name).
  assert (edge d d1) as He by (apply Hedge, list_elem_of_here).
  assert (∀ x, x ∈ deps → edge d (mkDefinitionIdentifier (di_format d) x)) as Hedge'
    by (intros x Hx; by apply Hedge, list_elem_of_further).
  unfold insert_seen. rewrite !wp_bind, wp_gets, wp_bind, wp_modify, wp_ret.
  set (st1 := mkTextState (cache st) ({[ d1 ]} ∪ seen_deps st)).
  assert (universe (di_format d) ∖ seen_deps st1 ⊆ universe (di_format d) ∖ seen_deps st) as Hsub
    by (simpl; set_solver).
  case_bool_decide as Hnew.
  - assert (size (universe (di_format d) ∖ seen_deps st1) < n) as Hlt.
    { eapply Nat.lt_le_trans; [apply subset_size|exact Hn]. split; [exact Hsub|].
      intros Hbad. apply edge_universe in He. simpl in Hbad. set_solver. }
    rewrite wp_bind. eapply wp_mono; [by apply Hrec|].
    intros [e|sub] st2 Hrun; pose proof Hrun as (L1 & Hv1 & Hr1).
    + exists (d1 :: L1 ++ []). split; [|by eapply failed_edge].
      eapply (visited_cons d _ d1 L1 [] st2 st2); [done|done|exact Hv1|].
      apply visited_nil; [apply Hv1|done].
    + eapply wp_mono; [|by intros r st3; apply appends_deps_new with (sub := sub)].
      apply IH; [apply Hv1| |done]. etrans; [|exact Hn]. apply subseteq_size.
      rewrite (vis_seen _ _ _ _ Hv1). set_solver.
  - assert (seen_deps st1 = seen_deps st) as Hsame by (simpl; set_solver).
    eapply wp_mono; [apply IH; [done|by rewrite Hsame|done]|].
    intros r st2 Hr. rewrite Hsame in Hr. apply appends_deps_seen; [set_solver|done].
Qed.

(** The recursion has enough fuel as long as there is one unit for every
    definition not yet seen. *)
Lemma append_recursive_run fuel : appends_below fuel (append_recursive fuel).
Proof.
  induction fuel as [|fuel IH]; intros d st Hok Hn; [lia|]. simpl.
  rewrite wp_bind. eapply wp_mono; [by apply load_message_spec_run|].
  intros r st1 (-> & Hok1 & Hs1). destruct (read_spec d) as [e|spec] eqn:Hr.
  { exists []. split; [by apply visited_nil|]. exists d. by split; [apply rtc_refl|]. }
  eapply wp_mono.
  { apply (append_dependencies_run fuel _ d); [done|done|rewrite Hs1; lia|].
    intros name Hname. by apply (edge_spec d spec). }
  intros r st2 (L & Hv & Hrun). rewrite Hs1 in Hv. exists L. split; [done|].
  destruct r as [e|txt]; [done|]. destruct Hrun as (-> & Hd & Hc). split_and!; [by exists spec| | |done].
  - unfold text_of. by rewrite Hr.
  - intros d' (spec' & Hr' & Hf & Hin). rewrite Hr in Hr'. injection Hr' as <-.
    specialize (Hd _ Hin). rewrite <-Hf in Hd. by destruct d'.
Qed.

(** When all goes well, what was visited is what can be reached. *)
Lemma visited_reach d S L st :
  visited d S L st → (∀ d', d' ∈ S → di_format d' ≠ di_format d) →
  (∀ d', edge d d' → d' ∈ seen_deps st) → complete (seen_deps st) L →
  ∀ d', d' ∈ L ↔ tc edge d d'.
Proof.
  intros Hv HS Hd Hc d'. split; [by apply Hv|].
  assert (∀ x, rtc edge d x → ∀ y, edge x y → y ∈ seen_deps st → y ∈ L) as Hin.
  { intros x Hx y He Hy. rewrite (vis_seen _ _ _ _ Hv) in Hy.
    apply elem_of_union in Hy as [Hy|Hy]; [|by apply elem_of_list_to_set in Hy].
    exfalso. apply (HS _ Hy). rewrite (edge_format _ _ He). by apply reach_format. }
  intros Ht. assert (∃ x, rtc edge d x ∧ edge x d') as (x & Hx & He).
  { revert d' Ht. apply tc_ind_r.
    - intros y He. exists d. split; [apply rtc_refl|done].
    - intros y z Ht He _. exists y. split; [by apply tc_rtc|done]. }
  assert (∀ x, rtc edge d x → x = d ∨ x ∈ L) as Hall.
  { clear x Hx He. apply rtc_ind_r; [by left|]. intros x y Hx He IH. right.
    eapply Hin; [exact Hx|exact He|]. destruct IH as [->|IH]; [by apply Hd|]. by apply (Hc _ IH). }
  eapply Hin; [exact Hx|exact He|]. destruct (Hall _ Hx) as [->|HL]; [by apply Hd|].
  by apply (Hc _ HL).
Qed.
End graph.
