(* ===== verification/FullTextOutcomes.v ===== *)
(** * Outcomes of [get_full_text]

    The cache makes no difference to them, and they say which definitions load. *)

From Stdlib Require Import Strings.Ascii.
From S2P Require Import Prelude Regex MessageDefinitionCache DefinitionNames FullText.

Local Open Scope string_scope.
Local Open Scope list_scope.
Local Open Scope nat_scope.

Section lemmas.
Context `{Ament}.

(** ** The cache makes no difference *)

(** A computation whose outcome does not depend on what the cache holds. *)
Definition transparent {A} (m : M TextState A) : Prop :=
  ∀ st1 st2, CacheOk (cache st1) → CacheOk (cache st2) → seen_deps st1 = seen_deps st2 →
    (m st1).2 = (m st2).2 ∧ seen_deps (m st1).1 = seen_deps (m st2).1 ∧
    CacheOk (cache (m st1).1) ∧ CacheOk (cache (m st2).1).

Lemma transparent_bind {A B} (m : M TextState A) (f : A → M TextState B) :
  transparent m → (∀ a, transparent (f a)) → transparent (bind m f).
Proof.
  intros Hm Hf st1 st2 Hok1 Hok2 Hs. unfold bind.
  destruct (Hm st1 st2 Hok1 Hok2 Hs) as (Hr & Hs' & Hok1' & Hok2').
  destruct (m st1) as [st1' r1], (m st2) as [st2' r2]. simpl in *. subst r2.
  destruct r1 as [e|a]; [done|]. by apply Hf.
Qed.

Lemma transparent_ret {A} (a : A) : transparent (ret a).
Proof. by intros ?????. Qed.

Lemma transparent_load d : transparent (load_message_spec d).
Proof.
  intros st1 st2 Hok1 Hok2 Hs.
  destruct (load_message_spec_run d st1 Hok1) as (Hr1 & Hc1 & Hs1).
  destruct (load_message_spec_run d st2 Hok2) as (Hr2 & Hc2 & Hs2).
  split_and!; [congruence|congruence|done|done].
Qed.

Lemma transparent_insert d : transparent (insert_seen d).
Proof. intros st1 st2 Hok1 Hok2 Hs. simpl. rewrite Hs. done. Qed.

Lemma transparent_append fuel d : transparent (append_recursive fuel d).
Proof.
  revert d. induction fuel as [|fuel IH]; intros d; simpl; [by intros ?????|].
  apply transparent_bind; [apply transparent_load|intros spec].
  generalize (spec_text spec). induction (dependencies spec) as [|name deps IHd]; intros acc; simpl.
  - apply transparent_ret.
  - apply transparent_bind; [apply transparent_insert|]. intros []; [|done].
    apply transparent_bind; [apply IH|intros sub; apply IHd].
Qed.

Lemma transparent_catch {A} (m h : M TextState A) :
  transparent m → transparent h → transparent (catch_not_found m h).
Proof.
  intros Hm Hh st1 st2 Hok1 Hok2 Hs. unfold catch_not_found.
  destruct (Hm st1 st2 Hok1 Hok2 Hs) as (Hr & Hs' & Hok1' & Hok2').
  destruct (m st1) as [st1' r1], (m st2) as [st2' r2]. simpl in *. subst r2.
  destruct r1 as [[]|a]; try done. by apply Hh.
Qed.

Lemma get_full_text_transparent fuel root c :
  CacheOk c → (get_full_text fuel root c).2 = (get_full_text fuel root ∅).2.
Proof.
  intros Hok. unfold get_full_text, with_seen.
  match goal with |- (let (_, _) := ?m _ in _).2 = _ => assert (transparent m) as Ht end.
  { apply transparent_catch;
      (apply transparent_bind; [apply transparent_append|intros txt; apply transparent_ret]). }
  destruct (Ht (mkTextState c ∅) (mkTextState ∅ ∅) Hok CacheOk_empty eq_refl) as (Hr & _).
  destruct (catch_not_found _ _ (mkTextState c ∅)), (catch_not_found _ _ (mkTextState ∅ ∅)).
  exact Hr.
Qed.

(** ** Outcomes of [get_full_text] *)

Lemma wp_catch_not_found {S A} (m h : M S A) Q s :
  wp (catch_not_found m h) Q s ↔
  wp m (λ r s', match r with inl (DefinitionNotFoundError _) => wp h Q s' | _ => Q r s' end) s.
Proof. unfold wp, catch_not_found. by destruct (m s) as [s' [[]|a]]. Qed.

Lemma wp_with_seen {A} (m : M TextState A) Q c :
  wp (with_seen m) Q c ↔ wp m (λ r s, Q r (cache s)) (mkTextState c ∅).
Proof. unfold wp, with_seen. by destruct (m _) as [s r]. Qed.

Definition prefix_of (d : DefinitionIdentifier) : string :=
  match di_format d with MSG => "" | IDL => delimiter d end.

(** The text a definition and its dependencies make, and what went into it. *)
Definition full_text_of (d : DefinitionIdentifier) (txt : string) : Prop :=
  ∃ L, NoDup L ∧ (∀ d', d' ∈ L ↔ tc edge d d') ∧
    txt = prefix_of d +:+ text_of d +:+ sections L.

(** Definitions are read, or there is an exception. *)
Lemma read_spec_catchable d e : read_spec d = inl e → catchable e = true.
Proof.
  unfold read_spec. intros Hr.
  repeat match type of Hr with
  | match split_string ?s nl with _ => _ end = _ =>
      destruct (split_string_run newline s) as (? & Hl & _);
      unfold nl in Hr; rewrite Hl in Hr; cbv beta iota in Hr
  | match ?x with _ => _ end = _ => destruct x eqn:?; try discriminate Hr
  end; by injection Hr as <-.
Qed.

Lemma failed_catchable d e : failed d e → catchable e = true.
Proof. intros (d' & _ & He). by eapply read_spec_catchable. Qed.

(** ** More fuel changes nothing *)

Definition overflow {A} : result A := inl (Undefined "stack overflow").

(** What [m] does without running out of fuel, [m'] does as well. *)
Definition covers {S A} (m m' : M S A) : Prop := ∀ s, (m s).2 ≠ overflow → m' s = m s.

Lemma covers_refl {S A} (m : M S A) : covers m m.
Proof. by intros s. Qed.

Lemma covers_bind {S A B} (m m' : M S A) (f f' : A → M S B) :
  covers m m' → (∀ a, covers (f a) (f' a)) → covers (bind m f) (bind m' f').
Proof.
  intros Hm Hf s. specialize (Hm s). unfold bind. destruct (m s) as [s1 [e|a]]; simpl in *.
  - intros Hne. rewrite Hm; [done|]. intros [= ->]. by apply Hne.
  - intros Hne. rewrite Hm by done. by apply Hf.
Qed.

Lemma covers_append fuel fuel' d :
  fuel ≤ fuel' → covers (append_recursive fuel d) (append_recursive fuel' d).
Proof.
  revert fuel' d. induction fuel as [|fuel IH]; intros [|fuel'] d Hle; [apply covers_refl| |lia|].
  { by intros s []. }
  simpl. apply covers_bind; [apply covers_refl|]. intros spec.
  generalize (spec_text spec). induction (dependencies spec) as [|n deps IHd]; intros acc; simpl;
    [apply covers_refl|].
  apply covers_bind; [apply covers_refl|]. intros []; [|apply IHd].
  apply covers_bind; [apply IH; lia|]. intros sub. apply IHd.
Qed.

Lemma covers_full_text fuel fuel' root :
  fuel ≤ fuel' → covers (get_full_text fuel root) (get_full_text fuel' root).
Proof.
  intros Hle c. unfold get_full_text, with_seen. set (st := mkTextState c ∅).
  assert (∀ d (k : string → M TextState (MessageDefinitionFormat * string)),
    covers (bind (append_recursive fuel d) k) (bind (append_recursive fuel' d) k)) as Hc
    by (intros d k; apply covers_bind; [by apply covers_append|intros a; apply covers_refl]).
  unfold catch_not_found. match goal with |- context [bind (append_recursive fuel ?d) ?k st] =>
    specialize (Hc d k) as Hm; specialize (Hm st); destruct (bind (append_recursive fuel d) k st)
      as [s1 r1] eqn:H1 end.
  simpl in Hm. destruct r1 as [[w|n|w|w]|a]; intros Hne; simpl in Hne.
  - by rewrite Hm.
  - rewrite Hm by done. unfold covers in Hc. rewrite Hc; [done|].
    match goal with |- (?m s1).2 ≠ _ => by destruct (m s1) as [s2 r2] end.
  - by rewrite Hm by done.
  - by rewrite Hm.
  - by rewrite Hm.
Qed.

Lemma append_root_run fuel d st :
  CacheOk (cache st) → full_text_fuel ≤ fuel →
  (∀ d', d' ∈ seen_deps st → di_format d' ≠ di_format d) →
  wp (append_recursive fuel d)
     (λ r st', CacheOk (cache st') ∧
        (∀ d', d' ∈ seen_deps st' → d' ∈ seen_deps st ∨ di_format d' = di_format d) ∧
        match r with
        | inr txt => full_text_of d (prefix_of d +:+ txt) ∧ ∀ d', rtc edge d d' → loads d'
        | inl e => failed d e
        end) st.
Proof.
  intros Hok Hfuel Hother. eapply wp_mono.
  { apply (append_recursive_run fuel d st Hok).
    eapply Nat.lt_le_trans; [apply size_universe|done]. }
  intros r st' (L & Hv & Hr). split_and!; [apply Hv| |].
  - intros d' Hd'. rewrite (vis_seen _ _ _ _ Hv) in Hd'.
    apply elem_of_union in Hd' as [?|Hin%elem_of_list_to_set]; [by left|right].
    by apply reach_format, tc_rtc, (vis_reach _ _ _ _ Hv).
  - destruct r as [e|txt]; [done|]. destruct Hr as (Hl & -> & Hd & Hc).
    pose proof (visited_reach d _ L st' Hv Hother Hd Hc) as Hreach. split.
    + exists L. split_and!; [apply Hv|done|done].
    + intros d' [<-|Ht]%rtc_tc; [done|]. by apply Hc, Hreach.
Qed.

Lemma get_full_text_run fuel root c :
  CacheOk c → full_text_fuel ≤ fuel →
  wp (get_full_text fuel root)
     (λ r c', CacheOk c' ∧
        let not_found := ∃ n, failed (mkDefinitionIdentifier MSG root) (DefinitionNotFoundError n) in
        match r with
        | inr (format, txt) =>
            let d := mkDefinitionIdentifier format root in
            full_text_of d txt ∧ (∀ d', rtc edge d d' → loads d') ∧ (format = IDL → not_found)
        | inl e =>
            failed (mkDefinitionIdentifier MSG root) e ∧ (∀ n, e ≠ DefinitionNotFoundError n) ∨
            failed (mkDefinitionIdentifier IDL root) e ∧ not_found
        end) c.
Proof.
  intros Hok Hfuel. unfold get_full_text. rewrite wp_with_seen, wp_catch_not_found, wp_bind.
  set (dm := mkDefinitionIdentifier MSG root). set (di := mkDefinitionIdentifier IDL root).
  eapply wp_mono; [apply (append_root_run fuel dm); [done|done|set_solver]|].
  intros r1 st1 (Hok1 & Hseen1 & Hr1). destruct r1 as [[w|n|w|w]|txt1].
  - split; [done|]. left. split; [done|discriminate].
  - rewrite wp_bind. eapply wp_mono.
    { apply (append_root_run fuel di); [done|done|].
      intros d' [?|Hf]%Hseen1; [set_solver|]. by rewrite Hf. }
    intros r2 st2 (Hok2 & _ & Hr2). destruct r2 as [e2|txt2].
    + split; [done|]. right. split; [done|by exists n].
    + rewrite wp_ret. destruct Hr2 as [Ht Hl]. split_and!; [done|exact Ht|exact Hl|]. intros _. by exists n.
  - split; [done|]. left. split; [done|discriminate].
  - split; [done|]. left. split; [done|discriminate].
  - rewrite wp_ret. destruct Hr1 as [Ht Hl]. split_and!; [done|exact Ht|exact Hl|discriminate].
Qed.

(** ** Fields of type "wstring" *)

Lemma star_nonempty p s : star p s ≠ [].
Proof. destruct s as [|c s]; simpl; [done|]. case_match; [|done]. by destruct (star p s). Qed.

Lemma elem_of_parse_msg ctx d caps l :
  d ∈ l → d ∈ foldl (λ deps caps,
    match msg_dependency ctx (captured caps 1) with
    | Some d => set_insert d deps
    | None => deps
    end) l caps.
Proof.
  revert l. induction caps as [|m caps IH]; intros l Hd; simpl; [done|].
  apply IH. case_match; [|done]. apply elem_of_set_insert. by right.
Qed.

Lemma wstring_dependency package fields :
  package +:+ "/wstring" ∈ parse_dependencies MSG ("wstring " +:+ fields) package.
Proof.
  unfold parse_dependencies, parse_msg_dependencies, sregex_iterator. rewrite chars_app.
  set (s := chars fields). cbn [regex_iterate].
  assert (∃ rest, regex_search MSG_FIELD_TYPE_REGEX true (chars "wstring " ++ s) =
    Some ([(1, chars "wstring")], rest)) as [rest ->].
  { pose proof (star_nonempty space s) as Hne. simpl. unfold consumed.
    destruct (star space s) as [|rest l] eqn:Hs; [done|]. exists rest. simpl.
    match goal with |- context [take ?n _] => replace n with 7 by lia end. done. }
  simpl. apply elem_of_parse_msg. exact (list_elem_of_here _ _).
Qed.
End lemmas.
