(* ===== verification/System.v ===== *)
(** * The server and the node around it

    What a node promises the server whose handlers it provides, as a class; and
    the invariant of the two together, proved against the class: no
    subscription or publication outlives its client's, and the node's tables of
    topics and channels mirror the server's. *)

From Stdlib Require Import Strings.Byte.
From S2P Require Import Prelude Serialization Common Logging Interfaces Server ServerFacts.
From S2P Require Import ServerInvariant ServerSpec Reachable.

Local Open Scope Z_scope.

Abbreviation TopicAndDatatype := (string * string)%type (only parsing).

(** ** Tables of tables

    Subscriptions by channel and client, publications by client and channel. *)
Section nested.
Context `{Countable K, Countable K'} {V : Type}.
Implicit Types m : gmap K (gmap K' V).

Definition nested m (k : K) (k' : K') : Prop := ∃ i, m !! k = Some i ∧ is_Some (i !! k').

Lemma nested_emplace_empty k0 m k k' : nested (emplace k0 ∅ m).1 k k' → nested m k k'.
Proof.
  intros (i & [Hl|(-> & -> & _)]%lookup_emplace_Some & Hs); [by exists i|].
  rewrite lookup_empty in Hs. by destruct Hs.
Qed.

Lemma nested_put k0 k0' v m k k' :
  nested (alter (λ i, (emplace k0' v i).1) k0 m) k k' → nested m k k' ∨ (k = k0 ∧ k' = k0').
Proof.
  intros (i & Hi & [x Hx]). destruct (decide (k0 = k)) as [<-|Hne].
  - rewrite lookup_alter_eq in Hi. apply fmap_Some_1 in Hi as (i0 & Hi0 & ->).
    apply lookup_emplace_Some in Hx as [Hx|(-> & _)]; [left|by right].
    exists i0. split; [done|by exists x].
  - rewrite lookup_alter_ne in Hi by done. left. exists i. split; [done|by exists x].
Qed.

Lemma nested_delete k0 m k k' : nested (delete k0 m) k k' → nested m k k' ∧ k ≠ k0.
Proof. intros (i & [Hne Hi]%lookup_delete_Some & Hx). split; [by exists i|congruence]. Qed.

(** An entry is erased, and with the last one its table. *)
Lemma nested_erase k0 k0' i m k k' :
  m !! k0 = Some i → nested (<[k0 := delete k0' i]> m) k k' →
  nested m k k' ∧ ¬ (k = k0 ∧ k' = k0').
Proof.
  intros Hi (j & [[<- <-]|[Hne Hj]]%lookup_insert_Some & [x Hx]).
  - apply lookup_delete_Some in Hx as [Hne' Hx].
    split; [exists i; split; [done|by exists x]|]. by intros [_ ->].
  - split; [exists j; split; [done|by exists x]|]. by intros [-> _].
Qed.

Lemma nested_absent k k' m i :
  m !! k = Some i → i !! k' = None → ¬ nested m k k'.
Proof. intros Hi Hn (j & Hj & [x Hx]). congruence. Qed.
End nested.

(** ** What a node keeps *)

(** The advertised topics, the topic of each channel, the clients with a ROS
    subscription for a channel, and their ROS publishers. *)
Class TopicBridge (B : Type) := {
  topics_of : B → gmap TopicAndDatatype Channel;
  channels_of : B → gmap ChannelId TopicAndDatatype;
  subscribed : B → ChannelId → ConnHandle → Prop;
  publishing : B → ConnHandle → ClientChannelId → Prop;
}.

Section effects.
Context `{TopicBridge B}.

Definition same_topics (b b' : B) : Prop :=
  topics_of b' = topics_of b ∧ channels_of b' = channels_of b.

(** The node may have gained [P] and [Q], and nothing else. *)
Definition gains (P : ChannelId → ConnHandle → Prop) (Q : ConnHandle → ClientChannelId → Prop)
    (b b' : B) : Prop :=
  same_topics b b' ∧
  (∀ ch hdl, subscribed b' ch hdl → subscribed b ch hdl ∨ P ch hdl) ∧
  (∀ hdl id, publishing b' hdl id → publishing b hdl id ∨ Q hdl id).

Lemma gains_intro P Q b b' :
  same_topics b b' →
  (∀ ch hdl, subscribed b' ch hdl → subscribed b ch hdl ∨ P ch hdl) →
  (∀ hdl id, publishing b' hdl id → publishing b hdl id ∨ Q hdl id) → gains P Q b b'.
Proof. done. Qed.

Lemma gains_refl P Q b : gains P Q b b.
Proof. apply gains_intro; auto. done. Qed.
End effects.

Definition nobody {X Y : Type} (x : X) (y : Y) : Prop := False.
Definition just {X Y : Type} (x0 : X) (y0 : Y) (x : X) (y : Y) : Prop := x = x0 ∧ y = y0.

(** What the handlers of a node do to it.  Those for the end of a subscription
    or publication are set, return, and do away with it. *)
Class TopicBridgeOk `{TopicBridge B} (handlers : Handlers B) : Prop := {
  subscribe_ok f ch hdl b :
    _subscribeHandler handlers = Some f → gains (just ch hdl) nobody b (f ch hdl b).1;
  unsubscribe_set : is_Some (_unsubscribeHandler handlers);
  unsubscribe_ok f ch hdl b :
    _unsubscribeHandler handlers = Some f →
    (f ch hdl b).2 = inr tt ∧ gains nobody nobody b (f ch hdl b).1 ∧
    ¬ subscribed (f ch hdl b).1 ch hdl;
  advertise_ok f adv hdl b :
    _clientAdvertiseHandler handlers = Some f →
    gains nobody (just hdl (adv_channelId adv)) b (f adv hdl b).1;
  unadvertise_set : is_Some (_clientUnadvertiseHandler handlers);
  unadvertise_ok f id hdl b :
    _clientUnadvertiseHandler handlers = Some f →
    (f id hdl b).2 = inr tt ∧ gains nobody nobody b (f id hdl b).1 ∧
    ¬ publishing (f id hdl b).1 hdl id;
  message_ok f msg hdl b :
    _clientMessageHandler handlers = Some f → gains nobody nobody b (f msg hdl b).1;
}.

(** ** The invariant *)

(** The node's tables of topics mirror the server's channels. *)
Record Mirrored `{TopicBridge B} (s : ServerState) (b : B) : Prop := mkMirrored {
  mir_topic t ch :
    topics_of b !! t = Some ch →
    channels_of b !! chan_id ch = Some t ∧ _channels s !! chan_id ch = Some ch ∧
    (topic ch, schemaName ch) = t;
  mir_channel id t :
    channels_of b !! id = Some t → ∃ ch, topics_of b !! t = Some ch ∧ chan_id ch = id;
  mir_registered id : is_Some (_channels s !! id) → is_Some (channels_of b !! id);
  mir_ids id : is_Some (_channels s !! id) → id ≤ _nextChannelId s;
}.

(** [P] and [Q] are the subscriptions and publications that the server has
    already ended and the node is about to.  The tables mirror each other if they
    are to: once channel ids have wrapped around they no longer need to. *)
Record SysInvX `{TopicBridge B} {mirror : Prop} (P : ChannelId → ConnHandle → Prop)
    (Q : ConnHandle → ClientChannelId → Prop) (s : ServerState) (b : B) : Prop := mkSysInvX {
  sys_server : ServerInv s;
  sys_mirror : mirror → Mirrored s b;
  sys_sub ch hdl :
    subscribed b ch hdl → P ch hdl ∨
    ∃ c, _clients s !! hdl = Some c ∧ is_Some (subscriptionsByChannel c !! ch);
  sys_pub hdl id :
    publishing b hdl id → Q hdl id ∨
    ∃ c, _clients s !! hdl = Some c ∧ id ∈ advertisedChannels c;
}.

Abbreviation SysInv := (SysInvX (mirror:=True) nobody nobody).

(** The node has no subscription or publication of a client that has none: what is
    left of the invariant when the ids of channels may have wrapped around. *)
Abbreviation NoLeak := (SysInvX (mirror:=False) nobody nobody).

Section states.
Context `{TopicBridge B}.
Implicit Types (s : ServerState) (b : B).

Section mirrored.
Context P Q s b (HI : SysInvX (mirror:=True) P Q s b).

Lemma sys_topic t ch :
  topics_of b !! t = Some ch →
  channels_of b !! chan_id ch = Some t ∧ _channels s !! chan_id ch = Some ch ∧
  (topic ch, schemaName ch) = t.
Proof. by apply (mir_topic _ _ (sys_mirror _ _ _ _ HI I)). Qed.
Lemma sys_channel id t :
  channels_of b !! id = Some t → ∃ ch, topics_of b !! t = Some ch ∧ chan_id ch = id.
Proof. by apply (mir_channel _ _ (sys_mirror _ _ _ _ HI I)). Qed.
Lemma sys_registered id : is_Some (_channels s !! id) → is_Some (channels_of b !! id).
Proof. by apply (mir_registered _ _ (sys_mirror _ _ _ _ HI I)). Qed.
Lemma sys_ids id : is_Some (_channels s !! id) → id ≤ _nextChannelId s.
Proof. by apply (mir_ids _ _ (sys_mirror _ _ _ _ HI I)). Qed.
End mirrored.

(** The three tables of topics and channels have the same entries. *)
Lemma sys_channels_iff s b :
  SysInv s b → ∀ id t, channels_of b !! id = Some t ↔
    ∃ ch, topics_of b !! t = Some ch ∧ chan_id ch = id.
Proof.
  intros HI id t. split; [apply (sys_channel _ _ _ _ HI)|].
  intros (ch & Hch & <-). by apply (sys_topic _ _ _ _ HI) in Hch as [? _].
Qed.

Lemma sys_registered_iff s b :
  SysInv s b → ∀ id ch, _channels s !! id = Some ch ↔
    ∃ t, topics_of b !! t = Some ch ∧ chan_id ch = id.
Proof.
  intros HI id ch. split.
  - intros Hch. destruct (sys_registered _ _ _ _ HI id) as [t Ht]; [by eexists|].
    apply (sys_channel _ _ _ _ HI) in Ht as (ch' & Ht & Hid).
    destruct (sys_topic _ _ _ _ HI t ch' Ht) as (_ & Hch' & _). exists t. split; [|congruence].
    rewrite Ht. congruence.
  - intros (t & Ht & <-). by apply (sys_topic _ _ _ _ HI) in Ht as (_ & ? & _).
Qed.

Section steps.
Context {mirror : Prop}.
Abbreviation Inv := (SysInvX (mirror:=mirror)).

(** A step that does not touch topics and channels. *)
Lemma sys_update P Q P' Q' s s' b b' :
  Inv P Q s b → ServerInv s' → _channels s' = _channels s →
  _nextChannelId s' = _nextChannelId s → same_topics b b' →
  (∀ ch hdl, subscribed b' ch hdl → P' ch hdl ∨
     ∃ c, _clients s' !! hdl = Some c ∧ is_Some (subscriptionsByChannel c !! ch)) →
  (∀ hdl id, publishing b' hdl id → Q' hdl id ∨
     ∃ c, _clients s' !! hdl = Some c ∧ id ∈ advertisedChannels c) →
  Inv P' Q' s' b'.
Proof.
  intros [Hsv Hm _ _] Hsv' Hch Hn [Ht' Hc'] Hs Hp. split; [done| |done|done].
  intros [Ht Hc Hr Hi]%Hm. split; rewrite ?Ht', ?Hc', ?Hch, ?Hn; auto.
Qed.

(** The node's part of a step. *)
Lemma sys_gains P Q s b b' P' Q' :
  Inv P Q s b → gains P' Q' b b' →
  (∀ ch hdl, P' ch hdl →
     ∃ c, _clients s !! hdl = Some c ∧ is_Some (subscriptionsByChannel c !! ch)) →
  (∀ hdl id, Q' hdl id → ∃ c, _clients s !! hdl = Some c ∧ id ∈ advertisedChannels c) →
  Inv P Q s b'.
Proof.
  intros HI (Ht & Hs & Hp) HP HQ. eapply sys_update; [exact HI|apply HI|done|done|done| |].
  - intros ch hdl [Hb|HP']%Hs; [by apply (sys_sub _ _ _ _ HI)|right; auto].
  - intros hdl id [Hb|HQ']%Hp; [by apply (sys_pub _ _ _ _ HI)|right; auto].
Qed.

Lemma sys_shrinks P Q s b b' : Inv P Q s b → gains nobody nobody b b' → Inv P Q s b'.
Proof. intros HI Hg. by eapply sys_gains; [exact HI|exact Hg| |]; intros ? ? []. Qed.

(** A step of the server that keeps every client's entries. *)
Lemma sys_keeps_clients P Q s s' b :
  Inv P Q s b → ServerInv s' → _channels s' = _channels s →
  _nextChannelId s' = _nextChannelId s →
  (∀ hdl c, _clients s !! hdl = Some c → ∃ c', _clients s' !! hdl = Some c' ∧
     dom (subscriptionsByChannel c) ⊆ dom (subscriptionsByChannel c') ∧
     advertisedChannels c ⊆ advertisedChannels c') →
  Inv P Q s' b.
Proof.
  intros HI Hsv Hch Hn Hcl. eapply sys_update; [exact HI|done|done|done|done| |].
  - intros ch hdl [?|(c & Hc & Hl)]%(sys_sub _ _ _ _ HI); [by left|right].
    destruct (Hcl _ _ Hc) as (c' & Hc' & Hd & _). exists c'. split; [done|].
    apply elem_of_dom, Hd, elem_of_dom. done.
  - intros hdl id [?|(c & Hc & Hl)]%(sys_pub _ _ _ _ HI); [by left|right].
    destruct (Hcl _ _ Hc) as (c' & Hc' & _ & Ha). exists c'. split; [done|]. by apply Ha.
Qed.

(** Removing a channel on both sides. *)
Lemma sys_remove s b b' t ch :
  Inv nobody nobody s b → topics_of b !! t = Some ch →
  topics_of b' = delete t (topics_of b) →
  channels_of b' = delete (chan_id ch) (channels_of b) →
  (∀ ch' hdl, subscribed b' ch' hdl → subscribed b ch' hdl ∧ ch' ≠ chan_id ch) →
  (∀ hdl id, publishing b' hdl id → publishing b hdl id) →
  Inv nobody nobody (remove_channel_state (chan_id ch) s) b'.
Proof.
  intros [Hsv Hm Hs Hp] Hch Ht' Hc' Hs' Hp'.
  split; simpl; [by apply keeps_remove_channel_state|intros [Ht Hc Hr Hi]%Hm; split; simpl| |].
  - rewrite Ht', Hc'. intros t1 ch1 [Hne Hl]%lookup_delete_Some.
    destruct (Ht _ _ Hl) as (H1 & H2 & H3).
    assert (chan_id ch ≠ chan_id ch1).
    { intros Heq. destruct (Ht _ _ Hch) as (H1' & _). rewrite Heq in H1'. congruence. }
    by rewrite !lookup_delete_ne.
  - rewrite Ht', Hc'. intros id t1 [Hne Hl]%lookup_delete_Some.
    destruct (Hc _ _ Hl) as (ch1 & H1 & H2). exists ch1. split; [|done].
    rewrite lookup_delete_ne; [done|]. intros <-. congruence.
  - rewrite Hc'. intros id [c [Hne Hl]%lookup_delete_Some].
    rewrite lookup_delete_ne by done. apply Hr. by exists c.
  - intros id [c [_ Hl]%lookup_delete_Some]. apply Hi. by exists c.
  - intros ch' hdl [Hb Hne]%Hs'. destruct (Hs _ _ Hb) as [[]|(c & Hcl & Hl)]. right.
    exists (upd_subscriptions (delete (chan_id ch)) c). rewrite lookup_fmap, Hcl.
    split; [done|]. simpl. by rewrite lookup_delete_ne.
  - intros hdl id [[]|(c & Hcl & Hin)]%Hp'%Hp. right.
    exists (upd_subscriptions (delete (chan_id ch)) c). by rewrite lookup_fmap, Hcl.
Qed.

(** Adding a channel on both sides, while the ids last. *)
Lemma sys_add s b b' t new :
  let id := u32 (_nextChannelId s + 1) in
  let ch := mkChannel id new in
  Inv nobody nobody s b →
  (mirror → _nextChannelId s + 1 < 2 ^ 32 ∧ topics_of b !! t = None ∧
     (topic new, schemaName new) = t ∧
     topics_of b' = <[ t := ch ]> (topics_of b) ∧
     channels_of b' = <[ id := t ]> (channels_of b)) →
  (∀ ch' hdl, subscribed b' ch' hdl → subscribed b ch' hdl) →
  (∀ hdl id, publishing b' hdl id → publishing b hdl id) →
  Inv nobody nobody (upd_channels (λ m, (emplace id ch m).1) (set_nextChannelId id s)) b'.
Proof.
  intros id ch [Hsv Hm Hs Hp] Hadd Hs' Hp'. split; simpl.
  { pose proof (inv_add_channel new s Hsv) as Hnext. simpl in Hnext. fold id in Hnext. exact Hnext. }
  2: { intros ch' hdl Hb%Hs'. by apply Hs. }
  2: { intros hdl id' Hb%Hp'. by apply Hp. }
  intros Hmir. destruct (Hm Hmir) as [Ht Hc Hr Hi], (Hadd Hmir) as (Hlim & Hnew & Hname & Ht' & Hc').
  assert (id = _nextChannelId s + 1) as Hid.
  { apply u32_id. pose proof (inv_next _ Hsv) as [? _]. split; lia. }
  assert (_channels s !! id = None) as Hfresh.
  { apply eq_None_not_Some. intros Hx%Hi. lia. }
  assert (channels_of b !! id = None) as Hfresh'.
  { apply eq_None_not_Some. intros [t1 (ch1 & Hch1 & Heq)%Hc].
    apply Ht in Hch1 as (_ & Hl & _). congruence. }
  split; simpl; rewrite ?emplace_fresh by done; simpl.
  - rewrite Ht', Hc'. intros t1 ch1 [[<- <-]|[Hne Hl]]%lookup_insert_Some.
    { by rewrite !lookup_insert_eq. }
    destruct (Ht _ _ Hl) as (H1 & H2 & H3).
    rewrite !lookup_insert_ne by (intros Heq; rewrite Heq in *; congruence). done.
  - rewrite Ht', Hc'. intros id1 t1 [[<- <-]|[Hne Hl]]%lookup_insert_Some.
    { exists ch. by rewrite lookup_insert_eq. }
    destruct (Hc _ _ Hl) as (ch1 & H1 & H2). exists ch1. split; [|done].
    rewrite lookup_insert_ne; [done|]. intros <-. congruence.
  - rewrite Hc'. intros id1 [c [[<- _]|[Hne Hl]]%lookup_insert_Some].
    { rewrite lookup_insert_eq. by eexists. }
    rewrite lookup_insert_ne by done. apply Hr. by exists c.
  - intros id1 [c [[<- _]|[Hne Hl]]%lookup_insert_Some]; [done|].
    pose proof (Hi id1 (ex_intro _ c Hl)). lia.
Qed.
End steps.
End states.
