(* ===== verification/SystemSteps.v ===== *)
(** * Every step of server and node keeps the system's invariant *)

From Stdlib Require Import Strings.Byte.
From S2P Require Import Prelude Serialization Common Logging Interfaces Server ServerFacts.
From S2P Require Import ServerInvariant ServerSpec Reachable System.

Local Open Scope Z_scope.

Section steps.
Context `{Platform, Iteration, LogChannels, Nlohmann, Websocketpp}.
Context `{!NlohmannLaws, !WebsocketppLaws}.
Context `{TopicBridge B} (handlers : Handlers B) `{!TopicBridgeOk handlers}.
Context {mirror : Prop}.
Implicit Types w : World B.

Abbreviation Inv := (SysInvX (mirror:=mirror)).
Definition sysm P Q w : Prop := Inv P Q (srv w) (env w).
Abbreviation sysx := sysm.
Abbreviation sys := (sysm nobody nobody).
Definition keeps_sysm w w' : Prop := sys w → sys w'.
Abbreviation keeps_sys := keeps_sysm.

#[export] Instance keeps_sys_preorder : PreOrder keeps_sys.
Proof. split; [by intros ??|]. intros ??? Hxy Hyz ?. by apply Hyz, Hxy. Qed.

Lemma keeps_sys_same {A} (m : M (World B) A) :
  preserves same_srv_env m → preserves keeps_sys m.
Proof. intros Hm w HI. destruct (Hm w) as [Hs He]. unfold sysm. by rewrite Hs, He. Qed.

(** A computation of the server alone that keeps every client's entries. *)
Lemma keeps_sys_update f :
  (∀ s, ServerInv s → ServerInv (f s)) →
  (∀ s, _channels (f s) = _channels s ∧ _nextChannelId (f s) = _nextChannelId s) →
  (∀ s hdl c, _clients s !! hdl = Some c → ∃ c', _clients (f s) !! hdl = Some c' ∧
     dom (subscriptionsByChannel c) ⊆ dom (subscriptionsByChannel c') ∧
     advertisedChannels c ⊆ advertisedChannels c') →
  preserves keeps_sys (update (E:=B) f).
Proof.
  intros Hinv Hch Hcl w HI. destruct (Hch (srv w)) as [H1' H2'].
  eapply sys_keeps_clients; [exact HI|apply Hinv, HI|done|done|]. apply Hcl.
Qed.

Lemma keeps_sys_set_srv P Q s w :
  Inv P Q s (env w) → sysx P Q (set_srv s w).
Proof. done. Qed.

(** The invariant is kept by what the node's handlers do on their own. *)
Lemma call_sys {X} (h : option (X → ConnHandle → M B unit)) e x hdl P Q w :
  (∀ f, h = Some f → sysx P Q (mkWorld (srv w) (net w) (f x hdl (env w)).1 (out w))) →
  sysx P Q w → wp (call h e x hdl) (λ _ w', sysx P Q w') w.
Proof.
  intros Hf HI. unfold call. destruct h as [f|]; [|done].
  rewrite wp_bind, wp_emit, wp_on_env. by apply (Hf f).
Qed.

Lemma keeps_sys_message (msg : ClientMessage) hdl :
  preserves keeps_sys (call (_clientMessageHandler handlers) EvClientMessage msg hdl).
Proof.
  intros w HI. apply call_sys; [|done]. intros f Hf. eapply sys_shrinks; [exact HI|].
  by eapply message_ok.
Qed.

#[local] Hint Resolve keeps_sys_preorder : cpp.
#[local] Hint Extern 5 (preserves keeps_sys _) =>
  apply keeps_sys_same; solve [auto 2 with cpp] : cpp.
#[local] Hint Resolve keeps_sys_message : cpp.

Ltac keeps := traverse (idtac; lazymatch goal with
  | |- preserves _ (bind _ _) => fail
  | |- preserves _ _ => solve [auto 4 with cpp]
  end).

(** ** Text messages *)

Lemma keeps_sys_subscribe_one hdl j : preserves keeps_sys (subscribe_one handlers hdl j).
Proof.
  unfold subscribe_one. do 2 (apply preserves_bind; [tc_solve|auto with cpp|intros ?]).
  intros w HI. pose proof (keeps_subscribe_one handlers hdl j w (sys_server _ _ _ _ HI)) as _.
  unfold client_at, bind, server, gets. simpl.
  destruct (_clients (srv w) !! hdl) as [c|] eqn:Hc; simpl; [|done].
  destruct (findSubscriptionBySubId c _) as [p|] eqn:Hf; simpl.
  { by apply (keeps_sys_same _ (sendStatus_same _ _ _)). }
  destruct (_channels (srv w) !! _) as [ch|] eqn:Hch; simpl.
  2: { by apply (keeps_sys_same _ (sendStatus_same _ _ _)). }
  match goal with |- context [call _ EvSubscribe ?x _ _] => set (chanId := x) in * end.
  match goal with |- context [set_srv ?s w] => set (s' := s) end.
  assert (_clients s' !! hdl =
    Some (upd_subscriptions (λ m, (emplace chanId a m).1) c)) as Hc'
    by (simpl; by rewrite lookup_alter_eq, Hc).
  assert (Inv nobody nobody s' (env w)) as HI'.
  { eapply sys_keeps_clients; [exact HI| |done|done|].
    - apply inv_upd_client; [apply HI| |done]. intros c0 Hc0 Hok.
      rewrite Hc in Hc0. injection Hc0 as <-. apply ok_emplace_sub; [by eexists| |done].
      intros ch'. by apply findSubscriptionBySubId_None.
    - intros hdl' c0 Hc0. destruct (decide (hdl = hdl')) as [<-|Hne].
      + eexists. split; [exact Hc'|]. rewrite Hc in Hc0. injection Hc0 as <-. simpl.
        split; [rewrite dom_emplace; set_solver|done].
      + exists c0. simpl. by rewrite lookup_alter_ne. }
  apply (call_sys _ _ _ _ _ _ (set_srv s' w)); [|done].
  intros f Hfn. simpl. eapply sys_gains; [exact HI'|by eapply subscribe_ok| |by intros ?? []].
  intros ch0 hdl0 [-> ->]. eexists. split; [exact Hc'|]. simpl. apply elem_of_dom.
  rewrite dom_emplace. set_solver.
Qed.

(** Ending a subscription on the server, then in the node. *)
Lemma call_unsubscribe P Q chanId hdl w :
  sysx P Q w →
  wp (call (_unsubscribeHandler handlers) EvUnsubscribe chanId hdl)
     (λ r w', r = inr tt ∧ srv w' = srv w ∧
        sysx (λ ch h, P ch h ∧ ¬ (ch = chanId ∧ h = hdl)) Q w') w.
Proof.
  intros HI. unfold call. destruct (unsubscribe_set (handlers:=handlers)) as [f Hf].
  rewrite Hf, wp_bind, wp_emit, wp_on_env. simpl.
  destruct (unsubscribe_ok f chanId hdl (env w) Hf) as (Hr & (Ht & Hs & Hp) & Hno).
  split_and!; [done|done|]. eapply sys_update; [exact HI|apply HI|done|done|done| |].
  - intros ch h Hb. destruct (Hs _ _ Hb) as [Hb'|[]].
    destruct (sys_sub _ _ _ _ HI _ _ Hb') as [HP|?]; [left|by right].
    split; [done|]. intros [-> ->]. done.
  - intros h id Hb. destruct (Hp _ _ Hb) as [Hb'|[]]. by apply (sys_pub _ _ _ _ HI).
Qed.

Lemma call_unadvertise P Q id hdl w :
  sysx P Q w →
  wp (call (_clientUnadvertiseHandler handlers) EvClientUnadvertise id hdl)
     (λ r w', r = inr tt ∧ srv w' = srv w ∧
        sysx P (λ h i, Q h i ∧ ¬ (h = hdl ∧ i = id)) w') w.
Proof.
  intros HI. unfold call. destruct (unadvertise_set (handlers:=handlers)) as [f Hf].
  rewrite Hf, wp_bind, wp_emit, wp_on_env. simpl.
  destruct (unadvertise_ok f id hdl (env w) Hf) as (Hr & (Ht & Hs & Hp) & Hno).
  split_and!; [done|done|]. eapply sys_update; [exact HI|apply HI|done|done|done| |].
  - intros ch h Hb. destruct (Hs _ _ Hb) as [Hb'|[]]. by apply (sys_sub _ _ _ _ HI).
  - intros h i Hb. destruct (Hp _ _ Hb) as [Hb'|[]].
    destruct (sys_pub _ _ _ _ HI _ _ Hb') as [HQ|?]; [left|by right].
    split; [done|]. intros [-> ->]. done.
Qed.

Lemma sysx_weaken P Q P' Q' w :
  sysx P Q w → (∀ ch h, P ch h → P' ch h) → (∀ h i, Q h i → Q' h i) → sysx P' Q' w.
Proof.
  intros HI HP HQ. eapply sys_update; [exact HI|apply HI|done|done|done| |].
  - intros ch h [?|?]%(sys_sub _ _ _ _ HI); [left|right]; auto.
  - intros h i [?|?]%(sys_pub _ _ _ _ HI); [left|right]; auto.
Qed.

Lemma keeps_sys_unsubscribe_one hdl j : preserves keeps_sys (unsubscribe_one handlers hdl j).
Proof.
  unfold unsubscribe_one. apply preserves_bind; [tc_solve|auto with cpp|intros subId].
  intros w HI. unfold client_at, bind, server, gets. simpl.
  destruct (_clients (srv w) !! hdl) as [c|] eqn:Hc; simpl; [|done].
  destruct (findSubscriptionBySubId c subId) as [[chanId sid]|] eqn:Hf; simpl.
  2: { by apply (keeps_sys_same _ (sendStatus_same _ _ _)). }
  match goal with |- context [set_srv ?s w] => set (s' := s) end.
  assert (sysx (just chanId hdl) nobody (set_srv s' w)) as HI'.
  { eapply sys_update; [exact HI|apply inv_delete_sub, HI|done|done|done| |].
    - intros ch h [[]|(c0 & Hc0 & Hl)]%(sys_sub _ _ _ _ HI).
      destruct (decide (ch = chanId ∧ h = hdl)) as [[-> ->]|Hne]; [by left|right]. simpl.
      destruct (decide (hdl = h)) as [<-|Hh].
      + rewrite lookup_alter_eq, Hc0. eexists. split; [done|]. simpl.
        rewrite lookup_delete_ne; [done|]. naive_solver.
      + exists c0. by rewrite lookup_alter_ne.
    - intros h i [[]|(c0 & Hc0 & Hl)]%(sys_pub _ _ _ _ HI). right. simpl.
      destruct (decide (hdl = h)) as [<-|Hh].
      + rewrite lookup_alter_eq, Hc0. eexists. split; [done|]. done.
      + exists c0. by rewrite lookup_alter_ne. }
  destruct (call_unsubscribe _ _ chanId hdl _ HI') as (_ & _ & HI'').
  eapply sysx_weaken; [exact HI''| |done]. intros ch h [[-> ->] Hne]. by apply Hne.
Qed.

(** A step on behalf of a connected client, which stays connected. *)
Definition keeps_sys_of (hdl : ConnHandle) w w' : Prop :=
  is_Some (_clients (srv w) !! hdl) ∧ sys w → is_Some (_clients (srv w') !! hdl) ∧ sys w'.

#[export] Instance keeps_sys_of_preorder hdl : PreOrder (keeps_sys_of hdl).
Proof. split; [by intros ??|]. intros ??? Hxy Hyz ?. by apply Hyz, Hxy. Qed.

Lemma keeps_sys_of_same hdl {A} (m : M (World B) A) :
  preserves same_srv_env m → preserves (keeps_sys_of hdl) m.
Proof. intros Hm w [Hc HI]. destruct (Hm w) as [Hs He]. unfold sysm. by rewrite Hs, He. Qed.

Lemma keeps_sys_advertise_updates hdl adv :
  preserves (keeps_sys_of hdl)
    (upd_publications hdl (λ m, (emplace (adv_channelId adv) adv m).1) ;;;
     upd_client hdl (upd_advertised (λ X, {[ adv_channelId adv ]} ∪ X)) ;;;
     call (_clientAdvertiseHandler handlers) EvClientAdvertise adv hdl).
Proof.
  intros w [[c Hc] HI]. unfold upd_publications, upd_client, update, modify, bind.
  match goal with |- context [call _ _ _ _ (set_srv ?s _)] => set (s' := s) end.
  assert (_clients s' !! hdl =
    Some (upd_advertised (λ X, {[ adv_channelId adv ]} ∪ X) c)) as Hc'
    by (simpl; by rewrite lookup_alter_eq, Hc).
  assert (Inv nobody nobody s' (env w)) as HI'.
  { eapply sys_keeps_clients; [exact HI|by apply inv_advertise, HI|done|done|].
    intros h c0 Hc0. simpl. destruct (decide (hdl = h)) as [<-|Hh].
    - rewrite lookup_alter_eq, Hc0. eexists. split; [done|]. simpl. set_solver.
    - exists c0. by rewrite lookup_alter_ne. }
  split.
  - rewrite (call_same_srv _ _ _ _ _). simpl in Hc'. simpl. rewrite Hc'. done.
  - apply call_sys; [|done]. intros f Hf. simpl.
    eapply sys_gains; [exact HI'|by eapply advertise_ok|by intros ?? []|].
    intros h i [-> ->]. eexists. split; [exact Hc'|]. simpl. set_solver.
Qed.

Lemma keeps_sys_advertise_one hdl first j :
  preserves (keeps_sys_of hdl) (advertise_one handlers hdl first j).
Proof.
  unfold advertise_one, publications_of.
  repeat match goal with
  | |- preserves _ (bind (upd_publications _ _) _) =>
      apply (keeps_sys_advertise_updates _ (mkClientAdvertisement _ _ _ _ _))
  | |- preserves _ (bind _ _) => apply preserves_bind; [tc_solve| |intros ?]
  | |- preserves _ (if _ then _ else _) => case_match
  | |- preserves _ _ => apply keeps_sys_of_same; solve [auto 2 with cpp]
  end.
Qed.

Lemma keeps_sys_unadvertise_one hdl j : preserves keeps_sys (unadvertise_one handlers hdl j).
Proof.
  unfold unadvertise_one, publications_of. keeps.
  - intros w HI. eapply sys_keeps_clients; [exact HI|by apply inv_unadvertise, HI|done|done|].
    intros h c1 Hc1. by exists c1.
  - intros w HI. destruct (call_unadvertise _ _ a hdl w HI) as (_ & _ & HI').
    by eapply sysx_weaken; [exact HI'|done|intros ?? [[] _]].
Qed.

#[local] Hint Resolve keeps_sys_subscribe_one keeps_sys_unsubscribe_one
  keeps_sys_unadvertise_one : cpp.

Lemma keeps_sys_advertise hdl p w :
  is_Some (_clients (srv w) !! hdl) → keeps_sys w (handleAdvertise handlers hdl p w).1.
Proof.
  intros Hc HI. unfold handleAdvertise.
  assert (keeps_sys_of hdl w (handleAdvertise handlers hdl p w).1) as Hk; [|by apply Hk].
  unfold handleAdvertise. apply (preserves_bind (keeps_sys_of hdl)).
  { by apply keeps_sys_of_same; auto 2 with cpp. }
  intros cc. apply preserves_bind; [tc_solve| |].
  - intros w' [Hc' HI']. split; [done|].
    eapply sys_keeps_clients; [exact HI'|by apply inv_emplace_publications, HI'|done|done|].
    intros h c0 Hc0. by exists c0.
  - intros _. apply preserves_bind; [tc_solve|by apply keeps_sys_of_same; auto 2 with cpp|].
    intros l. apply preserves_for_each; [tc_solve|]. intros x _. apply keeps_sys_advertise_one.
Qed.

Lemma keeps_sys_handleTextMessage hdl msg :
  preserves keeps_sys (handleTextMessage handlers hdl msg).
Proof.
  unfold handleTextMessage. do 2 (apply preserves_bind; [tc_solve|auto with cpp|intros ?]).
  intros w. unfold bind at 1, client_at, bind, server, gets. simpl.
  destruct (_clients (srv w) !! hdl) as [c|] eqn:Hc; simpl; [|done].
  unfold dispatch_op. repeat case_match.
  - assert (preserves keeps_sys (handleSubscribe handlers hdl a)) as Hk
      by (unfold handleSubscribe; keeps). apply Hk.
  - assert (preserves keeps_sys (handleUnsubscribe handlers hdl a)) as Hk
      by (unfold handleUnsubscribe; keeps). apply Hk.
  - apply keeps_sys_advertise. by exists c.
  - assert (preserves keeps_sys (handleUnadvertise handlers hdl a)) as Hk
      by (unfold handleUnadvertise; keeps). apply Hk.
  - by apply (keeps_sys_same _ (sendStatus_same _ _ _)).
Qed.

Lemma keeps_sys_handleBinaryMessage ts hdl msg :
  preserves keeps_sys (handleBinaryMessage handlers ts hdl msg).
Proof. unfold handleBinaryMessage. keeps. Qed.

Lemma keeps_sys_handleMessage ts hdl msg :
  preserves keeps_sys (handleMessage handlers ts hdl msg).
Proof.
  unfold handleMessage. apply preserves_try_catch; [tc_solve| |keeps].
  case_match; auto using keeps_sys_handleTextMessage, keeps_sys_handleBinaryMessage with cpp.
Qed.

(** ** Connections *)

(** What is left to end of a client's publications and subscriptions. *)
Definition left_pubs (hdl : ConnHandle) (ids : list ClientChannelId)
    (h : ConnHandle) (i : ClientChannelId) : Prop := h = hdl ∧ i ∈ ids.
Definition left_subs (hdl : ConnHandle) (chans : list ChannelId)
    (ch : ChannelId) (h : ConnHandle) : Prop := h = hdl ∧ ch ∈ chans.

Lemma close_pubs P hdl ids (say : ClientChannelId → string) w :
  sysx P (left_pubs hdl ids) w →
  wp (for_each ids (λ id, alog (say id) ;;;
        call (_clientUnadvertiseHandler handlers) EvClientUnadvertise id hdl))
     (λ r w', r = inr tt ∧ srv w' = srv w ∧ sysx P nobody w') w.
Proof.
  revert w. induction ids as [|id ids IH]; intros w HI; simpl.
  { rewrite wp_ret. split_and!; [done|done|]. eapply sysx_weaken; [exact HI|done|].
    by intros h i [_ ?%not_elem_of_nil]. }
  rewrite wp_bind. unfold alog at 1. rewrite wp_bind, wp_emit.
  set (w1 := mkWorld _ _ _ _). eapply wp_mono; [by apply (call_unadvertise P (left_pubs hdl (id :: ids)) id hdl w1)|].
  intros r w2 (-> & Hs & HI2). eapply wp_mono.
  { apply IH. eapply sysx_weaken; [exact HI2|done|].
    intros h i [[-> [->|Hi]%elem_of_cons] Hne]; [by destruct Hne|by split]. }
  intros r w3 (-> & Hs3 & HI3). split_and!; [done|by rewrite Hs3, Hs|done].
Qed.

Lemma close_subs {X} Q hdl (l : list (ChannelId * X)) w :
  sysx (left_subs hdl l.*1) Q w →
  wp (for_each l (λ '(chanId, _), call (_unsubscribeHandler handlers) EvUnsubscribe chanId hdl))
     (λ r w', r = inr tt ∧ sysx nobody Q w') w.
Proof.
  revert w. induction l as [|[ch x] l IH]; intros w HI; simpl.
  { rewrite wp_ret. split; [done|]. eapply sysx_weaken; [exact HI| |done].
    by intros c h [_ ?%not_elem_of_nil]. }
  rewrite wp_bind. eapply wp_mono; [by apply (call_unsubscribe (left_subs hdl ((ch, x) :: l).*1) Q ch hdl w)|].
  intros r w2 (-> & Hs & HI2). apply IH. eapply sysx_weaken; [exact HI2| |done].
  intros c h [[-> [->|Hi]%elem_of_cons] Hne]; [by destruct Hne|by split].
Qed.

Lemma keeps_sys_handleConnectionClosed hdl :
  preserves keeps_sys (handleConnectionClosed handlers hdl).
Proof.
  intros w HI.
  change (wp (handleConnectionClosed handlers hdl) (λ _ w', sysx nobody nobody w') w).
  unfold handleConnectionClosed. rewrite wp_bind, wp_server.
  destruct (_clients (srv w) !! hdl) as [c|] eqn:Hc.
  2: { unfold wp. apply (keeps_sys_same (A:=unit)); [|done].
       apply preserves_bind; [tc_solve|auto with cpp|intros; auto with cpp]. }
  unfold alog at 1. rewrite wp_bind, wp_emit, wp_bind, wp_update, wp_bind.
  set (w1 := set_srv _ _).
  assert (sysx (left_subs hdl (iter_map (subscriptionsByChannel c)).*1)
    (left_pubs hdl (iter_set (advertisedChannels c))) w1) as HI1.
  { eapply sys_update; [exact HI|apply inv_delete_client, HI|done|done|done| |]; simpl.
    - intros ch h [[]|(c0 & Hc0 & [sid Hl])]%(sys_sub _ _ _ _ HI).
      destruct (decide (hdl = h)) as [<-|Hh].
      + left. split; [done|]. apply list_elem_of_fmap. exists (ch, sid).
        split; [done|]. apply elem_of_iter_map. congruence.
      + right. exists c0. by rewrite lookup_delete_ne.
    - intros h i [[]|(c0 & Hc0 & Hl)]%(sys_pub _ _ _ _ HI).
      destruct (decide (hdl = h)) as [<-|Hh].
      + left. split; [done|]. apply elem_of_iter_set. congruence.
      + right. exists c0. by rewrite lookup_delete_ne. }
  eapply wp_mono; [by apply close_pubs|]. intros r w2 (-> & Hs2 & HI2).
  rewrite wp_bind, wp_update. eapply wp_mono.
  { apply (close_subs nobody hdl). eapply sys_keeps_clients;
      [exact HI2|apply inv_delete_publications, HI2|done|done|]. intros h c0 Hc0. by exists c0. }
  by intros r w3 [-> ?].
Qed.

Lemma keeps_sys_handleConnectionOpened hdl w :
  _clientChannels (srv w) !! hdl = None →
  keeps_sys w (handleConnectionOpened (E:=B) hdl w).1.
Proof.
  intros Hfresh HI.
  change (wp (handleConnectionOpened hdl) (λ _ w', sysx nobody nobody w') w).
  unfold handleConnectionOpened.
  assert (∀ A (m : M (World B) A) (f : A → M (World B) unit) w0,
    preserves same_srv_env m → sysx nobody nobody w0 → _clientChannels (srv w0) !! hdl = None →
    (∀ a w', sysx nobody nobody w' → _clientChannels (srv w') !! hdl = None →
       wp (f a) (λ _ w'', sysx nobody nobody w'') w') →
    wp (bind m f) (λ _ w'', sysx nobody nobody w'') w0) as Hstep.
  { intros A m f w0 Hm HI0 Hf0 Hf. rewrite wp_bind. unfold wp at 1.
    destruct (Hm w0) as [Hs He]. destruct (m w0).2; unfold sysm; rewrite ?Hs, ?He; [done|].
    apply Hf; unfold sysm; by rewrite ?Hs, ?He. }
  do 4 (apply Hstep; [auto with cpp|done|done|clear w HI Hfresh; intros ? w HI Hfresh]).
  rewrite wp_bind, wp_update. set (w1 := set_srv _ w).
  assert (sysx nobody nobody w1) as HI1.
  { eapply sys_keeps_clients; [exact HI|apply inv_open_client; [done|apply HI]|done|done|].
    intros h c Hc. exists c. split; [|done]. apply lookup_emplace_Some. by left. }
  assert (preserves keeps_sys (let! name := server _name in
    let! capabilities := server _capabilities in
    let! info := lift (json_dump (serverInfo_json name capabilities)) in
    emit (EvConSend hdl (TextFrame info)) ;;;
    on_net_ (ws_con_send hdl (TextFrame info)) ;;;
    let! channels := channels_json in
    sendJson hdl (advertise_json channels))) as Hrest by (unfold on_net_; keeps).
  by apply Hrest.
Qed.

Lemma keeps_sys_validateConnection hdl :
  preserves keeps_sys (validateConnection (E:=B) hdl).
Proof. unfold validateConnection. keeps. Qed.

Lemma keeps_sys_start host port : preserves keeps_sys (start (E:=B) host port).
Proof.
  unfold start, throw_if, on_net_ec, on_net_. keeps.
  apply keeps_sys_update; [intros; by apply inv_set_thread|done|]. intros s hdl c Hc. by exists c.
Qed.

Lemma keeps_sys_run_pending p w : may_run p w → keeps_sys w (run_pending handlers p w).1.
Proof.
  destruct p as [hdl|hdl|ts hdl msg|hdl]; simpl; intros Hp.
  - apply (preserves_bind keeps_sys); [apply keeps_sys_validateConnection|].
    intros b. apply preserves_ret. tc_solve.
  - by apply keeps_sys_handleConnectionOpened.
  - apply keeps_sys_handleMessage.
  - apply keeps_sys_handleConnectionClosed.
Qed.

(** ** The system *)

(** [node] are the node's own steps.  Between steps the network does what it
    likes, and what is around the node [moves]. *)
Inductive system_step (moves : B → B → Prop) (node : World B → World B → Prop)
    : World B → World B → Prop :=
| sys_start host port w : system_step moves node w (start host port w).1
| sys_pending p w : may_run p w → system_step moves node w (run_pending handlers p w).1
| sys_node w w' : node w w' → system_step moves node w w'
| sys_outside w w' :
    srv w' = srv w → out w' = out w → moves (env w) (env w') → system_step moves node w w'.

Lemma system_steps_inv moves node w w' :
  (∀ b1 b2, moves b1 b2 → gains nobody nobody b1 b2) →
  (∀ w1 w2, node w1 w2 → keeps_sys w1 w2) → rtc (system_step moves node) w w' → keeps_sys w w'.
Proof.
  intros Hmoves Hnode. induction 1 as [|w1 w2 w3 Hstep _ IH]; [by intros ?|]. etrans; [|exact IH].
  destruct Hstep as [host port w|p w Hp|w w' Hn|w w' Hs Ho Hg].
  - apply keeps_sys_start.
  - by apply keeps_sys_run_pending.
  - by apply Hnode.
  - intros HI. unfold sysm. rewrite Hs. eapply sys_shrinks; [exact HI|by apply Hmoves].
Qed.
End steps.

Abbreviation sysx := (sysm (mirror:=True)).
Abbreviation keeps_sys := (keeps_sysm (mirror:=True)).

(** The part of the invariant that does not need channel ids to last. *)
Abbreviation leakless := (sysm (mirror:=False) nobody nobody).
Abbreviation keeps_leakless := (keeps_sysm (mirror:=False)).

Lemma sys_leakless `{TopicBridge B} s (b : B) : SysInv s b → NoLeak s b.
Proof. intros HI. split; [apply HI|done|apply HI|apply HI]. Qed.
