(* ===== verification/TopicUpdate.v ===== *)
(** * Bringing the advertised topics up to date

    Both nodes keep their tables of topics in step with the server's channels
    by the same two loops: one over the topics that are gone, one over the new
    ones.  What the loops need of a node is a class; what they achieve is proved
    once, against the class. *)

From Stdlib Require Import Strings.Byte.
From S2P Require Import Prelude Serialization Common Logging Interfaces Server ServerFacts.
From S2P Require Import ServerInvariant ServerSpec Reachable System SystemSteps.

Local Open Scope Z_scope.

(** The bodies of the loops, by their parts: what is written when a channel is
    forgotten or registered, and how the channel of a topic is described. *)
Class TopicStore `{Platform, Iteration, LogChannels, Nlohmann, Websocketpp} `{TopicBridge B}
    (remove add : TopicAndDatatype → M (World B) unit) := {
  forget : TopicAndDatatype → Channel → B → B;
  register : TopicAndDatatype → Channel → B → B;
  describe : TopicAndDatatype → M B (option ChannelWithoutId);
  remove_eq t ch w :
    topics_of (env w) !! t = Some ch →
    remove t w = (removeChannel (chan_id ch) ;;; on_env (modify (forget t ch))) w;
  add_eq t w :
    add t w =
    (let! new := on_env (describe t) in
     match new with
     | None => ret tt
     | Some new =>
         let! id := addChannel new in on_env (modify (register t (mkChannel id new)))
     end) w;
  forget_topics t ch b :
    topics_of (forget t ch b) = delete t (topics_of b) ∧
    channels_of (forget t ch b) = delete (chan_id ch) (channels_of b);
  forget_subscribed t ch b ch' hdl :
    subscribed (forget t ch b) ch' hdl → subscribed b ch' hdl ∧ ch' ≠ chan_id ch;
  forget_publishing t ch b hdl id : publishing (forget t ch b) hdl id → publishing b hdl id;
  register_topics t ch b :
    topics_of b !! t = None → channels_of b !! chan_id ch = None →
    topics_of (register t ch b) = <[ t := ch ]> (topics_of b) ∧
    channels_of (register t ch b) = <[ chan_id ch := t ]> (channels_of b);
  register_subscribed t ch b ch' hdl :
    subscribed (register t ch b) ch' hdl → subscribed b ch' hdl;
  register_publishing t ch b hdl id : publishing (register t ch b) hdl id → publishing b hdl id;
  describe_gains t b : gains nobody nobody b (describe t b).1;
  describe_name t b new :
    (describe t b).2 = inr (Some new) → (topic new, schemaName new) = t;
}.

(** When a topic is gone, there is a first one to remove, and it is advertised. *)
Lemma removed_first `{Iteration} (latest : gset TopicAndDatatype)
    (advertised : gmap TopicAndDatatype Channel) t ch :
  advertised !! t = Some ch → t ∉ latest →
  ∃ t0 ch0 l, filter (λ t, t ∉ latest) (iter_map advertised).*1 = t0 :: l ∧
    advertised !! t0 = Some ch0.
Proof.
  set (removed := filter _ _). intros Ht Hl.
  assert (t ∈ removed) as Hin.
  { apply list_elem_of_filter. split; [done|]. apply list_elem_of_fmap. exists (t, ch).
    split; [done|]. by apply elem_of_iter_map. }
  destruct removed as [|t0 l] eqn:Hr; [by apply not_elem_of_nil in Hin|].
  assert (t0 ∈ removed) as Hin0 by (rewrite Hr; apply list_elem_of_here).
  apply list_elem_of_filter in Hin0 as [_ ([t1 ch1] & -> & Hin1)%list_elem_of_fmap].
  apply elem_of_iter_map in Hin1. by exists t1, ch1, l.
Qed.

Section loops.
Context `{Platform, Iteration, LogChannels, Nlohmann, Websocketpp}.
Context `{!NlohmannLaws, !WebsocketppLaws}.
Context `{TopicBridge B} (remove add : TopicAndDatatype → M (World B) unit).
Context `{!TopicStore remove add}.
Implicit Types w : World B.

Abbreviation sys := (sysm (B:=B) (mirror:=True) nobody nobody).

(** The topics of a world's node. *)
Definition topics w : gmap TopicAndDatatype Channel := topics_of (env w).

Lemma world_eta w : mkWorld (srv w) (net w) (env w) (out w) = w.
Proof. by destruct w. Qed.

(** ** One topic *)

Lemma remove_one {mirror} t ch w :
  sysm (mirror:=mirror) nobody nobody w → topics w !! t = Some ch →
  wp (remove t)
     (λ r w', r = inr tt ∧ sysm (mirror:=mirror) nobody nobody w' ∧ topics w' = delete t (topics w) ∧
        _nextChannelId (srv w') = _nextChannelId (srv w) ∧ env w' = forget t ch (env w)) w.
Proof.
  intros HI Hch. unfold wp. rewrite (remove_eq t ch w Hch).
  change (wp (removeChannel (chan_id ch) ;;; on_env (modify (forget t ch)))
    (λ r w', r = inr tt ∧ sysm (mirror:=mirror) nobody nobody w' ∧ topics w' = delete t (topics w) ∧
        _nextChannelId (srv w') = _nextChannelId (srv w) ∧ env w' = forget t ch (env w)) w).
  rewrite wp_bind. eapply wp_mono; [apply removeChannel_run|].
  intros r w1 (-> & He & Hs & _). rewrite wp_on_env. simpl.
  destruct (forget_topics t ch (env w)) as [Ht Hc]. split_and!.
  - done.
  - unfold sysm. simpl. rewrite Hs, He. eapply (sys_remove _ (env w) _ t ch); try done.
    + intros ch' hdl. apply forget_subscribed.
    + intros hdl id. apply forget_publishing.
  - unfold topics. simpl. by rewrite He.
  - by rewrite Hs.
  - by rewrite He.
Qed.

(** The end of the body that adds: the channel enters the server and the node. *)
Lemma register_one t new w :
  sys w → (topic new, schemaName new) = t → topics w !! t = None →
  _nextChannelId (srv w) + 1 < 2 ^ 32 →
  let ch := mkChannel (_nextChannelId (srv w) + 1) new in
  wp (let! id := addChannel new in on_env (modify (register t (mkChannel id new))))
     (λ r w', r = inr tt ∧ sys w' ∧ topics w' = <[ t := ch ]> (topics w) ∧
        _nextChannelId (srv w') = _nextChannelId (srv w) + 1 ∧
        env w' = register t ch (env w)) w.
Proof.
  intros HI Hname Hnew Hlim ch. unfold addChannel.
  rewrite wp_bind, wp_bind, wp_server, wp_bind, wp_update, wp_bind, wp_update, wp_ret, wp_on_env.
  assert (u32 (_nextChannelId (srv w) + 1) = _nextChannelId (srv w) + 1) as Hid.
  { apply u32_id. pose proof (inv_next _ (sys_server _ _ _ _ HI)) as [? _]. split; lia. }
  assert (channels_of (env w) !! chan_id ch = None) as Hfresh.
  { apply eq_None_not_Some. intros [t1 (ch1 & Hch1 & Heq)%(sys_channel _ _ _ _ HI)].
    apply (sys_topic _ _ _ _ HI) in Hch1 as (_ & Hl & _). rewrite Heq in Hl.
    pose proof (sys_ids _ _ _ _ HI _ (ex_intro _ _ Hl)) as Hle. simpl in Hle. lia. }
  destruct (register_topics t ch (env w) Hnew Hfresh) as [Ht Hc].
  split_and!; [done| |simpl; by rewrite Hid|simpl; by rewrite Hid|simpl; by rewrite Hid].
  unfold sysm. cbn [srv env set_srv].
  eapply (sys_add _ (env w) _ t new); [exact HI|intros _; split_and!; [done|exact Hnew|done| |]| |].
  - cbn [modify fst]. rewrite Hid. exact Ht.
  - cbn [modify fst]. rewrite Hid. exact Hc.
  - intros ch' hdl. apply register_subscribed.
  - intros hdl id. apply register_publishing.
Qed.

Lemma add_one t w :
  sys w → topics w !! t = None → _nextChannelId (srv w) + 1 < 2 ^ 32 →
  wp (add t)
     (λ r w', sys w' ∧ (∀ t', t' ≠ t → topics w' !! t' = topics w !! t') ∧
        _nextChannelId (srv w') <= _nextChannelId (srv w) + 1 ∧
        match (describe t (env w)).2 with
        | inl e => r = inl e ∧ env w' = (describe t (env w)).1
        | inr None =>
            r = inr tt ∧ topics w' !! t = None ∧ env w' = (describe t (env w)).1
        | inr (Some new) =>
            let ch := mkChannel (_nextChannelId (srv w) + 1) new in
            r = inr tt ∧ topics w' !! t = Some ch ∧
            env w' = register t ch (describe t (env w)).1
        end) w.
Proof.
  intros HI Hnew Hlim. unfold wp. rewrite add_eq.
  match goal with |- ?Q => match Q with context [(?m w).1] =>
    pattern (m w).2, (m w).1; match goal with |- ?P _ _ => change (wp m P w) end end end.
  cbv beta. rewrite wp_bind, wp_on_env. simpl.
  pose proof (describe_gains t (env w)) as Hg. pose proof (describe_name t (env w)) as Hname.
  set (w1 := mkWorld (srv w) (net w) (describe t (env w)).1 (out w)).
  assert (sys w1) as HI1 by (by eapply sys_shrinks).
  assert (topics w1 = topics w) as Htop1 by apply Hg.
  destruct (describe t (env w)).2 as [e|[new|]].
  - split_and!; [done|by rewrite Htop1|simpl; lia|done|done].
  - eapply wp_mono; [apply (register_one t new w1)|].
    { done. } { by apply Hname. } { by rewrite Htop1. } { done. }
    intros r w2 (-> & HI2 & Htop2 & Hn2 & He2). split_and!; [done| |by rewrite Hn2|done| |done].
    + intros t' Hne. by rewrite Htop2, lookup_insert_ne, Htop1.
    + rewrite Htop2. apply lookup_insert_eq.
  - rewrite wp_ret. split_and!; [done|by rewrite Htop1|simpl; lia|done|by rewrite Htop1|done].
Qed.

(** ** The loops *)

Lemma remove_all {mirror} l w :
  sysm (mirror:=mirror) nobody nobody w → NoDup l → (∀ t, t ∈ l → is_Some (topics w !! t)) →
  wp (for_each l remove)
     (λ r w', r = inr tt ∧ sysm (mirror:=mirror) nobody nobody w' ∧
        (∀ t, topics w' !! t = if decide (t ∈ l) then None else topics w !! t) ∧
        _nextChannelId (srv w') = _nextChannelId (srv w)) w.
Proof.
  revert w. induction l as [|t l IH]; intros w HI Hnd Hin; simpl.
  { rewrite wp_ret. by split_and!. }
  apply NoDup_cons in Hnd as [Ht Hnd].
  destruct (Hin t) as [ch Hch]; [apply list_elem_of_here|].
  rewrite wp_bind. eapply wp_mono; [by apply (remove_one (mirror:=mirror) t ch w)|].
  intros r w1 (-> & HI1 & Htop1 & Hn1 & _). eapply wp_mono.
  { apply IH; [done|done|]. intros t' Ht'. rewrite Htop1, lookup_delete_ne by (by intros <-).
    by apply Hin, list_elem_of_further. }
  intros r w2 (-> & HI2 & Htop2 & Hn2). split_and!; [done|done| |congruence].
  intros t'. rewrite Htop2, Htop1. destruct (decide (t' = t)) as [->|Hne].
  - rewrite decide_False, decide_True by (done || apply list_elem_of_here).
    apply lookup_delete_eq.
  - rewrite lookup_delete_ne by done. apply decide_ext. rewrite elem_of_cons. naive_solver.
Qed.

(** Whatever the descriptions are: a topic is added on both sides or on
    neither, also when the loop is left by an exception. *)
Lemma add_all_keeps l w :
  sys w → NoDup l → (∀ t, t ∈ l → topics w !! t = None) →
  _nextChannelId (srv w) + Z.of_nat (length l) < 2 ^ 32 →
  wp (for_each l add) (λ _ w', sys w') w.
Proof.
  revert w. induction l as [|t l IH]; intros w HI Hnd Hnew Hlim; simpl; [done|].
  apply NoDup_cons in Hnd as [Ht Hnd]. cbn [length] in Hlim. rewrite wp_bind.
  eapply wp_mono; [apply (add_one t); [done|apply Hnew, list_elem_of_here|lia]|].
  intros [e|r] w1 (HI1 & Hother1 & Hn1 & _); [done|]. apply IH; [done|done| |lia].
  intros t' Ht'. rewrite Hother1 by (by intros ->). by apply Hnew, list_elem_of_further.
Qed.

(** ** When ids may wrap around *)

Lemma add_leakless t : preserves keeps_leakless (add t).
Proof.
  intros w HI. rewrite add_eq.
  match goal with |- ?Q => match Q with context [(?m w).1] =>
    change (wp m (λ _ w', leakless w') w) end end.
  rewrite wp_bind, wp_on_env.
  assert (leakless (mkWorld (srv w) (net w) (describe t (env w)).1 (out w))) as HI1
    by (eapply sys_shrinks; [exact HI|apply describe_gains]).
  revert HI1. generalize (mkWorld (srv w) (net w) (describe t (env w)).1 (out w)). clear HI.
  intros w1 HI1. destruct (describe t (env w)).2 as [e|[new|]]; [done| |by rewrite wp_ret].
  unfold addChannel.
  rewrite wp_bind, wp_bind, wp_server, wp_bind, wp_update, wp_bind, wp_update, wp_ret, wp_on_env.
  unfold sysm. cbn [srv env set_srv modify fst]. eapply (sys_add _ (env w1) _ t new); [exact HI1|done| |].
  - intros ch' hdl. apply register_subscribed.
  - intros hdl id. apply register_publishing.
Qed.

(** ** The update *)

Definition loops (removed new : list TopicAndDatatype) : M (World B) unit :=
  for_each removed remove ;;;
  for_each new add ;;;
  when (negb (bool_decide (new = []))) broadcastChannels.

(** The lists the loops run over, for the topics [X] on the graph. *)
Record Differences (X : gset TopicAndDatatype) w (removed new : list TopicAndDatatype) : Prop := {
  diff_removed_once : NoDup removed;
  diff_new_once : NoDup new;
  diff_removed t : t ∈ removed ↔ (t ∉ X) ∧ is_Some (topics w !! t);
  diff_new t : t ∈ new ↔ topics w !! t = None ∧ t ∈ X;
  diff_ids : _nextChannelId (srv w) + Z.of_nat (length new) < 2 ^ 32;
}.

(** When there is nothing new, nothing is sent and nothing fails. *)
Lemma loops_quiet X removed w :
  sys w → Differences X w removed [] → (loops removed [] w).2 = inr tt.
Proof.
  intros HI [Hr _ Hr' _ _].
  change (wp (loops removed []) (λ r _, r = inr tt) w). unfold loops. rewrite wp_bind.
  eapply wp_mono; [apply (remove_all removed w HI Hr); by intros t [_ ?]%Hr'|].
  by intros r w1 (-> & _).
Qed.

(** Both nodes compute them by filtering the topics of one side by the other. *)
Lemma differences X w :
  _nextChannelId (srv w) + Z.of_nat (size X) < 2 ^ 32 →
  Differences X w (filter (λ t, t ∉ X) (iter_map (topics w)).*1)
    (filter (λ t, topics w !! t = None) (iter_set X)).
Proof.
  intros Hids. split.
  - apply NoDup_filter, NoDup_iter_map.
  - apply NoDup_filter, NoDup_iter_set.
  - intros t. rewrite list_elem_of_filter, list_elem_of_fmap. split.
    + intros [Hx ([t' ch] & -> & Hin)]. apply elem_of_iter_map in Hin. split; [done|by exists ch].
    + intros [Hx [ch Hch]]. split; [done|]. exists (t, ch).
      split; [done|]. by apply elem_of_iter_map.
  - intros t. by rewrite list_elem_of_filter, elem_of_iter_set.
  - enough (length (filter (λ t, topics w !! t = None) (iter_set X)) ≤ size X)%nat by lia.
    etrans; [apply length_filter|]. by rewrite iter_set_perm.
Qed.

Lemma keeps_loops X removed new w :
  sys w → Differences X w removed new → wp (loops removed new) (λ _ w', sys w') w.
Proof.
  intros HI [Hr Hn Hr' Hn' Hids]. unfold loops. rewrite wp_bind.
  eapply wp_mono; [apply (remove_all removed w HI Hr); by intros t [_ ?]%Hr'|].
  intros r w1 (-> & HI1 & Htop1 & Hn1). rewrite wp_bind. eapply wp_mono.
  { apply (add_all_keeps new w1 HI1 Hn); [|lia].
    intros t [Hnone _]%Hn'. rewrite Htop1. by case_decide. }
  intros [e|r'] w2 HI2; [done|]. unfold wp.
  apply (preserves_when keeps_sys); [|done]. intros _. apply keeps_sys_same. auto with cpp.
Qed.
(** Nothing leaks, whether ids last or not. *)
Lemma loops_leakless removed new w :
  leakless w → NoDup removed → (∀ t, t ∈ removed → is_Some (topics w !! t)) →
  leakless (loops removed new w).1.
Proof.
  intros HI Hnd Hin. change (wp (loops removed new) (λ _ w', leakless w') w).
  unfold loops. rewrite wp_bind. eapply wp_mono; [by apply (remove_all removed w HI)|].
  intros r w1 (-> & HI1 & _).
  assert (preserves keeps_leakless (for_each new add ;;;
    when (negb (bool_decide (new = []))) (broadcastChannels (E:=B)))) as Hrest; [|by apply Hrest].
  apply preserves_bind; [tc_solve| |intros _].
  - apply preserves_for_each; [tc_solve|]. intros t _. apply add_leakless.
  - apply preserves_when; [tc_solve|]. intros _. apply keeps_sys_same. auto with cpp.
Qed.

(** The topics to remove are advertised, each once. *)
Lemma removed_advertised (X : gset TopicAndDatatype) w :
  let removed := filter (λ t, t ∉ X) (iter_map (topics w)).*1 in
  NoDup removed ∧ ∀ t, t ∈ removed → is_Some (topics w !! t).
Proof.
  split; [apply NoDup_filter, NoDup_iter_map|].
  intros t [_ ([t' ch] & -> & Hin)%list_elem_of_fmap]%list_elem_of_filter.
  apply elem_of_iter_map in Hin. by exists ch.
Qed.
End loops.

(** What the loops achieve when describing a topic always returns: [I] is what
    the descriptions rely on, [described] what they may be. *)
Section outcome.
Context `{Platform, Iteration, LogChannels, Nlohmann, Websocketpp}.
Context `{!NlohmannLaws, !WebsocketppLaws}.
Context `{TopicBridge B} (remove add : TopicAndDatatype → M (World B) unit).
Context `{!TopicStore remove add}.
Context (I : B → Prop) (described : TopicAndDatatype → option ChannelWithoutId → Prop).
Hypothesis I_forget : ∀ t ch b, I b → I (forget (remove:=remove) (add:=add) t ch b).
Hypothesis I_register : ∀ t ch b, I b → I (register (remove:=remove) (add:=add) t ch b).
Hypothesis I_describe : ∀ t b, I b → I (describe (remove:=remove) (add:=add) t b).1 ∧
  ∃ r, (describe (remove:=remove) (add:=add) t b).2 = inr r ∧ described t r.
Implicit Types w : World B.

Abbreviation sys := (sysm (B:=B) (mirror:=True) nobody nobody).

Definition described_topic w' t : Prop :=
  ∃ r, described t r ∧
    match r with
    | Some new => ∃ id, topics w' !! t = Some (mkChannel id new)
    | None => topics w' !! t = None
    end.

Lemma remove_all_keeps l w :
  sys w → I (env w) → NoDup l → (∀ t, t ∈ l → is_Some (topics w !! t)) →
  wp (for_each l remove) (λ _ w', I (env w')) w.
Proof.
  revert w. induction l as [|t l IH]; intros w HI HIe Hnd Hin; simpl; [done|].
  apply NoDup_cons in Hnd as [Ht Hnd].
  destruct (Hin t) as [ch Hch]; [apply list_elem_of_here|].
  rewrite wp_bind. eapply wp_mono; [by apply (remove_one (mirror:=True) remove add t ch w)|].
  intros r w1 (-> & HI1 & Htop1 & _ & He1). apply IH; [done|rewrite He1; by apply I_forget|done|].
  intros t' Ht'. rewrite Htop1, lookup_delete_ne by (by intros <-).
  by apply Hin, list_elem_of_further.
Qed.

Lemma add_all l w :
  sys w → I (env w) → NoDup l → (∀ t, t ∈ l → topics w !! t = None) →
  _nextChannelId (srv w) + Z.of_nat (length l) < 2 ^ 32 →
  wp (for_each l add)
     (λ r w', r = inr tt ∧ sys w' ∧ I (env w') ∧
        (∀ t, t ∉ l → topics w' !! t = topics w !! t) ∧ ∀ t, t ∈ l → described_topic w' t) w.
Proof.
  revert w. induction l as [|t l IH]; intros w HI HIe Hnd Hnew Hlim; simpl.
  { rewrite wp_ret. split_and!; [done|done|done|done|]. by intros t ?%not_elem_of_nil. }
  apply NoDup_cons in Hnd as [Ht Hnd]. cbn [length] in Hlim. rewrite wp_bind.
  eapply wp_mono; [apply (add_one remove add t); [done|apply Hnew, list_elem_of_here|lia]|].
  destruct (I_describe t (env w) HIe) as (HIe' & d & Hd & Hdesc). rewrite Hd.
  intros r w1 (HI1 & Hother1 & Hn1 & Hout).
  assert (r = inr tt ∧ described_topic w1 t ∧ I (env w1)) as (-> & Hdt & HIe1).
  { destruct d as [new|].
    - destruct Hout as (-> & Htop & ->). split_and!; [done| |by apply I_register].
      eexists. split; [exact Hdesc|]. by eexists.
    - destruct Hout as (-> & Htop & ->). split_and!; [done| |done]. by eexists. }
  eapply wp_mono.
  { apply IH; [done|done|done| |lia]. intros t' Ht'.
    rewrite Hother1 by (by intros ->). by apply Hnew, list_elem_of_further. }
  intros r w2 (-> & HI2 & HIe2 & Hother2 & Hexp2). split_and!; [done|done|done| |].
  - intros t' [Hne Hl]%not_elem_of_cons. by rewrite Hother2, Hother1.
  - intros t' [->|Hl]%elem_of_cons; [|by apply Hexp2].
    unfold described_topic. by rewrite Hother2.
Qed.

(** What an update makes of a topic, for the topics [X] on the graph. *)
Definition updated (X : gset TopicAndDatatype) w w' (t : TopicAndDatatype) : Prop :=
  if decide (t ∈ X) then
    match topics w !! t with
    | Some ch => topics w' !! t = Some ch
    | None => described_topic w' t
    end
  else topics w' !! t = None.

Lemma loops_run X removed new w :
  sys w → I (env w) → Differences X w removed new →
  wp (loops remove add removed new)
     (λ _ w', sys w' ∧ I (env w') ∧ ∀ t, updated X w w' t) w.
Proof.
  intros HI HIe [Hr Hn Hr' Hn' Hids]. unfold loops. rewrite wp_bind.
  assert (∀ t, t ∈ removed → is_Some (topics w !! t)) as Hin by (by intros t [_ ?]%Hr').
  pose proof (remove_all_keeps removed w HI HIe Hr Hin) as HIe1.
  pose proof (remove_all remove add removed w HI Hr Hin) as Hrun. unfold wp at 1.
  unfold wp in HIe1, Hrun. destruct (for_each removed remove w) as [w1 r1]. simpl in *.
  destruct Hrun as (-> & HI1 & Htop1 & Hn1). rewrite wp_bind. eapply wp_mono.
  { apply (add_all new w1 HI1 HIe1 Hn); [|lia].
    intros t [Hnone _]%Hn'. rewrite Htop1. by case_decide. }
  intros r w2 (-> & HI2 & HIe2 & Hother2 & Hexp2).
  assert (∀ t, updated X w w2 t) as Hupd.
  { intros t. unfold updated. case_decide as Ht.
    - destruct (topics w !! t) as [ch|] eqn:Hch; [|by apply Hexp2, Hn'].
      rewrite Hother2, Htop1, decide_False; [done| |].
      + rewrite Hr'. by intros [? _].
      + rewrite Hn', Hch. by intros [? _].
    - rewrite Hother2, Htop1 by (rewrite Hn'; by intros [_ ?]).
      case_decide as Hd; [done|]. rewrite Hr' in Hd. apply eq_None_not_Some. naive_solver. }
  pose proof (preserves_when same_srv_env (negb (bool_decide (new = []))) broadcastChannels
    (λ _, broadcastChannels_same (E:=B)) w2) as [Hs He].
  unfold wp. revert Hs He. generalize (when (negb (bool_decide (new = []))) broadcastChannels w2).1.
  intros w3 Hs He. split_and!.
  - unfold sysm. by rewrite Hs, He.
  - by rewrite He.
  - intros t. specialize (Hupd t). unfold updated, described_topic, topics in *. by rewrite He.
Qed.
End outcome.
