(* ===== verification/TopicViews.v ===== *)
(** * Clients and the topics of the graph

    The loops that bring the advertised topics up to date keep every client's
    view up to date as well: a channel that goes is unadvertised on the spot, and
    the new ones are advertised together once all are there. *)

From Stdlib Require Import Strings.Byte.
From S2P Require Import Prelude Serialization Common Logging Interfaces Server ServerFacts.
From S2P Require Import ServerInvariant ServerSpec Reachable Views ViewSteps System SystemSteps.
From S2P Require Import TopicUpdate.

Local Open Scope Z_scope.

Section views.
Context `{Platform, Iteration, LogChannels, Nlohmann, Websocketpp}.
Context `{!NlohmannLaws, !WebsocketppLaws, !NlohmannUtf8}.
Context `{TopicBridge B} (remove add : TopicAndDatatype → M (World B) unit).
Context `{!TopicStore remove add}.
Implicit Types w : World B.

Abbreviation sys := (sysm (B:=B) (mirror:=True) nobody nobody).

Lemma keeps_inv_on_env {A} (m : M B A) : preserves keeps_inv (on_env m).
Proof. apply keeps_same, on_env_same_srv. Qed.

(** ** One topic *)

Lemma synced_remove t ch w :
  sys w → topics w !! t = Some ch → synced w → synced (remove t w).1.
Proof.
  intros HI Hch. rewrite (remove_eq t ch w Hch).
  apply (sys_topic _ _ _ _ HI) in Hch as (_ & Hch & _).
  unfold bind. intros Hw. pose proof (synced_removeChannel (chan_id ch) w (ex_intro _ _ Hch) Hw) as Hw'.
  revert Hw'. destruct (removeChannel (chan_id ch) w) as [w1 [e|a]]; [done|].
  apply synced_kept; [apply keeps_inv_on_env|auto with cpp].
Qed.

(** Channels with a text, of which each client knows a part. *)
Definition lagging w : Prop := informed w ∧ all_valid w.

Lemma synced_lagging w : synced w → lagging w.
Proof. by intros [HI _ Hv]. Qed.

Lemma lagging_env {A} (m : M B A) w : lagging w → lagging (on_env m w).1.
Proof.
  intros [HI Hv]. split.
  - apply informed_kept; [apply keeps_inv_on_env|auto with cpp|done].
  - unfold all_valid. by rewrite (on_env_same_srv m w).
Qed.

Lemma lagging_addChannel new w :
  valid_channel new → lagging w → lagging (addChannel new w).1.
Proof.
  intros Hnew [HI Hv]. split; [by apply informed_addChannel|].
  intros id ch. simpl. intros [?|(_ & -> & _)]%lookup_emplace_Some; [by apply (Hv id)|done].
Qed.

Lemma lagging_add t w :
  (∀ new, (describe t (env w)).2 = inr (Some new) → valid_channel new) →
  lagging w → lagging (add t w).1.
Proof.
  intros Hnew Hw. rewrite add_eq. unfold bind.
  pose proof (lagging_env (describe t) w Hw) as Hw1. revert Hw1.
  assert ((on_env (describe t) w).2 = (describe t (env w)).2) as Hr
    by (unfold on_env; by destruct (describe t (env w))).
  destruct (on_env (describe t) w) as [w1 [e|[new|]]]; cbn [fst snd] in *; intros Hw1;
    [done| |done].
  pose proof (lagging_addChannel new w1 (Hnew new (eq_sym Hr)) Hw1) as Hw2.
  revert Hw2. destruct (addChannel new w1) as [w2 [e|id]]; [done|]. apply lagging_env.
Qed.

(** ** The loops *)

Lemma synced_remove_all l w :
  sys w → NoDup l → (∀ t, t ∈ l → is_Some (topics w !! t)) → synced w →
  synced (for_each l remove w).1.
Proof.
  revert w. induction l as [|t l IH]; intros w HI Hnd Hin Hw; simpl; [done|].
  apply NoDup_cons in Hnd as [Ht Hnd].
  destruct (Hin t) as [ch Hch]; [apply list_elem_of_here|].
  pose proof (synced_remove t ch w HI Hch Hw) as Hw1. revert Hw1. unfold bind.
  destruct (remove_one remove add t ch w HI Hch) as (Hr & HI1 & Htop & _).
  destruct (remove t w) as [w1 r]. simpl in *. subst r. apply IH; [done|done|].
  intros t' Ht'. rewrite Htop, lookup_delete_ne by (by intros <-).
  by apply Hin, list_elem_of_further.
Qed.

Lemma lagging_add_all (I : B → Prop) l w :
  (∀ t b, t ∈ l → I b → ∀ new, (describe t b).2 = inr (Some new) → valid_channel new) →
  (∀ t w, t ∈ l → I (env w) → I (env (add t w).1)) →
  I (env w) → lagging w → lagging (for_each l add w).1.
Proof.
  revert w. induction l as [|t l IH]; intros w Hd HI HIw Hw; simpl; [done|].
  assert (t ∈ t :: l) as Ht by apply list_elem_of_here.
  pose proof (lagging_add t w (Hd t (env w) Ht HIw) Hw) as Hw1.
  pose proof (HI t w Ht HIw) as HI1. revert Hw1 HI1. unfold bind.
  destruct (add t w) as [w1 [e|a]]; [done|]. intros Hw1 HI1. apply IH; [| |done|done].
  - intros t' b' Ht'. by apply Hd, list_elem_of_further.
  - intros t' w' Ht'. by apply HI, list_elem_of_further.
Qed.

(** ** The update *)

Context (I : B → Prop) (X : gset TopicAndDatatype).
Hypothesis I_forget : ∀ t ch b, I b → I (forget (remove:=remove) (add:=add) t ch b).
Hypothesis I_register : ∀ t ch b, I b → I (register (remove:=remove) (add:=add) t ch b).
Hypothesis I_describe : ∀ t b, I b → I (describe (remove:=remove) (add:=add) t b).1.
Hypothesis describe_valid : ∀ t b new, t ∈ X → I b →
  (describe (remove:=remove) (add:=add) t b).2 = inr (Some new) → valid_channel new.

Lemma add_env_keeps t w : I (env w) → I (env (add t w).1).
Proof.
  intros HIw. rewrite add_eq. unfold bind, on_env at 1.
  pose proof (I_describe t (env w) HIw) as Hd.
  destruct (describe t (env w)) as [b [e|[new|]]]; [done| |done].
  simpl. by apply I_register.
Qed.

Lemma loops_lagging removed new w :
  sys w → I (env w) → Differences X w removed new → synced w →
  wp (for_each removed remove) (λ r w', r = inr tt ∧ synced w' ∧ I (env w')) w ∧
  ∀ w', synced w' → I (env w') → lagging (for_each new add w').1.
Proof.
  intros HI HIw [Hr Hn Hr' Hn' Hids] Hw.
  assert (∀ t, t ∈ removed → is_Some (topics w !! t)) as Hin by (by intros t [_ ?]%Hr').
  split.
  - split; [apply (remove_all remove add removed w HI Hr Hin)|].
    split; [by apply synced_remove_all|].
    exact (remove_all_keeps remove add I I_forget removed w HI HIw Hr Hin).
  - intros w' [HIn' _ Hv'] HIw'. apply (lagging_add_all I); [| |done|by split].
    + intros t b [_ Ht]%Hn' Hb new'. by apply describe_valid.
    + intros t w1 _. apply add_env_keeps.
Qed.

(** Clients never know a channel that does not exist; and unless describing a
    topic has failed, they know every channel when the update is over. *)
Lemma loops_synced removed new w :
  sys w → I (env w) → Differences X w removed new → synced w →
  wp (loops remove add removed new) (λ r w', lagging w' ∧ (r = inr tt → synced w')) w.
Proof.
  intros HI HIw Hdiff Hw. destruct (loops_lagging removed new w HI HIw Hdiff Hw) as [Hrem Hadd].
  unfold loops. rewrite wp_bind. eapply wp_mono; [exact Hrem|]. intros r w1 (-> & Hw1 & HI1).
  specialize (Hadd w1 Hw1 HI1). rewrite wp_bind. unfold wp at 1.
  destruct new as [|t new]; simpl in Hadd |- *; [by rewrite wp_ret; split; [apply synced_lagging|]|].
  revert Hadd. destruct (bind _ _ w1) as [w2 [e|a]]; intros Hadd; [by split|].
  destruct Hadd as [Hi Hv]. pose proof (synced_broadcastChannels w2 Hi Hv) as Hs.
  split; [by apply synced_lagging|done].
Qed.

(** When describing a topic always returns, so does the update. *)
Lemma loops_complete removed new w :
  (∀ t b, I b → ∃ r, (describe (remove:=remove) (add:=add) t b).2 = inr r) →
  sys w → I (env w) → Differences X w removed new → synced w →
  wp (loops remove add removed new) (λ r w', r = inr tt ∧ synced w') w.
Proof.
  intros Hret HI HIw Hdiff Hw. pose proof Hdiff as [Hr Hn Hr' Hn' Hids].
  assert (∀ t, t ∈ removed → is_Some (topics w !! t)) as Hin by (by intros t [_ ?]%Hr').
  assert (wp (loops remove add removed new) (λ r _, r = inr tt) w) as Hok.
  { unfold loops. rewrite wp_bind.
    destruct (loops_lagging removed new w HI HIw Hdiff Hw) as [Hrem Hadd].
    destruct (remove_all remove add removed w HI Hr Hin) as (_ & HI1 & Htop1 & Hn1).
    destruct Hrem as (Hr1 & Hw1 & HIw1). unfold wp at 1. rewrite Hr1.
    specialize (Hadd _ Hw1 HIw1). revert Hw1 HIw1 HI1 Htop1 Hn1 Hadd.
    generalize (for_each removed remove w).1. intros w1 Hw1 HIw1 HI1 Htop1 Hn1 Hadd.
    destruct (add_all remove add I (λ _ _, True) I_register) with (l := new) (w := w1)
      as (Hr2 & _); [..|lia|].
    { intros t b Hb. split; [by apply I_describe|]. destruct (Hret t b Hb) as [r ?]. by exists r. }
    { done. } { done. } { done. }
    { intros t [Hnone _]%Hn'. rewrite Htop1. by case_decide. }
    rewrite wp_bind. unfold wp at 1. rewrite Hr2. destruct (negb _); [|done].
    destruct Hadd as [_ Hv]. destruct (advertisement_has_text _ Hv) as [txt Htxt].
    apply (broadcastChannels_sends _ _ Htxt). }
  destruct (loops_synced removed new w HI HIw Hdiff Hw) as [_ Hs]. split; [exact Hok|].
  by apply Hs.
Qed.

(** What a client knows, in terms of the node's topics. *)
Lemma known_topics w hdl :
  sys w → synced w → is_Some (_clients (srv w) !! hdl) → ∀ id (ch : Channel),
  known w hdl !! id = Some ch ↔ topics w !! (topic ch, schemaName ch) = Some ch ∧ chan_id ch = id.
Proof.
  intros HI [_ Hk _] Hc id ch. rewrite (Hk hdl Hc), (sys_registered_iff _ _ HI). split.
  - intros (t & Ht & Hid). destruct (sys_topic _ _ _ _ HI t ch Ht) as (_ & _ & Hname).
    split; [|done]. by rewrite Hname.
  - intros [Ht Hid]. by eexists.
Qed.

(** [v] shows the topics [Y], each by one channel. *)
Definition shows (v : gmap ChannelId Channel) (lo hi : TopicAndDatatype → Prop) : Prop :=
  (∀ id (ch : Channel), v !! id = Some ch → hi (topic ch, schemaName ch)) ∧
  ∀ t, lo t → ∃ ch : Channel, v !! chan_id ch = Some ch ∧ (topic ch, schemaName ch) = t ∧
    ∀ id' (ch' : Channel), v !! id' = Some ch' → (topic ch', schemaName ch') = t → id' = chan_id ch ∧ ch' = ch.

Lemma known_shows (lo hi : TopicAndDatatype → Prop) w hdl :
  sys w → synced w → is_Some (_clients (srv w) !! hdl) →
  (∀ t, is_Some (topics w !! t) → hi t) → (∀ t, lo t → is_Some (topics w !! t)) →
  shows (known w hdl) lo hi.
Proof.
  intros HI Hw Hc Hhi Hlo. split.
  - intros id ch Hk. apply (known_topics w hdl HI Hw Hc) in Hk as [Ht _]. apply Hhi. by exists ch.
  - intros t [ch Ht]%Hlo. destruct (sys_topic _ _ _ _ HI t ch Ht) as (_ & _ & Hname).
    exists ch. split_and!; [apply (known_topics w hdl HI Hw Hc); by rewrite Hname|done|].
    intros id' ch' Hk Hname'. apply (known_topics w hdl HI Hw Hc) in Hk as [Ht' <-].
    rewrite Hname', Ht in Ht'. by injection Ht' as ->.
Qed.
End views.

(** ** Runs

    [I] is what describing topics relies on; the handlers and what is around the
    node keep it. *)
Section runs.
Context `{Platform, Iteration, LogChannels, Nlohmann, Websocketpp}.
Context `{!NlohmannLaws, !WebsocketppLaws, !NlohmannUtf8}.
Context `{TopicBridge B} (handlers : Handlers B) `{!TopicBridgeOk handlers}.
Context (I : B → Prop).
Implicit Types w : World B.

Record bridge_synced w : Prop := mkBridgeSynced {
  bs_sys : SysInv (srv w) (env w);
  bs_synced : synced w;
  bs_owner : I (env w);
}.

Definition keeps_owner (b b' : B) : Prop := I b → I b'.

#[export] Instance keeps_owner_preorder : PreOrder keeps_owner.
Proof. split; [by intros ??|]. intros ??? Hxy Hyz ?. by apply Hyz, Hxy. Qed.

(** A call of the server that its clients do not notice. *)
Lemma bridge_synced_kept {A} (m : M (World B) A) w :
  preserves same_srv_env m → preserves undisturbed m → bridge_synced w → bridge_synced (m w).1.
Proof.
  intros Hs Hu [HI Hw Hc]. split.
  - by apply (keeps_sys_same m Hs).
  - apply synced_kept; [by apply keeps_same, same_srv_of_env|done|done].
  - by rewrite (proj2 (Hs w)).
Qed.

Lemma bridge_synced_moves w w' :
  srv w' = srv w → out w' = out w → gains nobody nobody (env w) (env w') → I (env w') →
  bridge_synced w → bridge_synced w'.
Proof.
  intros Hs Ho Hg HI' [HI Hw _]. split; [|by eapply synced_outside|done].
  rewrite Hs. by eapply sys_shrinks.
Qed.

Context (moves : B → B → Prop) (node : World B → World B → Prop).
Hypothesis handlers_keep : HandlersKeep handlers keeps_owner.
Hypothesis moves_gains : ∀ b b', moves b b' → gains nobody nobody b b'.
Hypothesis moves_keep : ∀ b b', moves b b' → I b → I b'.
Hypothesis node_keeps : ∀ w w', node w w' → bridge_synced w → bridge_synced w'.

Lemma bridge_run_synced w w' :
  rtc (system_step handlers moves node) w w' → bridge_synced w → bridge_synced w'.
Proof.
  induction 1 as [|w1 w2 w3 Hstep _ IH]; [done|]. intros Hw1. apply IH. clear IH.
  destruct Hstep as [host port w|p w Hp|w w' Hn|w w' Hs Ho Hm].
  - destruct Hw1 as [HI Hw Hc]. split; [by apply keeps_sys_start| |].
    + apply synced_kept; [apply keeps_start|auto with cpp|done].
    + exact (keeps_env_start keeps_owner host port w Hc).
  - destruct Hw1 as [HI Hw Hc]. split.
    + exact (keeps_sys_run_pending handlers p w Hp HI).
    + exact (synced_run_pending handlers p w Hp Hw).
    + exact (keeps_env_run_pending handlers keeps_owner p handlers_keep w Hc).
  - by eapply node_keeps.
  - eapply bridge_synced_moves; [done|done|by apply moves_gains| |done].
    eapply moves_keep; [done|apply Hw1].
Qed.
End runs.
