(* ===== verification/Threads.v ===== *)
(** * Threads and locks

    A thread runs a program: acts on the shared state, and the acquisition and
    release of locks around them.  A pool of threads takes steps in any order.
    If every thread takes its locks in the order of their ranks, no run of the
    pool gets stuck and every run ends. *)

From S2P Require Import Prelude.

(** [std::shared_lock], and [std::unique_lock] or [std::lock_guard]. *)
Inductive Mode := Shared | Exclusive.

#[export] Instance Mode_eq_dec : EqDecision Mode.
Proof. solve_decision. Defined.

(** ** Programs *)

Section programs.
Context {W L : Type}.

(** A program ends with a value or an exception; an act is one atomic
    computation over the shared state. *)
Inductive prog (A : Type) : Type :=
| Done (r : result A)
| Lock (l : L) (m : Mode) (k : prog A)
| Unlock (l : L) (k : prog A)
| Act {X : Type} (m : M W X) (k : result X → prog A).
Arguments Done {_} _.
Arguments Lock {_} _ _ _.
Arguments Unlock {_} _ _.
Arguments Act {_ _} _ _.

Definition act {A} (m : M W A) : prog A := Act m Done.
Definition pret {A} (a : A) : prog A := Done (inr a).

Fixpoint pbind {A B} (p : prog A) (f : A → prog B) : prog B :=
  match p with
  | Done (inr a) => f a
  | Done (inl e) => Done (inl e)
  | Lock l m k => Lock l m (pbind k f)
  | Unlock l k => Unlock l (pbind k f)
  | Act m k => Act m (λ r, pbind (k r) f)
  end.

(** [try { p } catch (const std::exception& e) { h e }] *)
Fixpoint pcatch {A} (p : prog A) (h : exn → prog A) : prog A :=
  match p with
  | Done (inr a) => Done (inr a)
  | Done (inl e) => if catchable e then h e else Done (inl e)
  | Lock l m k => Lock l m (pcatch k h)
  | Unlock l k => Unlock l (pcatch k h)
  | Act m k => Act m (λ r, pcatch (k r) h)
  end.

(** The destructor of a guard releases its lock, after an exception as well. *)
Fixpoint unlock_after {A} (l : L) (p : prog A) : prog A :=
  match p with
  | Done r => Unlock l (Done r)
  | Lock l' m k => Lock l' m (unlock_after l k)
  | Unlock l' k => Unlock l' (unlock_after l k)
  | Act m k => Act m (λ r, unlock_after l (k r))
  end.

(** [{ std::unique_lock lock(l); p }] *)
Definition with_lock {A} (l : L) (m : Mode) (p : prog A) : prog A := Lock l m (unlock_after l p).

Fixpoint pfor_each {X} (l : list X) (body : X → prog unit) : prog unit :=
  match l with
  | [] => pret tt
  | x :: l' => pbind (body x) (λ _, pfor_each l' body)
  end.

Definition pwhen (b : bool) (p : prog unit) : prog unit := if b then p else pret tt.

(** ** A program on its own *)

(** What a program does when no other thread runs: its acts, in order. *)
Fixpoint solo {A} (p : prog A) : M W A :=
  match p with
  | Done r => λ w, (w, r)
  | Lock _ _ k | Unlock _ k => solo k
  | Act m k => λ w, let (w', x) := m w in solo (k x) w'
  end.

Definition runs {A} (p : prog A) (m : M W A) : Prop := ∀ w, solo p w = m w.

Lemma runs_act {A} (m : M W A) : runs (act m) m.
Proof. intros w. simpl. by destruct (m w). Qed.

Lemma runs_ret {A} (a : A) : runs (pret a) (ret a).
Proof. done. Qed.

Lemma solo_bind {A B} (p : prog A) (f : A → prog B) w :
  solo (pbind p f) w = bind (solo p) (λ a, solo (f a)) w.
Proof.
  revert w. induction p as [[e|a]|l m k IH|l k IH|X m k IH]; intros w; simpl; try done.
  unfold bind. destruct (m w) as [w' x]. by rewrite IH.
Qed.

Lemma runs_bind {A B} (p : prog A) (f : A → prog B) m g :
  runs p m → (∀ a, runs (f a) (g a)) → runs (pbind p f) (bind m g).
Proof.
  intros Hp Hf w. rewrite solo_bind. unfold bind. rewrite Hp.
  destruct (m w) as [w' [e|a]]; [done|apply Hf].
Qed.

Lemma runs_catch {A} (p : prog A) h m g :
  runs p m → (∀ e, runs (h e) (g e)) → runs (pcatch p h) (try_catch m g).
Proof.
  intros Hp Hh. assert (∀ w, solo (pcatch p h) w = try_catch (solo p) (λ e, solo (h e)) w) as Heq.
  { clear Hp Hh. induction p as [[e|a]|l m' k IH|l k IH|X m' k IH]; intros w; simpl; try done.
    - unfold try_catch. simpl. by destruct (catchable e).
    - unfold try_catch. destruct (m' w) as [w' x]. by rewrite IH. }
  intros w. rewrite Heq. unfold try_catch. rewrite Hp.
  destruct (m w) as [w' [e|a]]; [|done]. destruct (catchable e); [apply Hh|done].
Qed.

Lemma runs_with_lock {A} l md (p : prog A) m : runs p m → runs (with_lock l md p) m.
Proof.
  intros Hp w. simpl. rewrite <-Hp. revert w. clear Hp.
  induction p as [r|l' m' k IH|l' k IH|X m' k IH]; intros w; simpl; try done.
  destruct (m' w) as [w' x]. apply IH.
Qed.

Lemma runs_for_each {X} (l : list X) p m :
  (∀ x, runs (p x) (m x)) → runs (pfor_each l p) (for_each l m).
Proof. intros Hp. induction l; simpl; [done|]. by apply runs_bind. Qed.

Lemma runs_when b p m : runs p m → runs (pwhen b p) (when b m).
Proof. by destruct b. Qed.

(** Acts that keep a relation of the shared state. *)
Fixpoint acts_preserve (R : W → W → Prop) {A} (p : prog A) : Prop :=
  match p with
  | Done _ => True
  | Lock _ _ k | Unlock _ k => acts_preserve R k
  | Act m k => preserves R m ∧ ∀ r, acts_preserve R (k r)
  end.

Section acts.
Context (R : W → W → Prop).

Lemma acts_act {A} (m : M W A) : preserves R m → acts_preserve R (act m).
Proof. by split. Qed.

Lemma acts_bind {A B} (p : prog A) (f : A → prog B) :
  acts_preserve R p → (∀ a, acts_preserve R (f a)) → acts_preserve R (pbind p f).
Proof. intros Hp Hf. induction p as [[e|a]| | |X m k IH]; simpl in *; naive_solver. Qed.

Lemma acts_catch {A} (p : prog A) h :
  acts_preserve R p → (∀ e, acts_preserve R (h e)) → acts_preserve R (pcatch p h).
Proof.
  intros Hp Hh. induction p as [[e|a]| | |X m k IH]; simpl in *; try naive_solver.
  by destruct (catchable e).
Qed.

Lemma acts_with_lock {A} l m (p : prog A) : acts_preserve R p → acts_preserve R (with_lock l m p).
Proof. intros Hp. simpl. induction p; simpl in *; naive_solver. Qed.

Lemma acts_for_each {X} (l : list X) p :
  (∀ x, x ∈ l → acts_preserve R (p x)) → acts_preserve R (pfor_each l p).
Proof.
  induction l as [|x l IH]; intros Hp; simpl; [done|]. apply acts_bind; [apply Hp; by left|].
  intros _. apply IH. intros y Hy. apply Hp. by right.
Qed.

Lemma acts_when b p : acts_preserve R p → acts_preserve R (pwhen b p).
Proof. by destruct b. Qed.
End acts.
End programs.

Arguments prog : clear implicits.
Arguments Done {_ _ _} _.
Arguments Lock {_ _ _} _ _ _.
Arguments Unlock {_ _ _} _ _.
Arguments Act {_ _ _ _} _ _.

Notation "'let*' x := p 'in' k" := (pbind p (λ x, k))
  (at level 10, x pattern, p at level 100, k at level 200) : cpp_scope.
Notation "p ;;* k" := (pbind p (λ _, k))
  (at level 100, k at level 200, right associativity) : cpp_scope.
