(* ===== verification/ThreadPool.v ===== *)
(** * Pools of threads

    Threads that share a state and their locks take steps in any order.  A
    [std::shared_mutex] is granted to any number of threads in mode [Shared], or
    to one in mode [Exclusive].  Three facts about pools: a lock excludes; what
    holds of the shared state whenever a lock is free is kept if every thread
    restores it before it releases the lock; and threads that take their locks
    in the order of their ranks always finish. *)

From stdpp Require Import relations.
From S2P Require Import Prelude Threads.

Section pool.
Context {W L : Type} `{EqDecision L}.

(** A thread: the locks it holds, the last one taken first, and the rest of its
    program. *)
Record Thread := mkThread {
  held : list (L * Mode);
  code : prog W L unit;
}.

Record Config := mkConfig {
  pool : list Thread;
  shared : W;
}.

Definition fresh_thread (p : prog W L unit) : Thread := mkThread [] p.

(** [t] does not keep another thread from taking [l]. *)
Definition grants (l : L) (m : Mode) (t : Thread) : Prop :=
  Forall (λ h : L * Mode, h.1 = l → m = Shared ∧ h.2 = Shared) (held t).

#[export] Instance grants_dec l m t : Decision (grants l m t).
Proof. unfold grants. apply _. Defined.

(** A guard's destructor releases the lock taken last. *)
Inductive thread_step (i : nat) : Config → Config → Prop :=
| step_lock l m k h ts w :
    ts !! i = Some (mkThread h (Lock l m k)) → Forall (grants l m) ts →
    thread_step i (mkConfig ts w) (mkConfig (<[ i := mkThread ((l, m) :: h) k ]> ts) w)
| step_unlock l m k h ts w :
    ts !! i = Some (mkThread ((l, m) :: h) (Unlock l k)) →
    thread_step i (mkConfig ts w) (mkConfig (<[ i := mkThread h k ]> ts) w)
| step_act {X} (m : M W X) k h ts w :
    ts !! i = Some (mkThread h (Act m k)) →
    thread_step i (mkConfig ts w) (mkConfig (<[ i := mkThread h (k (m w).2) ]> ts) (m w).1).

Definition pool_step (c c' : Config) : Prop := ∃ i, thread_step i c c'.

Definition finished (t : Thread) : Prop := ∃ r, code t = Done r.
Definition all_finished (c : Config) : Prop := Forall finished (pool c).

(** ** Mutual exclusion *)

(** Where a lock is held in mode [Exclusive], it is held once. *)
Definition excludes (c : Config) : Prop := ∀ i j t u a b l m,
  pool c !! i = Some t → pool c !! j = Some u →
  held t !! a = Some (l, Exclusive) → held u !! b = Some (l, m) → i = j ∧ a = b.

Lemma grants_lookup ts l m i t a l' m' :
  Forall (grants l m) ts → ts !! i = Some t → held t !! a = Some (l', m') →
  l' = l → m = Shared ∧ m' = Shared.
Proof.
  intros Hg Ht Ha. rewrite Forall_lookup in Hg. specialize (Hg _ _ Ht).
  unfold grants in Hg. rewrite Forall_lookup in Hg. by specialize (Hg _ _ Ha).
Qed.

Lemma excludes_step i c c' : thread_step i c c' → excludes c → excludes c'.
Proof.
  destruct 1 as [l m k h ts w Hi Hg|l m k h ts w Hi|X m k h ts w Hi]; intros He;
    intros i1 j1 t u a b l' m'; simpl;
    intros [(<- & <- & _)|[Hn1 Ht]]%list_lookup_insert_Some
      [(<- & <- & _)|[Hn2 Hu]]%list_lookup_insert_Some; simpl; intros Ha Hb.
  - destruct a as [|a], b as [|b]; simpl in *; simplify_eq; try done.
    + by destruct (grants_lookup _ _ _ _ _ _ _ _ Hg Hi Hb eq_refl).
    + by destruct (grants_lookup _ _ _ _ _ _ _ _ Hg Hi Ha eq_refl).
    + by destruct (He _ _ _ _ _ _ _ _ Hi Hi Ha Hb) as [_ ->].
  - destruct a as [|a]; simpl in *; simplify_eq.
    + by destruct (grants_lookup _ _ _ _ _ _ _ _ Hg Hu Hb eq_refl).
    + by destruct (He _ _ _ _ _ _ _ _ Hi Hu Ha Hb) as [-> _].
  - destruct b as [|b]; simpl in *; simplify_eq.
    + by destruct (grants_lookup _ _ _ _ _ _ _ _ Hg Ht Ha eq_refl).
    + by destruct (He _ _ _ _ _ _ _ _ Ht Hi Ha Hb) as [-> _].
  - by apply (He _ _ _ _ _ _ _ _ Ht Hu Ha Hb).
  - destruct (He _ _ _ _ (S a) (S b) _ _ Hi Hi Ha Hb) as [_ [= ->]]. done.
  - by destruct (He _ _ _ _ (S a) b _ _ Hi Hu Ha Hb) as [-> _].
  - by destruct (He _ _ _ _ a (S b) _ _ Ht Hi Ha Hb) as [-> _].
  - by apply (He _ _ _ _ _ _ _ _ Ht Hu Ha Hb).
  - by apply (He _ _ _ _ _ _ _ _ Hi Hi Ha Hb).
  - by apply (He _ _ _ _ _ _ _ _ Hi Hu Ha Hb).
  - by apply (He _ _ _ _ _ _ _ _ Ht Hi Ha Hb).
  - by apply (He _ _ _ _ _ _ _ _ Ht Hu Ha Hb).
Qed.

(** ** Threads that take their locks in order *)

Section order.
Context (rank : L → nat).

(** From the locks [h] the program reaches the locks [h']: it takes a lock only
    when its rank is above those of the locks held, and releases the last one. *)
Fixpoint ordered {A} (h : list L) (p : prog W L A) (h' : list L) : Prop :=
  match p with
  | Done _ => h = h'
  | Lock l _ k => Forall (λ l', rank l' < rank l) h ∧ ordered (l :: h) k h'
  | Unlock l k => match h with l' :: h => l' = l ∧ ordered h k h' | [] => False end
  | Act _ k => ∀ r, ordered h (k r) h'
  end.

Lemma ordered_act {A} h (m : M W A) : ordered h (act m) h.
Proof. done. Qed.

Lemma ordered_bind {A B} h h' (p : prog W L A) (f : A → prog W L B) :
  ordered h p h' → (∀ a, ordered h' (f a) h') → ordered h (pbind p f) h'.
Proof.
  revert h. induction p as [[e|a]|l m k IH|l k IH|X m k IH]; intros h; simpl.
  - done.
  - by intros ->.
  - intros [? ?]. auto.
  - destruct h; [done|]. intros [? ?]. auto.
  - auto.
Qed.

Lemma ordered_catch {A} h h' (p : prog W L A) f :
  ordered h p h' → (∀ e, ordered h' (f e) h') → ordered h (pcatch p f) h'.
Proof.
  revert h. induction p as [[e|a]|l m k IH|l k IH|X m k IH]; intros h; simpl.
  - intros ->. by destruct (catchable e).
  - done.
  - intros [? ?]. auto.
  - destruct h; [done|]. intros [? ?]. auto.
  - auto.
Qed.

Lemma ordered_unlock_after {A} l h h' (p : prog W L A) :
  ordered h p (l :: h') → ordered h (unlock_after l p) h'.
Proof.
  revert h. induction p as [r|l' m k IH|l' k IH|X m k IH]; intros h; simpl.
  - by intros ->.
  - intros [? ?]. auto.
  - destruct h; [done|]. intros [? ?]. auto.
  - auto.
Qed.

Lemma ordered_with_lock {A} l m h (p : prog W L A) :
  Forall (λ l', rank l' < rank l) h → ordered (l :: h) p (l :: h) →
  ordered h (with_lock l m p) h.
Proof. intros Hl Hp. split; [done|]. by apply ordered_unlock_after. Qed.

Lemma ordered_for_each {X} h (l : list X) p :
  (∀ x, ordered h (p x) h) → ordered h (pfor_each l p) h.
Proof. intros Hp. induction l; simpl; [done|]. by apply ordered_bind. Qed.

Lemma ordered_when h b p : ordered h p h → ordered h (pwhen b p) h.
Proof. by destruct b. Qed.

Definition well_ordered (c : Config) : Prop :=
  ∀ i t, pool c !! i = Some t → ordered (held t).*1 (code t) [].

Lemma well_ordered_step i c c' : thread_step i c c' → well_ordered c → well_ordered c'.
Proof.
  destruct 1 as [l m k h ts w Hi Hg|l m k h ts w Hi|X m k h ts w Hi]; intros Ho j t; simpl;
    intros [(<- & <- & _)|[Hn Ht]]%list_lookup_insert_Some; try by apply (Ho j t Ht).
  - by apply (Ho _ _ Hi).
  - by apply (Ho _ _ Hi).
  - apply (Ho _ _ Hi).
Qed.

(** A thread that has not ended and cannot go on waits for a lock that another
    such thread, or one that can go on, holds. *)
Lemma blocked_by c i h p :
  well_ordered c → pool c !! i = Some (mkThread h p) → ¬ finished (mkThread h p) →
  (∃ c', pool_step c c') ∨
  ∃ l m k j u, p = Lock l m k ∧ pool c !! j = Some u ∧ l ∈ (held u).*1.
Proof.
  intros Ho Ht Hnf. pose proof (Ho _ _ Ht) as Hot. destruct c as [ts w]. simpl in *.
  destruct p as [r|l m k|l k|X m k].
  - destruct Hnf. by exists r.
  - destruct (decide (Forall (grants l m) ts)) as [Hg|Hg].
    { left. eexists. exists i. by eapply step_lock. }
    right. apply not_Forall_Exists in Hg; [|apply _].
    apply Exists_exists in Hg as (u & Hu & Hg). apply list_elem_of_lookup in Hu as [j Hu].
    unfold grants in Hg. apply not_Forall_Exists in Hg; [|apply _].
    apply Exists_exists in Hg as ([l' m'] & Hin & Hne).
    assert (l' = l) as -> by (destruct (decide (l' = l)); [done|]; by destruct Hne).
    exists l, m, k, j, u. split_and!; [done..|]. apply list_elem_of_fmap. by exists (l, m').
  - left. destruct h as [|[l' m] h]; [done|]. destruct Hot as [Heq _]. simpl in Heq. subst l'.
    eexists. exists i. by eapply step_unlock.
  - left. eexists. exists i. by eapply step_act.
Qed.

(** Somebody can go on: a thread that waits for a lock waits for one that waits,
    if it waits at all, for a lock of a higher rank. *)
Lemma progress c i t :
  well_ordered c → pool c !! i = Some t → ¬ finished t → ∃ c', pool_step c c'.
Proof.
  intros Ho Ht Hnf.
  set (ranks := (λ u, match code u with Lock l _ _ => rank l | _ => 0 end) <$> pool c).
  assert (∀ j u l m k, pool c !! j = Some u → code u = Lock l m k → rank l ≤ max_list ranks)
    as Hmax.
  { intros j u l m k Hu Hc. apply max_list_elem_of_le, list_elem_of_fmap. exists u.
    rewrite Hc. split; [done|]. by eapply list_elem_of_lookup_2. }
  enough (∀ d j u, pool c !! j = Some u → ¬ finished u →
    (∀ l m k, code u = Lock l m k → max_list ranks - rank l < d) → ∃ c', pool_step c c')
    as Hind by (apply (Hind (S (max_list ranks)) i t Ht Hnf); lia).
  induction d as [|d IH]; intros j [h p] Hu Hnu Hd;
    (destruct (blocked_by c j h p Ho Hu Hnu) as [?|(l & m & k & j' & u' & -> & Hu' & Hl)];
      [done|]); specialize (Hd l m k eq_refl); [lia|].
  pose proof (Ho _ _ Hu') as Hou. apply (IH j' u' Hu').
  - intros [r Hr]. rewrite Hr in Hou. simpl in Hou. rewrite Hou in Hl.
    by apply not_elem_of_nil in Hl.
  - intros l1 m1 k1 Hcode. pose proof (Hmax _ _ _ _ _ Hu' Hcode).
    rewrite Hcode in Hou. destruct Hou as [Hr _].
    rewrite Forall_forall in Hr. specialize (Hr _ Hl). lia.
Qed.
End order.

(** ** Every run ends *)

(** One step of a program, whatever the act answers. *)
Inductive code_step : prog W L unit → prog W L unit → Prop :=
| code_lock l m k : code_step (Lock l m k) k
| code_unlock l k : code_step (Unlock l k) k
| code_act {X} (m : M W X) k r : code_step (Act m k) (k r).

Lemma code_step_sub p q :
  code_step p q →
  match p with
  | Done _ => False
  | Lock _ _ k | Unlock _ k => q = k
  | Act _ k => ∃ r, q = k r
  end.
Proof. destruct 1 as [| |X m k r]; [done|done|by exists r]. Qed.

Lemma sn_code p : sn code_step p.
Proof.
  induction p as [r|l m k IH|l k IH|X m k IH]; constructor; intros q Hq%code_step_sub.
  - destruct Hq.
  - by subst.
  - by subst.
  - by destruct Hq as [r ->].
Qed.

Inductive codes_step : list (prog W L unit) → list (prog W L unit) → Prop :=
| codes_here p q l : code_step p q → codes_step (p :: l) (q :: l)
| codes_there p l l' : codes_step l l' → codes_step (p :: l) (p :: l').

Lemma sn_codes l : sn codes_step l.
Proof.
  induction l as [|p l IHl]; [apply Acc_intro; intros ? Hs; inversion Hs|].
  pose proof (sn_code p) as Hp. revert l IHl.
  induction Hp as [p _ IHp]. intros l Hl. induction Hl as [l Hl IHl].
  apply Acc_intro. intros l' Hs. red in Hs. inversion Hs as [? q ? Hq|? ? l1 Hl1]; subst.
  - apply IHp; [exact Hq|]. by apply Acc_intro.
  - by apply IHl.
Qed.

Lemma codes_step_insert (ts : list Thread) i t h q :
  ts !! i = Some t → code_step (code t) q →
  codes_step (code <$> ts) (code <$> <[ i := mkThread h q ]> ts).
Proof.
  revert i. induction ts as [|u ts IH]; intros [|i] Hi Hq; simplify_eq/=; by constructor; auto.
Qed.

Lemma codes_of_step c c' : pool_step c c' → codes_step (code <$> pool c) (code <$> pool c').
Proof.
  intros [i Hs]. destruct Hs as [l m k h ts w Hi _|l m k h ts w Hi|X m k h ts w Hi]; simpl;
    eapply codes_step_insert; try exact Hi; constructor.
Qed.

Lemma sn_pool c : sn pool_step c.
Proof.
  remember (code <$> pool c) as l eqn:Hl. pose proof (sn_codes l) as Hsn. revert c Hl.
  induction Hsn as [l _ IH]. intros c ->. apply Acc_intro. intros c' Hs.
  by eapply IH; [apply codes_of_step, Hs|].
Qed.

(** A pool of ordered threads is never stuck, so every run of it ends, and ends
    with all threads finished. *)
Lemma well_ordered_steps rank c c' :
  rtc pool_step c c' → well_ordered rank c → well_ordered rank c'.
Proof. induction 1 as [|c1 c2 c3 [i Hs] _ IH]; [done|]. eauto using well_ordered_step. Qed.

#[export] Instance finished_dec t : Decision (finished t).
Proof.
  unfold finished. destruct (code t); [left; by eexists|right; by intros [? [=]]..].
Defined.

Lemma not_stuck rank c :
  well_ordered rank c → all_finished c ∨ ∃ c', pool_step c c'.
Proof.
  intros Ho. destruct (decide (all_finished c)) as [Hf|Hn]; [by left|right].
  unfold all_finished in Hn. apply not_Forall_Exists in Hn; [|apply _].
  apply Exists_exists in Hn as (t & Ht & Hn). apply list_elem_of_lookup in Ht as [i Ht].
  by eapply progress.
Qed.

Lemma runs_to_the_end rank c :
  well_ordered rank c → ∃ c', rtc pool_step c c' ∧ all_finished c'.
Proof.
  intros Ho. pose proof (sn_pool c) as Hsn. induction Hsn as [c _ IH].
  destruct (not_stuck rank c Ho) as [Hf|[c1 Hs]]; [by exists c|].
  destruct (IH c1 Hs) as (c2 & Hrun & Hf).
  { eapply well_ordered_steps; [by apply rtc_once|done]. }
  exists c2. split; [by eapply rtc_l|done].
Qed.

(** A thread that has ended holds no lock. *)
Lemma finished_holds_nothing rank c i t :
  well_ordered rank c → pool c !! i = Some t → finished t → held t = [].
Proof.
  intros Ho Ht [r Hr]. specialize (Ho i t Ht). rewrite Hr in Ho. simpl in Ho.
  by destruct (held t).
Qed.

(** ** A thread on its own *)

(** Alone in its pool, a thread does what [solo] says. *)
Definition alone (o : W * result unit) (c : Config) : Prop :=
  ∃ t, pool c = [t] ∧ solo (code t) (shared c) = o.

Lemma alone_step o c c' : pool_step c c' → alone o c → alone o c'.
Proof.
  intros [i Hs] (t & Hc & Ho).
  destruct Hs as [l m k h ts w Hi _|l m k h ts w Hi|X m k h ts w Hi]; simpl in *; subst ts;
    destruct i as [|i]; simplify_eq/=; eexists; (split; [done|]); simpl; [done|done|].
  by destruct (m w).
Qed.

Lemma alone_steps o c c' : rtc pool_step c c' → alone o c → alone o c'.
Proof. induction 1; [done|]. eauto using alone_step. Qed.

(** ** Runs that can be evaluated *)

#[export] Instance all_finished_dec c : Decision (all_finished c).
Proof. unfold all_finished. apply _. Defined.

(** The step that thread [i] can make. *)
Definition thread_next (i : nat) (c : Config) : option Config :=
  match pool c !! i with
  | Some (mkThread h (Lock l m k)) =>
      if decide (Forall (grants l m) (pool c))
      then Some (mkConfig (<[ i := mkThread ((l, m) :: h) k ]> (pool c)) (shared c)) else None
  | Some (mkThread ((l', _) :: h) (Unlock l k)) =>
      if decide (l' = l) then Some (mkConfig (<[ i := mkThread h k ]> (pool c)) (shared c)) else None
  | Some (mkThread h (Act m k)) =>
      let (w, r) := m (shared c) in Some (mkConfig (<[ i := mkThread h (k r) ]> (pool c)) w)
  | _ => None
  end.

(** The threads go on in the order of [turns]; who cannot, waits. *)
Definition scheduled (turns : list nat) (c : Config) : Config :=
  foldl (λ c i, default c (thread_next i c)) c turns.

Lemma thread_next_step i c c' : thread_next i c = Some c' → thread_step i c c'.
Proof.
  assert (∀ {X} (m : M W X) k h ts w, ts !! i = Some (mkThread h (Act m k)) →
    (let (w', r) := m w in Some (mkConfig (<[ i := mkThread h (k r) ]> ts) w')) = Some c' →
    thread_step i (mkConfig ts w) c') as Hact.
  { intros X m k h ts w Hi. rewrite (surjective_pairing (m w)). intros [= <-]. by apply step_act. }
  unfold thread_next. destruct c as [ts w]. simpl. destruct (ts !! i) as [[h p]|] eqn:Hi; [|done].
  destruct p as [r|l m k|l k|X m k], h as [|[l' m'] h]; try done; intros Hn;
    try (by eapply Hact); case_decide; simplify_eq; by econstructor.
Qed.

Lemma scheduled_runs turns c : rtc pool_step c (scheduled turns c).
Proof.
  unfold scheduled. revert c. induction turns as [|i turns IH]; intros c; simpl; [apply rtc_refl|].
  destruct (thread_next i c) as [c1|] eqn:Hi; simpl; [|apply IH].
  eapply rtc_l; [exists i; by apply thread_next_step|apply IH].
Qed.

(** ** What a lock protects *)

(** [inv] holds of the state whenever nobody holds [l0] in mode [Exclusive];
    [rely] is what a thread does to the state when it does not hold it so. *)
Section protects.
Context (l0 : L) (inv : W → Prop) (rely : W → W → Prop) `{!PreOrder rely}.
Hypothesis inv_rely : ∀ w w', rely w w' → inv w → inv w'.

(** The program, from the state [w] if it holds [l0] exclusively: other threads
    do [rely] between its acts, it finds [inv] when it takes [l0] and restores it
    before the release. *)
Fixpoint guarded {A} (o : option W) (p : prog W L A) : Prop :=
  match p with
  | Done _ => o = None
  | Lock l m k =>
      if decide (l = l0) then
        o = None ∧
        match m with Exclusive => ∀ w, inv w → guarded (Some w) k | Shared => guarded None k end
      else guarded o k
  | Unlock l k =>
      match o with
      | Some w => if decide (l = l0) then inv w ∧ guarded None k else guarded (Some w) k
      | None => guarded None k
      end
  | Act m k =>
      match o with
      | Some w => ∀ w', rely w w' → guarded (Some (m w').1) (k (m w').2)
      | None => preserves rely m ∧ ∀ r, guarded None (k r)
      end
  end.

Lemma guarded_rely {A} (p : prog W L A) w w' :
  rely w w' → guarded (Some w) p → guarded (Some w') p.
Proof.
  intros Hr. induction p as [r|l m k IH|l k IH|X m k IH]; simpl; [done| | |].
  - case_decide; [by intros [? _]|done].
  - case_decide; [|done]. intros [Hi ?]. split; [by eapply inv_rely|done].
  - intros Hp w'' Hr'. apply Hp. by etrans.
Qed.

Definition owns (t : Thread) : Prop := (l0, Exclusive) ∈ held t.

#[export] Instance owns_dec t : Decision (owns t).
Proof. unfold owns. apply list_elem_of_dec. Defined.

Record protected (c : Config) : Prop := mkProtected {
  prot_excludes : excludes c;
  prot_threads i t : pool c !! i = Some t →
    guarded (if decide (owns t) then Some (shared c) else None) (code t);
  prot_inv : (∀ i t, pool c !! i = Some t → ¬ owns t) → inv (shared c);
}.

Lemma protected_start ps w :
  Forall (guarded None) ps → inv w → protected (mkConfig (fresh_thread <$> ps) w).
Proof.
  intros Hps Hw.
  assert (∀ i t, (fresh_thread <$> ps) !! i = Some t → ∃ p, t = fresh_thread p ∧ guarded None p)
    as Hfresh.
  { intros i t (p & -> & Hp)%list_lookup_fmap_Some. exists p. split; [done|].
    by eapply Forall_lookup_1. }
  split; simpl.
  - intros i j t u a b l m (p & -> & _)%Hfresh _ Ha. by destruct a.
  - intros i t (p & -> & Hp)%Hfresh. rewrite decide_False; [done|]. apply not_elem_of_nil.
  - done.
Qed.
Lemma owns_cons l m h p :
  owns (mkThread ((l, m) :: h) p) ↔ (l = l0 ∧ m = Exclusive) ∨ owns (mkThread h p).
Proof. unfold owns. simpl. rewrite elem_of_cons. naive_solver. Qed.

Lemma owns_code h p q : owns (mkThread h p) → owns (mkThread h q).
Proof. done. Qed.

(** Nobody owns the lock when it is granted. *)
Lemma grants_free m ts i t : Forall (grants l0 m) ts → ts !! i = Some t → ¬ owns t.
Proof.
  intros Hg Ht [a Ha]%list_elem_of_lookup.
  by destruct (grants_lookup _ _ _ _ _ _ _ _ Hg Ht Ha eq_refl).
Qed.

(** The owner of the lock, and it alone. *)
Lemma owner_alone c i j t u :
  excludes c → pool c !! i = Some t → pool c !! j = Some u → owns t → owns u → i = j.
Proof.
  intros He Ht Hu [a Ha]%list_elem_of_lookup [b Hb]%list_elem_of_lookup.
  by destruct (He _ _ _ _ _ _ _ _ Ht Hu Ha Hb).
Qed.

(** A thread that holds the lock in either mode excludes an owner. *)
Lemma reader_alone c i j t u :
  protected c → pool c !! i = Some t → (l0, Shared) ∈ held t →
  pool c !! j = Some u → owns u → False.
Proof.
  intros [He _ _] Ht [b Hb]%list_elem_of_lookup Hu [a Ha]%list_elem_of_lookup.
  destruct (He j i u t a b l0 Shared Hu Ht Ha Hb) as [-> ->]. congruence.
Qed.

Lemma owner_once c i h p m :
  excludes c → pool c !! i = Some (mkThread ((l0, m) :: h) p) → ¬ owns (mkThread h p).
Proof.
  intros He Ht [a Ha]%list_elem_of_lookup. simpl in Ha.
  by destruct (He i i _ _ (S a) 0 l0 m Ht Ht Ha eq_refl).
Qed.

(** A step of thread [i] that does not change the state. *)
Lemma protected_move ts w i t t' :
  protected (mkConfig ts w) → ts !! i = Some t →
  excludes (mkConfig (<[ i := t' ]> ts) w) →
  guarded (if decide (owns t') then Some w else None) (code t') →
  (¬ owns t' → owns t → inv w) →
  protected (mkConfig (<[ i := t' ]> ts) w).
Proof.
  intros [He Hth Hinv] Hi He' Hg Hrel. simpl in *. split; simpl; [done| |].
  - intros j u [(<- & <- & _)|[Hn Hu]]%list_lookup_insert_Some; [done|by apply (Hth j)].
  - intros Hfree. destruct (decide (owns t)) as [Ho|Hno].
    + apply Hrel; [|done]. apply (Hfree i).
      apply list_lookup_insert_eq. by eapply lookup_lt_Some.
    + apply Hinv. intros j u Hu. destruct (decide (i = j)) as [<-|Hne]; [congruence|].
      apply (Hfree j). by rewrite list_lookup_insert_ne.
Qed.

Lemma protected_act {X} (m : M W X) k h ts w i :
  protected (mkConfig ts w) → ts !! i = Some (mkThread h (Act m k)) →
  protected (mkConfig (<[ i := mkThread h (k (m w).2) ]> ts) (m w).1).
Proof.
  intros [He Hth Hinv] Hi. pose proof (Hth _ _ Hi) as Hg. simpl in *.
  assert (excludes (mkConfig (<[ i := mkThread h (k (m w).2) ]> ts) (m w).1)) as He'.
  { eapply (excludes_step i (mkConfig ts w)); [by apply step_act|done]. }
  destruct (decide (owns (mkThread h (Act m k)))) as [Ho|Hno]; simpl in Hg.
  - split; simpl; [done| |].
    + intros j u [(<- & <- & _)|[Hn Hu]]%list_lookup_insert_Some.
      * rewrite decide_True by done. simpl. by apply Hg.
      * specialize (Hth j u Hu). rewrite decide_False in Hth; [|intros Hu'; by
          destruct Hn; eapply (owner_alone _ _ _ _ _ He Hi Hu)].
        rewrite decide_False; [done|]. intros Hu'.
        by destruct Hn; eapply (owner_alone _ _ _ _ _ He Hi Hu).
    + intros Hfree. exfalso. apply (Hfree i (mkThread h (k (m w).2))); [|done].
      apply list_lookup_insert_eq. by eapply lookup_lt_Some.
  - destruct Hg as [Hm Hk]. split; simpl; [done| |].
    + intros j u [(<- & <- & _)|[Hn Hu]]%list_lookup_insert_Some.
      * rewrite decide_False by done. apply Hk.
      * specialize (Hth j u Hu). destruct (decide (owns u)); [|done].
        eapply guarded_rely; [apply Hm|done].
    + intros Hfree. eapply inv_rely; [apply Hm|]. apply Hinv. intros j u Hu.
      destruct (decide (i = j)) as [<-|Hne]; [congruence|].
      apply (Hfree j). by rewrite list_lookup_insert_ne.
Qed.

Lemma protected_step c c' : pool_step c c' → protected c → protected c'.
Proof.
  intros [i Hs] Hp. pose proof (excludes_step _ _ _ Hs (prot_excludes _ Hp)) as He'.
  destruct Hs as [l m k h ts w Hi Hg|l m k h ts w Hi|X m k h ts w Hi].
  - pose proof (prot_threads _ Hp _ _ Hi) as Hgd. simpl in Hgd.
    apply (protected_move ts w i _ _ Hp Hi He'); simpl.
    + destruct (decide (l = l0)) as [->|Hl].
      * destruct Hgd as [_ Hgd]. destruct m; simpl.
        { rewrite decide_False; [done|]. rewrite owns_cons.
          intros [[_ [=]]|Ho]. by apply (grants_free _ _ _ _ Hg Hi). }
        rewrite decide_True by (rewrite owns_cons; by left). apply Hgd, Hp. simpl.
        intros j u Hu. by apply (grants_free _ _ _ _ Hg Hu).
      * erewrite decide_ext; [exact Hgd|]. rewrite owns_cons. naive_solver.
    + intros Hno Ho. destruct Hno. apply owns_cons. by right.
  - pose proof (prot_threads _ Hp _ _ Hi) as Hgd. simpl in Hgd.
    apply (protected_move ts w i _ _ Hp Hi He'); simpl.
    + destruct (decide (l = l0)) as [->|Hl].
      * rewrite decide_False by exact (owner_once _ _ _ _ _ (prot_excludes _ Hp) Hi).
        case_decide; [|done]. by destruct Hgd.
      * assert (owns (mkThread h k) ↔ owns (mkThread ((l, m) :: h) (Unlock l k))) as Heq
          by (rewrite owns_cons; unfold owns; simpl; naive_solver).
        rewrite (decide_ext _ _ _ _ Heq).
        by destruct (decide (owns (mkThread ((l, m) :: h) (Unlock l k)))).
    + intros Hno Ho. case_decide; [|done]. apply owns_cons in Ho as [[-> ->]|Ho]; [|done].
      rewrite decide_True in Hgd by done. apply Hgd.
  - by apply protected_act.
Qed.

Lemma protected_steps c c' : rtc pool_step c c' → protected c → protected c'.
Proof. induction 1; [done|]. eauto using protected_step. Qed.

(** ** Guarded programs *)

Lemma guarded_bind {A B} o (p : prog W L A) (f : A → prog W L B) :
  guarded o p → (∀ a, guarded None (f a)) → guarded o (pbind p f).
Proof.
  intros Hp Hf. revert o Hp. induction p as [[e|a]|l m k IH|l k IH|X m k IH]; intros o; simpl.
  - done.
  - by intros ->.
  - case_decide; [|by apply IH]. intros [? Hk]. split; [done|].
    destruct m; [by apply IH|]. intros w Hw. by apply IH, Hk.
  - destruct o; [case_decide; [|by apply IH]|by apply IH]. intros [? ?]. split; [done|by apply IH].
  - destruct o; [|by intros [? ?]; split; [|intros; apply IH]]. intros Hk w' Hr. by apply IH, Hk.
Qed.

Lemma guarded_catch {A} o (p : prog W L A) h :
  guarded o p → (∀ e, guarded None (h e)) → guarded o (pcatch p h).
Proof.
  intros Hp Hh. revert o Hp. induction p as [[e|a]|l m k IH|l k IH|X m k IH]; intros o; simpl.
  - intros ->. by destruct (catchable e).
  - done.
  - case_decide; [|by apply IH]. intros [? Hk]. split; [done|].
    destruct m; [by apply IH|]. intros w Hw. by apply IH, Hk.
  - destruct o; [case_decide; [|by apply IH]|by apply IH]. intros [? ?]. split; [done|by apply IH].
  - destruct o; [|by intros [? ?]; split; [|intros; apply IH]]. intros Hk w' Hr. by apply IH, Hk.
Qed.

Lemma guarded_act {A} (m : M W A) : preserves rely m → guarded None (act m).
Proof. by split. Qed.

Lemma guarded_for_each {X} (l : list X) p :
  (∀ x, guarded None (p x)) → guarded None (pfor_each l p).
Proof. intros Hp. induction l; simpl; [done|]. by apply guarded_bind. Qed.

Lemma guarded_when b p : guarded None p → guarded None (pwhen b p).
Proof. by destruct b. Qed.

Lemma guarded_unlock_after {A} l o (p : prog W L A) :
  guarded o p → guarded o (unlock_after l p).
Proof.
  revert o. induction p as [r|l' m k IH|l' k IH|X m k IH]; intros o; simpl.
  - by intros ->.
  - case_decide; [|by apply IH]. intros [? Hk]. split; [done|].
    destruct m; [by apply IH|]. intros w Hw. by apply IH, Hk.
  - destruct o; [case_decide; [|by apply IH]|by apply IH]. intros [? ?]. split; [done|by apply IH].
  - destruct o; [|by intros [? ?]; split; [|intros; apply IH]]. intros Hk w' Hr. by apply IH, Hk.
Qed.

Lemma guarded_with_lock {A} l m (p : prog W L A) :
  l ≠ l0 → guarded None p → guarded None (with_lock l m p).
Proof. intros Hl Hp. simpl. rewrite decide_False by done. by apply guarded_unlock_after. Qed.

Lemma guarded_shared {A} (p : prog W L A) :
  guarded None p → guarded None (with_lock l0 Shared p).
Proof.
  intros Hp. simpl. rewrite decide_True by done. split; [done|]. by apply guarded_unlock_after.
Qed.

(** A stretch of program inside the lock, with what holds at its end. *)
Fixpoint inside {A} (Q : result A → W → Prop) (p : prog W L A) (w : W) : Prop :=
  match p with
  | Done r => Q r w
  | Lock l _ k | Unlock l k => l ≠ l0 ∧ inside Q k w
  | Act m k => ∀ w', rely w w' → inside Q (k (m w').2) (m w').1
  end.

(** It keeps what the lock protects, whenever it ends. *)
Definition holds {A} (p : prog W L A) : Prop := ∀ w, inv w → inside (λ _, inv) p w.

Lemma guarded_exclusive {A} (p : prog W L A) :
  holds p → guarded None (with_lock l0 Exclusive p).
Proof.
  intros Hp. simpl. rewrite decide_True by done. split; [done|]. intros w Hw.
  specialize (Hp w Hw). clear Hw. revert w Hp.
  induction p as [r|l m k IH|l k IH|X m k IH]; intros w Hp; simpl in *.
  - by rewrite decide_True.
  - rewrite decide_False by apply Hp. by apply IH, Hp.
  - rewrite decide_False by apply Hp. by apply IH, Hp.
  - intros w' Hr. by apply IH, Hp.
Qed.

Lemma inside_mono {A} (Q Q' : result A → W → Prop) p w :
  inside Q p w → (∀ r w', Q r w' → Q' r w') → inside Q' p w.
Proof.
  intros Hp HQ. revert w Hp.
  induction p as [r|l m k IH|l k IH|X m k IH]; intros w; simpl; naive_solver.
Qed.

Lemma inside_bind {A B} (Q : result B → W → Prop) (p : prog W L A) (f : A → prog W L B) w :
  inside (λ r w', match r with inl e => Q (inl e) w' | inr a => inside Q (f a) w' end) p w →
  inside Q (pbind p f) w.
Proof.
  revert w. induction p as [[e|a]|l m k IH|l k IH|X m k IH]; intros w; simpl; naive_solver.
Qed.

Lemma inside_catch {A} (Q : result A → W → Prop) (p : prog W L A) h w :
  inside (λ r w', match r with
                  | inl e => if catchable e then inside Q (h e) w' else Q (inl e) w'
                  | inr a => Q (inr a) w'
                  end) p w →
  inside Q (pcatch p h) w.
Proof.
  revert w. induction p as [[e|a]|l m k IH|l k IH|X m k IH]; intros w; simpl; try naive_solver.
  by destruct (catchable e).
Qed.

Lemma inside_act {A} (Q : result A → W → Prop) (m : M W A) w :
  (∀ w', rely w w' → Q (m w').2 (m w').1) → inside Q (act m) w.
Proof. done. Qed.

(** One act, then the rest. *)
Lemma inside_bind_act {A B} (Q : result B → W → Prop) (m : M W A) (f : A → prog W L B) w :
  (∀ w', rely w w' →
     match (m w').2 with inl e => Q (inl e) (m w').1 | inr a => inside Q (f a) (m w').1 end) →
  inside Q (pbind (act m) f) w.
Proof. intros Hm. by apply inside_bind, inside_act. Qed.

Lemma inside_with_lock {A} (Q : result A → W → Prop) l m (p : prog W L A) w :
  l ≠ l0 → inside Q p w → inside Q (with_lock l m p) w.
Proof.
  intros Hl Hp. split; [done|]. revert w Hp.
  induction p as [r|l' m' k IH|l' k IH|X m' k IH]; intros w; simpl; naive_solver.
Qed.

(** A loop, with an invariant of its own. *)
Lemma inside_for_each {X} (J : W → Prop) (l : list X) p w :
  (∀ x w', x ∈ l → J w' → inside (λ _, J) (p x) w') → J w →
  inside (λ _, J) (pfor_each l p) w.
Proof.
  revert w. induction l as [|x l IH]; intros w Hp HJ; simpl; [done|].
  apply inside_bind. eapply inside_mono; [apply Hp; [apply list_elem_of_here|done]|].
  intros [e|a] w' HJ'; [done|]. apply IH; [|done].
  intros y w'' Hy. apply Hp. by apply list_elem_of_further.
Qed.

Lemma holds_act {A} (m : M W A) : preserves (λ w w', inv w → inv w') m → holds (act m).
Proof. intros Hm w Hw w' Hr. apply Hm. by eapply inv_rely. Qed.

Lemma holds_bind {A B} (p : prog W L A) (f : A → prog W L B) :
  holds p → (∀ a, holds (f a)) → holds (pbind p f).
Proof.
  intros Hp Hf w Hw. apply inside_bind. eapply inside_mono; [by apply Hp|].
  intros [e|a] w' Hw'; [done|by apply Hf].
Qed.

Lemma holds_catch {A} (p : prog W L A) h :
  holds p → (∀ e, holds (h e)) → holds (pcatch p h).
Proof.
  intros Hp Hh w Hw. apply inside_catch. eapply inside_mono; [by apply Hp|].
  intros [e|a] w' Hw'; [|done]. destruct (catchable e); [by apply Hh|done].
Qed.

Lemma holds_with_lock {A} l m (p : prog W L A) : l ≠ l0 → holds p → holds (with_lock l m p).
Proof. intros Hl Hp w Hw. apply inside_with_lock; [done|by apply Hp]. Qed.

Lemma holds_for_each {X} (l : list X) p : (∀ x, holds (p x)) → holds (pfor_each l p).
Proof. intros Hp w Hw. apply inside_for_each; [|done]. intros x w' _. apply Hp. Qed.

Lemma holds_when b p : holds p → holds (pwhen b p).
Proof. destruct b; [done|by intros _ w Hw]. Qed.

(** A program that leaves [l0] alone and only does what [rely] allows. *)
Fixpoint quiet {A} (p : prog W L A) : Prop :=
  match p with
  | Done _ => True
  | Lock l _ k | Unlock l k => l ≠ l0 ∧ quiet k
  | Act m k => preserves rely m ∧ ∀ r, quiet (k r)
  end.

Lemma quiet_act {A} (m : M W A) : preserves rely m → quiet (act m).
Proof. by split. Qed.

Lemma quiet_bind {A B} (p : prog W L A) (f : A → prog W L B) :
  quiet p → (∀ a, quiet (f a)) → quiet (pbind p f).
Proof. intros Hp Hf. induction p as [[e|a]| | |X m k IH]; simpl in *; naive_solver. Qed.

Lemma quiet_with_lock {A} l m (p : prog W L A) : l ≠ l0 → quiet p → quiet (with_lock l m p).
Proof. intros Hl Hp. split; [done|]. induction p; simpl in *; naive_solver. Qed.

Lemma quiet_guarded {A} (p : prog W L A) : quiet p → guarded None p.
Proof.
  induction p as [r|l m k IH|l k IH|X m k IH]; simpl; [done| | |].
  - intros [Hl Hk]. rewrite decide_False by done. auto.
  - intros [_ Hk]. auto.
  - intros [Hm Hk]. auto.
Qed.

Lemma quiet_holds {A} (p : prog W L A) : quiet p → holds p.
Proof.
  intros Hp w Hw. revert w Hw Hp.
  induction p as [r|l m k IH|l k IH|X m k IH]; intros w Hw; simpl; [done| | |].
  - intros [Hl Hk]. auto.
  - intros [Hl Hk]. auto.
  - intros [Hm Hk] w' Hr. apply IH; [|done]. eapply inv_rely; [apply Hm|].
    by eapply inv_rely.
Qed.
End protects.
End pool.

Arguments Thread : clear implicits.
Arguments Config : clear implicits.
