(* ===== verification/Custody.v ===== *)
(** * What the threads of a pool still owe

    Things that a shared state [has] each belong to somebody in it, or to a
    thread that does away with them before it ends, whatever the other threads
    do meanwhile.  A program is careful if none of its acts leaves a thing to
    nobody; in a pool of careful programs nothing is ever left to nobody, and
    when all have ended everything belongs to somebody. *)

From stdpp Require Import relations.
From S2P Require Import Prelude Threads ThreadPool.

Section always_returns.
Context {W L : Type}.

(** The program returns, whatever it finds. *)
Fixpoint always_returns {A} (p : prog W L A) : Prop :=
  match p with
  | Done r => ∃ a, r = inr a
  | Lock _ _ k | Unlock _ k => always_returns k
  | Act m k => ∀ w, always_returns (k (m w).2)
  end.

Lemma returns_bind {A B} (p : prog W L A) (f : A → prog W L B) :
  always_returns p → (∀ a, always_returns (f a)) → always_returns (pbind p f).
Proof. intros Hp Hf. induction p as [[e|a]| | |X m k IH]; simpl in *; naive_solver. Qed.

Lemma returns_act {A} (m : M W A) : (∀ w, ∃ a, (m w).2 = inr a) → always_returns (act m).
Proof. done. Qed.

Lemma returns_with_lock {A} l m (p : prog W L A) : always_returns p → always_returns (with_lock l m p).
Proof. intros Hp. simpl. induction p; simpl in *; naive_solver. Qed.
End always_returns.

(** ** Programs that do away with things *)

Section ends.
Context {W L T : Type} (has : W → T → Prop).

(** The program does away with [x], or ends as [K] says. *)
Fixpoint ends {A} (K : result A → Prop) (x : T) (p : prog W L A) : Prop :=
  match p with
  | Done r => K r
  | Lock _ _ k | Unlock _ k => ends K x k
  | Act m k => ∀ w, ¬ has (m w).1 x ∨ ends K x (k (m w).2)
  end.

Lemma ends_mono {A} (K K' : result A → Prop) x p :
  ends K x p → (∀ r, K r → K' r) → ends K' x p.
Proof. intros Hp HK. induction p; simpl in *; naive_solver. Qed.

Lemma ends_bind {A B} (K : result B → Prop) x (p : prog W L A) (f : A → prog W L B) :
  ends (λ r, match r with inl e => K (inl e) | inr a => ends K x (f a) end) x p →
  ends K x (pbind p f).
Proof. intros Hp. induction p as [[e|a]| | |X m k IH]; simpl in *; naive_solver. Qed.

Lemma ends_catch {A} (K : result A → Prop) x (p : prog W L A) h :
  ends (λ r, match r with
             | inl e => if catchable e then ends K x (h e) else K (inl e)
             | inr a => K (inr a)
             end) x p →
  ends K x (pcatch p h).
Proof.
  intros Hp. induction p as [[e|a]| | |X m k IH]; simpl in *; try naive_solver.
  by destruct (catchable e).
Qed.

Lemma ends_unlock_after {A} (K : result A → Prop) x l (p : prog W L A) :
  ends K x p → ends K x (unlock_after l p).
Proof. intros Hp. induction p; simpl in *; naive_solver. Qed.

Lemma ends_with_lock {A} (K : result A → Prop) x l m (p : prog W L A) :
  ends K x p → ends K x (with_lock l m p).
Proof. apply ends_unlock_after. Qed.

Lemma ends_returns {A} x (p : prog W L A) : always_returns p → ends (λ r, ∃ a, r = inr a) x p.
Proof. intros Hp. induction p; simpl in *; try naive_solver. Qed.

Lemma ends_for_each {X} (K : result unit → Prop) x (l : list X) p :
  (∀ y, always_returns (p y)) → K (inr tt) → ends K x (pfor_each l p).
Proof.
  intros Hp HK. induction l as [|y l IH]; simpl; [done|]. apply ends_bind.
  eapply ends_mono; [apply ends_returns, Hp|]. by intros r [a ->].
Qed.

(** One turn of the loop does away with it. *)
Lemma ends_in_loop {X} (K : result unit → Prop) x (l : list X) p y :
  (∀ y, always_returns (p y)) → y ∈ l → ends (λ _, False) x (p y) → ends K x (pfor_each l p).
Proof.
  intros Hp Hy Hend. induction l as [|z l IH]; simpl; [by apply not_elem_of_nil in Hy|].
  apply ends_bind. apply elem_of_cons in Hy as [<-|Hy].
  - eapply ends_mono; [exact Hend|done].
  - eapply ends_mono; [apply ends_returns, Hp|]. intros r [a ->]. by apply IH.
Qed.
End ends.

(** ** Programs that leave nothing behind *)

Section custody.
Context {W L T : Type} `{EqDecision L} (l0 : L).
Context (rely : W → W → Prop) `{!PreOrder rely}.
(** What there is, and what belongs to somebody. *)
Context (has belongs : W → T → Prop).

(** What there is after a step belongs to somebody, is owed by the thread, or was
    there before and has not lost its owner in the step. *)
Definition leaves_none (w w' : W) (owed : T → Prop) : Prop := ∀ x,
  has w' x → belongs w' x ∨ owed x ∨ (has w x ∧ (belongs w x → belongs w' x)).

(** [o] is the state while the program holds [l0] exclusively: others do [rely]
    between its acts then, and it does [rely] itself when it does not hold it so.
    [Kx] is what is owed at the end, and [K] what holds there. *)
Fixpoint careful {A} (Kx : T → result A → Prop) (K : option W → result A → Prop) (o : option W)
    (p : prog W L A) : Prop :=
  match p with
  | Done r => K o r
  | Lock l m k =>
      if decide (l = l0) then
        o = None ∧
        match m with
        | Exclusive => ∀ w, careful Kx K (Some w) k
        | Shared => careful Kx K None k
        end
      else careful Kx K o k
  | Unlock l k =>
      match o with
      | Some w => careful Kx K (if decide (l = l0) then None else Some w) k
      | None => careful Kx K None k
      end
  | Act m k =>
      match o with
      | Some w => ∀ w', rely w w' →
          leaves_none w' (m w').1 (λ x, ends has (Kx x) x (k (m w').2)) ∧
          careful Kx K (Some (m w').1) (k (m w').2)
      | None => ∀ w,
          rely w (m w).1 ∧ leaves_none w (m w).1 (λ x, ends has (Kx x) x (k (m w).2)) ∧
          careful Kx K None (k (m w).2)
      end
  end.

(** A thread ends without the lock, and owes nothing then. *)
Definition nothing {X Y : Type} (x : X) (y : Y) : Prop := False.
Definition outside {X : Type} (o : option W) (x : X) : Prop := o = None.
Definition careful_thread : option W → prog W L unit → Prop := careful nothing outside.

Lemma careful_rely (p : prog W L unit) w w' :
  rely w w' → careful_thread (Some w) p → careful_thread (Some w') p.
Proof.
  unfold careful_thread. intros Hr. induction p as [r|l m k IH|l k IH|X m k IH]; simpl; [done| | |].
  - case_decide; [by intros [? _]|done].
  - by case_decide.
  - intros Hp w'' Hr'. apply Hp. by etrans.
Qed.

(** ** Pools of careful threads *)

Record custody (c : Config W L) : Prop := mkCustody {
  cust_excludes : excludes c;
  cust_threads i t : pool c !! i = Some t →
    careful_thread (if decide (owns l0 t) then Some (shared c) else None) (code t);
  cust_kept x : has (shared c) x →
    belongs (shared c) x ∨ ∃ i t, pool c !! i = Some t ∧ ends has (λ _, False) x (code t);
}.

Lemma custody_start ps w :
  Forall (careful_thread None) ps → (∀ x, has w x → belongs w x) →
  custody (mkConfig (fresh_thread <$> ps) w).
Proof.
  intros Hps Hw.
  assert (∀ i t, (fresh_thread <$> ps) !! i = Some t →
    ∃ p, t = fresh_thread p ∧ careful_thread None p) as Hfresh.
  { intros i t (p & -> & Hp)%list_lookup_fmap_Some. exists p. split; [done|].
    by eapply Forall_lookup_1. }
  split; simpl.
  - intros i j t u a b l m (p & -> & _)%Hfresh _ Ha. by destruct a.
  - intros i t (p & -> & Hp)%Hfresh. rewrite decide_False; [done|]. apply not_elem_of_nil.
  - intros x Hx. left. by apply Hw.
Qed.

(** A thread's debts, after a step of it that changes no debt. *)
Lemma kept_move (ts : list (Thread W L)) w (i : nat) t t' x :
  ts !! i = Some t → (ends has (λ _, False) x (code t) → ends has (λ _, False) x (code t')) →
  belongs w x ∨ (∃ (j : nat) u, ts !! j = Some u ∧ ends has (λ _, False) x (code u)) →
  belongs w x ∨ (∃ (j : nat) u, <[ i := t' ]> ts !! j = Some u ∧ ends has (λ _, False) x (code u)).
Proof.
  intros Hi Hx [?|(j & u & Hu & He)]; [by left|right].
  destruct (decide (i = j)) as [<-|Hne].
  - exists i, t'. split; [apply list_lookup_insert_eq; by eapply lookup_lt_Some|].
    apply Hx. congruence.
  - exists j, u. by rewrite list_lookup_insert_ne.
Qed.

(** A step of thread [i] that does not change the state. *)
Lemma custody_move ts w i t t' :
  custody (mkConfig ts w) → ts !! i = Some t →
  excludes (mkConfig (<[ i := t' ]> ts) w) →
  careful_thread (if decide (owns l0 t') then Some w else None) (code t') →
  (∀ x, ends has (λ _, False) x (code t) → ends has (λ _, False) x (code t')) →
  custody (mkConfig (<[ i := t' ]> ts) w).
Proof.
  intros [_ Hth Hk] Hi He' Hc Hx. simpl in *. split; simpl; [done| |].
  - intros j u [(<- & <- & _)|[Hn Hu]]%list_lookup_insert_Some; [done|by apply (Hth j)].
  - intros x Hhas. eapply kept_move; [done|apply Hx|by apply Hk].
Qed.

Lemma custody_act {X} (m : M W X) k h ts w i :
  custody (mkConfig ts w) → ts !! i = Some (mkThread h (Act m k)) →
  custody (mkConfig (<[ i := mkThread h (k (m w).2) ]> ts) (m w).1).
Proof.
  intros [He Hth Hk] Hi. pose proof (Hth _ _ Hi) as Hg. simpl in *.
  set (o := if decide (owns l0 (mkThread h (Act m k))) then Some w else None) in Hg.
  assert (leaves_none w (m w).1 (λ x, ends has (λ _, False) x (k (m w).2)) ∧
    careful_thread (if decide (owns l0 (mkThread h (Act m k))) then Some (m w).1 else None)
      (k (m w).2) ∧
    (¬ owns l0 (mkThread h (Act m k)) → rely w (m w).1)) as (Hl & Hc & Hr).
  { unfold o in Hg. clear o. case_decide; simpl in Hg.
    - destruct (Hg w) as [Hl Hc]; [done|]. by split_and!.
    - destruct (Hg w) as (Hr & Hl & Hc). by split_and!. }
  split; simpl.
  - eapply (excludes_step i (mkConfig ts w)); [by apply step_act|done].
  - intros j u [(<- & <- & _)|[Hn Hu]]%list_lookup_insert_Some; [done|].
    specialize (Hth j u Hu). destruct (decide (owns l0 u)) as [Hou|]; [|done].
    eapply careful_rely; [|done]. apply Hr. intros Ho.
    by destruct Hn; eapply (owner_alone _ (mkConfig ts w) _ _ _ _ He Hi Hu).
  - intros x Hx'. destruct (Hl x Hx') as [Hb|[Hx|[Hx Hnb]]]; [by left| |].
    + right. exists i, (mkThread h (k (m w).2)).
      split; [apply list_lookup_insert_eq; by eapply lookup_lt_Some|done].
    + destruct (Hk x Hx) as [?|(j & u & Hu & Hend)]; [left; auto|right].
      destruct (decide (i = j)) as [<-|Hne]; [|exists j, u; by rewrite list_lookup_insert_ne].
      assert (u = mkThread h (Act m k)) as -> by congruence. simpl in Hend.
      exists i, (mkThread h (k (m w).2)).
      split; [apply list_lookup_insert_eq; by eapply lookup_lt_Some|].
      by destruct (Hend w).
Qed.

Lemma custody_step c c' : pool_step c c' → custody c → custody c'.
Proof.
  intros [i Hs] Hp. pose proof (excludes_step _ _ _ Hs (cust_excludes _ Hp)) as He'.
  destruct Hs as [l m k h ts w Hi Hg|l m k h ts w Hi|X m k h ts w Hi].
  - pose proof (cust_threads _ Hp _ _ Hi) as Hc. unfold careful_thread in Hc. simpl in Hc.
    apply (custody_move ts w i _ _ Hp Hi He'); [|done]. simpl.
    destruct (decide (l = l0)) as [->|Hl].
    + destruct Hc as [_ Hc]. destruct m; simpl.
      { rewrite decide_False; [done|]. rewrite owns_cons.
        intros [[_ [=]]|Ho]. by apply (grants_free _ _ _ _ _ Hg Hi). }
      rewrite decide_True by (rewrite owns_cons; by left). apply Hc.
    + erewrite decide_ext; [exact Hc|]. rewrite owns_cons. naive_solver.
  - pose proof (cust_threads _ Hp _ _ Hi) as Hc. unfold careful_thread in Hc. simpl in Hc.
    apply (custody_move ts w i _ _ Hp Hi He'); [|done]. simpl.
    destruct (decide (l = l0)) as [->|Hl].
    + rewrite decide_False by exact (owner_once _ _ _ _ _ _ (cust_excludes _ Hp) Hi).
      by case_decide.
    + assert (owns l0 (mkThread h k) ↔ owns l0 (mkThread ((l, m) :: h) (Unlock l k))) as Heq
        by (rewrite owns_cons; unfold owns; simpl; naive_solver).
      rewrite (decide_ext _ _ _ _ Heq).
      by destruct (decide (owns l0 (mkThread ((l, m) :: h) (Unlock l k)))).
  - by apply custody_act.
Qed.

Lemma custody_steps c c' : rtc pool_step c c' → custody c → custody c'.
Proof. induction 1; [done|]. eauto using custody_step. Qed.

(** Who has ended owes nothing. *)
Lemma custody_end c x : custody c → all_finished c → has (shared c) x → belongs (shared c) x.
Proof.
  intros [_ _ Hk] Hf [?|(i & t & Ht & Hx)]%Hk; [done|exfalso].
  unfold all_finished in Hf. rewrite Forall_lookup in Hf. destruct (Hf _ _ Ht) as [r Hr].
  by rewrite Hr in Hx.
Qed.

(** ** Careful programs *)

Lemma leaves_none_mono w w' (P Q : T → Prop) :
  leaves_none w w' P → (∀ x, P x → Q x) → leaves_none w w' Q.
Proof. intros Hl HPQ x Hx. destruct (Hl x Hx) as [?|[?|?]]; auto. Qed.

Lemma careful_mono {A} (Kx Kx' : T → result A → Prop) (K K' : option W → result A → Prop) o p :
  careful Kx K o p → (∀ x r, Kx x r → Kx' x r) → (∀ o r, K o r → K' o r) → careful Kx' K' o p.
Proof.
  intros Hp Hx HK. revert o Hp.
  induction p as [r|l m k IH|l k IH|X m k IH]; intros o; simpl; [auto| | |].
  - case_decide; [|auto]. intros [? Hk]. split; [done|]. destruct m; auto.
  - destruct o; auto.
  - destruct o as [w|]; intros Hk w'.
    + intros Hr. destruct (Hk w' Hr) as [Hl Hc]. split; [|auto].
      eapply leaves_none_mono; [exact Hl|]. intros x He. by eapply ends_mono; [exact He|apply Hx].
    + destruct (Hk w') as (? & Hl & Hc). split_and!; [done| |auto].
      eapply leaves_none_mono; [exact Hl|]. intros x He. by eapply ends_mono; [exact He|apply Hx].
Qed.

Lemma careful_bind {A B} (Kx : T → result B → Prop) K o (p : prog W L A) (f : A → prog W L B) :
  careful (λ x r, match r with inl e => Kx x (inl e) | inr a => ends has (Kx x) x (f a) end)
    (λ o r, match r with inl e => K o (inl e) | inr a => careful Kx K o (f a) end) o p →
  careful Kx K o (pbind p f).
Proof.
  revert o. induction p as [[e|a]|l m k IH|l k IH|X m k IH]; intros o; simpl; [done|done| | |].
  - case_decide; [|auto]. intros [? Hk]. split; [done|]. destruct m; auto.
  - destruct o; auto.
  - destruct o as [w|]; intros Hk w'.
    + intros Hr. destruct (Hk w' Hr) as [Hl Hc]. split; [|auto].
      eapply leaves_none_mono; [exact Hl|]. intros x He. by apply ends_bind.
    + destruct (Hk w') as (? & Hl & Hc). split_and!; [done| |auto].
      eapply leaves_none_mono; [exact Hl|]. intros x He. by apply ends_bind.
Qed.

Lemma careful_catch {A} (Kx : T → result A → Prop) K o (p : prog W L A) h :
  careful (λ x r, match r with
                  | inl e => if catchable e then ends has (Kx x) x (h e) else Kx x (inl e)
                  | inr a => Kx x (inr a)
                  end)
    (λ o r, match r with
            | inl e => if catchable e then careful Kx K o (h e) else K o (inl e)
            | inr a => K o (inr a)
            end) o p →
  careful Kx K o (pcatch p h).
Proof.
  revert o. induction p as [[e|a]|l m k IH|l k IH|X m k IH]; intros o; simpl;
    [by destruct (catchable e)|done| | |].
  - case_decide; [|auto]. intros [? Hk]. split; [done|]. destruct m; auto.
  - destruct o; auto.
  - destruct o as [w|]; intros Hk w'.
    + intros Hr. destruct (Hk w' Hr) as [Hl Hc]. split; [|auto].
      eapply leaves_none_mono; [exact Hl|]. intros x He. by apply ends_catch.
    + destruct (Hk w') as (? & Hl & Hc). split_and!; [done| |auto].
      eapply leaves_none_mono; [exact Hl|]. intros x He. by apply ends_catch.
Qed.

(** The release at the end of a block, with or without [l0]. *)
Lemma careful_unlock_after {A} l (Kx : T → result A → Prop) K o (p : prog W L A) :
  careful Kx (λ o r, K (if decide (l = l0) then None else o) r) o p →
  careful Kx K o (unlock_after l p).
Proof.
  revert o. induction p as [r|l' m k IH|l' k IH|X m k IH]; intros o; simpl.
  - destruct o; by case_decide.
  - destruct (decide (l' = l0)); [|auto]. intros [? Hk]. split; [done|]. destruct m; auto.
  - destruct o; [|auto]. destruct (decide (l' = l0)); auto.
  - destruct o as [w|]; intros Hk w'.
    + intros Hr. destruct (Hk w' Hr) as [Hl Hc]. split; [|auto].
      eapply leaves_none_mono; [exact Hl|]. intros x He. by apply ends_unlock_after.
    + destruct (Hk w') as (? & Hl & Hc). split_and!; [done| |auto].
      eapply leaves_none_mono; [exact Hl|]. intros x He. by apply ends_unlock_after.
Qed.

Lemma careful_exclusive {A} (Kx : T → result A → Prop) K (p : prog W L A) :
  (∀ w, careful Kx (λ _ r, K None r) (Some w) p) →
  careful Kx K None (with_lock l0 Exclusive p).
Proof.
  intros Hp. simpl. rewrite decide_True by done. split; [done|]. intros w.
  apply careful_unlock_after. eapply careful_mono; [apply Hp|done|].
  intros o r. by rewrite decide_True.
Qed.

Lemma careful_act {A} (Kx : T → result A → Prop) K (m : M W A) w :
  (∀ w', rely w w' →
     leaves_none w' (m w').1 (λ x, Kx x (m w').2) ∧ K (Some (m w').1) (m w').2) →
  careful Kx K (Some w) (act m).
Proof. done. Qed.

(** One act under the lock, then the rest. *)
Lemma careful_bind_act {A B} (Kx : T → result B → Prop) K (m : M W A) (f : A → prog W L B) w :
  (∀ w', rely w w' →
     leaves_none w' (m w').1
       (λ x, match (m w').2 with inl e => Kx x (inl e) | inr a => ends has (Kx x) x (f a) end) ∧
     match (m w').2 with
     | inl e => K (Some (m w').1) (inl e)
     | inr a => careful Kx K (Some (m w').1) (f a)
     end) →
  careful Kx K (Some w) (pbind (act m) f).
Proof. intros Hm. by apply careful_bind. Qed.

(** ** Programs that owe nothing at their end *)

(** What holds while the lock is held, or not, may be so when others have done
    [rely]. *)
Definition stable (P : option W → Prop) : Prop := ∀ w w', rely w w' → P (Some w) → P (Some w').

Definition mild {A} (P : option W → Prop) (p : prog W L A) : Prop :=
  ∀ o, P o → careful nothing (λ o' _, P o') o p.

Definition unlocked (o : option W) : Prop := o = None.
Definition locked_in (o : option W) : Prop := is_Some o.

Lemma stable_unlocked : stable unlocked.
Proof. by intros w w' _ [=]. Qed.
Lemma stable_locked_in : stable locked_in.
Proof. intros w w' _ _. by eexists. Qed.

(** What a computation may do when it owes nothing. *)
Definition steady (w w' : W) : Prop := rely w w' ∧ leaves_none w w' (λ _, False).

Lemma mild_bind {A B} P (p : prog W L A) (f : A → prog W L B) :
  mild P p → (∀ a, mild P (f a)) → mild P (pbind p f).
Proof.
  intros Hp Hf o Ho. apply careful_bind. eapply careful_mono; [by apply Hp|by intros x r|].
  intros o' [e|a] Ho'; [done|]. by apply Hf.
Qed.

Lemma mild_catch {A} P (p : prog W L A) h :
  mild P p → (∀ e, mild P (h e)) → mild P (pcatch p h).
Proof.
  intros Hp Hh o Ho. apply careful_catch. eapply careful_mono; [by apply Hp|by intros x r|].
  intros o' [e|a] Ho'; [|done]. destruct (catchable e); [by apply Hh|done].
Qed.

Lemma mild_ret {A} P (a : A) : mild P (pret a).
Proof. by intros o Ho. Qed.

Lemma mild_for_each {X} P (l : list X) p :
  (∀ x, mild P (p x)) → mild P (pfor_each l p).
Proof. intros Hp. induction l; simpl; [apply mild_ret|]. by apply mild_bind. Qed.

Lemma mild_when P b p : mild P p → mild P (pwhen b p).
Proof. destruct b; [done|]. intros _. apply mild_ret. Qed.

(** Where [R] says what the acts do, and [P] is enough for them to owe nothing. *)
Lemma mild_quiet {A} (P : option W → Prop) (R : W → W → Prop) (p : prog W L A) :
  stable P → (∀ w w', R w w' → rely w w') →
  (∀ w w', P (Some w) ∨ P None → R w w' → leaves_none w w' (λ _, False)) →
  quiet l0 R p → mild P p.
Proof.
  intros Hst Hrely Hnone Hq o. revert o Hq.
  induction p as [r|l m k IH|l k IH|X m k IH]; intros o; simpl; [done| | |].
  - intros [Hl Hk] Ho. rewrite decide_False by done. by apply IH.
  - intros [Hl Hk] Ho. destruct o; [rewrite decide_False by done|]; by apply IH.
  - intros [Hm Hk] Ho.
    assert (∀ w, P (Some w) ∨ P None →
      leaves_none w (m w).1 (λ x, ends has (nothing x) x (k (m w).2))) as Hleaves.
    { intros w Hw. eapply leaves_none_mono; [by eapply Hnone; [exact Hw|apply Hm]|done]. }
    destruct o as [w|]; intros w'.
    + intros Hr. pose proof (Hst _ _ Hr Ho) as Ho'. split; [auto|].
      apply IH; [done|]. eapply Hst; [apply Hrely, Hm|done].
    + split_and!; [apply Hrely, Hm|auto|by apply IH].
Qed.

Lemma mild_act {A} P (m : M W A) : stable P → preserves steady m → mild P (act m).
Proof.
  intros Hst Hm. apply (mild_quiet P steady); [done| | |by apply quiet_act].
  - by intros w w' [? _].
  - by intros w w' _ [_ ?].
Qed.

Lemma mild_exclusive {A} (p : prog W L A) :
  mild locked_in p → mild unlocked (with_lock l0 Exclusive p).
Proof.
  intros Hp o ->. apply careful_exclusive. intros w.
  eapply careful_mono; [apply Hp; by eexists|done|done].
Qed.

Lemma mild_shared {A} (p : prog W L A) :
  mild unlocked p → mild unlocked (with_lock l0 Shared p).
Proof.
  intros Hp o ->. simpl. rewrite decide_True by done. split; [done|].
  apply careful_unlock_after. eapply careful_mono; [by apply Hp|done|].
  intros o r ->. by case_decide.
Qed.

Lemma mild_with_lock {A} P l m (p : prog W L A) : l ≠ l0 → mild P p → mild P (with_lock l m p).
Proof.
  intros Hl Hp o Ho. simpl. rewrite decide_False by done. apply careful_unlock_after.
  eapply careful_mono; [by apply Hp|done|]. intros o' r. by rewrite decide_False.
Qed.

Lemma mild_thread (p : prog W L unit) : mild unlocked p → careful_thread None p.
Proof. intros Hp. by apply Hp. Qed.

Lemma careful_then {A} (p : prog W L A) (f : A → prog W L unit) :
  careful nothing outside None p → (∀ a, careful_thread None (f a)) → careful_thread None (pbind p f).
Proof.
  intros Hp Hf. apply careful_bind. eapply careful_mono; [exact Hp|by intros x r|].
  intros o [e|a] ->; [done|apply Hf].
Qed.

Lemma careful_for_each {X} (l : list X) p :
  (∀ x, x ∈ l → careful_thread None (p x)) → careful_thread None (pfor_each l p).
Proof.
  induction l as [|x l IH]; intros Hp; simpl; [done|].
  apply careful_then; [apply Hp; apply list_elem_of_here|]. intros _. apply IH.
  intros y Hy. apply Hp. by apply list_elem_of_further.
Qed.

Lemma careful_when b p : careful_thread None p → careful_thread None (pwhen b p).
Proof. by destruct b. Qed.

Lemma careful_with_lock l m (p : prog W L unit) :
  l ≠ l0 → careful_thread None p → careful_thread None (with_lock l m p).
Proof.
  intros Hl Hp. unfold careful_thread. simpl. rewrite decide_False by done.
  apply careful_unlock_after. eapply careful_mono; [exact Hp|done|].
  intros o r ->. by case_decide.
Qed.

(** Nothing is left behind in any run of careful threads. *)
Lemma custody_run ps w c :
  Forall (careful_thread None) ps → (∀ x, has w x → belongs w x) →
  rtc pool_step (mkConfig (fresh_thread <$> ps) w) c →
  (∀ x, has (shared c) x → belongs (shared c) x ∨
     ∃ i t, pool c !! i = Some t ∧ ends has (λ _, False) x (code t)) ∧
  (all_finished c → ∀ x, has (shared c) x → belongs (shared c) x).
Proof.
  intros Hps Hw Hrun. assert (custody c) as Hc by (eapply custody_steps; [done|by apply custody_start]).
  split; [apply Hc|]. intros Hf x. by apply custody_end.
Qed.
End custody.
