(* ===== verification/Deadlock.v ===== *)
(** * Deadlock

    How far a thread gets on its own before it asks for a given lock; and two
    threads that each ask for a lock the other holds. *)

From stdpp Require Import relations.
From S2P Require Import Prelude Threads ThreadPool.

Section deadlock.
Context {W L : Type} `{EqDecision L}.

(** From the state [w] and with the locks [h], the program gets as far as asking
    for [stop], without a lock of [busy]; [Q] holds there of the locks it holds
    and of the state. *)
Fixpoint waits {A} (stop : L) (busy : list L) (Q : list (L * Mode) → W → Prop)
    (h : list (L * Mode)) (p : prog W L A) (w : W) : Prop :=
  match p with
  | Done _ | Unlock _ _ => False
  | Lock l m k =>
      if decide (l = stop) then Q h w
      else (l ∉ busy) ∧ (l ∉ h.*1) ∧ waits stop busy Q ((l, m) :: h) k w
  | Act m k => waits stop busy Q h (k (m w).2) (m w).1
  end.

Section rules.
Context (stop : L) (busy : list L) (Q : list (L * Mode) → W → Prop).

Lemma waits_bind {A B} h (p : prog W L A) (f : A → prog W L B) w :
  waits stop busy Q h p w → waits stop busy Q h (pbind p f) w.
Proof.
  revert h w. induction p as [r|l m k IH|l k IH|X m k IH]; intros h w; simpl; [done| |done|auto].
  case_decide; [done|]. naive_solver.
Qed.

Lemma waits_catch {A} h (p : prog W L A) f w :
  waits stop busy Q h p w → waits stop busy Q h (pcatch p f) w.
Proof.
  revert h w. induction p as [r|l m k IH|l k IH|X m k IH]; intros h w; simpl; [done| |done|auto].
  case_decide; [done|]. naive_solver.
Qed.

Lemma waits_unlock_after {A} l h (p : prog W L A) w :
  waits stop busy Q h p w → waits stop busy Q h (unlock_after l p) w.
Proof.
  revert h w. induction p as [r|l' m k IH|l' k IH|X m k IH]; intros h w; simpl; [done| |done|auto].
  case_decide; [done|]. naive_solver.
Qed.

(** An act that answers [a], then the rest. *)
Lemma waits_act {A B} h (m : M W A) (f : A → prog W L B) w w' a :
  m w = (w', inr a) → waits stop busy Q h (f a) w' → waits stop busy Q h (pbind (act m) f) w.
Proof. intros Hm Hf. simpl. by rewrite Hm. Qed.

Lemma waits_with_lock {A} l m h (p : prog W L A) w :
  l ≠ stop → l ∉ busy → l ∉ (h.*1) → waits stop busy Q ((l, m) :: h) p w →
  waits stop busy Q h (with_lock l m p) w.
Proof.
  intros Hl Hb Hh Hp. simpl. rewrite decide_False by done. split_and!; [done..|].
  by apply waits_unlock_after.
Qed.

Lemma waits_stop {A} m h (p : prog W L A) w :
  Q h w → waits stop busy Q h (with_lock stop m p) w.
Proof. intros HQ. simpl. by rewrite decide_True. Qed.

Lemma waits_for_each {X} h x (l : list X) body w :
  waits stop busy Q h (body x) w → waits stop busy Q h (pfor_each (x :: l) body) w.
Proof. apply waits_bind. Qed.

(** The thread does get there, while the others do nothing. *)
Lemma waits_run p h i ts w :
  waits stop busy Q h p w → ts !! i = Some (mkThread h p) →
  (∀ j t l, j ≠ i → ts !! j = Some t → l ∈ (held t).*1 → l ∈ busy) →
  ∃ h' m k w', rtc pool_step (mkConfig ts w) (mkConfig (<[ i := mkThread h' (Lock stop m k) ]> ts) w')
    ∧ Q h' w'.
Proof.
  revert h ts w. induction p as [r|l m k IH|l k IH|X m k IH]; intros h ts w Hp Hi Hbusy;
    simpl in Hp; [done| |done|].
  - destruct (decide (l = stop)) as [->|Hl].
    { exists h, m, k, w. split; [|done]. by rewrite list_insert_id. }
    destruct Hp as (Hnb & Hnh & Hp).
    edestruct (IH ((l, m) :: h) (<[ i := mkThread ((l, m) :: h) k ]> ts) w) as
      (h' & m' & k' & w' & Hrun & HQ).
    + done.
    + apply list_lookup_insert_eq. by eapply lookup_lt_Some.
    + intros j t l' Hj. rewrite list_lookup_insert_ne by done. by apply Hbusy.
    + exists h', m', k', w'. split; [|done]. eapply rtc_l.
      * exists i. apply (step_lock _ l m k h); [done|]. apply Forall_lookup. intros j t Hj.
        apply Forall_forall. intros [l' m''] Hin. simpl. intros ->.
        assert (l ∈ (held t).*1) as Hl' by (apply list_elem_of_fmap; by exists (l, m'')).
        destruct (decide (j = i)) as [->|Hne]; [|by destruct Hnb; eapply Hbusy].
        rewrite Hi in Hj. by injection Hj as <-.
      * by rewrite list_insert_insert_eq in Hrun.
  - edestruct (IH (m w).2 h (<[ i := mkThread h (k (m w).2) ]> ts) (m w).1) as
      (h' & m' & k' & w' & Hrun & HQ).
    + done.
    + apply list_lookup_insert_eq. by eapply lookup_lt_Some.
    + intros j t l' Hj. rewrite list_lookup_insert_ne by done. by apply Hbusy.
    + exists h', m', k', w'. split; [|done]. eapply rtc_l; [exists i; by apply step_act|].
      by rewrite list_insert_insert_eq in Hrun.
Qed.
End rules.

(** The threads of [c] have not all ended, and none can go on. *)
Definition deadlocked (c : Config W L) : Prop :=
  ¬ all_finished c ∧ nf pool_step c.

Lemma waiting_deadlocked la lb ma mb ha hb ka kb w :
  (la, Exclusive) ∈ ha → (lb, Exclusive) ∈ hb →
  deadlocked (mkConfig [mkThread ha (Lock lb ma ka); mkThread hb (Lock la mb kb)] w).
Proof.
  intros Ha Hb. split.
  - intros Hf. inversion Hf as [|? ? [r Hr]]. done.
  - assert (∀ l m h (t : Thread W L), (l, Exclusive) ∈ h → held t = h → ¬ grants l m t) as Hno.
    { intros l m h t Hin <- Hg. unfold grants in Hg. rewrite Forall_forall in Hg.
      by destruct (Hg _ Hin eq_refl). }
    intros [c' [i Hs]]. inversion Hs as [l m k h ts w0 Hi Hg|l m k h ts w0 Hi|X m k h ts w0 Hi];
      subst; destruct i as [|[|i]]; simplify_eq/=.
    + rewrite !Forall_cons in Hg. destruct Hg as (_ & Hg & _). by eapply Hno in Hg.
    + rewrite !Forall_cons in Hg. destruct Hg as (Hg & _ & _). by eapply Hno in Hg.
Qed.

(** A thread that asks for a lock it holds waits for itself, whatever the others
    do. *)
Lemma self_waiting i h l m k (c c' : Config W L) :
  rtc pool_step c c' → (l, m) ∈ h →
  pool c !! i = Some (mkThread h (Lock l Exclusive k)) →
  pool c' !! i = Some (mkThread h (Lock l Exclusive k)).
Proof.
  intros Hrun Hh. induction Hrun as [c|c c1 c' [j Hs] _ IH]; [done|]. intros Hi. apply IH.
  destruct Hs as [l' m' k' h' ts w Hj Hg|l' m' k' h' ts w Hj|X m' k' h' ts w Hj]; simpl in *;
    (rewrite list_lookup_insert_ne; [done|intros ->; rewrite Hi in Hj; try discriminate Hj]).
  injection Hj as <- <- <- <-. rewrite Forall_lookup in Hg. specialize (Hg _ _ Hi).
  unfold grants in Hg. rewrite Forall_forall in Hg. by destruct (Hg _ Hh eq_refl).
Qed.

(** Two threads that reach each other's locks can be run into a deadlock. *)
Lemma deadlock_of la lb pa pb w :
  waits lb [] (λ ha wa, (la, Exclusive) ∈ ha ∧ (lb ∉ ha.*1) ∧
    waits la ha.*1 (λ hb _, (lb, Exclusive) ∈ hb) [] pb wa) [] pa w →
  ∃ c, rtc pool_step (mkConfig [fresh_thread pa; fresh_thread pb] w) c ∧ deadlocked c.
Proof.
  intros Ha.
  destruct (waits_run lb [] _ pa [] 0 [fresh_thread pa; fresh_thread pb] w Ha) as
    (ha & ma & ka & wa & Hrun & Hla & _ & Hb); [done| |].
  { intros [|[|j]] t l Hj Ht Hin; simplify_eq/=; by apply not_elem_of_nil in Hin. }
  destruct (waits_run la ha.*1 _ pb [] 1 [mkThread ha (Lock lb ma ka); fresh_thread pb] wa Hb) as
    (hb & mb & kb & wb & Hrun' & Hlb); [done| |].
  { intros [|[|j]] t l Hj Ht Hin; simplify_eq/=; done. }
  eexists. split; [by etrans|]. by apply waiting_deadlocked.
Qed.
End deadlock.
