(* ===== verification/Atomicity.v ===== *)
(** * Calls that a mutex makes atomic

    Threads that each make a list of calls.  A call takes one mutex, exclusively
    and for all it does, or shared and for reads of what the mutex protects with
    one act after them.  Then every run of the pool is a run in which the calls
    happen at once, one after the other: the calls of a thread in its order,
    those of different threads in some order. *)

From stdpp Require Import relations.
From S2P Require Import Prelude Threads ThreadPool.

Local Open Scope list_scope.

Section atomicity.
Context {W L V C : Type} `{EqDecision L}.
Context (l0 : L) (part : W → V) (op : C → M W unit).

(** What is left of a thread: how it has ended so far, and the calls to come. *)
Abbreviation todo := (result unit * list C)%type.

(** After a call: an exception ends the thread. *)
Definition after (r : result unit) (cs : list C) : todo :=
  (r, match r with inl _ => [] | inr _ => cs end).

Definition andthen (d : todo) (cs : list C) : todo :=
  (d.1, match d.1 with inl _ => [] | inr _ => d.2 ++ cs end).

Lemma andthen_after r cs cs' : andthen (after r cs) cs' = after r (cs ++ cs').
Proof. by destruct r. Qed.

(** ** Calls that happen at once *)

Inductive atomic_step : list todo * W → list todo * W → Prop :=
| atomic_call i c cs ds w :
    ds !! i = Some (inr tt, c :: cs) →
    atomic_step (ds, w) (<[ i := after (op c w).2 cs ]> ds, (op c w).1).

(** ** Programs that stand for calls *)

(** Outside the mutex; inside it shared, before and after the call has happened,
    [v] being what the mutex protects; inside it exclusively, in the state [w],
    the call leading to [w']. *)
Inductive Phase := Outside | Reading (v : V) | Written | Inside (w w' : W).

(** The program, in its phase, does what [d] says.  A call happens when the mutex
    is taken exclusively, or at the act that writes. *)
Fixpoint follows (ph : Phase) (p : prog W L unit) (d : todo) : Prop :=
  match ph with
  | Outside =>
      match p with
      | Done r => d = (r, [])
      | Unlock _ _ => False
      | Lock l Shared k => l = l0 ∧ ∀ v, follows (Reading v) k d
      | Lock l Exclusive k => l = l0 ∧ ∃ c cs, d = (inr tt, c :: cs) ∧
          ∀ w, follows (Inside w (op c w).1) k (after (op c w).2 cs)
      | Act m k => ∃ x, (∀ w, m w = (w, x)) ∧
          (follows Outside (k x) d ∨
           ∃ c cs r, d = (inr tt, c :: cs) ∧ (∀ w, op c w = (w, r)) ∧
             follows Outside (k x) (after r cs))
      end
  | Reading v =>
      match p with
      | Unlock l k => l = l0 ∧ ∃ c cs, d = (inr tt, c :: cs) ∧
          ∀ w, part w = v → (op c w).1 = w ∧ follows Outside k (after (op c w).2 cs)
      | Act m k =>
          (∀ w, part w = v → (m w).1 = w ∧ follows (Reading v) (k (m w).2) d) ∨
          ∃ c cs, d = (inr tt, c :: cs) ∧ ∀ w, part w = v →
            part (m w).1 = v ∧ (m w).1 = (op c w).1 ∧
            follows Written (k (m w).2) (after (op c w).2 cs)
      | _ => False
      end
  | Written =>
      match p with Unlock l k => l = l0 ∧ follows Outside k d | _ => False end
  | Inside w w' =>
      match p with
      | Unlock l k => l = l0 ∧ w = w' ∧ follows Outside k d
      | Act m k => follows (Inside (m w).1 w') (k (m w).2) d
      | _ => False
      end
  end.

(** *** Rules *)

Lemma follows_bind ph p d f cs :
  follows ph p d → follows Outside (f tt) (inr tt, cs) → follows ph (pbind p f) (andthen d cs).
Proof.
  intros Hp Hf. revert ph d Hp.
  assert (∀ c cs1, andthen (inr tt, c :: cs1) cs = (inr tt, c :: (cs1 ++ cs))) as Hc by done.
  induction p as [[e|[]]|l m k IH|l k IH|X m k IH]; intros [|v| |w w'] d; simpl; try done.
  - by intros ->.
  - by intros ->.
  - destruct m; [naive_solver|]. intros [-> (c & cs1 & -> & Hk)]. split; [done|].
    exists c, (cs1 ++ cs). split; [done|]. intros w. rewrite <-andthen_after. auto.
  - intros [-> (c & cs1 & -> & Hk)]. split; [done|]. exists c, (cs1 ++ cs). split; [done|].
    intros w Hw. rewrite <-andthen_after. naive_solver.
  - naive_solver.
  - naive_solver.
  - intros (x & Hx & [Hk|(c & cs1 & r & -> & Hop & Hk)]); exists x; (split; [done|]);
      [left; auto|right]. exists c, (cs1 ++ cs), r. rewrite <-andthen_after. auto.
  - intros [Hk|(c & cs1 & -> & Hk)]; [left; naive_solver|right].
    exists c, (cs1 ++ cs). split; [done|]. intros w Hw. rewrite <-andthen_after. naive_solver.
  - auto.
Qed.

(** A thread that makes calls. *)
Lemma follows_calls (p : C → prog W L unit) cs :
  (∀ c, follows Outside (p c) (inr tt, [c])) →
  follows Outside (pfor_each cs p) (inr tt, cs).
Proof.
  intros Hp. induction cs as [|c cs IH]; simpl; [done|].
  by apply (follows_bind Outside (p c) (inr tt, [c]) (λ _, pfor_each cs p) cs).
Qed.

(** Acts and nothing else. *)
Fixpoint only_acts {A} (p : prog W L A) : Prop :=
  match p with
  | Done _ => True
  | Lock _ _ _ | Unlock _ _ => False
  | Act _ k => ∀ r, only_acts (k r)
  end.

Lemma only_acts_bind {A B} (p : prog W L A) (f : A → prog W L B) :
  only_acts p → (∀ a, only_acts (f a)) → only_acts (pbind p f).
Proof. intros Hp Hf. induction p as [[e|a]| | |X m k IH]; simpl in *; naive_solver. Qed.

Lemma only_acts_act {A} (m : M W A) : only_acts (act m).
Proof. done. Qed.

Lemma only_acts_ret {A} (a : A) : only_acts (pret a).
Proof. done. Qed.

Lemma only_acts_ordered rank {A} h (p : prog W L A) : only_acts p → ordered rank h p h.
Proof. induction p; simpl; naive_solver. Qed.

Lemma follows_inside p w w' r :
  only_acts p → solo p w = (w', r) →
  follows (Inside w w') (unlock_after l0 p) (r, []).
Proof.
  revert w. induction p as [r0|l m k IH|l k IH|X m k IH]; intros w; simpl; try done.
  - by intros _ [= -> ->].
  - intros Hk. destruct (m w) as [w1 x]. auto.
Qed.

(** A call that does all it does under the mutex. *)
Lemma follows_exclusive c p :
  only_acts p → runs p (op c) → follows Outside (with_lock l0 Exclusive p) (inr tt, [c]).
Proof.
  intros Hp Hr. simpl. split; [done|]. exists c, []. split; [done|]. intros w.
  destruct (op c w) as [w' r] eqn:Hop. simpl.
  assert (after r [] = (r, [])) as -> by (by destruct r).
  apply follows_inside; [done|]. by rewrite Hr.
Qed.

(** A call that reads, and does one act if what it read says so. *)
Lemma follows_shared {X} c (g : W → X) (b : X → bool) (m : X → M W unit) :
  (∀ w w', part w = part w' → g w = g w') →
  (∀ x w, part (m x w).1 = part w) →
  (∀ w, op c w = if b (g w) then m (g w) w else (w, inr tt)) →
  follows Outside
    (with_lock l0 Shared (let* x := act (gets g) in pwhen (b x) (act (m x)))) (inr tt, [c]).
Proof.
  intros Hg Hm Hop. simpl. split; [done|]. intros v. left. intros w Hw. split; [done|].
  unfold pwhen. destruct (b (g w)) eqn:Hb; simpl.
  - right. exists c, []. split; [done|]. intros w' Hw'.
    rewrite (Hop w'), (Hg w' w), Hb by congruence. split_and!; [by rewrite Hm|done..|].
    by destruct (m (g w) w').2.
  - split; [done|]. exists c, []. split; [done|]. intros w' Hw'.
    by rewrite (Hop w'), (Hg w' w), Hb by congruence.
Qed.

(** Before the mutex, a computation that may throw. *)
Lemma follows_lift {A} c (r : result A) f :
  (∀ a, r = inr a → follows Outside (f a) (inr tt, [c])) →
  (∀ e w, r = inl e → op c w = (w, inl e)) →
  follows Outside (let* a := act (lift r) in f a) (inr tt, [c]).
Proof.
  intros Hf He. exists r. split; [by destruct r|]. destruct r as [e|a]; simpl.
  - right. exists c, [], (inl e). auto.
  - left. auto.
Qed.

(** ** The simulation *)

Definition reader (v : V) (t : Thread W L) (d : todo) : Prop :=
  (held t = [] ∧ follows Outside (code t) d) ∨
  (held t = [(l0, Shared)] ∧ (follows (Reading v) (code t) d ∨ follows Written (code t) d)).

Definition outside (t : Thread W L) (d : todo) : Prop :=
  held t = [] ∧ follows Outside (code t) d.

(** [ds] and [w] are what has come of the calls that have happened. *)
Inductive linked : Config W L → list todo → W → Prop :=
| linked_shared ts ds w :
    Forall2 (reader (part w)) ts ds → linked (mkConfig ts w) ds w
| linked_exclusive ts ds w w' i p d :
    Forall2 outside ts ds → i < length ts → follows (Inside w w') p d →
    linked (mkConfig (<[ i := mkThread [(l0, Exclusive)] p ]> ts) w) (<[ i := d ]> ds) w'.

Lemma Forall2_outside_reader v ts ds : Forall2 outside ts ds → Forall2 (reader v) ts ds.
Proof. intros H. eapply Forall2_impl; [done|]. by left. Qed.

Lemma linked_fresh (ps : list (prog W L unit)) css w :
  Forall2 (λ p cs, follows Outside p (inr tt, cs)) ps css →
  linked (mkConfig (fresh_thread <$> ps) w) (pair (inr tt) <$> css) w.
Proof.
  intros Hp. constructor. apply Forall2_fmap. eapply Forall2_impl; [done|]. by left.
Qed.

(** Nobody holds the mutex exclusively, if a thread gets it; and nobody at all, if
    a thread gets it exclusively. *)
Lemma grants_outside v ts ds :
  Forall2 (reader v) ts ds → Forall (grants l0 Exclusive) ts → Forall2 outside ts ds.
Proof.
  intros Hr Hg. rewrite Forall2_lookup in Hr |- *. intros j. specialize (Hr j).
  destruct (ts !! j) as [t|] eqn:Ht; inversion Hr as [? d Hd|]; subst; constructor.
  destruct Hd as [Hd|[Hd _]]; [done|]. rewrite Forall_lookup in Hg. specialize (Hg j t Ht).
  unfold grants in Hg. rewrite Hd in Hg. apply Forall_cons in Hg as [Hg _].
  by destruct (Hg eq_refl).
Qed.

Lemma Forall2_insert_l (P : Thread W L → todo → Prop) ts ds i t u d :
  Forall2 P ts ds → ts !! i = Some t → ds !! i = Some d → P u d → Forall2 P (<[ i := u ]> ts) ds.
Proof.
  intros H Ht Hd Hu. rewrite <-(list_insert_id ds i d Hd). by apply Forall2_insert.
Qed.

(** What a thread outside the mutex does. *)
Lemma outside_act {X} (m : M W X) k d w :
  follows Outside (Act m k) d →
  (m w).1 = w ∧
  (follows Outside (k (m w).2) d ∨
   ∃ c cs, d = (inr tt, c :: cs) ∧ ∀ w', (op c w').1 = w' ∧
     follows Outside (k (m w).2) (after (op c w').2 cs)).
Proof.
  intros (x & Hx & Hk). rewrite Hx. split; [done|]. destruct Hk as [Hk|(c & cs & r & -> & Hop & Hk)].
  - by left.
  - right. exists c, cs. split; [done|]. intros w'. by rewrite Hop.
Qed.

Lemma reader_lookup v ts ds i t :
  Forall2 (reader v) ts ds → ts !! i = Some t → ∃ d, ds !! i = Some d ∧ reader v t d.
Proof. intros H Ht. by eapply Forall2_lookup_l in H. Qed.

Lemma shared_step i c c' ds w :
  thread_step i c c' → Forall2 (reader (part w)) (pool c) ds → shared c = w →
  ∃ ds' w', rtc atomic_step (ds, w) (ds', w') ∧ linked c' ds' w'.
Proof.
  intros Hs Hr <-. revert Hr.
  destruct Hs as [l m k h ts w Hi Hg|l m k h ts w Hi|X m k h ts w Hi]; simpl; intros Hr;
    destruct (reader_lookup _ _ _ _ _ Hr Hi) as (d & Hd & [[Hh Hk]|[Hh [Hk|Hk]]]);
    simpl in Hh, Hk; simplify_eq; try done; try by destruct Hk.
  - destruct m; simpl in Hk.
    + destruct Hk as [-> Hk]. exists ds, w. split; [done|]. constructor.
      eapply Forall2_insert_l; [done..|]. right. split; [done|]. by left.
    + destruct Hk as [-> (c & cs & -> & Hk)]. do 2 eexists. split.
      { by apply rtc_once, (atomic_call i c cs). }
      apply linked_exclusive with (ts := ts); [|by eapply lookup_lt_Some|apply Hk].
      by eapply grants_outside.
  - destruct Hk as [_ (c & cs & -> & Hk)]. destruct (Hk w eq_refl) as [Hw Hf].
    do 2 eexists. split; [by apply rtc_once, (atomic_call i c cs)|]. rewrite Hw. constructor.
    apply Forall2_insert; [done|]. by left.
  - destruct Hk as [_ Hk]. exists ds, w. split; [done|]. constructor.
    eapply Forall2_insert_l; [done..|]. by left.
  - destruct (outside_act m k d w Hk) as [Hw [Hf|(c & cs & -> & Hf)]]; rewrite Hw.
    + exists ds, w. split; [done|]. constructor. eapply Forall2_insert_l; [done..|]. by left.
    + destruct (Hf w) as [Hop Hf']. do 2 eexists. split; [by apply rtc_once, (atomic_call i c cs)|].
      rewrite Hop. constructor. apply Forall2_insert; [done|]. by left.
  - destruct Hk as [Hk|(c & cs & -> & Hk)].
    + destruct (Hk w eq_refl) as [Hw Hf]. rewrite Hw. exists ds, w. split; [done|]. constructor.
      eapply Forall2_insert_l; [done..|]. right. split; [done|]. by left.
    + destruct (Hk w eq_refl) as (Hp & Hw & Hf). do 2 eexists.
      split; [by apply rtc_once, (atomic_call i c cs)|]. rewrite <-Hw. constructor. rewrite Hp.
      apply Forall2_insert; [done|]. right. split; [done|]. by right.
Qed.

Lemma denied (ts : list (Thread W L)) i t m :
  ts !! i = Some t → held t = [(l0, Exclusive)] → ¬ Forall (grants l0 m) ts.
Proof.
  intros Ht Hh Hg. rewrite Forall_lookup in Hg. specialize (Hg i t Ht).
  unfold grants in Hg. rewrite Hh in Hg. apply Forall_cons in Hg as [Hg _].
  by destruct (Hg eq_refl).
Qed.

Lemma exclusive_step i j c c' ts ds w w' p d :
  thread_step j c c' → c = mkConfig (<[ i := mkThread [(l0, Exclusive)] p ]> ts) w →
  Forall2 outside ts ds → i < length ts → follows (Inside w w') p d →
  ∃ ds' w'', rtc atomic_step (<[ i := d ]> ds, w') (ds', w'') ∧ linked c' ds' w''.
Proof.
  intros Hs Hc Ho Hi Hp.
  assert (∀ t, (<[ i := mkThread [(l0, Exclusive)] p ]> ts) !! j = Some t →
    (i = j ∧ t = mkThread [(l0, Exclusive)] p) ∨
    (i ≠ j ∧ ts !! j = Some t ∧ ∃ d', ds !! j = Some d' ∧ outside t d')) as Hlook.
  { intros t [(<- & <- & _)|[Hne Ht]]%list_lookup_insert_Some; [by left|right].
    split_and!; [done..|]. by eapply Forall2_lookup_l in Ho. }
  destruct Hs as [l m k h ts' w1 Hj Hg|l m k h ts' w1 Hj|X m k h ts' w1 Hj];
    injection Hc as -> ->; destruct (Hlook _ Hj) as [[-> Heq]|(Hne & Ht & d' & Hd' & [Hh Hk])];
    try (injection Heq as -> ->); simplify_eq/=; try done.
  - exfalso. assert (l = l0) as -> by (by destruct m; destruct Hk).
    eapply (denied _ i (mkThread [(l0, Exclusive)] p)); [|done..].
    by apply list_lookup_insert_eq.
  - destruct Hp as (_ & -> & Hk). exists (<[ j := d ]> ds), w'. split; [done|].
    rewrite list_insert_insert_eq. constructor. apply Forall2_insert; [|by left].
    by apply Forall2_outside_reader.
  - exists (<[ j := d ]> ds), w'. split; [done|]. rewrite list_insert_insert_eq.
    by apply linked_exclusive with (ts := ts).
  - destruct (outside_act m k d' w Hk) as [Hw [Hf|(c & cs & -> & Hf)]]; rewrite Hw.
    + exists (<[ i := d ]> ds), w'. split; [done|]. rewrite list_insert_insert_ne by done.
      apply linked_exclusive with (ts := <[ j := mkThread [] (k (m w).2) ]> ts); [| |done].
      * by eapply Forall2_insert_l.
      * by rewrite length_insert.
    + destruct (Hf w') as [Hop Hf']. do 2 eexists. split.
      { apply rtc_once, (atomic_call j c cs). by rewrite list_lookup_insert_ne. }
      rewrite Hop, !(list_insert_insert_ne _ j i) by done.
      apply linked_exclusive with (ts := <[ j := mkThread [] (k (m w).2) ]> ts); [| |done].
      * by apply Forall2_insert.
      * by rewrite length_insert.
Qed.

Lemma linked_step c c' ds w :
  pool_step c c' → linked c ds w →
  ∃ ds' w', rtc atomic_step (ds, w) (ds', w') ∧ linked c' ds' w'.
Proof.
  intros [j Hs] Hl. destruct Hl as [ts ds0 w0 Hr|ts ds0 w0 w' i p d Ho Hi Hp].
  - by eapply shared_step.
  - by eapply exclusive_step.
Qed.

Lemma linked_steps c c' ds w :
  rtc pool_step c c' → linked c ds w →
  ∃ ds' w', rtc atomic_step (ds, w) (ds', w') ∧ linked c' ds' w'.
Proof.
  intros Hrun. revert ds w. induction Hrun as [c|c c1 c' Hs _ IH]; intros ds w Hl; [by exists ds, w|].
  destruct (linked_step _ _ _ _ Hs Hl) as (ds1 & w1 & H1 & Hl1).
  destruct (IH _ _ Hl1) as (ds2 & w2 & H2 & Hl2). exists ds2, w2. split; [by etrans|done].
Qed.

(** When nobody holds the mutex exclusively, the state is what the calls have
    made of it; and a thread that has ended has made all its calls. *)
Lemma linked_state c ds w :
  linked c ds w → Forall (grants l0 Shared) (pool c) → shared c = w.
Proof.
  intros [ts ds0 w0 Hr|ts ds0 w0 w' i p d Ho Hi Hp] Hg; [done|]. exfalso.
  eapply (denied _ i (mkThread [(l0, Exclusive)] p)); [|done..].
  by apply list_lookup_insert_eq.
Qed.

Lemma linked_ended c ds w i h r :
  linked c ds w → pool c !! i = Some (mkThread h (Done r)) → ds !! i = Some (r, []) ∧ h = [].
Proof.
  intros [ts ds0 w0 Hr|ts ds0 w0 w' j p d Ho Hi Hp]; simpl.
  - intros Ht. destruct (reader_lookup _ _ _ _ _ Hr Ht) as (d & Hd & [[Hh Hk]|[_ [[]|[]]]]).
    simpl in *. by subst.
  - intros [(<- & [= <- ->] & _)|[Hne Ht]]%list_lookup_insert_Some; [done|].
    rewrite list_lookup_insert_ne by done.
    eapply Forall2_lookup_l in Ho as (d' & Hd & Hh & Hk); [|done]. simpl in *. by subst.
Qed.
End atomicity.
