(* ===== verification/ClientThreads.v ===== *)
(** * The client's member functions with their mutex

    Each member function of [Client] as a program: one act per statement, the
    mutex around the statements its guard covers.  The calls of the client's
    users and the messages the endpoint's thread delivers are the calls of a
    pool; [client_op] is what each does on its own. *)

From Stdlib Require Import Strings.Byte.
From S2P Require Import Prelude Serialization Common Interfaces Server Client.
From S2P Require Import Threads ThreadPool Deadlock Atomicity.

Local Open Scope Z_scope.
Local Open Scope string_scope.
Local Open Scope list_scope.

(** The client's [_mutex], and those its user may have. *)
Inductive ClientLock := ClientMutex | UserMutex (n : nat).

#[export] Instance ClientLock_eq_dec : EqDecision ClientLock.
Proof. solve_decision. Defined.

(** The client's mutex comes first. *)
Definition client_rank (l : ClientLock) : nat :=
  match l with ClientMutex => 0 | UserMutex n => S n end%nat.

(** The client, and the state its message handlers work on. *)
Record ClientWorld `{WebsocketppClient} (U : Type) := mkClientWorld {
  the_client : ClientState;
  user : U;
}.
Arguments mkClientWorld {_ _} _ _.
Arguments the_client {_ _} _.
Arguments user {_ _} _.

Section programs.
Context `{Platform, Nlohmann, WebsocketppClient}.
Context {U : Type}.

Abbreviation program := (prog (ClientWorld U) ClientLock).

Definition with_client {A} (m : M ClientState A) : M (ClientWorld U) A := λ w,
  let (c, r) := m (the_client w) in (mkClientWorld c (user w), r).
Definition with_user {A} (m : M U A) : M (ClientWorld U) A := λ w,
  let (u, r) := m (user w) in (mkClientWorld (the_client w) u, r).

(** ** Under the mutex, exclusively *)

Definition connect_body (uri : string) (onOpenHandler onCloseHandler : bool) : program unit :=
  let* r := act (with_client (on_endpoint (λ n,
              let (n, r) := wc_get_connection uri n in (n, inr r)))) in
  act (with_client (modify (set_con (connection_of r)))) ;;*
  match r with
  | inl _ => act (with_client (throw (StdException ("Failed to get connection from URI " +:+ uri))))
  | inr con =>
      act (with_client (on_endpoint_ (wc_set_handlers con onOpenHandler onCloseHandler))) ;;*
      act (with_client (on_endpoint_ (wc_add_subprotocol con SUPPORTED_SUBPROTOCOL))) ;;*
      act (with_client (on_endpoint_ (wc_connect con)))
  end.

(** @src foxglove_bridge_base/include/foxglove_bridge/websocket_client.hpp:75-96 Client::connect *)
Definition connect_p (uri : string) (onOpenHandler onCloseHandler : bool) : program unit :=
  with_lock ClientMutex Exclusive (connect_body uri onOpenHandler onCloseHandler).

Definition close_body : program unit :=
  let* con := act (with_client (gets _con)) in
  match con with
  | None => pret tt
  | Some con =>
      act (with_client (on_endpoint (wc_close con))) ;;*
      act (with_client (modify (set_con None)))
  end.

(** @src foxglove_bridge_base/include/foxglove_bridge/websocket_client.hpp:109-117 Client::close *)
Definition close_p : program unit := with_lock ClientMutex Exclusive close_body.

(** @src foxglove_bridge_base/include/foxglove_bridge/websocket_client.hpp:178-181 Client::setTextMessageHandler *)
Definition setTextMessageHandler_p (handler : bool) : program unit :=
  with_lock ClientMutex Exclusive (act (with_client (setTextMessageHandler handler))).

(** @src foxglove_bridge_base/include/foxglove_bridge/websocket_client.hpp:183-186 Client::setBinaryMessageHandler *)
Definition setBinaryMessageHandler_p (handler : bool) : program unit :=
  with_lock ClientMutex Exclusive (act (with_client (setBinaryMessageHandler handler))).

(** ** Under the mutex, shared *)

(** The first act reads the connection, the second sends.
    @src foxglove_bridge_base/include/foxglove_bridge/websocket_client.hpp:188-191 Client::sendText *)
Definition sendText_p (payload : string) : program unit :=
  with_lock ClientMutex Shared
    (let* con := act (gets (λ w, _con (the_client w))) in
     act (with_client (on_endpoint (wc_send con (TextFrame payload))))).

(** @src foxglove_bridge_base/include/foxglove_bridge/websocket_client.hpp:193-196 Client::sendBinary *)
Definition client_sendBinary_p (data : list byte) : program unit :=
  with_lock ClientMutex Shared
    (let* con := act (gets (λ w, _con (the_client w))) in
     act (with_client (on_endpoint (wc_send con (BinaryFrame data))))).

(** The text is made before the mutex is taken.
    @src foxglove_bridge_base/include/foxglove_bridge/websocket_client.hpp:142-151 Client::subscribe *)
Definition subscribe_p (subscriptions : list (SubscriptionId * ChannelId)) : program unit :=
  let* payload := act (lift (subscribe_text subscriptions)) in sendText_p payload.

(** @src foxglove_bridge_base/include/foxglove_bridge/websocket_client.hpp:153-157 Client::unsubscribe *)
Definition unsubscribe_p (subscriptionIds : list SubscriptionId) : program unit :=
  let* payload := act (lift (unsubscribe_text subscriptionIds)) in sendText_p payload.

(** @src foxglove_bridge_base/include/foxglove_bridge/websocket_client.hpp:159-162 Client::advertise *)
Definition advertise_p (channels : list ClientAdvertisement) : program unit :=
  let* payload := act (lift (advertise_text channels)) in sendText_p payload.

(** @src foxglove_bridge_base/include/foxglove_bridge/websocket_client.hpp:164-168 Client::unadvertise *)
Definition unadvertise_p (channelIds : list ClientChannelId) : program unit :=
  let* payload := act (lift (unadvertise_text channelIds)) in sendText_p payload.

(** The buffer, or undefined behaviour.
    @src foxglove_bridge_base/include/foxglove_bridge/websocket_client.hpp:170-176 Client::publish *)
Definition publish_p (channelId : ClientChannelId) (buffer : list byte) : program unit :=
  let* payload := act (lift match publish_data channelId buffer with
                            | Some payload => inr payload
                            | None => inl (Undefined "out of bounds")
                            end) in
  client_sendBinary_p payload.

(** The user's handlers run under the mutex. *)
Section handlers.
Context (text_p : string → program unit) (binary_p : list byte → program unit).

(** The first act is [msg->get_opcode()].
    @src foxglove_bridge_base/include/foxglove_bridge/websocket_client.hpp:119-140 Client::messageHandler *)
Definition messageHandler_p (msg : Frame) : program unit :=
  let* msg := act (lift (inr msg)) in
  match msg with
  | TextFrame payload =>
      with_lock ClientMutex Shared
        (let* set := act (gets (λ w, _textMessageHandler (the_client w))) in
         pwhen set (text_p payload))
  | BinaryFrame payload =>
      with_lock ClientMutex Shared
        (let* set := act (gets (λ w, _binaryMessageHandler (the_client w))) in
         pwhen set (binary_p payload))
  | OtherFrame => pret tt
  end.

(** ** Calls *)

(** What threads do with a client: the member functions of [ClientInterface],
    and, in the endpoint's thread, the delivery of a message. *)
Inductive ClientCall :=
| CConnect (uri : string) (onOpenHandler onCloseHandler : bool)
| CClose
| CSubscribe (subscriptions : list (SubscriptionId * ChannelId))
| CUnsubscribe (subscriptionIds : list SubscriptionId)
| CAdvertise (channels : list ClientAdvertisement)
| CUnadvertise (channelIds : list ClientChannelId)
| CPublish (channelId : ClientChannelId) (buffer : list byte)
| CSetTextMessageHandler (handler : bool)
| CSetBinaryMessageHandler (handler : bool)
| CDeliver (msg : Frame).

Definition client_call_p (c : ClientCall) : program unit :=
  match c with
  | CConnect uri onOpenHandler onCloseHandler => connect_p uri onOpenHandler onCloseHandler
  | CClose => close_p
  | CSubscribe subscriptions => subscribe_p subscriptions
  | CUnsubscribe subscriptionIds => unsubscribe_p subscriptionIds
  | CAdvertise channels => advertise_p channels
  | CUnadvertise channelIds => unadvertise_p channelIds
  | CPublish channelId buffer => publish_p channelId buffer
  | CSetTextMessageHandler handler => setTextMessageHandler_p handler
  | CSetBinaryMessageHandler handler => setBinaryMessageHandler_p handler
  | CDeliver msg => messageHandler_p msg
  end.

Definition client_threads (css : list (list ClientCall)) : list (Thread (ClientWorld U) ClientLock) :=
  fresh_thread <$> ((λ cs, pfor_each cs client_call_p) <$> css).

(** The calls that take the mutex exclusively. *)
Definition exclusive_call (c : ClientCall) : bool :=
  match c with
  | CConnect _ _ _ | CClose | CSetTextMessageHandler _ | CSetBinaryMessageHandler _ => true
  | _ => false
  end.

Lemma exclusive_call_locks c :
  exclusive_call c = true → ∃ k, client_call_p c = Lock ClientMutex Exclusive k.
Proof. destruct c; try done; intros _; by eexists. Qed.

(** *** Order *)

Lemma connect_acts uri o cl : only_acts (connect_body uri o cl).
Proof.
  apply only_acts_bind; [done|]. intros r. apply only_acts_bind; [done|]. intros _.
  destruct r as [e|con]; [done|]. repeat (apply only_acts_bind; [done|intros _]). done.
Qed.

Lemma close_acts : only_acts close_body.
Proof.
  apply only_acts_bind; [done|]. intros [con|]; [|done]. by apply only_acts_bind.
Qed.

(** The handlers may take the mutexes of their user, in order. *)
Class ClientHandlersOrdered : Prop := {
  text_ordered : ∀ s, ordered client_rank [ClientMutex] (text_p s) [ClientMutex];
  binary_ordered : ∀ s, ordered client_rank [ClientMutex] (binary_p s) [ClientMutex];
}.

Lemma client_locked_ordered m (p : program unit) :
  ordered client_rank [ClientMutex] p [ClientMutex] →
  ordered client_rank [] (with_lock ClientMutex m p) [].
Proof. by apply ordered_with_lock. Qed.

Lemma send_ordered f : ordered client_rank []
  (with_lock ClientMutex Shared
    (let* con := act (gets (λ w, _con (the_client w))) in
     act (with_client (on_endpoint (wc_send con f))))) [].
Proof. apply client_locked_ordered, ordered_bind; done. Qed.

Lemma client_call_ordered c :
  ClientHandlersOrdered → ordered client_rank [] (client_call_p c) [].
Proof.
  intros Hok.
  destruct c as [uri o cl| |subs|ids|chs|ids|id buf|b|b|msg]; cbn [client_call_p];
    try (apply ordered_bind; [done|intros s]; apply send_ordered).
  - apply client_locked_ordered, only_acts_ordered, connect_acts.
  - apply client_locked_ordered, only_acts_ordered, close_acts.
  - by apply client_locked_ordered.
  - by apply client_locked_ordered.
  - apply ordered_bind; [done|]. intros [s|s|]; [| |done];
      apply client_locked_ordered, ordered_bind; try done; intros b; apply ordered_when;
      [apply text_ordered|apply binary_ordered].
Qed.

Lemma client_threads_ordered css w :
  ClientHandlersOrdered → well_ordered client_rank (mkConfig (client_threads css) w).
Proof.
  intros Hok i t Ht. unfold client_threads in Ht. simpl in Ht.
  rewrite !list_lookup_fmap in Ht. destruct (css !! i) as [cs|]; simplify_eq/=.
  apply ordered_for_each. intros c. by apply client_call_ordered.
Qed.
End handlers.

(** ** What the calls do on their own *)

(** Handlers that do their work on the user's state at once. *)
Section atomic.
Context (on_text : string → M U unit) (on_binary : list byte → M U unit).

Definition user_text (payload : string) : program unit := act (with_user (on_text payload)).
Definition user_binary (payload : list byte) : program unit := act (with_user (on_binary payload)).

Definition on_user (r : Received) : M (ClientWorld U) unit :=
  match r with
  | GotText payload => with_user (on_text payload)
  | GotBinary payload => with_user (on_binary payload)
  end.

Definition client_op (c : ClientCall) : M (ClientWorld U) unit :=
  match c with
  | CConnect uri onOpenHandler onCloseHandler =>
      with_client (ci_connect uri onOpenHandler onCloseHandler)
  | CClose => with_client ci_close
  | CSubscribe subscriptions => with_client (ci_subscribe subscriptions)
  | CUnsubscribe subscriptionIds => with_client (ci_unsubscribe subscriptionIds)
  | CAdvertise channels => with_client (ci_advertise channels)
  | CUnadvertise channelIds => with_client (ci_unadvertise channelIds)
  | CPublish channelId buffer => with_client (ci_publish channelId buffer)
  | CSetTextMessageHandler handler => with_client (ci_setTextMessageHandler handler)
  | CSetBinaryMessageHandler handler => with_client (ci_setBinaryMessageHandler handler)
  | CDeliver msg =>
      let! c := gets the_client in for_each (messageHandler msg c) on_user
  end.

(** What the mutex protects: the connection, and which handlers are set. *)
Definition protected_part (w : ClientWorld U) : option ConnHandle * bool * bool :=
  let c := the_client w in (_con c, _textMessageHandler c, _binaryMessageHandler c).

Abbreviation follows_client := (follows ClientMutex protected_part client_op Outside).

Lemma with_client_bind {A B} (m : M ClientState A) (f : A → M ClientState B) w :
  with_client (bind m f) w = bind (with_client m) (λ a, with_client (f a)) w.
Proof. unfold with_client, bind. by destruct (m (the_client w)) as [c [e|a]]. Qed.

Lemma runs_with_client {A B} (m : M ClientState A) (f : A → M ClientState B)
  (p : A → program B) :
  (∀ a, runs (p a) (with_client (f a))) →
  runs (pbind (act (with_client m)) p) (with_client (bind m f)).
Proof.
  intros Hp w. rewrite with_client_bind. revert w. by apply runs_bind; [apply runs_act|].
Qed.

Lemma connect_runs uri o cl : runs (connect_body uri o cl) (with_client (connect uri o cl)).
Proof.
  apply runs_with_client. intros r. apply runs_with_client. intros _.
  destruct r as [e|con]; [apply runs_act|]. repeat (apply runs_with_client; intros _). apply runs_act.
Qed.

Lemma close_runs : runs close_body (with_client close).
Proof.
  apply runs_with_client. intros [con|]; [|by intros []].
  apply runs_with_client. intros _. apply runs_act.
Qed.

(** A frame is sent by the second act of its call. *)
Lemma send_follows c f :
  (∀ w, client_op c w = with_client (on_endpoint (wc_send (_con (the_client w)) f)) w) →
  follows_client
    (with_lock ClientMutex Shared
      (let* con := act (gets (λ w, _con (the_client w))) in
       act (with_client (on_endpoint (wc_send con f))))) (inr tt, [c]).
Proof.
  intros Hc.
  apply (follows_shared _ _ _ _ _ (λ _, true) (λ con, with_client (on_endpoint (wc_send con f)))).
  - by intros w w' [= ? ? ?].
  - intros con w. unfold protected_part, with_client, on_endpoint.
    by destruct (wc_send con f (_endpoint (the_client w))).
  - exact Hc.
Qed.

Lemma payload_follows {A} c (payload : result A) (frame : A → Frame) :
  (∀ w, client_op c w = with_client (let! a := lift payload in
          let! con := gets _con in on_endpoint (wc_send con (frame a))) w) →
  follows_client
    (let* a := act (lift payload) in
     with_lock ClientMutex Shared
       (let* con := act (gets (λ w, _con (the_client w))) in
        act (with_client (on_endpoint (wc_send con (frame a)))))) (inr tt, [c]).
Proof.
  intros Hc. apply follows_lift.
  - intros a ->. by apply send_follows.
  - intros e w ->. rewrite Hc. by destruct w.
Qed.

(** A handler is called by the second act of a delivery. *)
Lemma deliver_follows c (set : ClientState → bool) (m : M U unit) :
  (∀ w w', protected_part w = protected_part w' → set (the_client w) = set (the_client w')) →
  (∀ w, client_op c w = if set (the_client w) then with_user m w else (w, inr tt)) →
  follows_client
    (with_lock ClientMutex Shared
      (let* b := act (gets (λ w, set (the_client w))) in pwhen b (act (with_user m))))
    (inr tt, [c]).
Proof.
  intros Hset Hc. apply (follows_shared _ _ _ _ _ id (λ _, with_user m)); [done| |done].
  intros b w. unfold protected_part, with_user. by destruct (m (user w)).
Qed.

Lemma for_each_one {X} (b : bool) (x : X) (f : X → M (ClientWorld U) unit) w :
  for_each (if b then [x] else []) f w = if b then f x w else (w, inr tt).
Proof. destruct b; [|done]. simpl. unfold bind. by destruct (f x w) as [w' [e|[]]]. Qed.

Lemma client_call_follows c :
  follows_client (client_call_p user_text user_binary c) (inr tt, [c]).
Proof.
  destruct c as [uri o cl| |subs|ids|chs|ids|id buf|b|b|msg]; cbn [client_call_p].
  - apply follows_exclusive; [apply connect_acts|apply connect_runs].
  - apply follows_exclusive; [apply close_acts|apply close_runs].
  - apply (payload_follows _ _ TextFrame). done.
  - apply (payload_follows _ _ TextFrame). done.
  - apply (payload_follows _ _ TextFrame). done.
  - apply (payload_follows _ _ TextFrame). done.
  - apply (payload_follows _ _ BinaryFrame). intros w. simpl. unfold publish.
    by destruct (publish_data id buf).
  - apply follows_exclusive; [done|apply runs_act].
  - apply follows_exclusive; [done|apply runs_act].
  - destruct msg as [s|s|]; [apply follows_lift; [intros ? [= <-]|done]..|].
    + apply (deliver_follows _ _textMessageHandler (on_text s)); [by intros w w' [= ? ? ?]|].
      intros w. apply (for_each_one _ (GotText s) on_user).
    + apply (deliver_follows _ _binaryMessageHandler (on_binary s)); [by intros w w' [= ? ? ?]|].
      intros w. apply (for_each_one _ (GotBinary s) on_user).
    + exists (inr OtherFrame). split; [done|]. right. by exists (CDeliver OtherFrame), [], (inr tt).
Qed.

(** The pool is that of calls that happen at once. *)
Lemma client_threads_linked css w :
  linked ClientMutex protected_part client_op
    (mkConfig (client_threads user_text user_binary css) w) (pair (inr tt) <$> css) w.
Proof.
  apply linked_fresh. apply Forall2_fmap_l, Forall_Forall2_diag, Forall_forall. intros cs _.
  by apply follows_calls, client_call_follows.
Qed.
End atomic.
End programs.
