(* ===== verification/ServerThreads.v ===== *)
(** * The server's member functions with their locks

    Each member function of [Server] that takes [_clientsChannelMutex], as a
    program: one act per statement, the lock around the statements its guard
    covers.  The handlers of the owner are programs as well, and run where the
    server calls them, under the lock or outside it. *)

From Stdlib Require Import Strings.Byte Strings.Ascii.
From S2P Require Import Prelude Serialization Common Logging Interfaces Server ServerFacts.
From S2P Require Import ServerInvariant ServerSpec Reachable Views Threads ThreadPool.

Local Open Scope Z_scope.
Local Open Scope string_scope.
Local Open Scope list_scope.

(** The mutexes of the server and of a node: [_clientsChannelMutex];
    [_subscriptionsMutex]; [_clientAdvertisementsMutex], or [_publicationsMutex]
    in the ROS 1 nodelet.  [ServerThread] is no mutex: the thread of the run loop
    holds it as long as it runs, so that joining the thread is to take it and give it
    back. *)
Inductive Mutex := ServerThread | ClientsChannelMutex | SubscriptionsMutex | PublicationsMutex.

#[export] Instance Mutex_eq_dec : EqDecision Mutex.
Proof. solve_decision. Defined.

(** A thread is joined without any mutex; the server's mutex comes before the
    node's. *)
Definition mutex_rank (l : Mutex) : nat :=
  match l with
  | ServerThread => 0
  | ClientsChannelMutex => 1
  | SubscriptionsMutex => 2
  | PublicationsMutex => 3
  end.

Section server.
Context `{Platform, Iteration, LogChannels, Nlohmann, Websocketpp}.
Context {E : Type}.

Abbreviation program := (prog (World E) Mutex).

(** The handlers a program registers, with their locks. *)
Record LockedHandlers := mkLockedHandlers {
  locked_subscribe : ChannelId → ConnHandle → program unit;
  locked_unsubscribe : ChannelId → ConnHandle → program unit;
  locked_advertise : ClientAdvertisement → ConnHandle → program unit;
  locked_unadvertise : ClientChannelId → ConnHandle → program unit;
  locked_message : ClientMessage → ConnHandle → program unit;
}.

Context (handlers : Handlers E) (locked : LockedHandlers).

(** A handler that does its work under one of the node's mutexes; its work is one
    act. *)
Definition locked_act {A} (l : Mutex) (m : M E A) : program A :=
  with_lock l Exclusive (act (on_env m)).

(** Calling a handler, if it is set. *)
Definition locked_call {X} (h : option (X → ConnHandle → M E unit)) (e : X → ConnHandle → Event)
    (p : X → ConnHandle → program unit) (x : X) (hdl : ConnHandle) : program unit :=
  match h with
  | Some _ => act (emit (e x hdl)) ;;* p x hdl
  | None => pret tt
  end.

Definition call_subscribe_p :=
  locked_call (_subscribeHandler handlers) EvSubscribe (locked_subscribe locked).
Definition call_unsubscribe_p :=
  locked_call (_unsubscribeHandler handlers) EvUnsubscribe (locked_unsubscribe locked).
Definition call_advertise_p :=
  locked_call (_clientAdvertiseHandler handlers) EvClientAdvertise (locked_advertise locked).
Definition call_unadvertise_p :=
  locked_call (_clientUnadvertiseHandler handlers) EvClientUnadvertise (locked_unadvertise locked).
Definition call_message_p :=
  locked_call (_clientMessageHandler handlers) EvClientMessage (locked_message locked).

(** ** Connections *)

(** @src foxglove_bridge_base/include/foxglove_bridge/websocket_server.hpp:316-340 Server::handleConnectionOpened *)
Definition handleConnectionOpened_p (hdl : ConnHandle) : program unit :=
  with_lock ClientsChannelMutex Exclusive
    (act (get_con_from_hdl hdl) ;;*
     let* endpoint := act (remoteEndpointString hdl) in
     let* resource := act (gets (λ w, ws_resource (net w) hdl)) in
     act (alog ("Client " +:+ endpoint +:+ " connected via " +:+ resource)) ;;*
     act (update (upd_clients (λ cs, (emplace hdl (mkClientInfo endpoint hdl ∅ ∅) cs).1))) ;;*
     let* name := act (server _name) in
     let* capabilities := act (server _capabilities) in
     let* info := act (lift (json_dump (serverInfo_json name capabilities))) in
     act (emit (EvConSend hdl (TextFrame info))) ;;*
     act (on_net_ (ws_con_send hdl (TextFrame info))) ;;*
     let* channels := act channels_json in
     act (sendJson hdl (advertise_json channels))).

(** What the first block of the function leaves: the client it moved out of the
    table.
    @src foxglove_bridge_base/include/foxglove_bridge/websocket_server.hpp:347-363 Server::handleConnectionClosed *)
Definition take_client_p (hdl : ConnHandle) : program (option ClientInfo) :=
  with_lock ClientsChannelMutex Exclusive
    (let* clients := act (server _clients) in
     match clients !! hdl with
     | None =>
         let* endpoint := act (remoteEndpointString hdl) in
         act (elog ("Client " +:+ endpoint +:+ " disconnected but not found in _clients")) ;;*
         pret None
     | Some client =>
         act (alog ("Client " +:+ ci_name client +:+ " disconnected")) ;;*
         act (update (upd_clients (delete hdl))) ;;*
         pret (Some client)
     end).

(** The handlers run without the lock, and so does the erasure from
    [_clientChannels].
    @src foxglove_bridge_base/include/foxglove_bridge/websocket_server.hpp:342-383 Server::handleConnectionClosed *)
Definition handleConnectionClosed_p (hdl : ConnHandle) : program unit :=
  let* taken := take_client_p hdl in
  match taken with
  | None => pret tt
  | Some client =>
      pfor_each (iter_set (advertisedChannels client)) (λ clientChannelId,
        act (alog ("Client " +:+ ci_name client +:+ " unadvertising channel " +:+
                   to_string clientChannelId +:+ " due to disconnect")) ;;*
        call_unadvertise_p clientChannelId hdl) ;;*
      act (update (upd_clientChannels (delete hdl))) ;;*
      pfor_each (iter_map (subscriptionsByChannel client)) (λ '(chanId, _),
        call_unsubscribe_p chanId hdl)
  end.

(** ** Text messages *)

(** @src foxglove_bridge_base/include/foxglove_bridge/websocket_server.hpp:617-637 handleTextMessage *)
Definition subscribe_one_p (hdl : ConnHandle) (sub : json) : program unit :=
  let* subId := act (lift (json_uint32_at sub "id")) in
  let* channelId := act (lift (json_uint32_at sub "channelId")) in
  let* clientInfo := act (client_at hdl) in
  match findSubscriptionBySubId clientInfo subId with
  | Some _ =>
      act (sendStatus hdl Error ("Client subscription id " +:+ to_string subId +:+
                                 " was already used; ignoring subscription"))
  | None =>
      let* channels := act (server _channels) in
      match channels !! channelId with
      | None =>
          act (sendStatus hdl Warning ("Channel " +:+ to_string channelId +:+
                                       " is not available; ignoring subscription"))
      | Some _ =>
          act (upd_client hdl (upd_subscriptions (λ m, (emplace channelId subId m).1))) ;;*
          call_subscribe_p channelId hdl
      end
  end.

(** @src foxglove_bridge_base/include/foxglove_bridge/websocket_server.hpp:640-654 handleTextMessage *)
Definition unsubscribe_one_p (hdl : ConnHandle) (subIdJson : json) : program unit :=
  let* subId := act (lift (json_get_uint32 subIdJson)) in
  let* clientInfo := act (client_at hdl) in
  match findSubscriptionBySubId clientInfo subId with
  | None =>
      act (sendStatus hdl Warning ("Client subscription id " +:+ to_string subId +:+
                                   " did not exist; ignoring unsubscription"))
  | Some (chanId, _) =>
      act (upd_client hdl (upd_subscriptions (delete chanId))) ;;*
      call_unsubscribe_p chanId hdl
  end.

(** @src foxglove_bridge_base/include/foxglove_bridge/websocket_server.hpp:662-679 handleTextMessage *)
Definition advertise_one_p (hdl : ConnHandle) (isFirstPublication : bool) (chan : json)
  : program unit :=
  let* channelId := act (lift (json_uint32_at chan "id")) in
  let* clientPublications := act (publications_of hdl) in
  if negb isFirstPublication && bool_decide (is_Some (clientPublications !! channelId)) then
    act (sendStatus hdl Error ("Channel " +:+ to_string channelId +:+ " was already advertised"))
  else
    let* topic := act (lift (json_string_at chan "topic")) in
    let* encoding := act (lift (json_string_at chan "encoding")) in
    let* schemaName := act (lift (json_string_at chan "schemaName")) in
    let advertisement := mkClientAdvertisement channelId topic encoding schemaName [] in
    act (upd_publications hdl (λ m, (emplace channelId advertisement m).1)) ;;*
    act (upd_client hdl (upd_advertised (λ X, {[ channelId ]} ∪ X))) ;;*
    call_advertise_p advertisement hdl.

(** @src foxglove_bridge_base/include/foxglove_bridge/websocket_server.hpp:690-700 handleTextMessage *)
Definition unadvertise_one_p (hdl : ConnHandle) (chanIdJson : json) : program unit :=
  let* channelId := act (lift (json_get_uint32 chanIdJson)) in
  let* clientPublications := act (publications_of hdl) in
  match clientPublications !! channelId with
  | None => pret tt
  | Some _ =>
      act (upd_publications hdl (delete channelId)) ;;*
      call_unadvertise_p channelId hdl
  end.

(** @src foxglove_bridge_base/include/foxglove_bridge/websocket_server.hpp:616-638 handleTextMessage *)
Definition handleSubscribe_p (hdl : ConnHandle) (payload : json) : program unit :=
  let* subscriptions := act (lift (json_elements payload "subscriptions")) in
  pfor_each subscriptions (subscribe_one_p hdl).

(** @src foxglove_bridge_base/include/foxglove_bridge/websocket_server.hpp:639-655 handleTextMessage *)
Definition handleUnsubscribe_p (hdl : ConnHandle) (payload : json) : program unit :=
  let* subscriptionIds := act (lift (json_elements payload "subscriptionIds")) in
  pfor_each subscriptionIds (unsubscribe_one_p hdl).

(** @src foxglove_bridge_base/include/foxglove_bridge/websocket_server.hpp:656-680 handleTextMessage *)
Definition handleAdvertise_p (hdl : ConnHandle) (payload : json) : program unit :=
  let* clientChannels := act (server _clientChannels) in
  let isFirstPublication := (emplace hdl ∅ clientChannels).2 in
  act (update (upd_clientChannels (λ m, (emplace hdl ∅ m).1))) ;;*
  let* channels := act (lift (json_elements payload "channels")) in
  pfor_each channels (advertise_one_p hdl isFirstPublication).

(** @src foxglove_bridge_base/include/foxglove_bridge/websocket_server.hpp:681-701 handleTextMessage *)
Definition handleUnadvertise_p (hdl : ConnHandle) (payload : json) : program unit :=
  let* clientChannels := act (server _clientChannels) in
  match clientChannels !! hdl with
  | None => act (sendStatus hdl Error "Client has no advertised channels")
  | Some _ =>
      let* channelIds := act (lift (json_elements payload "channelIds")) in
      pfor_each channelIds (unadvertise_one_p hdl)
  end.

(** @src foxglove_bridge_base/include/foxglove_bridge/websocket_server.hpp:615-705 handleTextMessage *)
Definition dispatch_op_p (hdl : ConnHandle) (op : string) (payload : json) : program unit :=
  let h := Integer op in
  if Z.eqb h SUBSCRIBE then handleSubscribe_p hdl payload
  else if Z.eqb h UNSUBSCRIBE then handleUnsubscribe_p hdl payload
  else if Z.eqb h ADVERTISE then handleAdvertise_p hdl payload
  else if Z.eqb h UNADVERTISE then handleUnadvertise_p hdl payload
  else act (sendStatus hdl Error
              ("Unrecognized client opcode " +:+ String "034" (op +:+ String "034" ""))).

(** The lock is taken once the message is parsed, and the handlers run under it.
    @src foxglove_bridge_base/include/foxglove_bridge/websocket_server.hpp:595-706 Server::handleTextMessage *)
Definition handleTextMessage_p (hdl : ConnHandle) (msg : string) : program unit :=
  let* payload := act (lift (json_parse msg)) in
  let* op := act (lift (json_string_at payload "op")) in
  with_lock ClientsChannelMutex Exclusive
    (let* _ := act (client_at hdl) in
     dispatch_op_p hdl op payload).

(** ** Binary messages *)

(** @src foxglove_bridge_base/include/foxglove_bridge/websocket_server.hpp:708-762 Server::handleBinaryMessage *)
Definition handleBinaryMessage_p (timestamp : Z) (hdl : ConnHandle) (msg : list byte)
  : program unit :=
  let length := Z.of_nat (length msg) in
  if (length <? 1)%Z then act (sendStatus hdl Error "Received an empty binary message") else
  with_lock ClientsChannelMutex Exclusive
    (let* clientChannels := act (server _clientChannels) in
     match clientChannels !! hdl with
     | None => act (sendStatus hdl Error "Client has no advertised channels")
     | Some clientPublications =>
         let* op := act (in_bounds (msg !! 0%nat)) in
         if Z.eqb (Z_of_byte op) ClientBinaryOpcode_MESSAGE_DATA then
           if (length <? 5)%Z then
             act (sendStatus hdl Error ("Invalid message length " +:+ to_string length))
           else
             let* channelId := act (in_bounds (load_native 4 msg 1)) in
             match clientPublications !! channelId with
             | None =>
                 act (sendStatus hdl Error
                        ("Channel " +:+ to_string channelId +:+ " is not advertised"))
             | Some advertisement =>
                 call_message_p
                   (mkClientMessage (u64 timestamp) (u64 timestamp) 0 advertisement length msg) hdl
             end
         else act (sendStatus hdl Error
                     ("Unrecognized client opcode " +:+ to_string (Z_of_byte op)))
     end).

(** @src foxglove_bridge_base/include/foxglove_bridge/websocket_server.hpp:574-593 Server::handleMessage *)
Definition handleMessage_p (timestamp : Z) (hdl : ConnHandle) (msg : Frame) : program unit :=
  pcatch
    match msg with
    | TextFrame payload => handleTextMessage_p hdl payload
    | BinaryFrame payload => handleBinaryMessage_p timestamp hdl payload
    | OtherFrame => pret tt
    end
    (λ ex, act (sendStatus hdl Error ("Error parsing message: " +:+ what ex))).

(** What the run loop of websocketpp runs; a handler it calls that throws ends
    there. *)
Definition run_pending_p (p : Pending) : program unit :=
  match p with
  | PValidate hdl => act (validateConnection hdl) ;;* pret tt
  | POpen hdl => handleConnectionOpened_p hdl
  | PMessage timestamp hdl msg => handleMessage_p timestamp hdl msg
  | PClose hdl => handleConnectionClosed_p hdl
  end.

(** ** Channels and data *)

(** @src foxglove_bridge_base/include/foxglove_bridge/websocket_server.hpp:764-771 Server::addChannel *)
Definition addChannel_p (channel : ChannelWithoutId) : program ChannelId :=
  with_lock ClientsChannelMutex Exclusive
    (let* next := act (server _nextChannelId) in
     let newId := u32 (next + 1) in
     act (update (set_nextChannelId newId)) ;;*
     act (update (upd_channels (λ m, (emplace newId (mkChannel newId channel) m).1))) ;;*
     pret newId).

(** @src foxglove_bridge_base/include/foxglove_bridge/websocket_server.hpp:773-784 Server::removeChannel *)
Definition removeChannel_p (chanId : ChannelId) : program unit :=
  with_lock ClientsChannelMutex Exclusive
    (act (update (upd_channels (delete chanId))) ;;*
     let* clients := act (server _clients) in
     pfor_each (iter_map clients) (λ '(hdl, _),
       act (upd_client hdl (upd_subscriptions (delete chanId))) ;;*
       act (sendJson hdl (unadvertise_json chanId)))).

(** @src foxglove_bridge_base/include/foxglove_bridge/websocket_server.hpp:786-805 Server::broadcastChannels *)
Definition broadcastChannels_p : program unit :=
  with_lock ClientsChannelMutex Exclusive
    (let* clients := act (server _clients) in
     if bool_decide (clients = ∅) then pret tt else
     let* channels := act channels_json in
     let* msg := act (lift (json_dump (advertise_json channels))) in
     pfor_each (iter_map clients) (λ '(hdl, _), act (sendJsonRaw hdl msg))).

(** The subscription is looked up under the lock, and the frame sent without it.
    @src foxglove_bridge_base/include/foxglove_bridge/websocket_server.hpp:807-844 Server::sendMessage *)
Definition sendMessage_p (clientHandle : ConnHandle) (chanId : ChannelId) (timestamp : Z)
    (data : list byte) : program unit :=
  let* con := act (gets (λ w, ws_has_con (net w) clientHandle)) in
  if negb con then pret tt else
  let* bufferSizeinBytes := act (gets (λ w, ws_buffered_amount (net w) clientHandle)) in
  let* limit := act (server _send_buffer_limit_bytes) in
  if (limit <=? bufferSizeinBytes)%Z then pret tt else
  let* subId := with_lock ClientsChannelMutex Shared
    (let* clients := act (server _clients) in
     pret (client ← clients !! clientHandle; subscriptionsByChannel client !! chanId)) in
  match subId with
  | None => pret tt
  | Some subId =>
      let* message := act (in_bounds (message_data subId timestamp data)) in
      act (sendBinary clientHandle message)
  end.

(** @src foxglove_bridge_base/include/foxglove_bridge/websocket_server.hpp:846-857 Server::broadcastTime *)
Definition broadcastTime_p (timestamp : Z) : program unit :=
  let* message := act (in_bounds (time_data timestamp)) in
  with_lock ClientsChannelMutex Shared
    (let* clients := act (server _clients) in
     pfor_each (iter_map clients) (λ '(hdl, _), act (sendBinary hdl message))).

(** ** Stopping *)

(** @src foxglove_bridge_base/include/foxglove_bridge/websocket_server.hpp:454-462 Server::stop *)
Fixpoint stop_wait_p (poll_one : program unit) (fuel : nat) (durationMs : Z) : program bool :=
  match fuel with
  | O => pret false
  | S fuel =>
      let* stopped := act (gets (λ w, ws_stopped (net w))) in
      if negb stopped && (durationMs <? MAX_SHUTDOWN_MS)%Z then
        poll_one ;;*
        stop_wait_p poll_one fuel (durationMs + SLEEP_MS)
      else pret true
  end.

(** The lock covers the list of the connections and the end of the body; the
    handlers that [poll_one] runs take it for themselves.
    @src foxglove_bridge_base/include/foxglove_bridge/websocket_server.hpp:412-488 Server::stop *)
Definition stop_p (poll_one : program unit) : program unit :=
  let* stopped := act (gets (λ w, ws_stopped (net w))) in
  if stopped : bool then pret tt else
  act (alog "Stopping WebSocket server") ;;*
  act (on_net_ ws_stop_perpetual) ;;*
  let* listening := act (gets (λ w, ws_is_listening (net w))) in
  pwhen listening
    (let* ec := act (on_net_ec ws_stop_listening) in
     match ec with
     | Some message => act (elog ("Failed to stop listening: " +:+ message))
     | None => pret tt
     end) ;;*
  let* connections := with_lock ClientsChannelMutex Exclusive
    (let* clients := act (server _clients) in
     act (gets (λ w, List.filter (ws_has_con (net w)) (iter_map clients).*1))) in
  pwhen (negb (bool_decide (connections = [])))
    (act (alog ("Closing " +:+ to_string (Z.of_nat (length connections)) +:+
                " client connection(s)")) ;;*
     pfor_each connections (λ connection,
       act (emit (EvClose connection)) ;;*
       let* ec := act (on_net_ec (ws_close connection "server shutdown")) in
       match ec with
       | Some message => act (elog ("Failed to close connection: " +:+ message))
       | None => pret tt
       end) ;;*
     let* _ := stop_wait_p poll_one stop_fuel 0 in
     let* stopped := act (gets (λ w, ws_stopped (net w))) in
     pwhen (negb stopped)
       (act (elog "Failed to close all connections, forcefully stopping") ;;*
        pfor_each connections (λ hdl,
          let* con := act (gets (λ w, ws_has_con (net w) hdl)) in
          pwhen con
            (let* endpoint := act (remoteEndpointString hdl) in
             act (elog ("Terminating connection to " +:+ endpoint)) ;;*
             act (emit (EvTerminate hdl)) ;;*
             act (on_net_ (ws_terminate hdl)))) ;;*
        act (on_net_ ws_stop))) ;;*
  act (alog "All WebSocket connections closed") ;;*
  let* thread := act (server _serverThread) in
  pwhen thread
    (act (alog "Waiting for WebSocket server run loop to terminate") ;;*
     with_lock ServerThread Shared (act join_server_thread) ;;*
     act (update (set_thread false)) ;;*
     act (alog "WebSocket server run loop terminated")) ;;*
  with_lock ClientsChannelMutex Exclusive (act (update (upd_clients (λ _, ∅)))).

(** ** The server's threads *)

(** The calls a thread makes: what the run loop of websocketpp delivers, and
    what the owner of the server asks for. *)
Inductive Call :=
| CallPending (p : Pending)
| CallAddChannel (channel : ChannelWithoutId)
| CallRemoveChannel (chanId : ChannelId)
| CallBroadcastChannels
| CallSendMessage (hdl : ConnHandle) (chanId : ChannelId) (timestamp : Z) (data : list byte)
| CallBroadcastTime (timestamp : Z)
| CallStart (host : string) (port : Z)
| CallStop (next : World E → option Pending).

(** [poll_one], when [next] says which handler is pending. *)
Definition poll_p (next : World E → option Pending) : program unit :=
  let* pending := act (gets next) in
  match pending with Some p => run_pending_p p | None => pret tt end.

Definition call_p (c : Call) : program unit :=
  match c with
  | CallPending p => run_pending_p p
  | CallAddChannel channel => addChannel_p channel ;;* pret tt
  | CallRemoveChannel chanId => removeChannel_p chanId
  | CallBroadcastChannels => broadcastChannels_p
  | CallSendMessage hdl chanId timestamp data => sendMessage_p hdl chanId timestamp data
  | CallBroadcastTime timestamp => broadcastTime_p timestamp
  | CallStart host port => act (start host port)
  | CallStop next => stop_p (poll_p next)
  end.

Definition run_call (c : Call) : M (World E) unit :=
  match c with
  | CallPending p => run_pending handlers p
  | CallAddChannel channel => addChannel channel ;;; ret tt
  | CallRemoveChannel chanId => removeChannel chanId
  | CallBroadcastChannels => broadcastChannels
  | CallSendMessage hdl chanId timestamp data => sendMessage hdl chanId timestamp data
  | CallBroadcastTime timestamp => broadcastTime timestamp
  | CallStart host port => start host port
  | CallStop next => stop (poll handlers next)
  end.

(** A thread that makes one call after the other, until one throws. *)
Definition calls_p (cs : list Call) : program unit := pfor_each cs call_p.
Definition run_calls (cs : list Call) : M (World E) unit := for_each cs run_call.

(** One thread for each list of calls. *)
Definition threads_of (css : list (list Call)) : list (Thread (World E) Mutex) :=
  fresh_thread <$> (calls_p <$> css).

(** The thread [start] has spawned, while it runs: it handles what is pending, and
    ends when [run()] returns.
    @src foxglove_bridge_base/include/foxglove_bridge/websocket_server.hpp:509-513 Server::start *)
Definition run_loop (ps : list Pending) : Thread (World E) Mutex :=
  mkThread [(ServerThread, Exclusive)] (unlock_after ServerThread (pfor_each ps run_pending_p)).

(** ** What is asked of the handlers *)

(** Acts that leave alone what [_clientsChannelMutex] protects: clients, channels
    and the counter, and what the clients know of the channels. *)
Definition same_shared (w w' : World E) : Prop :=
  _clients (srv w') = _clients (srv w) ∧ _nextChannelId (srv w') = _nextChannelId (srv w) ∧
  undisturbed w w'.

(** A program of the node, run with or without the server's mutex: it takes its
    own mutexes only, one after the other or in order, and leaves the server's
    state alone. *)
Definition node_program {A} (p : program A) : Prop :=
  (∀ h, Forall (λ l, (mutex_rank l < 2)%nat) h → ordered mutex_rank h p h) ∧
  quiet ClientsChannelMutex same_shared p.

(** A locked handler is the handler, with its locks. *)
Class LockedHandlersOk : Prop := {
  subscribe_runs f ch hdl : _subscribeHandler handlers = Some f →
    runs (locked_subscribe locked ch hdl) (on_env (f ch hdl));
  unsubscribe_runs f ch hdl : _unsubscribeHandler handlers = Some f →
    runs (locked_unsubscribe locked ch hdl) (on_env (f ch hdl));
  advertise_runs f adv hdl : _clientAdvertiseHandler handlers = Some f →
    runs (locked_advertise locked adv hdl) (on_env (f adv hdl));
  unadvertise_runs f id hdl : _clientUnadvertiseHandler handlers = Some f →
    runs (locked_unadvertise locked id hdl) (on_env (f id hdl));
  message_runs f msg hdl : _clientMessageHandler handlers = Some f →
    runs (locked_message locked msg hdl) (on_env (f msg hdl));
  subscribe_node ch hdl : node_program (locked_subscribe locked ch hdl);
  unsubscribe_node ch hdl : node_program (locked_unsubscribe locked ch hdl);
  advertise_node adv hdl : node_program (locked_advertise locked adv hdl);
  unadvertise_node id hdl : node_program (locked_unadvertise locked id hdl);
  message_node msg hdl : node_program (locked_message locked msg hdl);
}.
End server.

Arguments LockedHandlers {_} E.
Arguments Call {_} E.
Arguments CallPending {_ E}.
Arguments CallAddChannel {_ E}.
Arguments CallRemoveChannel {_ E}.
Arguments CallBroadcastChannels {_ E}.
Arguments CallSendMessage {_ E}.
Arguments CallBroadcastTime {_ E}.
Arguments CallStart {_ E}.
Arguments CallStop {_ E}.
Arguments mkLockedHandlers {_ E}.
Arguments locked_subscribe {_ E}.
Arguments locked_unsubscribe {_ E}.
Arguments locked_advertise {_ E}.
Arguments locked_unadvertise {_ E}.
Arguments locked_message {_ E}.
