(* ===== verification/ServerThreadFacts.v ===== *)
(** * Facts about the server's programs

    On its own a program does what the function does; it takes its locks in
    order; and whatever happens between its acts, it leaves the tables that
    [_clientsChannelMutex] protects in order when it releases it. *)

From Stdlib Require Import Strings.Byte Strings.Ascii.
From S2P Require Import Prelude Serialization Common Logging Interfaces Server ServerFacts.
From S2P Require Import ServerInvariant ServerSpec Reachable Views Threads ThreadPool Deadlock.
From S2P Require Import ServerThreads.

Local Open Scope Z_scope.
Local Open Scope list_scope.

(** ** Programs of a node *)

Section node.
Context `{Nlohmann, Websocketpp} {E : Type}.

Lemma node_ret {A} (a : A) : node_program (pret a : prog (World E) Mutex A).
Proof. done. Qed.

Lemma node_act {A} (m : M (World E) A) : preserves untouched m → node_program (act m).
Proof.
  intros Hm. split; [done|]. apply quiet_act. intros w. destruct (Hm w) as [Hs Ho].
  split_and!; [by rewrite Hs..|]. by apply undisturbed_quiet.
Qed.

Lemma node_bind {A B} (p : prog (World E) Mutex A) (f : A → prog (World E) Mutex B) :
  node_program p → (∀ a, node_program (f a)) → node_program (pbind p f).
Proof.
  intros [Ho Hq] Hf. split.
  - intros h Hh. apply ordered_bind; [by apply Ho|]. intros a. by apply Hf.
  - apply quiet_bind; [done|]. intros a. apply Hf.
Qed.

Lemma node_with_lock {A} l m (a : M (World E) A) :
  (2 ≤ mutex_rank l)%nat → preserves untouched a → node_program (with_lock l m (act a)).
Proof.
  intros Hl Hm. destruct (node_act a Hm) as [_ Hq].
  split; [|apply quiet_with_lock; [by intros ->; simpl in Hl; lia|done]].
  intros h Hh. apply ordered_with_lock; [|apply ordered_act]. eapply Forall_impl; [exact Hh|].
  simpl. lia.
Qed.

Lemma node_locked_act {A} l (m : M E A) :
  (2 ≤ mutex_rank l)%nat → node_program (locked_act l m).
Proof. intros Hl. apply node_with_lock; [done|]. apply on_env_untouched. Qed.
End node.

#[export] Hint Resolve node_ret node_act node_bind node_with_lock node_locked_act : cpp.

Section facts.
Context `{Platform, Iteration, LogChannels, Nlohmann, Websocketpp}.
Context {E : Type} (handlers : Handlers E) (locked : LockedHandlers E).
Context `{!LockedHandlersOk handlers locked}.
Implicit Types w : World E.

Lemma client_at_run hdl w :
  client_at (E:=E) hdl w =
  match _clients (srv w) !! hdl with
  | Some c => (w, inr c)
  | None => (w, inl (StdException "map::at"))
  end.
Proof. unfold client_at, bind, server, gets. by destruct (_clients (srv w) !! hdl). Qed.

(** ** A program on its own *)

(** The structure of a program against the structure of a computation. *)
Ltac runs_step :=
  match goal with
  | |- runs (act _) _ => apply runs_act
  | |- runs (pret _) _ => apply runs_ret
  | |- runs (pbind _ _) _ => apply runs_bind; [|intros ?]
  | |- runs (pcatch _ _) _ => apply runs_catch; [|intros ?]
  | |- runs (with_lock _ _ _) _ => apply runs_with_lock
  | |- runs (pfor_each _ _) _ => apply runs_for_each; intros ?
  | |- runs (pwhen _ _) _ => apply runs_when
  | |- runs ((let '(_, _) := ?p in _) _) _ => destruct p
  | |- runs (match ?x with _ => _ end) _ => destruct x
  | |- _ => solve [auto with cpp]
  end.

Lemma runs_locked_call {X} (h : option (X → ConnHandle → M E unit)) e p x hdl :
  (∀ f, h = Some f → runs (p x hdl) (on_env (f x hdl))) →
  runs (locked_call h e p x hdl) (call h e x hdl).
Proof.
  intros Hp. unfold locked_call, call. destruct h as [f|]; [|done].
  apply runs_bind; [apply runs_act|]. intros _. by apply Hp.
Qed.

Lemma runs_call_subscribe ch hdl :
  runs (call_subscribe_p handlers locked ch hdl)
    (call (_subscribeHandler handlers) EvSubscribe ch hdl).
Proof. apply runs_locked_call. intros f Hf. by eapply subscribe_runs. Qed.
Lemma runs_call_unsubscribe ch hdl :
  runs (call_unsubscribe_p handlers locked ch hdl)
    (call (_unsubscribeHandler handlers) EvUnsubscribe ch hdl).
Proof. apply runs_locked_call. intros f Hf. by eapply unsubscribe_runs. Qed.
Lemma runs_call_advertise adv hdl :
  runs (call_advertise_p handlers locked adv hdl)
    (call (_clientAdvertiseHandler handlers) EvClientAdvertise adv hdl).
Proof. apply runs_locked_call. intros f Hf. by eapply advertise_runs. Qed.
Lemma runs_call_unadvertise id hdl :
  runs (call_unadvertise_p handlers locked id hdl)
    (call (_clientUnadvertiseHandler handlers) EvClientUnadvertise id hdl).
Proof. apply runs_locked_call. intros f Hf. by eapply unadvertise_runs. Qed.
Lemma runs_call_message msg hdl :
  runs (call_message_p handlers locked msg hdl)
    (call (_clientMessageHandler handlers) EvClientMessage msg hdl).
Proof. apply runs_locked_call. intros f Hf. by eapply message_runs. Qed.
#[local] Hint Resolve runs_call_subscribe runs_call_unsubscribe runs_call_advertise
  runs_call_unadvertise runs_call_message : cpp.

Lemma runs_handleConnectionOpened hdl :
  runs (handleConnectionOpened_p (E:=E) hdl) (handleConnectionOpened hdl).
Proof. unfold handleConnectionOpened_p, handleConnectionOpened. repeat runs_step. Qed.

Lemma runs_subscribe_one hdl sub :
  runs (subscribe_one_p handlers locked hdl sub) (subscribe_one handlers hdl sub).
Proof. unfold subscribe_one_p, subscribe_one. repeat runs_step. Qed.

Lemma runs_unsubscribe_one hdl j :
  runs (unsubscribe_one_p handlers locked hdl j) (unsubscribe_one handlers hdl j).
Proof. unfold unsubscribe_one_p, unsubscribe_one. repeat runs_step. Qed.

Lemma runs_advertise_one hdl first chan :
  runs (advertise_one_p handlers locked hdl first chan) (advertise_one handlers hdl first chan).
Proof. unfold advertise_one_p, advertise_one. repeat runs_step. Qed.

Lemma runs_unadvertise_one hdl j :
  runs (unadvertise_one_p handlers locked hdl j) (unadvertise_one handlers hdl j).
Proof. unfold unadvertise_one_p, unadvertise_one. repeat runs_step. Qed.
#[local] Hint Resolve runs_subscribe_one runs_unsubscribe_one runs_advertise_one
  runs_unadvertise_one : cpp.

Lemma runs_dispatch_op hdl op payload :
  runs (dispatch_op_p handlers locked hdl op payload) (dispatch_op handlers hdl op payload).
Proof.
  unfold dispatch_op_p, dispatch_op, handleSubscribe_p, handleSubscribe, handleUnsubscribe_p,
    handleUnsubscribe, handleAdvertise_p, handleAdvertise, handleUnadvertise_p, handleUnadvertise.
  repeat runs_step.
Qed.
#[local] Hint Resolve runs_dispatch_op : cpp.

Lemma runs_handleMessage ts hdl msg :
  runs (handleMessage_p handlers locked ts hdl msg) (handleMessage handlers ts hdl msg).
Proof.
  unfold handleMessage_p, handleMessage, handleTextMessage_p, handleTextMessage,
    handleBinaryMessage_p, handleBinaryMessage.
  repeat runs_step.
Qed.
#[local] Hint Resolve runs_handleConnectionOpened runs_handleMessage : cpp.

Lemma bind_assoc {S A B C} (m : M S A) (f : A → M S B) (g : B → M S C) s :
  bind (bind m f) g s = bind m (λ a, bind (f a) g) s.
Proof. unfold bind. by destruct (m s) as [s' [e|a]]. Qed.

Lemma runs_ext {A} (p : prog (World E) Mutex A) m m' :
  (∀ w, m w = m' w) → runs p m → runs p m'.
Proof. intros Hm Hp w. by rewrite Hp. Qed.

Lemma runs_bind_assoc {A B C} (p : prog (World E) Mutex B) (k : B → prog (World E) Mutex C)
    (m : M (World E) A) f g :
  runs p (bind m f) → (∀ b, runs (k b) (g b)) → runs (pbind p k) (bind m (λ a, bind (f a) g)).
Proof.
  intros Hp Hk. eapply runs_ext; [intros w; apply bind_assoc|]. by apply runs_bind.
Qed.

Lemma runs_handleConnectionClosed hdl :
  runs (handleConnectionClosed_p handlers locked hdl) (handleConnectionClosed handlers hdl).
Proof.
  set (rest := λ taken : option ClientInfo, match taken with
    | None => ret tt
    | Some client =>
      for_each (iter_set (advertisedChannels client)) (λ clientChannelId,
        alog ("Client " +:+ ci_name client +:+ " unadvertising channel " +:+
              to_string clientChannelId +:+ " due to disconnect") ;;;
        call (_clientUnadvertiseHandler handlers) EvClientUnadvertise clientChannelId hdl) ;;;
      update (upd_clientChannels (delete hdl)) ;;;
      for_each (iter_map (subscriptionsByChannel client)) (λ '(chanId, _),
        call (_unsubscribeHandler handlers) EvUnsubscribe chanId hdl)
    end).
  apply (runs_ext _ (bind
    (let! clients := server _clients in
     match clients !! hdl with
     | None =>
         let! endpoint := remoteEndpointString hdl in
         elog ("Client " +:+ endpoint +:+ " disconnected but not found in _clients") ;;;
         ret None
     | Some client =>
         alog ("Client " +:+ ci_name client +:+ " disconnected") ;;;
         update (upd_clients (delete hdl)) ;;;
         ret (Some client)
     end) rest)).
  - intros w. unfold handleConnectionClosed. rewrite bind_assoc. unfold bind, server, gets. simpl.
    by destruct (_clients (srv w) !! hdl).
  - unfold handleConnectionClosed_p, take_client_p, rest. repeat runs_step.
Qed.
#[local] Hint Resolve runs_handleConnectionClosed : cpp.

Lemma runs_run_pending p : runs (run_pending_p handlers locked p) (run_pending handlers p).
Proof. destruct p; unfold run_pending_p, run_pending; repeat runs_step. Qed.

Lemma runs_addChannel channel : runs (addChannel_p (E:=E) channel) (addChannel channel).
Proof. unfold addChannel_p, addChannel. repeat runs_step. Qed.

Lemma runs_removeChannel chanId : runs (removeChannel_p (E:=E) chanId) (removeChannel chanId).
Proof. unfold removeChannel_p, removeChannel. repeat runs_step. Qed.

Lemma runs_broadcastChannels : runs (broadcastChannels_p (E:=E)) broadcastChannels.
Proof. unfold broadcastChannels_p, broadcastChannels. repeat runs_step. Qed.

Lemma runs_sendMessage hdl chanId ts data :
  runs (sendMessage_p (E:=E) hdl chanId ts data) (sendMessage hdl chanId ts data).
Proof.
  unfold sendMessage_p, sendMessage. runs_step; [runs_step|]. runs_step; [runs_step|].
  do 2 (runs_step; [runs_step|]). runs_step; [runs_step|].
  apply (runs_ext _ (bind (let! clients := server _clients in
    ret (client ← clients !! hdl; subscriptionsByChannel client !! chanId)) (λ subId,
      match subId with
      | None => ret tt
      | Some subId =>
          let! message := in_bounds (message_data subId ts data) in sendBinary hdl message
      end))); [|repeat runs_step].
  intros w. rewrite bind_assoc. unfold server, gets.
  unfold bind at 1. unfold bind at 1. unfold bind at 2. unfold ret at 1.
  destruct (_clients (srv w) !! hdl) as [c|]; [|done]. simpl.
  by destruct (subscriptionsByChannel c !! chanId).
Qed.

Lemma runs_broadcastTime ts : runs (broadcastTime_p (E:=E) ts) (broadcastTime ts).
Proof. unfold broadcastTime_p, broadcastTime. repeat runs_step. Qed.
#[local] Hint Resolve runs_run_pending runs_addChannel runs_removeChannel
  runs_broadcastChannels runs_sendMessage runs_broadcastTime : cpp.

Lemma runs_stop_wait poll_p poll fuel ms :
  runs poll_p poll → runs (stop_wait_p poll_p fuel ms) (stop_wait (E:=E) poll fuel ms).
Proof.
  intros Hp. revert ms. induction fuel as [|fuel IH]; intros ms; cbn [stop_wait_p stop_wait];
    repeat runs_step.
Qed.
#[local] Hint Resolve runs_stop_wait : cpp.

Lemma runs_stop poll_p poll : runs poll_p poll → runs (stop_p poll_p) (stop (E:=E) poll).
Proof.
  intros Hp. unfold stop_p, stop.
  runs_step; [runs_step|]. runs_step; [runs_step|].
  do 4 (runs_step; [by repeat runs_step|]). apply runs_bind_assoc; [|intros connections; cbv beta]; repeat runs_step.
Qed.
#[local] Hint Resolve runs_stop : cpp.

Lemma runs_poll next : runs (poll_p handlers locked next) (poll handlers next).
Proof.
  apply (runs_ext _ (let! pending := gets next in
    match pending with Some p => run_pending handlers p | None => ret tt end)).
  - intros w. unfold poll, bind, gets. by destruct (next w).
  - unfold poll_p. repeat runs_step.
Qed.

Lemma runs_call c : runs (call_p handlers locked c) (run_call handlers c).
Proof.
  destruct c; unfold call_p, run_call; repeat runs_step. by apply runs_stop, runs_poll.
Qed.

Lemma runs_calls cs : runs (calls_p handlers locked cs) (run_calls handlers cs).
Proof. apply runs_for_each, runs_call. Qed.

(** ** The order of the locks *)

(** What may be held where the server takes its mutex, and where a handler runs. *)
Definition outermost (h : list Mutex) : Prop := Forall (λ l, (mutex_rank l < 1)%nat) h.
Definition outer (h : list Mutex) : Prop := Forall (λ l, (mutex_rank l < 2)%nat) h.

Ltac ordered_step :=
  match goal with
  | |- ordered _ _ (act _) _ => apply ordered_act
  | |- ordered _ _ (pret _) _ => reflexivity
  | |- ordered _ _ (pbind _ _) _ => apply ordered_bind; [|intros ?]
  | |- ordered _ _ (pcatch _ _) _ => apply ordered_catch; [|intros ?]
  | |- ordered _ _ (with_lock ClientsChannelMutex _ _) _ =>
      apply ordered_with_lock; [solve [auto with cpp]|]
  | |- ordered _ _ (with_lock ServerThread _ _) _ =>
      apply ordered_with_lock; [apply Forall_nil_2|]
  | |- ordered _ _ (pfor_each _ _) _ => apply ordered_for_each; intros ?
  | |- ordered _ _ (pwhen _ _) _ => apply ordered_when
  | |- ordered _ _ ((let '(_, _) := ?p in _) _) _ => destruct p
  | |- ordered _ _ (match ?x with _ => _ end) _ => destruct x
  | |- _ => solve [auto with cpp]
  end.

Lemma outermost_nil : outermost [].
Proof. apply Forall_nil_2. Qed.
Lemma outermost_thread : outermost [ServerThread].
Proof. repeat constructor. Qed.
Lemma outer_outermost h : outermost h → outer h.
Proof. intros Hh. eapply Forall_impl; [exact Hh|]. simpl. lia. Qed.
Lemma outer_server h : outermost h → outer (ClientsChannelMutex :: h).
Proof. intros Hh. constructor; [simpl; lia|]. by apply outer_outermost. Qed.
Lemma outermost_below h :
  outermost h → Forall (λ l', (mutex_rank l' < mutex_rank ClientsChannelMutex)%nat) h.
Proof. done. Qed.
#[local] Hint Resolve outermost_nil outermost_thread outer_outermost outer_server
  outermost_below : cpp.

Lemma ordered_locked_call {X} (hd : option (X → ConnHandle → M E unit)) e p x hdl h :
  node_program (p x hdl) → outer h → ordered mutex_rank h (locked_call hd e p x hdl) h.
Proof.
  intros [Hp _] Ho. unfold locked_call. destruct hd; [|done].
  apply ordered_bind; [apply ordered_act|]. intros _. by apply Hp.
Qed.

Lemma ordered_call_subscribe ch hdl h :
  outer h → ordered mutex_rank h (call_subscribe_p handlers locked ch hdl) h.
Proof. apply ordered_locked_call. apply (subscribe_node handlers locked). Qed.
Lemma ordered_call_unsubscribe ch hdl h :
  outer h → ordered mutex_rank h (call_unsubscribe_p handlers locked ch hdl) h.
Proof. apply ordered_locked_call. apply (unsubscribe_node handlers locked). Qed.
Lemma ordered_call_advertise adv hdl h :
  outer h → ordered mutex_rank h (call_advertise_p handlers locked adv hdl) h.
Proof. apply ordered_locked_call. apply (advertise_node handlers locked). Qed.
Lemma ordered_call_unadvertise id hdl h :
  outer h → ordered mutex_rank h (call_unadvertise_p handlers locked id hdl) h.
Proof. apply ordered_locked_call. apply (unadvertise_node handlers locked). Qed.
Lemma ordered_call_message msg hdl h :
  outer h → ordered mutex_rank h (call_message_p handlers locked msg hdl) h.
Proof. apply ordered_locked_call. apply (message_node handlers locked). Qed.
#[local] Hint Resolve ordered_call_subscribe ordered_call_unsubscribe ordered_call_advertise
  ordered_call_unadvertise ordered_call_message : cpp.

Lemma ordered_dispatch_op h hdl op payload :
  outer h → ordered mutex_rank h (dispatch_op_p handlers locked hdl op payload) h.
Proof.
  intros Hh. unfold dispatch_op_p, handleSubscribe_p, handleUnsubscribe_p, handleAdvertise_p,
    handleUnadvertise_p, subscribe_one_p, unsubscribe_one_p, advertise_one_p, unadvertise_one_p.
  repeat ordered_step.
Qed.
#[local] Hint Resolve ordered_dispatch_op : cpp.

Lemma ordered_run_pending h p :
  outermost h → ordered mutex_rank h (run_pending_p handlers locked p) h.
Proof.
  intros Hh. destruct p; unfold run_pending_p, handleConnectionOpened_p, handleMessage_p,
    handleTextMessage_p, handleBinaryMessage_p, handleConnectionClosed_p, take_client_p;
    repeat ordered_step.
Qed.
#[local] Hint Resolve ordered_run_pending : cpp.

Lemma ordered_run_loop ps :
  ordered mutex_rank (held (run_loop handlers locked ps)).*1 (code (run_loop handlers locked ps)) [].
Proof. apply ordered_unlock_after, ordered_for_each. intros p. auto with cpp. Qed.

Lemma ordered_stop_wait poll_p fuel ms :
  ordered mutex_rank [] poll_p [] → ordered mutex_rank [] (stop_wait_p (E:=E) poll_p fuel ms) [].
Proof.
  intros Hp. revert ms. induction fuel as [|fuel IH]; intros ms; cbn [stop_wait_p];
    repeat ordered_step.
Qed.
#[local] Hint Resolve ordered_stop_wait : cpp.

Lemma ordered_calls cs : ordered mutex_rank [] (calls_p handlers locked cs) [].
Proof.
  apply ordered_for_each. intros c.
  destruct c; unfold call_p, addChannel_p, removeChannel_p, broadcastChannels_p, sendMessage_p,
    broadcastTime_p, stop_p; repeat ordered_step.
  apply ordered_stop_wait. unfold poll_p. repeat ordered_step.
Qed.

(** ** A request that reaches the node *)

(** The text asks for a subscription, by a connected client, that the server
    grants. *)
Definition grants_subscription (w : World E) (hdl : ConnHandle) (text : string) : Prop :=
  ∃ payload sub more subId channelId c,
    json_parse text = inr payload ∧ json_string_at payload "op" = inr "subscribe"%string ∧
    json_elements payload "subscriptions" = inr (sub :: more) ∧
    json_uint32_at sub "id" = inr subId ∧ json_uint32_at sub "channelId" = inr channelId ∧
    _clients (srv w) !! hdl = Some c ∧ findSubscriptionBySubId c subId = None ∧
    is_Some (_channels (srv w) !! channelId).

(** The thread that serves it holds the server's mutex when it asks for the
    node's. *)
Lemma waits_subscribe busy Q ts hdl text w :
  is_Some (_subscribeHandler handlers) →
  (∀ ch, ∃ m, locked_subscribe locked ch hdl = locked_act SubscriptionsMutex m) →
  grants_subscription w hdl text → ClientsChannelMutex ∉ busy →
  (∀ w', env w' = env w → Q [(ClientsChannelMutex, Exclusive)] w') →
  waits SubscriptionsMutex busy Q []
    (calls_p handlers locked [CallPending (PMessage ts hdl (TextFrame text))]) w.
Proof.
  intros [f Hf] Hlock (payload & sub & more & subId & chanId & c & Hparse & Hop & Hsubs & Hid &
    Hchan & Hc & Hunused & [ch Hch]) Hbusy HQ. unfold calls_p. apply waits_for_each, waits_catch.
  unfold handleTextMessage_p. eapply waits_act; [by unfold lift; rewrite Hparse|].
  eapply waits_act; [by unfold lift; rewrite Hop|].
  apply waits_with_lock; [done|done|apply not_elem_of_nil|].
  eapply waits_act; [rewrite client_at_run; by rewrite Hc|].
  unfold dispatch_op_p. cbv zeta. unfold SUBSCRIBE. rewrite Z.eqb_refl.
  unfold handleSubscribe_p. eapply waits_act; [by unfold lift; rewrite Hsubs|].
  apply waits_for_each. unfold subscribe_one_p.
  eapply waits_act; [by unfold lift; rewrite Hid|].
  eapply waits_act; [by unfold lift; rewrite Hchan|].
  eapply waits_act; [rewrite client_at_run; by rewrite Hc|]. rewrite Hunused.
  eapply waits_act; [done|]. rewrite Hch.
  eapply waits_act; [done|]. unfold call_subscribe_p, locked_call. rewrite Hf.
  eapply waits_act; [done|]. destruct (Hlock chanId) as [m ->]. apply waits_stop.
  by apply HQ.
Qed.
End facts.
