(* ===== verification/ServerThreadInvariant.v ===== *)
(** * What [_clientsChannelMutex] protects

    The tables of clients and channels agree, and the clients know only channels
    that exist, whenever no thread holds the mutex exclusively.  Each program
    finds it so when it takes the mutex and leaves it so when it releases it; in
    between it may not be so. *)

From Stdlib Require Import Strings.Byte Strings.Ascii.
From S2P Require Import Prelude Serialization Common Logging Interfaces Server ServerFacts.
From S2P Require Import ServerInvariant ServerSpec Reachable Views ViewSteps Threads ThreadPool.
From S2P Require Import ServerThreads ServerThreadFacts.

Local Open Scope Z_scope.
Local Open Scope list_scope.

(** The part of [ServerInv] that threads share.  [P] are the subscriptions of
    which the channel may be gone. *)
Record SharedInvX (P : ChannelId → ConnHandle → Prop) (s : ServerState) : Prop := mkSharedInv {
  sh_channel id ch : _channels s !! id = Some ch → chan_id ch = id ∧ is_u32 id;
  sh_next : is_u32 (_nextChannelId s);
  sh_handle hdl c : _clients s !! hdl = Some c → ci_handle c = hdl;
  sh_inj hdl c ch1 ch2 sid : _clients s !! hdl = Some c →
    subscriptionsByChannel c !! ch1 = Some sid → subscriptionsByChannel c !! ch2 = Some sid →
    ch1 = ch2;
  sh_sub hdl c ch : _clients s !! hdl = Some c → is_Some (subscriptionsByChannel c !! ch) →
    P ch hdl ∨ is_Some (_channels s !! ch);
}.

Abbreviation SharedInv := (SharedInvX none_gone).

Lemma shared_of_inv s : ServerInv s → SharedInv s.
Proof.
  intros [Hch Hn Hc _]. split; [done|done| | |].
  - intros hdl c Hl. apply (Hc _ _ Hl).
  - intros hdl c ch1 ch2 sid Hl. apply (Hc _ _ Hl).
  - intros hdl c ch Hl Hs. right. by eapply (ok_sub_dom _ _ _ (Hc _ _ Hl)).
Qed.

(** ** Updates *)

Section updates.
Implicit Types s : ServerState.

(** Only the clients, channels and the counter matter. *)
Lemma shared_same P s s' :
  _clients s' = _clients s → _channels s' = _channels s → _nextChannelId s' = _nextChannelId s →
  SharedInvX P s → SharedInvX P s'.
Proof. intros Hc Hch Hn []. by split; rewrite ?Hc, ?Hch, ?Hn. Qed.

Lemma shared_upd_client P s hdl f :
  (∀ c, _clients s !! hdl = Some c →
     ci_handle (f c) = ci_handle c ∧
     (∀ ch1 ch2 sid, subscriptionsByChannel (f c) !! ch1 = Some sid →
        subscriptionsByChannel (f c) !! ch2 = Some sid → ch1 = ch2) ∧
     (∀ ch, is_Some (subscriptionsByChannel (f c) !! ch) →
        is_Some (subscriptionsByChannel c !! ch) ∨ is_Some (_channels s !! ch))) →
  SharedInvX P s → SharedInvX P (upd_clients (alter f hdl) s).
Proof.
  intros Hf [Hch Hn Hh Hi Hs]. split; simpl; [done|done| | |].
  - intros h c [(-> & c0 & Hc0 & ->)|[_ Hc]]%lookup_alter_Some; [|by apply Hh].
    destruct (Hf _ Hc0) as (-> & _). by apply Hh.
  - intros h c ch1 ch2 sid [(-> & c0 & Hc0 & ->)|[_ Hc]]%lookup_alter_Some; [|by eapply Hi].
    by apply (Hf _ Hc0).
  - intros h c ch [(-> & c0 & Hc0 & ->)|[_ Hc]]%lookup_alter_Some Hl; [|by eapply Hs].
    destruct (Hf _ Hc0) as (_ & _ & Hd). destruct (Hd _ Hl) as [Hl'|]; [by eapply Hs|by right].
Qed.

Lemma shared_upd_advertised P s hdl f :
  SharedInvX P s → SharedInvX P (upd_clients (alter (upd_advertised f) hdl) s).
Proof.
  intros HI. apply shared_upd_client; [|done]. intros c Hc. simpl. split_and!; [done| |by left].
  intros ch1 ch2 sid. by eapply (sh_inj _ _ HI).
Qed.

Lemma shared_delete_sub P s hdl ch :
  SharedInvX P s → SharedInvX P (upd_clients (alter (upd_subscriptions (delete ch)) hdl) s).
Proof.
  intros HI. apply shared_upd_client; [|done]. intros c Hc. simpl. split_and!; [done| |].
  - intros ch1 ch2 sid [_ H1]%lookup_delete_Some [_ H2]%lookup_delete_Some.
    by eapply (sh_inj _ _ HI).
  - intros ch' [sid [_ Hl]%lookup_delete_Some]. left. by exists sid.
Qed.

Lemma shared_emplace_sub P s hdl ch sid :
  is_Some (_channels s !! ch) →
  (∀ c ch', _clients s !! hdl = Some c → subscriptionsByChannel c !! ch' ≠ Some sid) →
  SharedInvX P s →
  SharedInvX P (upd_clients (alter (upd_subscriptions (λ m, (emplace ch sid m).1)) hdl) s).
Proof.
  intros Hch Hnew HI. apply shared_upd_client; [|done]. intros c Hc. simpl.
  split_and!; [done| |].
  - intros ch1 ch2 sid'.
    intros [H1|(E1 & E1' & _)]%lookup_emplace_Some [H2|(E2 & E2' & _)]%lookup_emplace_Some; subst.
    + by eapply (sh_inj _ _ HI).
    + by destruct (Hnew c ch1 Hc).
    + by destruct (Hnew c ch2 Hc).
    + done.
  - intros ch' [sid' [Hl|(-> & _)]%lookup_emplace_Some]; [left; by exists sid'|by right].
Qed.

Lemma shared_open s hdl name :
  SharedInv s →
  SharedInv (upd_clients (λ cs, (emplace hdl (mkClientInfo name hdl ∅ ∅) cs).1) s).
Proof.
  intros [Hch Hn Hh Hi Hs]. split; simpl; [done|done| | |].
  - intros h c [?|(-> & -> & _)]%lookup_emplace_Some; [by apply Hh|done].
  - intros h c ch1 ch2 sid [?|(-> & -> & _)]%lookup_emplace_Some; [by eapply Hi|].
    simpl. by rewrite lookup_empty.
  - intros h c ch [?|(-> & -> & _)]%lookup_emplace_Some; [by apply Hs|].
    simpl. rewrite lookup_empty. by intros [??].
Qed.

Lemma shared_fewer_clients s f :
  (∀ hdl c, f (_clients s) !! hdl = Some c → _clients s !! hdl = Some c) →
  SharedInv s → SharedInv (upd_clients f s).
Proof. intros Hf [Hch Hn Hh Hi Hs]. split; simpl; eauto. Qed.

Lemma shared_set_next s n : is_u32 n → SharedInv s → SharedInv (set_nextChannelId n s).
Proof. by intros Hn []. Qed.

Lemma shared_add_channel s n channel :
  is_u32 n → SharedInv s → SharedInv (upd_channels (λ m, (emplace n (mkChannel n channel) m).1) s).
Proof.
  intros Hn' [Hch Hn Hh Hi Hs]. split; simpl; [|done|done|done|].
  - intros id ch [?|(-> & -> & _)]%lookup_emplace_Some; [auto|done].
  - intros hdl c ch Hc Hl. destruct (Hs _ _ _ Hc Hl) as [[]|[x Hx]]. right. exists x.
    apply lookup_emplace_Some. by left.
Qed.

(** The channel goes; the clients in [l] may still be subscribed to it. *)
Lemma shared_delete_channel s chanId l :
  (∀ hdl, is_Some (_clients s !! hdl) → hdl ∈ l) →
  SharedInv s → SharedInvX (gone chanId l) (upd_channels (delete chanId) s).
Proof.
  intros Hl [Hch Hn Hh Hi Hs]. split; simpl; [|done|done|done|].
  - intros id ch [_ ?]%lookup_delete_Some. auto.
  - intros hdl c ch Hc Hsub. destruct (decide (ch = chanId)) as [->|Hne].
    + left. split; [done|]. apply Hl. by exists c.
    + right. rewrite lookup_delete_ne by done. by destruct (Hs _ _ _ Hc Hsub) as [[]|].
Qed.

Lemma shared_gone_step s chanId hdl l :
  SharedInvX (gone chanId (hdl :: l)) s →
  SharedInvX (gone chanId l) (upd_clients (alter (upd_subscriptions (delete chanId)) hdl) s).
Proof.
  intros HI. pose proof (shared_delete_sub _ _ hdl chanId HI) as [Hch Hn Hh Hi Hs].
  split; [done..|]. intros h c ch Hc Hl. destruct (Hs _ _ _ Hc Hl) as [[-> Hin]|]; [|by right].
  left. split; [done|]. apply elem_of_cons in Hin as [->|Hin]; [|done]. exfalso.
  simpl in Hc. apply lookup_alter_Some in Hc as [(_ & c0 & _ & ->)|[Hne _]]; [|done].
  simpl in Hl. rewrite lookup_delete_eq in Hl. by destruct Hl.
Qed.

Lemma shared_gone_nil s chanId : SharedInvX (gone chanId []) s → SharedInv s.
Proof.
  intros [Hch Hn Hh Hi Hs]. split; [done..|]. intros hdl c ch Hc Hl.
  destruct (Hs _ _ _ Hc Hl) as [[_ Hin]|]; [|by right]. by apply not_elem_of_nil in Hin.
Qed.
End updates.

(** ** The programs *)

Section programs.
Context `{Platform, Iteration, LogChannels, Nlohmann, Websocketpp}.
Context `{!NlohmannLaws, !WebsocketppLaws, !NlohmannUtf8}.
Context {E : Type} (handlers : Handlers E) (locked : LockedHandlers E).
Context `{!LockedHandlersOk handlers locked}.
Implicit Types w : World E.

(** [P] are the subscriptions, [Q] the known channels, of which the channel may be
    gone. *)
Definition shared_invX (P Q : ChannelId → ConnHandle → Prop) w : Prop :=
  SharedInvX P (srv w) ∧ InformedX Q w.
Definition shared_inv w : Prop := shared_invX none_gone none_gone w.

#[export] Instance same_shared_preorder : PreOrder (same_shared (E:=E)).
Proof.
  split; [by intros w; split_and!|]. intros ??? (?&?&?) (?&?&?).
  split_and!; [congruence..|by etrans].
Qed.

Lemma shared_invX_same P Q w w' : same_shared w w' → shared_invX P Q w → shared_invX P Q w'.
Proof.
  intros (Hc & Hn & Hu) [HI Hv]. split; [|by eapply informed_undisturbed].
  by eapply shared_same; [done|apply Hu|done|].
Qed.

Lemma shared_inv_same w w' : same_shared w w' → shared_inv w → shared_inv w'.
Proof. apply shared_invX_same. Qed.

Abbreviation Guarded := (guarded ClientsChannelMutex shared_inv same_shared None).
Abbreviation Holds := (holds ClientsChannelMutex shared_inv same_shared).
Abbreviation Inside := (inside ClientsChannelMutex same_shared).

Lemma same_shared_srv {A} (m : M (World E) A) :
  preserves same_srv m → preserves undisturbed m → preserves same_shared m.
Proof.
  intros Hm Hu w. pose proof (Hm w) as Hs. unfold same_srv in Hs.
  split_and!; [by rewrite Hs..|apply Hu].
Qed.

Lemma same_shared_update f :
  (∀ s, _clients (f s) = _clients s ∧ _nextChannelId (f s) = _nextChannelId s) →
  preserves undisturbed (update (E:=E) f) → preserves same_shared (update (E:=E) f).
Proof. intros Hf Hu w. destruct (Hf (srv w)). by split_and!. Qed.

Lemma same_shared_emit e : neutral_event e → preserves same_shared (emit (E:=E) e).
Proof. intros He. apply same_shared_srv; [auto with cpp|by apply undisturbed_emit]. Qed.

#[local] Hint Extern 5 (preserves same_shared _) =>
  first [ apply same_shared_emit; exact I
        | apply same_shared_srv; [first [apply on_env_same_srv
            | apply same_srv_of_env; solve [auto 2 with cpp]] | solve [auto 2 with cpp]]
        | apply same_shared_update; [done|by apply undisturbed_update] ] : cpp.

Lemma holds_same {A} (m : M (World E) A) : preserves same_shared m → Holds (act m).
Proof.
  intros Hm. apply holds_act; [exact shared_inv_same|]. intros w. apply shared_inv_same, Hm.
Qed.

Lemma holds_update f :
  (∀ s, SharedInv s → SharedInv (f s)) → preserves undisturbed (update (E:=E) f) →
  Holds (act (update (E:=E) f)).
Proof.
  intros Hf Hu. apply holds_act; [exact shared_inv_same|]. intros w [HI Hv].
  split; [by apply Hf|]. eapply informed_undisturbed; [apply Hu|done].
Qed.

Lemma holds_upd_client hdl f :
  (∀ s, SharedInv s → SharedInv (upd_clients (alter f hdl) s)) →
  Holds (act (upd_client (E:=E) hdl f)).
Proof. intros Hf. apply holds_update; [exact Hf|apply undisturbed_upd_client]. Qed.

Lemma node_holds {A} (p : prog (World E) Mutex A) :
  quiet ClientsChannelMutex same_shared p → Holds p.
Proof. apply quiet_holds, shared_inv_same. Qed.

Lemma locked_call_quiet {X} (hd : option (X → ConnHandle → M E unit)) e p x hdl :
  neutral_event (e x hdl) → node_program (p x hdl) →
  quiet ClientsChannelMutex same_shared (locked_call hd e p x hdl).
Proof.
  intros He [_ Hp]. unfold locked_call. destruct hd; [|done].
  apply quiet_bind; [by apply quiet_act, same_shared_emit|done].
Qed.

Lemma quiet_call_subscribe ch hdl :
  quiet ClientsChannelMutex same_shared (call_subscribe_p handlers locked ch hdl).
Proof. apply locked_call_quiet; [exact I|apply (subscribe_node handlers locked)]. Qed.
Lemma quiet_call_unsubscribe ch hdl :
  quiet ClientsChannelMutex same_shared (call_unsubscribe_p handlers locked ch hdl).
Proof. apply locked_call_quiet; [exact I|apply (unsubscribe_node handlers locked)]. Qed.
Lemma quiet_call_advertise adv hdl :
  quiet ClientsChannelMutex same_shared (call_advertise_p handlers locked adv hdl).
Proof. apply locked_call_quiet; [exact I|apply (advertise_node handlers locked)]. Qed.
Lemma quiet_call_unadvertise id hdl :
  quiet ClientsChannelMutex same_shared (call_unadvertise_p handlers locked id hdl).
Proof. apply locked_call_quiet; [exact I|apply (unadvertise_node handlers locked)]. Qed.
Lemma quiet_call_message msg hdl :
  quiet ClientsChannelMutex same_shared (call_message_p handlers locked msg hdl).
Proof. apply locked_call_quiet; [exact I|apply (message_node handlers locked)]. Qed.
#[local] Hint Resolve quiet_call_subscribe quiet_call_unsubscribe quiet_call_advertise
  quiet_call_unadvertise quiet_call_message : cpp.

(** Goes through a stretch of program inside the mutex whose acts each keep the
    invariant. *)
Ltac holds_step :=
  match goal with
  | |- holds _ _ _ (pret _) => by intros ??
  | |- holds _ _ _ (pbind _ _) => apply holds_bind; [|intros ?]
  | |- holds _ _ _ (pfor_each _ _) => apply holds_for_each; intros ?
  | |- holds _ _ _ (pwhen _ _) => apply holds_when
  | |- holds _ _ _ (act (upd_client _ (upd_subscriptions (delete _)))) =>
      apply holds_upd_client; intros; by apply shared_delete_sub
  | |- holds _ _ _ (act (upd_client _ (upd_advertised _))) =>
      apply holds_upd_client; intros; by apply shared_upd_advertised
  | |- holds _ _ _ (act _) => apply holds_same; solve [auto with cpp]
  | |- holds _ _ _ ((let '(_, _) := ?p in _) _) => destruct p
  | |- holds _ _ _ (match ?x with _ => _ end) => destruct x
  | |- _ => solve [auto with cpp | apply node_holds; auto with cpp]
  end.

Lemma client_at_shared hdl : preserves same_shared (client_at (E:=E) hdl).
Proof. intros w. rewrite client_at_run. by destruct (_clients (srv w) !! hdl). Qed.
Lemma publications_of_shared hdl : preserves same_shared (publications_of (E:=E) hdl).
Proof. done. Qed.
Lemma on_net__shared f : preserves same_shared (on_net_ (E:=E) f).
Proof. done. Qed.
Lemma on_net_ec_shared f : preserves same_shared (on_net_ec (E:=E) f).
Proof. intros w. unfold on_net_ec, on_net. by destruct (f (net w)). Qed.
#[local] Hint Resolve client_at_shared publications_of_shared on_net__shared
  on_net_ec_shared same_shared_preorder : cpp.

(** Goes through a computation outside the mutex. *)
Ltac shared_step :=
  match goal with
  | |- preserves _ (bind _ _) => apply preserves_bind; [tc_solve| |intros ?]
  | |- preserves _ (match ?x with _ => _ end) => destruct x
  | |- preserves _ (let _ := _ in _) => cbv zeta
  | |- _ => solve [auto with cpp]
  end.

Lemma validateConnection_shared hdl : preserves same_shared (validateConnection (E:=E) hdl).
Proof. unfold validateConnection. repeat shared_step. Qed.
Lemma start_shared host port : preserves same_shared (start (E:=E) host port).
Proof. unfold start, throw_if. repeat shared_step. Qed.
#[local] Hint Resolve validateConnection_shared start_shared : cpp.

Lemma holds_subscribe_one hdl sub : Holds (subscribe_one_p handlers locked hdl sub).
Proof.
  unfold subscribe_one_p. do 2 (holds_step; [holds_step|]).
  intros w HI. apply inside_bind_act. intros w1 Hr1. rewrite client_at_run.
  assert (shared_inv w1) as HI1 by by eapply shared_inv_same.
  destruct (_clients (srv w1) !! hdl) as [c|] eqn:Hc; [|done]. cbn [fst snd].
  destruct (findSubscriptionBySubId c a) as [p|] eqn:Hf.
  { apply holds_same; [auto with cpp|done]. }
  apply inside_bind_act. intros w2 Hr2. unfold server, gets. cbn [fst snd].
  assert (shared_inv w2) as HI2 by by eapply shared_inv_same.
  destruct (_channels (srv w2) !! a0) as [ch|] eqn:Hch.
  2: { apply holds_same; [auto with cpp|done]. }
  apply inside_bind_act. intros w3 Hr3. unfold upd_client, update, modify. cbn [fst snd].
  assert (shared_inv w3) as HI3 by by eapply shared_inv_same.
  apply node_holds; [auto with cpp|]. split.
  2: { apply (informed_undisturbed _ w3); [apply undisturbed_upd_client|apply HI3]. }
  apply shared_emplace_sub; [| |apply HI3].
  - destruct Hr3 as (_ & _ & Hu3). rewrite (und_channels _ _ Hu3). by exists ch.
  - intros c' ch' Hc'. destruct Hr3 as (Hc3 & _). destruct Hr2 as (Hc2 & _).
    rewrite Hc3, Hc2, Hc in Hc'. injection Hc' as <-. by eapply findSubscriptionBySubId_None.
Qed.
#[local] Hint Resolve holds_subscribe_one : cpp.

Lemma holds_dispatch_op hdl op payload : Holds (dispatch_op_p handlers locked hdl op payload).
Proof.
  unfold dispatch_op_p, handleSubscribe_p, handleUnsubscribe_p, handleAdvertise_p,
    handleUnadvertise_p, unsubscribe_one_p, advertise_one_p, unadvertise_one_p.
  repeat holds_step.
Qed.
#[local] Hint Resolve holds_dispatch_op : cpp.

Lemma holds_fewer_clients f :
  (∀ cs : gmap ConnHandle ClientInfo, f cs ⊆ cs) → Holds (act (update (E:=E) (upd_clients f))).
Proof.
  intros Hf. apply holds_update; [|by apply undisturbed_fewer_clients].
  intros s. apply shared_fewer_clients. intros hdl c Hc. by eapply lookup_weaken.
Qed.
Lemma holds_delete_client hdl : Holds (act (update (E:=E) (upd_clients (delete hdl)))).
Proof. apply holds_fewer_clients. intros cs. apply delete_subseteq. Qed.
Lemma holds_clear : Holds (act (update (E:=E) (upd_clients (λ _, ∅)))).
Proof. apply holds_fewer_clients. intros cs. apply map_empty_subseteq. Qed.
Lemma holds_set_next n : Holds (act (update (E:=E) (set_nextChannelId (u32 n)))).
Proof.
  apply holds_update; [|by apply undisturbed_update].
  intros s. apply shared_set_next, u32_range.
Qed.
Lemma holds_add n channel :
  Holds (act (update (E:=E) (upd_channels (λ m, (emplace (u32 n) (mkChannel (u32 n) channel) m).1)))).
Proof.
  apply holds_act; [exact shared_inv_same|]. intros w [HI Hv].
  split; [by apply shared_add_channel, HI; apply u32_range|by apply informed_add].
Qed.
#[local] Hint Resolve holds_delete_client holds_clear holds_set_next holds_add : cpp.

(** ** Greeting a client *)

Lemma shared_table_ok P s : SharedInvX P s → table_ok (_channels s).
Proof. intros HI id ch. apply (sh_channel _ _ HI). Qed.

(** The advertisement that was put together under the lock is of the channels
    there are. *)
Lemma holds_greeted_channels hdl :
  Holds (let* channels := act channels_json in act (sendJson hdl (advertise_json channels))).
Proof.
  intros w HI. apply inside_bind_act. intros w1 Hr1. unfold channels_json, bind, server, gets, lift.
  cbn [fst snd]. assert (shared_inv w1) as HI1 by by eapply shared_inv_same.
  destruct (push_channels _ _) as [e|j] eqn:Hj; [done|].
  apply inside_act. intros w2 Hr2. assert (shared_inv w2) as [HI2 Hv2] by by eapply shared_inv_same.
  assert (_channels (srv w2) = _channels (srv w1)) as Hch by apply Hr2.
  destruct (sends_sendJson hdl (advertise_json j) w2) as (_ & [Hs _] & _).
  split; [by rewrite Hs|]. apply informed_advertise; [done|by eapply shared_table_ok|].
  by rewrite Hch.
Qed.

(** From the entry of the client in the table to the end of the function. *)
Lemma holds_greet hdl (endpoint : string) :
  Holds (act (update (upd_clients (λ cs, (emplace hdl (mkClientInfo endpoint hdl ∅ ∅) cs).1))) ;;*
    let* name := act (server _name) in
    let* capabilities := act (server _capabilities) in
    let* info := act (lift (json_dump (serverInfo_json name capabilities))) in
    act (emit (EvConSend hdl (TextFrame info))) ;;*
    act (on_net_ (ws_con_send hdl (TextFrame info))) ;;*
    let* channels := act channels_json in
    act (sendJson hdl (advertise_json channels))).
Proof.
  intros w HI. apply inside_bind_act. intros w1 Hr1. cbn [fst snd update modify].
  assert (shared_invX none_gone (joining hdl) (set_srv (upd_clients (λ cs,
    (emplace hdl (mkClientInfo endpoint hdl ∅ ∅) cs).1) (srv w1)) w1)) as HI1.
  { destruct (shared_inv_same _ _ Hr1 HI) as [HI1 Hv1].
    split; [by apply shared_open|by apply informed_open]. }
  apply inside_bind_act. intros w2 Hr2. unfold server, gets. cbn [fst snd].
  pose proof (shared_invX_same _ _ _ _ Hr2 HI1) as HI2. clear HI HI1 Hr1 Hr2 w1.
  apply inside_bind_act. intros w3 Hr3. cbn [fst snd].
  pose proof (shared_invX_same _ _ _ _ Hr3 HI2) as HI3.
  assert (_name (srv w2) = _name (srv w3)) as -> by (symmetry; apply Hr3).
  destruct (serverInfo_dumps w3) as [info Hinfo]; [apply HI3..|].
  apply inside_bind_act. intros w4 Hr4. unfold lift. cbn [fst snd]. rewrite Hinfo.
  pose proof (shared_invX_same _ _ _ _ Hr4 HI3) as HI4.
  apply inside_bind_act. intros w5 Hr5. cbn [fst snd emit modify].
  pose proof (shared_invX_same _ _ _ _ Hr5 HI4) as [HI5 Hv5].
  assert (_name (srv w5) = _name (srv w3) ∧ _capabilities (srv w5) = _capabilities (srv w3))
    as [Hname Hcaps].
  { destruct Hr4 as (_ & _ & [_ Hn4 Hp4 _ _]), Hr5 as (_ & _ & [_ Hn5 Hp5 _ _]).
    split; congruence. }
  assert (shared_inv (mkWorld (srv w5) (net w5) (env w5)
    (out w5 ++ [EvConSend hdl (TextFrame info)]))) as HI6.
  { split; [done|]. apply informed_greet; [done|]. by rewrite Hname, Hcaps. }
  revert HI6. generalize (mkWorld (srv w5) (net w5) (env w5)
    (out w5 ++ [EvConSend hdl (TextFrame info)])). intros w6 HI6.
  apply holds_bind; [holds_step|intros _; apply holds_greeted_channels|done].
Qed.
#[local] Hint Resolve holds_greet : cpp.

(** ** Removing a channel *)

(** The loop, with the clients still to visit. *)
Lemma inside_remove_loop chanId (l : list (ConnHandle * ClientInfo)) w :
  shared_invX (gone chanId l.*1) (gone chanId l.*1) w →
  Inside (λ _, shared_inv)
    (pfor_each l (λ '(hdl, _),
       act (upd_client hdl (upd_subscriptions (delete chanId))) ;;*
       act (sendJson hdl (unadvertise_json chanId)))) w.
Proof.
  revert w. induction l as [|[hdl c] l IH]; intros w HI.
  { destruct HI as [HI Hv]. split; [by eapply shared_gone_nil|by eapply informed_gone_nil]. }
  apply inside_bind, inside_bind_act. intros w1 Hr1. unfold upd_client.
  cbn [fst snd update modify]. destruct (shared_invX_same _ _ _ _ Hr1 HI) as [HI1 Hv1].
  assert (shared_invX (gone chanId l.*1) (gone chanId (hdl :: l.*1)) (set_srv (upd_clients
    (alter (upd_subscriptions (delete chanId)) hdl) (srv w1)) w1)) as HI2.
  { split; [by apply shared_gone_step|].
    apply (informed_undisturbed _ w1); [|done].
    apply (undisturbed_upd_client hdl (upd_subscriptions (delete chanId))). }
  apply inside_act. intros w3 Hr3. destruct (shared_invX_same _ _ _ _ Hr3 HI2) as [HI3 Hv3].
  destruct (sends_sendJson hdl (unadvertise_json chanId) w3) as (Hr & [Hs _] & _). rewrite Hr.
  apply IH. split; [by rewrite Hs|by apply informed_unadvertise].
Qed.

Lemma guarded_removeChannel chanId : Guarded (removeChannel_p chanId).
Proof.
  apply guarded_exclusive. intros w HI. apply inside_bind_act. intros w1 Hr1.
  cbn [fst snd update modify]. apply inside_bind_act. intros w2 Hr2.
  unfold server, gets. cbn [fst snd]. apply inside_remove_loop.
  assert (∀ hdl, is_Some (_clients (srv w1) !! hdl) → hdl ∈ (iter_map (_clients (srv w2))).*1) as Hl.
  { intros hdl Hc. apply elem_of_iter_clients. destruct Hr2 as (Hc2 & _). by rewrite Hc2. }
  destruct (shared_inv_same _ _ Hr1 HI) as [HI1 Hv1]. eapply shared_invX_same; [exact Hr2|].
  split; [by apply shared_delete_channel|by apply informed_gone].
Qed.
#[local] Hint Resolve guarded_removeChannel : cpp.

(** ** Broadcasting the channels *)

Lemma guarded_broadcastChannels : Guarded (broadcastChannels_p (E:=E)).
Proof.
  apply guarded_exclusive. intros w HI. apply inside_bind_act. intros w1 Hr1.
  unfold server, gets. cbn [fst snd]. pose proof (shared_inv_same _ _ Hr1 HI) as HI1.
  case_bool_decide; [exact HI1|]. apply inside_bind_act. intros w2 Hr2.
  unfold channels_json, bind, server, gets, lift. cbn [fst snd].
  pose proof (shared_inv_same _ _ Hr2 HI1) as HI2.
  destruct (push_channels _ _) as [e|j] eqn:Hj; [done|].
  apply inside_bind_act. intros w3 Hr3. cbn [fst snd].
  pose proof (shared_inv_same _ _ Hr3 HI2) as HI3.
  assert (_channels (srv w3) = _channels (srv w2)) as Hch by apply Hr3. rewrite <-Hch in Hj.
  destruct (json_dump (advertise_json j)) as [e|msg] eqn:Hmsg; [done|].
  eapply inside_mono; [apply (inside_for_each _ _
    (λ w', shared_inv w' ∧ _channels (srv w') = _channels (srv w3)))|by intros r w' []].
  2: { by split. }
  intros [hdl c] w' _ [HI' Hch']. apply inside_act. intros w4 Hr4.
  destruct (shared_inv_same _ _ Hr4 HI') as [HI4 Hv4].
  assert (_channels (srv w4) = _channels (srv w3)) as Hch4
    by (rewrite <-Hch'; apply Hr4).
  destruct (sends_sendJsonRaw hdl msg w4) as (_ & [Hs _] & _).
  split; [|by rewrite Hs]. split; [by rewrite Hs|].
  eapply informed_advertise_raw; [done|by eapply shared_table_ok|by rewrite Hch4|done].
Qed.
#[local] Hint Resolve guarded_broadcastChannels : cpp.

(** Goes through a program outside the mutex. *)
Ltac guarded_step :=
  match goal with
  | |- guarded _ _ _ None (pret _) => reflexivity
  | |- guarded _ _ _ None (pbind _ _) => apply guarded_bind; [|intros ?]
  | |- guarded _ _ _ None (pcatch _ _) => apply guarded_catch; [|intros ?]
  | |- guarded _ _ _ None (pfor_each _ _) => apply guarded_for_each; intros ?
  | |- guarded _ _ _ None (pwhen _ _) => apply guarded_when
  | |- guarded _ _ _ None (with_lock _ Exclusive _) => apply guarded_exclusive; repeat holds_step
  | |- guarded _ _ _ None (with_lock ServerThread _ _) => apply guarded_with_lock; [done|]
  | |- guarded _ _ _ None (with_lock _ Shared _) => apply guarded_shared
  | |- guarded _ _ _ None (act _) => apply guarded_act; solve [auto with cpp]
  | |- guarded _ _ _ None ((let '(_, _) := ?p in _) _) => destruct p
  | |- guarded _ _ _ None (match ?x with _ => _ end) => destruct x
  | |- _ => solve [auto with cpp | apply quiet_guarded; auto with cpp]
  end.

Lemma guarded_handleConnectionOpened hdl : Guarded (handleConnectionOpened_p (E:=E) hdl).
Proof.
  apply guarded_exclusive. do 4 (apply holds_bind; [holds_step|intros ?]). apply holds_greet.
Qed.
#[local] Hint Resolve guarded_handleConnectionOpened : cpp.

Lemma guarded_run_pending p : Guarded (run_pending_p handlers locked p).
Proof.
  destruct p; unfold run_pending_p, handleMessage_p,
    handleTextMessage_p, handleBinaryMessage_p, handleConnectionClosed_p, take_client_p;
    repeat guarded_step.
Qed.
#[local] Hint Resolve guarded_run_pending : cpp.

Lemma guarded_stop_wait poll_p fuel ms :
  Guarded poll_p → Guarded (stop_wait_p (E:=E) poll_p fuel ms).
Proof.
  intros Hp. revert ms. induction fuel as [|fuel IH]; intros ms; cbn [stop_wait_p];
    repeat guarded_step.
Qed.
#[local] Hint Resolve guarded_stop_wait : cpp.

Lemma guarded_addChannel channel : Guarded (addChannel_p channel).
Proof. unfold addChannel_p. repeat guarded_step. Qed.
Lemma guarded_env {A} (m : M E A) : Guarded (act (on_env m)).
Proof. repeat guarded_step. Qed.
#[local] Hint Resolve guarded_addChannel : cpp.

Lemma guarded_calls cs : Guarded (calls_p handlers locked cs).
Proof.
  apply guarded_for_each. intros c.
  destruct c; unfold call_p, sendMessage_p,
    broadcastTime_p, stop_p, join_server_thread; repeat guarded_step.
  apply guarded_stop_wait. unfold poll_p. repeat guarded_step.
Qed.

(** ** Runs of the server's threads *)

Lemma threads_protected css w :
  shared_inv w →
  protected ClientsChannelMutex shared_inv same_shared (mkConfig (threads_of handlers locked css) w).
Proof.
  intros HI. apply protected_start; [|done].
  apply Forall_fmap, Forall_forall. intros cs _. apply guarded_calls.
Qed.

Lemma threads_well_ordered css w : well_ordered mutex_rank (mkConfig (threads_of handlers locked css) w).
Proof.
  intros i t. simpl.
  intros (p & -> & (cs & -> & _)%list_lookup_fmap_Some)%list_lookup_fmap_Some. simpl. apply ordered_calls; apply _.
Qed.

Lemma server_threads_well_ordered ps css w :
  well_ordered mutex_rank
    (mkConfig (run_loop handlers locked ps :: threads_of handlers locked css) w).
Proof.
  intros [|i] t; simpl.
  - intros [= <-]. apply ordered_run_loop; apply _.
  - apply (threads_well_ordered css w i).
Qed.
End programs.
