(* ===== verification/ServerCustody.v ===== *)
(** * Who holds what, act by act

    A ROS subscription or publisher of the node belongs to the client for which
    the server has an entry, or some thread is about to end it.  Every program of
    the server is careful in this sense, given handlers that are. *)

From Stdlib Require Import Strings.Byte Strings.Ascii.
From S2P Require Import Prelude Serialization Common Logging Interfaces Server ServerFacts.
From S2P Require Import ServerInvariant ServerSpec Reachable Views Threads ThreadPool Custody.
From S2P Require Import ServerThreads ServerThreadFacts System.

Local Open Scope Z_scope.
Local Open Scope list_scope.

(** What a node keeps on behalf of a client. *)
Inductive Holding :=
| HeldSubscription (ch : ChannelId) (hdl : ConnHandle)
| HeldPublication (hdl : ConnHandle) (id : ClientChannelId).

Definition client_holds (cs : gmap ConnHandle ClientInfo) (x : Holding) : Prop :=
  match x with
  | HeldSubscription ch hdl => ∃ c, cs !! hdl = Some c ∧ is_Some (subscriptionsByChannel c !! ch)
  | HeldPublication hdl id => ∃ c, cs !! hdl = Some c ∧ id ∈ advertisedChannels c
  end.

#[export] Instance Holding_eq_dec : EqDecision Holding.
Proof. solve_decision. Defined.

#[export] Instance client_holds_dec cs x : Decision (client_holds cs x).
Proof.
  destruct x as [ch hdl|hdl id]; simpl; (destruct (cs !! hdl) as [c|]; [|right; by intros (? & [=] & _)]).
  - destruct (decide (is_Some (subscriptionsByChannel c !! ch))).
    + left. by exists c.
    + right. by intros (? & [= <-] & ?).
  - destruct (decide (id ∈ advertisedChannels c)).
    + left. by exists c.
    + right. by intros (? & [= <-] & ?).
Defined.

Definition holder (x : Holding) : ConnHandle :=
  match x with HeldSubscription _ hdl | HeldPublication hdl _ => hdl end.

Lemma client_holds_lookup cs cs' x :
  cs' !! holder x = cs !! holder x → client_holds cs x → client_holds cs' x.
Proof. destruct x; simpl; by intros ->. Qed.

(** An update of one client that keeps its entries. *)
Lemma client_holds_alter cs f hdl x :
  (∀ c, dom (subscriptionsByChannel c) ⊆ dom (subscriptionsByChannel (f c)) ∧
        advertisedChannels c ⊆ advertisedChannels (f c)) →
  client_holds cs x → client_holds (alter f hdl cs) x.
Proof.
  intros Hf. destruct (decide (holder x = hdl)) as [<-|Hne].
  2: { apply client_holds_lookup. by rewrite lookup_alter_ne. }
  destruct x; simpl; intros (c & Hc & Hx); exists (f c); rewrite lookup_alter_eq, Hc;
    (split; [done|]); destruct (Hf c) as [Hs Ha]; [|by apply Ha].
  by apply elem_of_dom, Hs, elem_of_dom.
Qed.

(** Erasing one subscription. *)
Lemma client_holds_delete cs ch hdl x :
  x ≠ HeldSubscription ch hdl → client_holds cs x →
  client_holds (alter (upd_subscriptions (delete ch)) hdl cs) x.
Proof.
  intros Hx. destruct (decide (holder x = hdl)) as [<-|Hne].
  2: { apply client_holds_lookup. by rewrite lookup_alter_ne. }
  destruct x; simpl; intros (c & Hc & Hl); exists (upd_subscriptions (delete ch) c);
    rewrite lookup_alter_eq, Hc; (split; [done|]); simpl; [|done].
  rewrite lookup_delete_ne; [done|]. intros <-. by destruct Hx.
Qed.

Section holdings.
Context `{Platform, Iteration, LogChannels, Nlohmann, Websocketpp} `{TopicBridge B}.
Implicit Types w : World B.

Definition node_keeps (b : B) (x : Holding) : Prop :=
  match x with
  | HeldSubscription ch hdl => subscribed b ch hdl
  | HeldPublication hdl id => publishing b hdl id
  end.

Definition kept w (x : Holding) : Prop := node_keeps (env w) x.
Definition accounted w (x : Holding) : Prop := client_holds (_clients (srv w)) x.
Definition same_clients w w' : Prop := _clients (srv w') = _clients (srv w).

#[export] Instance same_clients_preorder : PreOrder same_clients.
Proof. split; [done|]. intros x y z Hxy Hyz. unfold same_clients in *. congruence. Qed.

Lemma accounted_same w w' x : same_clients w w' → accounted w' x ↔ accounted w x.
Proof. unfold accounted, same_clients. by intros ->. Qed.

(** The node may have gained [P]; the server's clients are as they were. *)
Definition acquiring (P : Holding → Prop) w w' : Prop :=
  same_clients w w' ∧ ∀ x, kept w' x → kept w x ∨ P x.

Definition none_held (x : Holding) : Prop := False.

Abbreviation Steady := (steady same_clients kept accounted).

Lemma acquiring_steady w w' : acquiring none_held w w' → Steady w w'.
Proof.
  intros [Hc Hx]. split; [done|]. intros x [Hk|[]]%Hx. right. right.
  split; [done|]. by apply accounted_same.
Qed.

(** Neither the clients nor the node changes. *)
Definition same_holdings w w' : Prop := same_clients w w' ∧ env w' = env w.

#[export] Instance same_holdings_preorder : PreOrder same_holdings.
Proof. split; [by split|]. intros x y z [? ?] [? ?]. split; [by etrans|congruence]. Qed.

Lemma same_holdings_acquiring w w' : same_holdings w w' → acquiring none_held w w'.
Proof. intros [Hc He]. split; [done|]. unfold kept. rewrite He. auto. Qed.

Lemma same_env_holdings w w' : same_srv_env w w' → same_holdings w w'.
Proof. intros [Hs He]. split; [unfold same_clients; congruence|done]. Qed.

Lemma holdings_of_same {A} (m : M (World B) A) :
  preserves same_srv_env m → preserves same_holdings m.
Proof. intros Hm w. apply same_env_holdings, Hm. Qed.

Lemma same_env_acquiring w w' : same_srv_env w w' → acquiring none_held w w'.
Proof. intros Hs. by apply same_holdings_acquiring, same_env_holdings. Qed.

Lemma steady_same {A} (m : M (World B) A) : preserves same_srv_env m → preserves Steady m.
Proof. intros Hm w. by apply acquiring_steady, same_env_acquiring. Qed.

Lemma steady_update f :
  (∀ s, _clients (f s) = _clients s) → preserves Steady (update (E:=B) f).
Proof. intros Hf w. apply acquiring_steady. split; [apply Hf|]. by left. Qed.

Lemma acquiring_env {A} (m : M B A) :
  (∀ b x, node_keeps (m b).1 x → node_keeps b x) → preserves (acquiring none_held) (on_env m).
Proof.
  intros Hm w. unfold on_env. specialize (Hm (env w)).
  destruct (m (env w)) as [b r]. split; [done|]. intros x Hx. left. by apply Hm.
Qed.

Lemma acquiring_same {A} (m : M (World B) A) :
  preserves same_srv_env m → preserves (acquiring none_held) m.
Proof. intros Hm w. apply same_env_acquiring, Hm. Qed.

Lemma steady_env {A} (m : M B A) :
  (∀ b x, node_keeps (m b).1 x → node_keeps b x) → preserves Steady (on_env m).
Proof. intros Hm w. apply acquiring_steady. by apply acquiring_env. Qed.

(** What [gains] says of a handler that runs under a mutex of the node. *)
Lemma gains_acquiring {A} (P : Holding → Prop) Ps Pp (m : M B A) l :
  l ≠ ClientsChannelMutex → (∀ b, gains Ps Pp b (m b).1) →
  (∀ ch hdl, Ps ch hdl → P (HeldSubscription ch hdl)) →
  (∀ hdl id, Pp hdl id → P (HeldPublication hdl id)) →
  quiet ClientsChannelMutex (acquiring P) (locked_act l m).
Proof.
  intros Hl Hm HPs HPp. apply quiet_with_lock, quiet_act; [done|]. intros w. unfold on_env.
  specialize (Hm (env w)). destruct (m (env w)) as [b r]. split; [done|].
  destruct Hm as (_ & Hs & Hp). intros [ch hdl|hdl id].
  - intros [?|?]%Hs; auto.
  - intros [?|?]%Hp; auto.
Qed.

Lemma gains_keeps b b' x : gains nobody nobody b b' → node_keeps b' x → node_keeps b x.
Proof. intros (_ & Hs & Hp). destruct x; [by intros [?|[]]%Hs|by intros [?|[]]%Hp]. Qed.

Lemma locked_act_returns {A} l (m : M B A) :
  (∀ b, ∃ a, (m b).2 = inr a) → always_returns (locked_act l m).
Proof.
  intros Hm. apply returns_with_lock, returns_act. intros w. unfold on_env.
  destruct (Hm (env w)) as [a Ha]. destruct (m (env w)). by exists a.
Qed.

Lemma locked_act_ends {A} l (m : M B A) x K :
  (∀ b, ¬ node_keeps (m b).1 x) → ends kept K x (locked_act l m).
Proof.
  intros Hm w. left. unfold kept, on_env. specialize (Hm (env w)). by destruct (m (env w)).
Qed.

(** Between whole calls, the system's invariant says it. *)
Lemma sys_accounted w x : SysInv (srv w) (env w) → kept w x → accounted w x.
Proof.
  intros HI. destruct x as [ch hdl|hdl id]; intros Hx.
  - by destruct (sys_sub _ _ _ _ HI _ _ Hx) as [[]|?].
  - by destruct (sys_pub _ _ _ _ HI _ _ Hx) as [[]|?].
Qed.
End holdings.

(** What locked handlers do to what the node keeps, act by act. *)
Class LockedCustody `{Platform, Iteration, LogChannels, Nlohmann, Websocketpp} `{TopicBridge B}
    (locked : LockedHandlers B) : Prop := {
  locked_subscribe_keeps ch hdl :
    quiet ClientsChannelMutex (acquiring (eq (HeldSubscription ch hdl)))
      (locked_subscribe locked ch hdl);
  locked_unsubscribe_keeps ch hdl :
    quiet ClientsChannelMutex (acquiring none_held) (locked_unsubscribe locked ch hdl);
  locked_unsubscribe_returns ch hdl : always_returns (locked_unsubscribe locked ch hdl);
  locked_unsubscribe_ends ch hdl :
    ends kept (λ _, False) (HeldSubscription ch hdl) (locked_unsubscribe locked ch hdl);
  locked_advertise_keeps adv hdl :
    quiet ClientsChannelMutex (acquiring (eq (HeldPublication hdl (adv_channelId adv))))
      (locked_advertise locked adv hdl);
  locked_unadvertise_keeps id hdl :
    quiet ClientsChannelMutex (acquiring none_held) (locked_unadvertise locked id hdl);
  locked_unadvertise_returns id hdl : always_returns (locked_unadvertise locked id hdl);
  locked_unadvertise_ends id hdl :
    ends kept (λ _, False) (HeldPublication hdl id) (locked_unadvertise locked id hdl);
  locked_message_keeps msg hdl :
    quiet ClientsChannelMutex (acquiring none_held) (locked_message locked msg hdl);
}.

Section programs.
Context `{Platform, Iteration, LogChannels, Nlohmann, Websocketpp}.
Context `{!NlohmannLaws, !WebsocketppLaws}.
Context `{TopicBridge B} (handlers : Handlers B) `{!TopicBridgeOk handlers}.
Context (locked : LockedHandlers B) `{!LockedCustody locked}.
Implicit Types w : World B.

Abbreviation Careful := (careful ClientsChannelMutex same_clients kept accounted).
Abbreviation Mild := (mild ClientsChannelMutex same_clients kept accounted).
Abbreviation Unlocked := (unlocked (W:=World B)).
Abbreviation LockedIn := (locked_in (W:=World B)).
Abbreviation Stable := (stable same_clients).
Abbreviation Steady := (steady same_clients kept accounted).

(** The client is in the table, while the mutex is held. *)
Definition present (hdl : ConnHandle) (o : option (World B)) : Prop :=
  ∃ w, o = Some w ∧ is_Some (_clients (srv w) !! hdl).
(** A client has an entry for [x], while the mutex is held. *)
Definition entered (x : Holding) (o : option (World B)) : Prop := ∃ w, o = Some w ∧ accounted w x.

Lemma stable_present hdl : Stable (present hdl).
Proof. intros w w' Hc (? & [= <-] & Hl). exists w'. by rewrite Hc. Qed.
Lemma stable_entered x : Stable (entered x).
Proof. intros w w' Hc (? & [= <-] & Hl). exists w'. by rewrite accounted_same. Qed.

Lemma mild_acquiring {A} P (p : prog (World B) Mutex A) :
  Stable P → quiet ClientsChannelMutex (acquiring none_held) p → Mild P p.
Proof.
  intros Hst. apply mild_quiet; [done|by intros w w' []|].
  intros w w' _ Ha. by apply acquiring_steady.
Qed.

(** The handler runs for a client that has the entry. *)
Lemma mild_entered {A} x (p : prog (World B) Mutex A) :
  quiet ClientsChannelMutex (acquiring (eq x)) p → Mild (entered x) p.
Proof.
  apply mild_quiet; [apply stable_entered|by intros w w' []|].
  intros w w' [(? & [= <-] & Hx)|(? & [=] & _)] [Hc Hk] y [Hy|<-]%Hk.
  - right. right. split; [done|]. by apply accounted_same.
  - left. by apply (accounted_same w w').
Qed.

Lemma mild_emit P e : Stable P → Mild P (act (emit e)).
Proof. intros Hst. apply mild_act; [done|]. by apply steady_same. Qed.

Lemma mild_call {X} P (hd : option (X → ConnHandle → M B unit)) e p x hdl :
  Stable P → Mild P (p x hdl) → Mild P (locked_call hd e p x hdl).
Proof.
  intros Hst Hp. unfold locked_call. destruct hd; [|apply mild_ret].
  apply mild_bind; [by apply mild_emit|done].
Qed.

Lemma call_ends {X} (hd : option (X → ConnHandle → M B unit)) e p x hdl y :
  is_Some hd → ends kept (λ _, False) y (p x hdl) →
  ends kept (λ _, False) y (locked_call hd e p x hdl).
Proof. intros [f ->] Hp w. by right. Qed.

Lemma call_returns {X} (hd : option (X → ConnHandle → M B unit)) e p x hdl :
  always_returns (p x hdl) → always_returns (locked_call hd e p x hdl).
Proof.
  intros Hp. unfold locked_call. destruct hd; [|by eexists].
  apply returns_bind; [|done]. apply returns_act. intros w. by eexists.
Qed.

Lemma unsubscribe_ends ch hdl :
  ends kept (λ _, False) (HeldSubscription ch hdl) (call_unsubscribe_p handlers locked ch hdl).
Proof. apply call_ends; [apply unsubscribe_set|apply locked_unsubscribe_ends]. Qed.
Lemma unadvertise_ends id hdl :
  ends kept (λ _, False) (HeldPublication hdl id) (call_unadvertise_p handlers locked id hdl).
Proof. apply call_ends; [apply unadvertise_set|apply locked_unadvertise_ends]. Qed.
Lemma unsubscribe_returns ch hdl : always_returns (call_unsubscribe_p handlers locked ch hdl).
Proof. apply call_returns, locked_unsubscribe_returns. Qed.
Lemma unadvertise_returns id hdl : always_returns (call_unadvertise_p handlers locked id hdl).
Proof. apply call_returns, locked_unadvertise_returns. Qed.

Lemma mild_unsubscribe P ch hdl : Stable P → Mild P (call_unsubscribe_p handlers locked ch hdl).
Proof.
  intros Hst. apply mild_call; [done|]. apply mild_acquiring; [done|]. apply locked_unsubscribe_keeps.
Qed.
Lemma mild_unadvertise P id hdl : Stable P → Mild P (call_unadvertise_p handlers locked id hdl).
Proof.
  intros Hst. apply mild_call; [done|]. apply mild_acquiring; [done|]. apply locked_unadvertise_keeps.
Qed.
Lemma mild_message P msg hdl : Stable P → Mild P (call_message_p handlers locked msg hdl).
Proof.
  intros Hst. apply mild_call; [done|]. apply mild_acquiring; [done|]. apply locked_message_keeps.
Qed.
Lemma mild_subscribe ch hdl :
  Mild (entered (HeldSubscription ch hdl)) (call_subscribe_p handlers locked ch hdl).
Proof. apply mild_call; [apply stable_entered|]. apply mild_entered, locked_subscribe_keeps. Qed.
Lemma mild_advertise adv hdl :
  Mild (entered (HeldPublication hdl (adv_channelId adv))) (call_advertise_p handlers locked adv hdl).
Proof. apply mild_call; [apply stable_entered|]. apply mild_entered, locked_advertise_keeps. Qed.

(** ** The table of clients *)

Lemma leaves_delete_sub w ch hdl (owed : Holding → Prop) :
  owed (HeldSubscription ch hdl) →
  leaves_none kept accounted w
    (set_srv (upd_clients (alter (upd_subscriptions (delete ch)) hdl) (srv w)) w) owed.
Proof.
  intros Ho x Hx. destruct (decide (x = HeldSubscription ch hdl)) as [->|Hne]; [auto|].
  right. right. split; [done|]. by apply client_holds_delete.
Qed.

Lemma leaves_delete_client w hdl (owed : Holding → Prop) :
  (∀ x, accounted w x → holder x = hdl → owed x) →
  leaves_none kept accounted w (set_srv (upd_clients (delete hdl) (srv w)) w) owed.
Proof.
  intros Ho x Hx. destruct (decide (holder x = hdl)) as [<-|Hne].
  - destruct (decide (client_holds (_clients (srv w)) x)) as [Ha|Hna]; [auto|].
    right. right. split; [done|]. intros Ha. by destruct Hna.
  - right. right. split; [done|]. apply client_holds_lookup. simpl. by rewrite lookup_delete_ne.
Qed.

Lemma mild_update_clients P f :
  Stable P → (∀ o, P o → is_Some o) →
  (∀ cs x, client_holds cs x → client_holds (f cs) x) →
  (∀ w, P (Some w) → P (Some (set_srv (upd_clients f (srv w)) w))) →
  Mild P (act (update (upd_clients f))).
Proof.
  intros Hst Hin Hf HP o Ho. destruct (Hin _ Ho) as [w ->]. apply careful_act. intros w' Hr.
  split; [|by eapply HP, Hst]. intros x Hx. right. right. split; [done|]. apply Hf.
Qed.

Lemma mild_upd_client P hdl f :
  Stable P → (∀ o, P o → is_Some o) →
  (∀ c, dom (subscriptionsByChannel c) ⊆ dom (subscriptionsByChannel (f c)) ∧
        advertisedChannels c ⊆ advertisedChannels (f c)) →
  (∀ w, P (Some w) → P (Some (set_srv (upd_clients (alter f hdl) (srv w)) w))) →
  Mild P (act (upd_client hdl f)).
Proof. intros Hst Hin Hf. apply mild_update_clients; [done..|]. intros cs x. by apply client_holds_alter. Qed.

Lemma present_upd_client hdl hdl' f w :
  present hdl (Some w) → present hdl (Some (set_srv (upd_clients (alter f hdl') (srv w)) w)).
Proof.
  intros (? & [= <-] & [c Hc]). eexists. split; [done|]. simpl.
  destruct (decide (hdl' = hdl)) as [->|Hne].
  - rewrite lookup_alter_eq, Hc. by eexists.
  - rewrite lookup_alter_ne, Hc by done. by eexists.
Qed.

(** One act that touches neither the server nor the node, then the rest. *)
Lemma careful_bind_same {A X} Kx K (m : M (World B) X) (f : X → prog (World B) Mutex A) w :
  preserves same_srv_env m → (∀ w' e, K (Some w') (inl e)) →
  (∀ w' a, same_clients w w' → (m w').2 = inr a → Careful Kx K (Some (m w').1) (f a)) →
  Careful Kx K (Some w) (pbind (act m) f).
Proof.
  intros Hm HK Hf. apply careful_bind_act. intros w' Hr. split.
  - eapply leaves_none_mono; [apply (steady_same m Hm)|done].
  - destruct (m w').2 as [e|a] eqn:Ha; [apply HK|by apply Hf].
Qed.

(** ** Text and binary messages *)

Lemma stable_locked : Stable LockedIn.
Proof. apply stable_locked_in. Qed.
Lemma stable_free : Stable Unlocked.
Proof. apply stable_unlocked. Qed.
#[local] Hint Resolve stable_present stable_entered stable_locked stable_free : cpp.
#[local] Hint Resolve mild_unsubscribe mild_unadvertise mild_message : cpp.
#[local] Hint Extern 5 (preserves (steady _ _ _) _) =>
  first [ apply steady_same; solve [auto 2 with cpp] | apply steady_update; done ] : cpp.

Lemma client_at_same hdl : preserves same_srv_env (client_at (E:=B) hdl).
Proof. intros w. rewrite client_at_run. by destruct (_clients (srv w) !! hdl). Qed.
Lemma publications_of_same hdl : preserves same_srv_env (publications_of (E:=B) hdl).
Proof. done. Qed.
Lemma on_net__same f : preserves same_srv_env (on_net_ (E:=B) f).
Proof. done. Qed.
Lemma on_net_ec_same f : preserves same_srv_env (on_net_ec (E:=B) f).
Proof. intros w. unfold on_net_ec, on_net. by destruct (f (net w)). Qed.
#[local] Hint Resolve client_at_same publications_of_same on_net__same on_net_ec_same : cpp.

(** Goes through a program that owes nothing on the way. *)
Ltac mild_step :=
  match goal with
  | |- mild _ _ _ _ _ (pret _) => apply mild_ret
  | |- mild _ _ _ _ _ (pbind _ _) => apply mild_bind; [|intros ?]
  | |- mild _ _ _ _ _ (pcatch _ _) => apply mild_catch; [|intros ?]
  | |- mild _ _ _ _ _ (pfor_each _ _) => apply mild_for_each; intros ?
  | |- mild _ _ _ _ _ (pwhen _ _) => apply mild_when
  | |- mild _ _ _ _ _ (with_lock _ Exclusive _) => apply mild_exclusive
  | |- mild _ _ _ _ _ (with_lock _ Shared _) => apply mild_shared
  | |- mild _ _ _ _ _ (act _) => apply mild_act; solve [auto with cpp]
  | |- mild _ _ _ _ _ ((let '(_, _) := ?p in _) _) => destruct p
  | |- mild _ _ _ _ _ (match ?x with _ => _ end) => destruct x
  | |- _ => solve [auto with cpp]
  end.

Lemma present_locked hdl o : present hdl o → is_Some o.
Proof. intros (w & -> & _). by eexists. Qed.

Lemma entered_present x o : entered x o → present (holder x) o.
Proof.
  intros (w & -> & Hx). exists w. split; [done|].
  destruct x; destruct Hx as (c & Hc & _); simpl in *; rewrite Hc; by eexists.
Qed.

(** A handler that may take [x] runs where the client has entered it. *)
Lemma mild_enter hdl f x (p : prog (World B) Mutex unit) :
  holder x = hdl →
  (∀ c, dom (subscriptionsByChannel c) ⊆ dom (subscriptionsByChannel (f c)) ∧
        advertisedChannels c ⊆ advertisedChannels (f c)) →
  (∀ c cs, cs !! hdl = Some c → client_holds (alter f hdl cs) x) →
  Mild (entered x) p → Mild (present hdl) (act (upd_client hdl f) ;;* p).
Proof.
  intros Hh Hf Hx Hp o (w & -> & Hc). apply careful_bind_act. intros w' Hr. split.
  - intros y Hy. right. right. split; [done|]. by apply client_holds_alter.
  - simpl. eapply careful_mono; [apply Hp|done|].
    + eexists. split; [done|]. destruct Hc as [c Hc]. apply (Hx c). by rewrite Hr.
    + intros o r Ho. rewrite <-Hh. by apply entered_present.
Qed.

Lemma mild_subscribe_one hdl sub :
  Mild (present hdl) (subscribe_one_p handlers locked hdl sub).
Proof.
  unfold subscribe_one_p. do 2 mild_step; [mild_step|]. mild_step; [mild_step|].
  destruct (findSubscriptionBySubId _ _); [mild_step|]. mild_step; [mild_step|].
  destruct (_ !! _); [|mild_step].
  eapply mild_enter; [| | |apply mild_subscribe]; [done| |].
  - intros c0. split; [|done]. simpl. rewrite dom_emplace. set_solver.
  - intros c0 cs Hc. eexists. rewrite lookup_alter_eq, Hc. split; [done|]. simpl.
    apply elem_of_dom. rewrite dom_emplace. set_solver.
Qed.

(** The subscription is erased first, and the handler ends it. *)
Lemma mild_unsubscribe_one hdl j :
  Mild (present hdl) (unsubscribe_one_p handlers locked hdl j).
Proof.
  unfold unsubscribe_one_p. do 2 (mild_step; [mild_step|]).
  destruct (findSubscriptionBySubId _ _) as [[chanId c]|]; [|mild_step].
  intros o (w & -> & Hc). apply careful_bind_act. intros w' Hr. split.
  - apply leaves_delete_sub. eapply ends_mono; [apply unsubscribe_ends|done].
  - simpl. apply mild_unsubscribe; [auto with cpp|]. apply present_upd_client.
    by eapply stable_present; [|by eexists].
Qed.

Lemma mild_advertise_one hdl first chan :
  Mild (present hdl) (advertise_one_p handlers locked hdl first chan).
Proof.
  unfold advertise_one_p. do 2 (mild_step; [mild_step|]). case_match; [mild_step|].
  do 3 (mild_step; [mild_step|]). cbv zeta. mild_step; [mild_step|].
  eapply mild_enter; [| | |apply mild_advertise]; [done| |].
  - intros c. split; [done|]. simpl. set_solver.
  - intros c cs Hc. eexists. rewrite lookup_alter_eq, Hc. split; [done|]. simpl. set_solver.
Qed.
#[local] Hint Resolve mild_subscribe_one mild_unsubscribe_one mild_advertise_one : cpp.

Lemma mild_dispatch_op hdl op payload :
  Mild (present hdl) (dispatch_op_p handlers locked hdl op payload).
Proof.
  unfold dispatch_op_p, handleSubscribe_p, handleUnsubscribe_p, handleAdvertise_p,
    handleUnadvertise_p, unadvertise_one_p.
  repeat mild_step.
Qed.

(** The client is looked up once the mutex is held. *)
Lemma mild_text hdl op payload :
  Mild Unlocked (with_lock ClientsChannelMutex Exclusive
    (let* _ := act (client_at hdl) in dispatch_op_p handlers locked hdl op payload)).
Proof.
  intros o ->. apply careful_exclusive. intros w. apply careful_bind_same; [auto with cpp|done|].
  intros w' c _. rewrite client_at_run. destruct (_clients (srv w') !! hdl) eqn:Hc; [|done].
  intros _. eapply careful_mono; [apply mild_dispatch_op|done|done]. exists w'.
  split; [done|]. simpl. by rewrite Hc.
Qed.
#[local] Hint Resolve mild_text : cpp.

Lemma mild_handleMessage ts hdl msg : Mild Unlocked (handleMessage_p handlers locked ts hdl msg).
Proof.
  unfold handleMessage_p. apply mild_catch; [|intros e; mild_step].
  destruct msg as [payload|payload|]; [| |mild_step].
  - unfold handleTextMessage_p. do 2 (mild_step; [mild_step|]). apply mild_text.
  - unfold handleBinaryMessage_p. repeat mild_step.
Qed.
#[local] Hint Resolve mild_handleMessage : cpp.

(** ** Connections *)

Lemma client_holds_open cs hdl c x :
  client_holds cs x → client_holds (emplace hdl c cs).1 x.
Proof.
  destruct x as [ch h|h id]; simpl; intros (c' & Hc & Hx); exists c'; (split; [|done]);
    apply lookup_emplace_Some; by left.
Qed.

Lemma mild_handleConnectionOpened hdl : Mild Unlocked (handleConnectionOpened_p (E:=B) hdl).
Proof.
  unfold handleConnectionOpened_p. mild_step. do 3 (mild_step; [mild_step|]).
  mild_step; [mild_step|]. mild_step; [|repeat mild_step].
  apply mild_update_clients; [auto with cpp|done| |by eexists].
  intros cs x. apply client_holds_open.
Qed.
#[local] Hint Resolve mild_handleConnectionOpened : cpp.

(** The handlers that are called when a client is gone. *)
Definition after_close (hdl : ConnHandle) (client : ClientInfo) : prog (World B) Mutex unit :=
  pfor_each (iter_set (advertisedChannels client)) (λ clientChannelId,
    act (alog ("Client " +:+ ci_name client +:+ " unadvertising channel " +:+
               to_string clientChannelId +:+ " due to disconnect")) ;;*
    call_unadvertise_p handlers locked clientChannelId hdl) ;;*
  act (update (upd_clientChannels (delete hdl))) ;;*
  pfor_each (iter_map (subscriptionsByChannel client)) (λ '(chanId, _),
    call_unsubscribe_p handlers locked chanId hdl).

Lemma mild_after_close hdl client : Mild Unlocked (after_close hdl client).
Proof. unfold after_close. repeat mild_step. Qed.

(** They end all that the client had. *)
Lemma after_close_ends hdl client cs x :
  cs !! hdl = Some client → client_holds cs x → holder x = hdl →
  ends kept (λ _, False) x (after_close hdl client).
Proof.
  intros Hcl Hx Hh. unfold after_close.
  assert (∀ id, always_returns (act (alog ("Client " +:+ ci_name client +:+ " unadvertising channel " +:+
    to_string id +:+ " due to disconnect")) ;;* call_unadvertise_p handlers locked id hdl)) as Hr1.
  { intros id. apply returns_bind; [apply returns_act; intros w; by eexists|].
    intros _. apply unadvertise_returns. }
  assert (∀ p : ChannelId * SubscriptionId,
    always_returns ((λ '(chanId, _), call_unsubscribe_p handlers locked chanId hdl) p)) as Hr2.
  { intros [ch ?]. apply unsubscribe_returns. }
  destruct x as [ch h|h id]; simpl in Hx, Hh; subst h; destruct Hx as (c & Hc & Hx);
    rewrite Hcl in Hc; injection Hc as <-; apply ends_bind.
  - apply ends_for_each; [exact Hr1|]. intros w. right.
    destruct Hx as [sid Hsid]. apply (ends_in_loop _ _ _ _ _ (ch, sid) Hr2).
    + by apply elem_of_iter_map.
    + apply unsubscribe_ends.
  - apply (ends_in_loop _ _ _ _ _ id Hr1); [by apply elem_of_iter_set|].
    intros w. right. apply unadvertise_ends.
Qed.

Lemma careful_handleConnectionClosed hdl :
  careful_thread ClientsChannelMutex same_clients kept accounted None
    (handleConnectionClosed_p handlers locked hdl).
Proof.
  apply careful_bind. unfold take_client_p. apply careful_exclusive. intros w.
  apply careful_bind_same; [auto with cpp|done|]. intros w1 cs _ [= <-].
  destruct (_clients (srv w1) !! hdl) as [client|] eqn:Hc.
  - apply careful_bind_same; [auto with cpp|done|]. intros w2 [] Hr2 _.
    assert (_clients (srv (alog (E:=B)
      ("Client " +:+ ci_name client +:+ " disconnected") w2).1) !! hdl = Some client) as Hc2
      by (simpl; by rewrite Hr2).
    revert Hc2. generalize (alog (E:=B) ("Client " +:+ ci_name client +:+ " disconnected") w2).1.
    clear - TopicBridgeOk0 LockedCustody0. intros w2 Hc2. apply careful_bind_act. intros w3 Hr3. simpl. split.
    + apply leaves_delete_client. intros x Hx Hh.
      eapply (after_close_ends _ _ (_clients (srv w3))); [by rewrite Hr3|exact Hx|exact Hh].
    + by apply mild_after_close.
  - apply careful_bind_same; [auto with cpp|done|]. intros w2 endpoint _ _.
    by apply careful_bind_same; [auto with cpp|done|].
Qed.

(** ** Channels and data *)

(** The subscriptions to a channel that is removed: the thread still owes their
    end in the node. *)
Lemma careful_removeChannel chanId Kx (K : option (World B) → result unit → Prop) :
  (∀ hdl, Kx (HeldSubscription chanId hdl) (inr tt)) → (∀ r, K None r) →
  Careful Kx K None (removeChannel_p chanId).
Proof.
  intros HKx HK. unfold removeChannel_p. apply careful_exclusive. intros w.
  apply careful_bind_act. intros w1 _. split; [intros x Hx; right; by right|].
  cbn [fst snd update modify].
  apply careful_bind_same; [auto with cpp|done|]. intros w2 cs _ _. cbn [fst server gets].
  revert w2. induction (iter_map cs) as [|[hdl c] l IH]; intros w2; [apply HK|].
  assert (∀ p : ConnHandle * ClientInfo, always_returns ((λ '(hdl, _),
    act (upd_client hdl (upd_subscriptions (delete chanId))) ;;*
    act (sendJson hdl (unadvertise_json chanId)) : prog (World B) Mutex unit) p)) as Hr.
  { intros [h ?]. apply returns_bind; [apply returns_act; intros w'; by eexists|].
    intros _. apply returns_act. intros w'. exists tt. apply sends_sendJson. }
  apply careful_bind, careful_bind_act. intros w3 _. split.
  - apply leaves_delete_sub. cbn [snd]. intros w'. right.
    destruct (sends_sendJson hdl (unadvertise_json chanId) w') as (-> & _).
    apply ends_for_each; [exact Hr|apply HKx].
  - cbn [fst snd]. apply careful_act. intros w4 _.
    destruct (sends_sendJson hdl (unadvertise_json chanId) w4) as (Hr4 & Hs4 & _).
    split; [|rewrite Hr4; apply IH].
    apply (leaves_none_mono _ _ _ _ (λ _, False)); [|done].
    apply (proj2 (acquiring_steady _ _ (same_env_acquiring _ _ Hs4))).
Qed.

Lemma mild_addChannel new : Mild Unlocked (addChannel_p (E:=B) new).
Proof. unfold addChannel_p. cbv zeta. repeat mild_step. Qed.
Lemma mild_broadcastChannels : Mild Unlocked (broadcastChannels_p (E:=B)).
Proof. unfold broadcastChannels_p. repeat mild_step. Qed.
Lemma mild_sendMessage hdl ch ts data : Mild Unlocked (sendMessage_p (E:=B) hdl ch ts data).
Proof. unfold sendMessage_p. repeat mild_step. Qed.
Lemma mild_broadcastTime ts : Mild Unlocked (broadcastTime_p (E:=B) ts).
Proof. unfold broadcastTime_p. repeat mild_step. Qed.
#[local] Hint Resolve mild_addChannel mild_broadcastChannels mild_sendMessage mild_broadcastTime : cpp.

(** ** Threads *)

(** The calls a node makes while it runs: it does not stop the server, and
    channels are removed by the update of the topics alone. *)
Definition running_call (c : Call B) : Prop :=
  match c with CallRemoveChannel _ | CallStop _ => False | _ => True end.

(** Goes through a computation that changes neither the clients nor the node. *)
Ltac holdings_step :=
  match goal with
  | |- preserves _ (bind _ _) => apply preserves_bind; [tc_solve| |intros ?]
  | |- preserves _ (update _) => done
  | |- preserves _ (match ?x with _ => _ end) => destruct x
  | |- preserves _ (let _ := _ in _) => cbv zeta
  | |- _ => apply holdings_of_same; solve [auto with cpp]
  end.

Lemma mild_holdings {A} P (m : M (World B) A) :
  Stable P → preserves same_holdings m → Mild P (act m).
Proof.
  intros Hst Hm. apply mild_act; [done|]. intros w.
  apply acquiring_steady, same_holdings_acquiring, Hm.
Qed.

Lemma mild_start host port : Mild Unlocked (act (start (E:=B) host port)).
Proof. apply mild_holdings; [auto with cpp|]. unfold start, throw_if. repeat holdings_step. Qed.
Lemma mild_validate hdl : Mild Unlocked (act (validateConnection (E:=B) hdl)).
Proof. apply mild_holdings; [auto with cpp|]. unfold validateConnection. repeat holdings_step. Qed.
#[local] Hint Resolve mild_start mild_validate : cpp.

Lemma careful_call c :
  running_call c →
  careful_thread ClientsChannelMutex same_clients kept accounted None (call_p handlers locked c).
Proof.
  intros Hc. destruct c as [p| | | | | | |]; try done;
    try (apply mild_thread; unfold call_p; solve [repeat mild_step]).
  destruct p; unfold call_p, run_pending_p; try (apply mild_thread; solve [repeat mild_step]).
  apply careful_handleConnectionClosed.
Qed.

Lemma careful_calls cs :
  Forall running_call cs →
  careful_thread ClientsChannelMutex same_clients kept accounted None (calls_p handlers locked cs).
Proof.
  intros Hcs. apply careful_for_each. intros c Hc. apply careful_call.
  by eapply Forall_forall in Hcs.
Qed.

(** ** The update of the topics *)

Abbreviation CarefulThread := (careful_thread ClientsChannelMutex same_clients kept accounted None).

Lemma mild_env {A} (m : M B A) :
  (∀ b x, node_keeps (m b).1 x → node_keeps b x) → Mild Unlocked (act (on_env m)).
Proof. intros Hm. apply mild_act; [auto with cpp|by apply steady_env]. Qed.

Lemma mild_gets {A} (f : B → A) : Mild Unlocked (act (on_env (gets f))).
Proof. by apply mild_env. Qed.

Lemma careful_gets {A} (f : B → A) k :
  (∀ a, CarefulThread (k a)) → CarefulThread (let* a := act (on_env (gets f)) in k a).
Proof. intros Hk. apply careful_then; [by apply mild_gets|exact Hk]. Qed.

Lemma mild_lift {A} (r : result A) : Mild Unlocked (act (lift (S:=World B) r)).
Proof. apply mild_act; [auto with cpp|by apply steady_same]. Qed.

Lemma careful_lift {A} (r : result A) k :
  (∀ a, CarefulThread (k a)) → CarefulThread (let* a := act (lift r) in k a).
Proof. intros Hk. apply careful_then; [by apply mild_lift|exact Hk]. Qed.

(** A channel is removed on the server, and then what the node keeps for it. *)
Lemma careful_drop_channel chanId (f g : B → B) :
  (∀ b hdl, ¬ subscribed (f b) chanId hdl) →
  (∀ b x, node_keeps (f b) x → node_keeps b x) → (∀ b x, node_keeps (g b) x → node_keeps b x) →
  CarefulThread (removeChannel_p chanId ;;*
    act (on_env (modify f)) ;;* act (on_env (modify g))).
Proof.
  intros Hend Hf Hg. apply careful_bind. apply careful_removeChannel.
  - intros hdl w. left. unfold on_env. simpl. apply Hend.
  - intros [e|[]]; [done|]. apply mild_thread.
    apply mild_bind; [by apply mild_env|intros _; by apply mild_env].
Qed.

(** A channel is added to the server, and the node's tables filled in. *)
Lemma careful_new_channel {A} (m : M B (option A)) (k : A → prog (World B) Mutex unit) :
  (∀ b x, node_keeps (m b).1 x → node_keeps b x) → (∀ a, Mild Unlocked (k a)) →
  CarefulThread (let* new := act (on_env m) in
                 match new with None => pret tt | Some new => k new end).
Proof.
  intros Hm Hk. apply mild_thread, mild_bind; [by apply mild_env|].
  intros [new|]; [apply Hk|apply mild_ret].
Qed.
End programs.

Arguments running_call {_ _} _.
