(* ===== verification/Setup.v ===== *)
(** * Setting up a server

    The constructor of [Server], its TLS set-up, the setters of the handlers, and
    the server as its owner sees it: through [ServerInterface], behind the
    pointer the owner keeps. *)

From Stdlib Require Import Strings.Byte.
From S2P Require Import Prelude Serialization Common Logging Interfaces Server ServerFacts.
From S2P Require Import ServerInvariant ServerSpec Reachable.

Local Open Scope Z_scope.
Local Open Scope string_scope.
Local Open Scope list_scope.

Definition u16 (z : Z) : Z := z mod 2 ^ 16.
Definition is_u16 (z : Z) : Prop := 0 ≤ z < 2 ^ 16.

Lemma u16_id z : is_u16 z → u16 z = z.
Proof. intros. by apply Z.mod_small. Qed.

Lemma u16_range z : is_u16 (u16 z).
Proof. by apply Z.mod_pos_bound. Qed.

(** ** Whitelists *)

(** [std::regex(pattern, ECMAScript | icase)], as what [regex_match] makes of it;
    both may throw. *)
Class StdRegex := { std_regex : string → result (string → result bool) }.

(** [std::regex_error] is a [std::exception]. *)
Class StdRegexLaws `{StdRegex} : Prop := {
  regex_throws_std s e : std_regex s = inl e → catchable e = true;
  regex_match_throws_std s regex t e :
    std_regex s = inr regex → regex t = inl e → catchable e = true;
}.

Definition compiled `{StdRegex} (pattern : string) : option (string → result bool) :=
  match std_regex pattern with inr regex => Some regex | inl _ => None end.

(** A loop that appends the patterns that compile to a vector of the state. *)
Section patterns.
Context `{StdRegexLaws} {B : Type} (get : B → list (string → result bool))
  (set : list (string → result bool) → B → B).
Hypothesis set_get : ∀ b, set (get b) b = b.
Hypothesis get_set : ∀ l b, get (set l b) = l.
Hypothesis set_set : ∀ l l' b, set l (set l' b) = set l b.

Lemma push_patterns_run l b :
  for_each l (λ pattern, try_catch
    (let! regex := lift (std_regex pattern) in modify (λ b, set (get b ++ [regex]) b))
    (λ ex, ret tt)) b = (set (get b ++ omap compiled l) b, inr tt).
Proof.
  revert b. induction l as [|s l IH]; intros b; [by rewrite app_nil_r, set_get|].
  simpl. unfold bind at 1, try_catch, bind at 1, lift, compiled at 1.
  destruct (std_regex s) as [e|regex] eqn:Hs; simpl.
  - rewrite (regex_throws_std _ _ Hs). apply IH.
  - rewrite IH, get_set, set_set. by rewrite <-app_assoc.
Qed.
End patterns.

(** ** What the set-up needs of asio and OpenSSL *)

Inductive TlsOption := default_workarounds | no_tlsv1 | no_sslv2 | no_sslv3.

Class Asio `{Websocketpp} := {
  (** [_server.init_asio(ec)]: the error message, if any. *)
  ws_init_asio : Net → Net * option string;
  TlsContext : Type;
  (** [make_shared<context>(context::sslv23)] *)
  tls_context : TlsContext;
  tls_set_options : list TlsOption → TlsContext → TlsContext * result unit;
  tls_use_certificate_chain_file : string → TlsContext → TlsContext * result unit;
  tls_use_private_key_file : string → TlsContext → TlsContext * result unit;
  (** [SSL_CTX_set_cipher_list]: 1 for success. *)
  tls_set_cipher_list : string → TlsContext → TlsContext * Z;
}.

(** What asio throws is a [std::exception]. *)
Class AsioLaws `{Asio} : Prop := {
  tls_throws_std :
    (∀ o c c' e, tls_set_options o c = (c', inl e) → catchable e = true) ∧
    (∀ f c c' e, tls_use_certificate_chain_file f c = (c', inl e) → catchable e = true) ∧
    (∀ f c c' e, tls_use_private_key_file f c = (c', inl e) → catchable e = true);
}.

(** ** Configurations *)

(** [socket_type] of a transport: [tls_socket::endpoint], [basic_socket::endpoint]. *)
Inductive SocketType := tls_socket | basic_socket.

(** What a configuration changes of [websocketpp::config::core]: the loggers of
    the endpoint and of its transport, and the transport's sockets. *)
Record ServerConfiguration := mkServerConfiguration {
  alog_type : Type;
  elog_type : Type;
  transport_alog_type : Type;
  transport_elog_type : Type;
  socket_type : SocketType;
}.

(** @src foxglove_bridge_base/include/foxglove_bridge/websocket_tls.hpp:9-37 WebSocketTls *)
Definition WebSocketTls : ServerConfiguration :=
  mkServerConfiguration CallbackLogger CallbackLogger CallbackLogger CallbackLogger tls_socket.

(** @src foxglove_bridge_base/include/foxglove_bridge/websocket_notls.hpp:10-38 WebSocketNoTls *)
Definition WebSocketNoTls : ServerConfiguration :=
  mkServerConfiguration CallbackLogger CallbackLogger CallbackLogger CallbackLogger basic_socket.

(** @src foxglove_bridge_base/include/foxglove_bridge/websocket_server.hpp:876-880 Server::USES_TLS *)
Definition USES_TLS (configuration : ServerConfiguration) : bool :=
  match socket_type configuration with tls_socket => true | basic_socket => false end.

(** The version string of websocketpp. *)
Class WebsocketppVersion := { user_agent : string }.

(** @src foxglove_bridge_base/src/foxglove_bridge.cpp:10-12 WebSocketUserAgent *)
Definition WebSocketUserAgent `{WebsocketppVersion} : string := user_agent.

(** Whether the version test's expectation holds.
    @src foxglove_bridge_base/tests/version_test.cpp:7-11 TestWebSocketVersion *)
Definition TestWebSocketVersion `{WebsocketppVersion} : bool :=
  let version := WebSocketUserAgent in
  String.eqb (String.substring 0 14 version) "WebSocket++/0.".

Example version_0_8_1 :
  @TestWebSocketVersion (Build_WebsocketppVersion "WebSocket++/0.8.1") = true.
Proof. reflexivity. Qed.

(** A server with a certificate and a key is a [Server<WebSocketTls>], one without
    a [Server<WebSocketNoTls>]. *)
Definition configuration (tls : option (string * string)) : ServerConfiguration :=
  match tls with Some _ => WebSocketTls | None => WebSocketNoTls end.

(** ** The server object *)

(** [std::bind(&Server::f, this, ...)] *)
Inductive MemberFunction :=
| SocketInit | ValidateConnection | HandleConnectionOpened | HandleConnectionClosed
| HandleMessage.

(** What the server registers with its endpoint.  [tls_files] are the certificate
    and key of the TLS set-up handler. *)
Record Hooks := mkHooks {
  tcp_pre_init_handler : option MemberFunction;
  tls_init_handler : option (string * string);
  validate_handler : option MemberFunction;
  open_handler : option MemberFunction;
  close_handler : option MemberFunction;
  message_handler : option MemberFunction;
  reuse_addr : bool;
  listen_backlog : option Z;
}.

Definition no_hooks : Hooks := mkHooks None None None None None None false None.

(** The state, the handlers of the owner, the endpoint's hooks and its logs. *)
Record ServerObject (E : Type) := mkServerObject {
  so_state : ServerState;
  so_handlers : Handlers E;
  so_hooks : Hooks;
  so_logs : Logs;
}.
Arguments mkServerObject {E}.
Arguments so_state {E}.
Arguments so_handlers {E}.
Arguments so_hooks {E}.
Arguments so_logs {E}.

Definition no_handlers {E} : Handlers E := mkHandlers None None None None None.

(** What the constructor works on: websocketpp and the trace. *)
Abbreviation Endpoint := (Net * list Event)%type (only parsing).

Section setup.
Context `{Platform, Iteration, LogChannels, Nlohmann, Websocketpp, !Asio}.
Context {E : Type}.

(** @src foxglove_bridge_base/include/foxglove_bridge/websocket_server.hpp:903-910 Server<WebSocketTls>::setupTlsHandler *)
Definition ciphers : string :=
  "ECDHE-RSA-AES128-GCM-SHA256:ECDHE-ECDSA-AES128-GCM-SHA256:ECDHE-RSA-AES256-GCM-SHA384:" +:+
  "ECDHE-ECDSA-AES256-GCM-SHA384:DHE-RSA-AES128-GCM-SHA256:DHE-DSS-AES128-GCM-SHA256:kEDH+" +:+
  "AESGCM:ECDHE-RSA-AES128-SHA256:ECDHE-ECDSA-AES128-SHA256:ECDHE-RSA-AES128-SHA:ECDHE-ECDSA-" +:+
  "AES128-SHA:ECDHE-RSA-AES256-SHA384:ECDHE-ECDSA-AES256-SHA384:ECDHE-RSA-AES256-SHA:ECDHE-" +:+
  "ECDSA-AES256-SHA:DHE-RSA-AES128-SHA256:DHE-RSA-AES128-SHA:DHE-DSS-AES128-SHA256:DHE-RSA-" +:+
  "AES256-SHA256:DHE-DSS-AES256-SHA:DHE-RSA-AES256-SHA:!aNULL:!eNULL:!EXPORT:!DES:!RC4:!3DES:" +:+
  "!MD5:!PSK".

(** The body of the [try], over the context; it answers what the last call
    returned.
    @src foxglove_bridge_base/include/foxglove_bridge/websocket_server.hpp:896-912 Server<WebSocketTls>::setupTlsHandler *)
Definition configure_tls (certfile keyfile : string) : M TlsContext Z :=
  tls_set_options [default_workarounds; no_tlsv1; no_sslv2; no_sslv3] ;;;
  tls_use_certificate_chain_file certfile ;;;
  tls_use_private_key_file keyfile ;;;
  λ ctx, let (ctx, code) := tls_set_cipher_list ciphers ctx in (ctx, inr code).

(** The handler answers its context, configured as far as it got.
    @src foxglove_bridge_base/include/foxglove_bridge/websocket_server.hpp:889-920 Server<WebSocketTls>::setupTlsHandler *)
Definition tls_init (certfile keyfile : string) : M (World E) TlsContext :=
  let (ctx, r) := configure_tls certfile keyfile tls_context in
  match r with
  | inr code =>
      when (negb (Z.eqb code 1)) (elog "Error setting cipher list") ;;;
      ret ctx
  | inl ex =>
      if catchable ex then elog ("Exception in TLS handshake: " +:+ what ex) ;;; ret ctx
      else throw ex
  end.

Definition construct (hooks : Hooks) (logs : Logs) (name : string)
    (capabilities : list string) (send_buffer_limit_bytes : Z) (tls : bool) : ServerObject E :=
  mkServerObject (new_Server name capabilities send_buffer_limit_bytes tls) no_handlers hooks logs.

(** Both specialisations: without TLS a log line, with TLS the handler.
    @src foxglove_bridge_base/include/foxglove_bridge/websocket_server.hpp:882-921 Server::setupTlsHandler *)
Definition setupTlsHandler (tls : option (string * string)) (hooks : Hooks)
  : M Endpoint Hooks :=
  match tls with
  | None =>
      modify (λ e, (e.1, e.2 ++ [EvAlog alevel_app "Server running without TLS"])) ;;;
      ret hooks
  | Some files =>
      ret (mkHooks (tcp_pre_init_handler hooks) (Some files) (validate_handler hooks)
             (open_handler hooks) (close_handler hooks) (message_handler hooks)
             (reuse_addr hooks) (listen_backlog hooks))
  end.

(** [tls] are the certificate and the key, for the configuration [WebSocketTls];
    [logs] are the endpoint's, as websocketpp constructs them.
    @src foxglove_bridge_base/include/foxglove_bridge/websocket_server.hpp:253-286 Server::Server *)
Definition Server_new (name : string) (logger : LogCallback) (capabilities : list string)
    (send_buffer_limit_bytes : Z) (tls : option (string * string)) (logs : Logs)
  : M Endpoint (ServerObject E) :=
  let logs := mkLogs (set_callback logger (access_log logs)) (set_callback logger (error_log logs)) in
  let! ec := λ e, let (n, ec) := ws_init_asio e.1 in ((n, e.2), inr ec) in
  match ec with
  | Some message => throw (StdException ("Failed to initialize websocket server: " +:+ message))
  | None =>
      let logs := mkLogs (configure_alog (access_log logs)) (error_log logs) in
      let hooks := mkHooks (Some SocketInit) None None None None None false None in
      let! hooks := setupTlsHandler tls hooks in
      let hooks := mkHooks (tcp_pre_init_handler hooks) (tls_init_handler hooks)
        (Some ValidateConnection) (Some HandleConnectionOpened) (Some HandleConnectionClosed)
        (Some HandleMessage) true (Some 128) in
      ret (construct hooks logs name capabilities send_buffer_limit_bytes
             (USES_TLS (configuration tls)))
  end.

(** @src foxglove_bridge_base/include/foxglove_bridge/websocket_server.hpp:385-388 Server::setSubscribeHandler *)
Definition setSubscribeHandler (h : ChannelId → ConnHandle → M E unit) (s : ServerObject E)
  : ServerObject E :=
  let hs := so_handlers s in
  mkServerObject (so_state s) (mkHandlers (Some h) (_unsubscribeHandler hs)
    (_clientAdvertiseHandler hs) (_clientUnadvertiseHandler hs) (_clientMessageHandler hs))
    (so_hooks s) (so_logs s).

(** @src foxglove_bridge_base/include/foxglove_bridge/websocket_server.hpp:390-394 Server::setUnsubscribeHandler *)
Definition setUnsubscribeHandler (h : ChannelId → ConnHandle → M E unit) (s : ServerObject E)
  : ServerObject E :=
  let hs := so_handlers s in
  mkServerObject (so_state s) (mkHandlers (_subscribeHandler hs) (Some h)
    (_clientAdvertiseHandler hs) (_clientUnadvertiseHandler hs) (_clientMessageHandler hs))
    (so_hooks s) (so_logs s).

(** @src foxglove_bridge_base/include/foxglove_bridge/websocket_server.hpp:396-399 Server::setClientAdvertiseHandler *)
Definition setClientAdvertiseHandler (h : ClientAdvertisement → ConnHandle → M E unit)
    (s : ServerObject E) : ServerObject E :=
  let hs := so_handlers s in
  mkServerObject (so_state s) (mkHandlers (_subscribeHandler hs) (_unsubscribeHandler hs)
    (Some h) (_clientUnadvertiseHandler hs) (_clientMessageHandler hs))
    (so_hooks s) (so_logs s).

(** @src foxglove_bridge_base/include/foxglove_bridge/websocket_server.hpp:401-405 Server::setClientUnadvertiseHandler *)
Definition setClientUnadvertiseHandler (h : ClientChannelId → ConnHandle → M E unit)
    (s : ServerObject E) : ServerObject E :=
  let hs := so_handlers s in
  mkServerObject (so_state s) (mkHandlers (_subscribeHandler hs) (_unsubscribeHandler hs)
    (_clientAdvertiseHandler hs) (Some h) (_clientMessageHandler hs))
    (so_hooks s) (so_logs s).

(** @src foxglove_bridge_base/include/foxglove_bridge/websocket_server.hpp:407-410 Server::setClientMessageHandler *)
Definition setClientMessageHandler (h : ClientMessage → ConnHandle → M E unit)
    (s : ServerObject E) : ServerObject E :=
  let hs := so_handlers s in
  mkServerObject (so_state s) (mkHandlers (_subscribeHandler hs) (_unsubscribeHandler hs)
    (_clientAdvertiseHandler hs) (_clientUnadvertiseHandler hs) (Some h))
    (so_hooks s) (so_logs s).
End setup.

(** ** The interface *)

(** What an owner whose state is [S] can ask of the server it points to; [E] is
    the part of its state that the handlers act on.
    @src foxglove_bridge_base/include/foxglove_bridge/websocket_server.hpp:125-156 ServerInterface *)
Class ServerInterface `{Websocketpp} (S E : Type) := {
  si_start : string → Z → M S unit;
  (** [poll_one] may run the handler that [next] says is pending. *)
  si_stop : (World E → option Pending) → M S unit;
  si_addChannel : ChannelWithoutId → M S ChannelId;
  si_removeChannel : ChannelId → M S unit;
  si_broadcastChannels : M S unit;
  si_setSubscribeHandler : (ChannelId → ConnHandle → M E unit) → M S unit;
  si_setUnsubscribeHandler : (ChannelId → ConnHandle → M E unit) → M S unit;
  si_setClientAdvertiseHandler : (ClientAdvertisement → ConnHandle → M E unit) → M S unit;
  si_setClientUnadvertiseHandler : (ClientChannelId → ConnHandle → M E unit) → M S unit;
  si_setClientMessageHandler : (ClientMessage → ConnHandle → M E unit) → M S unit;
  si_sendMessage : ConnHandle → ChannelId → Z → list byte → M S unit;
  si_broadcastTime : Z → M S unit;
  si_localEndpoint : M S (option (bool * string * Z));
  si_remoteEndpointString : ConnHandle → M S string;
}.

(** ** An owner *)

(** A node: its parameters, the server it points to, websocketpp, its own state,
    the trace, and whether its polling thread and its clock subscription exist. *)
Record Owner `{Websocketpp} (P E : Type) := mkOwner {
  ow_params : P;
  ow_server : option (ServerObject E);
  ow_net : Net;
  ow_bridge : E;
  ow_out : list Event;
  ow_polling : bool;
  ow_clock : bool;
}.
Arguments mkOwner {_ P E}.
Arguments ow_params {_ P E}.
Arguments ow_server {_ P E}.
Arguments ow_net {_ P E}.
Arguments ow_bridge {_ P E}.
Arguments ow_out {_ P E}.
Arguments ow_polling {_ P E}.
Arguments ow_clock {_ P E}.

Section owner.
Context `{Platform, Iteration, LogChannels, Nlohmann, Websocketpp, !Asio}.
Context {P E : Type}.

Definition set_server (s : option (ServerObject E)) (o : Owner P E) : Owner P E :=
  mkOwner (ow_params o) s (ow_net o) (ow_bridge o) (ow_out o) (ow_polling o) (ow_clock o).
Definition set_polling (b : bool) (o : Owner P E) : Owner P E :=
  mkOwner (ow_params o) (ow_server o) (ow_net o) (ow_bridge o) (ow_out o) b (ow_clock o).
Definition set_clock (b : bool) (o : Owner P E) : Owner P E :=
  mkOwner (ow_params o) (ow_server o) (ow_net o) (ow_bridge o) (ow_out o) (ow_polling o) b.

(** Reading and writing the parameters and the owner's own state. *)
Definition on_params {A} (m : M P A) : M (Owner P E) A := λ o,
  let (p, r) := m (ow_params o) in
  (mkOwner p (ow_server o) (ow_net o) (ow_bridge o) (ow_out o) (ow_polling o) (ow_clock o), r).
Definition on_bridge {A} (m : M E A) : M (Owner P E) A := λ o,
  let (b, r) := m (ow_bridge o) in
  (mkOwner (ow_params o) (ow_server o) (ow_net o) b (ow_out o) (ow_polling o) (ow_clock o), r).

(** [_server = std::make_unique<Server<...>>(...)] *)
Definition make_server (m : M Endpoint (ServerObject E)) : M (Owner P E) unit := λ o,
  let '((n, evs), r) := m (ow_net o, ow_out o) in
  match r with
  | inr s =>
      (mkOwner (ow_params o) (Some s) n (ow_bridge o) evs (ow_polling o) (ow_clock o), inr tt)
  | inl e =>
      (mkOwner (ow_params o) (ow_server o) n (ow_bridge o) evs (ow_polling o) (ow_clock o), inl e)
  end.

(** A call through the pointer; an unset pointer must not be dereferenced. *)
Definition through {A} (m : Handlers E → M (World E) A) : M (Owner P E) A := λ o,
  match ow_server o with
  | None => (o, inl (Undefined "null pointer"))
  | Some s =>
      let (w, r) := m (so_handlers s) (mkWorld (so_state s) (ow_net o) (ow_bridge o) (ow_out o)) in
      (mkOwner (ow_params o) (Some (mkServerObject (srv w) (so_handlers s) (so_hooks s) (so_logs s)))
         (net w) (env w) (out w) (ow_polling o) (ow_clock o), r)
  end.

Definition set_handler (f : ServerObject E → ServerObject E) : M (Owner P E) unit := λ o,
  match ow_server o with
  | None => (o, inl (Undefined "null pointer"))
  | Some s => (set_server (Some (f s)) o, inr tt)
  end.

(** [Server] behind a pointer implements the interface.
    @src foxglove_bridge_base/include/foxglove_bridge/websocket_server.hpp:183-201 Server *)
#[export] Instance server_interface : ServerInterface (Owner P E) E := {
  si_start host port := through (λ _, start host port);
  si_stop next := through (λ handlers, stop (poll handlers next));
  si_addChannel channel := through (λ _, addChannel channel);
  si_removeChannel chanId := through (λ _, removeChannel chanId);
  si_broadcastChannels := through (λ _, broadcastChannels);
  si_setSubscribeHandler h := set_handler (setSubscribeHandler h);
  si_setUnsubscribeHandler h := set_handler (setUnsubscribeHandler h);
  si_setClientAdvertiseHandler h := set_handler (setClientAdvertiseHandler h);
  si_setClientUnadvertiseHandler h := set_handler (setClientUnadvertiseHandler h);
  si_setClientMessageHandler h := set_handler (setClientMessageHandler h);
  si_sendMessage hdl chanId timestamp data := through (λ _, sendMessage hdl chanId timestamp data);
  si_broadcastTime timestamp := through (λ _, broadcastTime timestamp);
  si_localEndpoint := through (λ _, localEndpoint);
  si_remoteEndpointString hdl := through (λ _, remoteEndpointString hdl);
}.
End owner.
