(* ===== verification/SetupFacts.v ===== *)
(** * Running the steps of an owner of a server

    What a node's calls do to the node: reading parameters, making a server,
    registering handlers, calling through the pointer; and what the server's
    constructor and [start] establish. *)

From Stdlib Require Import Strings.Byte.
From S2P Require Import Prelude Serialization Common Logging Interfaces Server ServerFacts.
From S2P Require Import ServerInvariant ServerSpec Reachable System Setup.

Local Open Scope Z_scope.
Local Open Scope string_scope.
Local Open Scope list_scope.

(** ** Running the owner's steps *)

(** What a constructed server has registered with its endpoint. *)
Definition constructed_hooks (tls : option (string * string)) : Hooks :=
  mkHooks (Some SocketInit) tls (Some ValidateConnection) (Some HandleConnectionOpened)
    (Some HandleConnectionClosed) (Some HandleMessage) true (Some 128).

(** A rule that also says which run it is about. *)
Lemma wp_eq {S A} (m : M S A) Q s : wp m Q s → wp m (λ r s', m s = (s', r) ∧ Q r s') s.
Proof. unfold wp. by destruct (m s). Qed.

(** A server with a thread serves its owner as one without. *)
Lemma sys_set_thread `{TopicBridge B} thread s (b : B) :
  SysInv s b → SysInv (set_thread thread s) b.
Proof.
  intros HI. eapply sys_keeps_clients; [exact HI|apply inv_set_thread, HI|done|done|].
  intros hdl c Hc. by exists c.
Qed.

Section owner.
Context `{Platform, Iteration, LogChannels, Nlohmann, Websocketpp, !Asio}.
Context {P E : Type}.
Implicit Types o : Owner P E.

Lemma wp_on_params {A} (m : M P A) Q o :
  wp (on_params m) Q o ↔
  Q (m (ow_params o)).2 (mkOwner (m (ow_params o)).1 (ow_server o) (ow_net o) (ow_bridge o)
    (ow_out o) (ow_polling o) (ow_clock o)).
Proof. unfold wp, on_params. by destruct (m (ow_params o)). Qed.

Lemma wp_on_bridge {A} (m : M E A) Q o :
  wp (on_bridge m) Q o ↔
  Q (m (ow_bridge o)).2 (mkOwner (ow_params o) (ow_server o) (ow_net o) (m (ow_bridge o)).1
    (ow_out o) (ow_polling o) (ow_clock o)).
Proof. unfold wp, on_bridge. by destruct (m (ow_bridge o)). Qed.

Lemma wp_set_handler f Q o s :
  ow_server o = Some s → wp (set_handler f) Q o ↔ Q (inr tt) (set_server (Some (f s)) o).
Proof. intros Hs. unfold wp, set_handler. by rewrite Hs. Qed.

(** The world a call through the pointer runs in, and what it leaves. *)
Definition world_of_owner o (s : ServerObject E) : World E :=
  mkWorld (so_state s) (ow_net o) (ow_bridge o) (ow_out o).

(** The owner whose server has run up to [w]. *)
Definition owner_at o (s : ServerObject E) (w : World E) : Owner P E :=
  mkOwner (ow_params o) (Some (mkServerObject (srv w) (so_handlers s) (so_hooks s) (so_logs s)))
    (net w) (env w) (out w) (ow_polling o) (ow_clock o).

Lemma wp_through {A} (m : Handlers E → M (World E) A) Q o s :
  ow_server o = Some s →
  wp (through m) Q o ↔
  wp (m (so_handlers s)) (λ r w, Q r (mkOwner (ow_params o)
    (Some (mkServerObject (srv w) (so_handlers s) (so_hooks s) (so_logs s)))
    (net w) (env w) (out w) (ow_polling o) (ow_clock o))) (world_of_owner o s).
Proof.
  intros Hs. unfold wp, through, world_of_owner. rewrite Hs. by destruct (m _ _).
Qed.

(** A server that has started has its thread, and is otherwise as it was. *)
Lemma start_run host port (w : World E) :
  wp (start host port) (λ r w', env w' = env w ∧
    (srv w' = srv w ∨ srv w' = set_thread true (srv w)) ∧
    (r = inr tt → srv w' = set_thread true (srv w) ∧ ∃ e, ws_local_endpoint (net w') = inr e)) w.
Proof.
  unfold start. rewrite wp_bind, wp_server. destruct (_serverThread (srv w)).
  { rewrite wp_throw. split_and!; [done|by left|done]. }
  unfold on_net_ec, on_net_, throw_if. rewrite wp_bind, wp_on_net.
  destruct (ws_listen _ _ _) as [n ec]. simpl. rewrite wp_bind.
  destruct ec; [rewrite wp_throw; split_and!; [done|by left|done]|]. rewrite wp_ret.
  rewrite wp_bind, wp_on_net. simpl. destruct (ws_start_accept n) as [n1 ec]. simpl.
  rewrite wp_bind. destruct ec; [rewrite wp_throw; split_and!; [done|by left|done]|].
  rewrite wp_ret, wp_bind, wp_on_net. simpl. rewrite wp_bind, wp_update, wp_bind, wp_gets. simpl.
  destruct (negb _); [rewrite wp_throw; split_and!; [done|by right|done]|].
  rewrite wp_bind, wp_gets. simpl.
  destruct (ws_local_endpoint _) as [m|[[v6 a] p]] eqn:He.
  - rewrite wp_throw. split_and!; [done|by right|done].
  - rewrite wp_bind, wp_server. unfold alog. rewrite wp_emit. simpl.
    split_and!; [done|by right|]. intros _. split; [done|]. by eexists.
Qed.

(** A constructed server: fresh, without handlers, with all its hooks. *)
Lemma Server_new_run name logger caps limit tls logs (e : Endpoint) :
  wp (Server_new (E:=E) name logger caps limit tls logs) (λ r _, ∀ s, r = inr s →
    so_state s = new_Server name caps limit (bool_decide (is_Some tls)) ∧
    so_handlers s = no_handlers ∧
    so_hooks s = constructed_hooks tls ∧
    so_logs s = configured_logs logger logs) e.
Proof.
  unfold Server_new. rewrite wp_bind. unfold wp at 1. destruct (ws_init_asio e.1) as [n ec]. simpl.
  destruct ec as [m|]; [by rewrite wp_throw|]. rewrite wp_bind. unfold setupTlsHandler.
  destruct tls as [files|].
  - rewrite !wp_ret. by intros s [= <-].
  - rewrite wp_bind, wp_modify, !wp_ret. by intros s [= <-].
Qed.

(** Making a server leaves the owner's own state alone. *)
Lemma wp_make_server m Q o :
  (∀ n evs r, wp m (λ r' _, r' = r) (ow_net o, ow_out o) →
    Q (match r with inr _ => inr tt | inl e => inl e end)
      (mkOwner (ow_params o) (match r with inr s => Some s | inl _ => ow_server o end) n
         (ow_bridge o) evs (ow_polling o) (ow_clock o))) →
  wp (make_server m) Q o.
Proof.
  intros HQ. unfold wp, make_server. unfold wp in HQ at 1.
  destruct (m (ow_net o, ow_out o)) as [[n evs] [e|s]] eqn:Hm; simpl in *;
    [exact (HQ n evs (inl e) eq_refl)|exact (HQ n evs (inr s) eq_refl)].
Qed.

Lemma localEndpoint_run Q (w : World E) :
  wp localEndpoint Q w ↔
  Q (inr match ws_local_endpoint (net w) with inl _ => None | inr e => Some e end) w.
Proof.
  unfold localEndpoint. rewrite wp_bind, wp_gets. by destruct (ws_local_endpoint (net w)).
Qed.

(** Registering the five handlers of a server that has none. *)
Lemma register_run hsub hunsub hadv hunadv hmsg o s Q :
  ow_server o = Some s → so_handlers s = no_handlers →
  Q (inr tt) (set_server (Some (mkServerObject (so_state s)
    (mkHandlers (Some hsub) (Some hunsub) (Some hadv) (Some hunadv) (Some hmsg))
    (so_hooks s) (so_logs s))) o) →
  wp (si_setSubscribeHandler (S:=Owner P E) hsub ;;; si_setUnsubscribeHandler hunsub ;;;
      si_setClientAdvertiseHandler hadv ;;; si_setClientUnadvertiseHandler hunadv ;;;
      si_setClientMessageHandler hmsg) Q o.
Proof.
  intros Hs Hh HQ. simpl.
  do 4 (rewrite wp_bind, wp_set_handler by done). rewrite wp_set_handler by done.
  unfold set_server, setSubscribeHandler, setUnsubscribeHandler, setClientAdvertiseHandler,
    setClientUnadvertiseHandler, setClientMessageHandler in *. simpl in *. exact HQ.
Qed.

(** Stopping the server of an owner, when it returns, leaves it without clients and
    without its thread. *)
Lemma si_stop_run next o s :
  ow_server o = Some s → ws_stopped (ow_net o) = false →
  wp (si_stop (S:=Owner P E) next) (λ r o', ow_polling o' = ow_polling o ∧
    ∃ s', ow_server o' = Some s' ∧ (r = inr tt → _clients (so_state s') = ∅ ∧
      _serverThread (so_state s') = false)) o.
Proof.
  intros Hs Hns. simpl. rewrite (wp_through _ _ _ _ Hs). unfold wp. simpl.
  pose proof (stop_run (poll (so_handlers s) next) (world_of_owner o s) Hns) as [_ Hf].
  split; [done|]. eexists. split; [done|]. exact Hf.
Qed.
End owner.
