(* ===== verification/Ros2Bridge.v ===== *)
(** * The ROS 2 node: [FoxgloveBridge] of [ros2_foxglove_bridge.cpp]

    The node's state, the handlers it registers with the server, and the update
    of the advertised topics.  The node's log lines are left out; everything
    else a handler does is a step of the monad over the node's state. *)

From Stdlib Require Import Strings.Byte.
From S2P Require Import Prelude Serialization Common Logging Interfaces Server Regex.
From S2P Require Import MessageDefinitionCache FullText.

Local Open Scope Z_scope.
Local Open Scope string_scope.
Local Open Scope list_scope.

(** ** Quality of service *)

Inductive ReliabilityPolicy := Reliable | BestEffort | OtherReliability.
Inductive DurabilityPolicy := TransientLocal | Volatile | OtherDurability.

#[export] Instance ReliabilityPolicy_eq_dec : EqDecision ReliabilityPolicy.
Proof. solve_decision. Defined.
#[export] Instance DurabilityPolicy_eq_dec : EqDecision DurabilityPolicy.
Proof. solve_decision. Defined.

(** [rclcpp::QoS], as far as the node reads and sets it. *)
Record QoS := mkQoS {
  reliability : ReliabilityPolicy;
  durability : DurabilityPolicy;
  depth : Z;
}.

(** @src ros2_foxglove_bridge/src/ros2_foxglove_bridge.cpp:18-18 DEFAULT_MAX_QOS_DEPTH *)
Definition DEFAULT_MAX_QOS_DEPTH : Z := 10.

(** The three counters of the loop over the publishers; all are [size_t].
    @src ros2_foxglove_bridge/src/ros2_foxglove_bridge.cpp:405-419 FoxgloveBridge::subscribeHandler *)
Definition count_qos (maxQosDepth : Z) (publisherInfo : list QoS) : Z * nat * nat :=
  foldl (λ '(d, reliable, transient) qos,
    (Z.min maxQosDepth (u64 (d + depth qos)),
     if decide (reliability qos = Reliable) then S reliable else reliable,
     if decide (durability qos = TransientLocal) then S transient else transient))
    (0%Z, 0%nat, 0%nat) publisherInfo.

(** @src ros2_foxglove_bridge/src/ros2_foxglove_bridge.cpp:421-449 FoxgloveBridge::subscribeHandler *)
Definition select_qos (maxQosDepth : Z) (publisherInfo : list QoS) : QoS :=
  let '(d, reliable, transient) := count_qos maxQosDepth publisherInfo in
  mkQoS
    (if Nat.eqb reliable (length publisherInfo) then Reliable else BestEffort)
    (if Nat.eqb transient (length publisherInfo) then TransientLocal else Volatile)
    (Z.max d 1).

(** ** rclcpp *)

Abbreviation TopicAndDatatype := (string * string)%type (only parsing).

(** The hash of the pairs in the sets and maps of topics.
    @src ros2_foxglove_bridge/src/ros2_foxglove_bridge.cpp:339-344 PairHash *)
Definition PairHash {T1 T2} `{StdHash T1, StdHash T2} (pair : T1 * T2) : Z :=
  Z.lxor (std_hash pair.1) (std_hash pair.2).

Lemma ros2_PairHash_range {T1 T2} `{StdHash T1, StdHash T2} (pair : T1 * T2) :
  is_u64 (PairHash pair).
Proof. apply lxor_u64; apply std_hash_range. Qed.

(** A generic subscription: what it was created with, and the arguments bound to
    its callback. *)
Record Subscription := mkSubscription {
  sub_topic : string;
  sub_datatype : string;
  sub_qos : QoS;
  sub_channel : Channel;
  sub_client : ConnHandle;
}.

(** A generic publisher. *)
Record Publication := mkPublication {
  pub_topic : string;
  pub_type : string;
}.

#[export] Instance QoS_eq_dec : EqDecision QoS.
Proof. solve_decision. Defined.
#[export] Instance Subscription_eq_dec : EqDecision Subscription.
Proof. solve_decision. Defined.
#[export] Instance Publication_eq_dec : EqDecision Publication.
Proof. solve_decision. Defined.

(** The ROS graph as the node sees it; everything but [rclcpp::ok] may throw. *)
Class Rclcpp := {
  Ros : Type;
  ros_ok : Ros → bool;
  ros_topic_names_and_types : Ros → result (list (string * list string));
  ros_publishers_info_by_topic : Ros → string → result (list QoS);
  ros_create_subscription : Subscription → Ros → Ros * result unit;
  ros_create_publisher : Publication → Ros → Ros * result unit;
  ros_publish : Publication → list byte → Ros → Ros * result unit;
}.

(** What rclcpp throws is a [std::exception]. *)
Class RclcppLaws `{Rclcpp} : Prop := {
  ros_throws_std :
    (∀ r e, ros_topic_names_and_types r = inl e → catchable e = true) ∧
    (∀ r t e, ros_publishers_info_by_topic r t = inl e → catchable e = true) ∧
    (∀ s r r' e, ros_create_subscription s r = (r', inl e) → catchable e = true) ∧
    (∀ p r r' e, ros_create_publisher p r = (r', inl e) → catchable e = true) ∧
    (∀ p d r r' e, ros_publish p d r = (r', inl e) → catchable e = true);
}.

(** ** State *)

(** The members of the node, and the ROS graph around it.  A whitelist pattern
    is what [regex_match] makes of it.
    @src ros2_foxglove_bridge/src/ros2_foxglove_bridge.cpp:346-360 FoxgloveBridge *)
Record Bridge `{Rclcpp} := mkBridge {
  _messageDefinitionCache : gmap DefinitionIdentifier MessageSpec;
  _topicWhitelistPatterns : list (string → result bool);
  _advertisedTopics : gmap TopicAndDatatype Channel;
  _channelToTopicAndDatatype : gmap ChannelId TopicAndDatatype;
  _subscriptions : gmap ChannelId (gmap ConnHandle Subscription);
  _clientAdvertisedTopics : gmap ConnHandle (gmap ClientChannelId Publication);
  _maxQosDepth : Z;
  _useSimTime : bool;
  ros : Ros;
}.
Arguments mkBridge {_}.

Section bridge.
Context `{Platform, Iteration, LogChannels, Nlohmann, Websocketpp, Rclcpp, Ament}.

Definition set_cache (c : gmap DefinitionIdentifier MessageSpec) (b : Bridge) : Bridge :=
  mkBridge c (_topicWhitelistPatterns b) (_advertisedTopics b) (_channelToTopicAndDatatype b)
    (_subscriptions b) (_clientAdvertisedTopics b) (_maxQosDepth b) (_useSimTime b) (ros b).
Definition set_topics (adv : gmap TopicAndDatatype Channel)
    (chans : gmap ChannelId TopicAndDatatype) (b : Bridge) : Bridge :=
  mkBridge (_messageDefinitionCache b) (_topicWhitelistPatterns b) adv chans
    (_subscriptions b) (_clientAdvertisedTopics b) (_maxQosDepth b) (_useSimTime b) (ros b).
Definition set_subs (subs : gmap ChannelId (gmap ConnHandle Subscription)) (b : Bridge)
  : Bridge :=
  mkBridge (_messageDefinitionCache b) (_topicWhitelistPatterns b) (_advertisedTopics b)
    (_channelToTopicAndDatatype b) subs (_clientAdvertisedTopics b) (_maxQosDepth b)
    (_useSimTime b) (ros b).
Definition set_pubs (pubs : gmap ConnHandle (gmap ClientChannelId Publication)) (b : Bridge)
  : Bridge :=
  mkBridge (_messageDefinitionCache b) (_topicWhitelistPatterns b) (_advertisedTopics b)
    (_channelToTopicAndDatatype b) (_subscriptions b) pubs (_maxQosDepth b)
    (_useSimTime b) (ros b).
Definition set_ros (r : Ros) (b : Bridge) : Bridge :=
  mkBridge (_messageDefinitionCache b) (_topicWhitelistPatterns b) (_advertisedTopics b)
    (_channelToTopicAndDatatype b) (_subscriptions b) (_clientAdvertisedTopics b)
    (_maxQosDepth b) (_useSimTime b) r.

(** A call of rclcpp. *)
Definition on_ros {A} (f : Ros → Ros * result A) : M Bridge A := λ b,
  let (r, res) := f (ros b) in (set_ros r b, res).

(** ** Subscriptions *)

(** The [emplace] of an empty map comes before the checks that can fail after
    it, so a channel may be left with no subscription.  The publishers are asked
    for outside the [try]: an exception goes to the server.
    @src ros2_foxglove_bridge/src/ros2_foxglove_bridge.cpp:362-470 FoxgloveBridge::subscribeHandler *)
Definition subscribeHandler (channelId : ChannelId) (clientHandle : ConnHandle)
  : M Bridge unit :=
  let! chans := gets _channelToTopicAndDatatype in
  match chans !! channelId with
  | None => ret tt
  | Some topicAndDatatype =>
      let topic := topicAndDatatype.1 in
      let datatype := topicAndDatatype.2 in
      let! advertised := gets _advertisedTopics in
      match advertised !! topicAndDatatype with
      | None => ret tt
      | Some channel =>
          let! subs := gets _subscriptions in
          let '(subs', firstSubscription) := emplace channelId ∅ subs in
          modify (set_subs subs') ;;;
          let subscriptionsByClient := default ∅ (subs' !! channelId) in
          if negb firstSubscription &&
             bool_decide (is_Some (subscriptionsByClient !! clientHandle)) then ret tt else
          let! r := gets ros in
          let! publisherInfo := lift (ros_publishers_info_by_topic r topic) in
          let! maxQosDepth := gets _maxQosDepth in
          let qos := select_qos maxQosDepth publisherInfo in
          let subscriber := mkSubscription topic datatype qos channel clientHandle in
          try_catch
            (on_ros (ros_create_subscription subscriber) ;;;
             modify (λ b, set_subs (alter (λ m, (emplace clientHandle subscriber m).1)
                                      channelId (_subscriptions b)) b))
            (λ ex, ret tt)
      end
  end.

(** @src ros2_foxglove_bridge/src/ros2_foxglove_bridge.cpp:472-517 FoxgloveBridge::unsubscribeHandler *)
Definition unsubscribeHandler (channelId : ChannelId) (clientHandle : ConnHandle)
  : M Bridge unit :=
  let! subs := gets _subscriptions in
  match subs !! channelId with
  | None => ret tt
  | Some subscriptionsByClient =>
      match subscriptionsByClient !! clientHandle with
      | None => ret tt
      | Some _ =>
          let subscriptionsByClient := delete clientHandle subscriptionsByClient in
          if bool_decide (subscriptionsByClient = ∅)
          then modify (set_subs (delete channelId subs))
          else modify (set_subs (<[ channelId := subscriptionsByClient ]> subs))
      end
  end.

(** ** Client publications *)

(** @src ros2_foxglove_bridge/src/ros2_foxglove_bridge.cpp:519-551 FoxgloveBridge::clientAdvertiseHandler *)
Definition clientAdvertiseHandler (advertisement : ClientAdvertisement) (hdl : ConnHandle)
  : M Bridge unit :=
  let! pubs := gets _clientAdvertisedTopics in
  let '(pubs', isFirstPublication) := emplace hdl ∅ pubs in
  modify (set_pubs pubs') ;;;
  let clientPublications := default ∅ (pubs' !! hdl) in
  if negb isFirstPublication &&
     bool_decide (is_Some (clientPublications !! adv_channelId advertisement)) then ret tt else
  let publisher := mkPublication (adv_topic advertisement) (adv_schemaName advertisement) in
  on_ros (ros_create_publisher publisher) ;;;
  modify (λ b, set_pubs (alter (λ m, (emplace (adv_channelId advertisement) publisher m).1) hdl
                           (_clientAdvertisedTopics b)) b).

(** @src ros2_foxglove_bridge/src/ros2_foxglove_bridge.cpp:553-585 FoxgloveBridge::clientUnadvertiseHandler *)
Definition clientUnadvertiseHandler (channelId : ClientChannelId) (hdl : ConnHandle)
  : M Bridge unit :=
  let! pubs := gets _clientAdvertisedTopics in
  match pubs !! hdl with
  | None => ret tt
  | Some clientPublications =>
      match clientPublications !! channelId with
      | None => ret tt
      | Some _ =>
          let clientPublications := delete channelId clientPublications in
          if bool_decide (clientPublications = ∅)
          then modify (set_pubs (delete hdl pubs))
          else modify (set_pubs (<[ hdl := clientPublications ]> pubs))
      end
  end.

(** [memcpy] of [getLength()] bytes from [getData()]; more than there are is
    out of bounds.
    @src ros2_foxglove_bridge/src/ros2_foxglove_bridge.cpp:616-620 FoxgloveBridge::clientMessageHandler *)
Definition serialized_message (message : ClientMessage) : result (list byte) :=
  if (getLength message <=? Z.of_nat (length (getData message)))%Z
  then inr (take (Z.to_nat (getLength message)) (getData message))
  else inl (Undefined "out of bounds").

(** @src ros2_foxglove_bridge/src/ros2_foxglove_bridge.cpp:587-624 FoxgloveBridge::clientMessageHandler *)
Definition clientMessageHandler (message : ClientMessage) (hdl : ConnHandle) : M Bridge unit :=
  let channelId := adv_channelId (msg_advertisement message) in
  let! pubs := gets _clientAdvertisedTopics in
  match pubs !! hdl with
  | None => ret tt
  | Some clientPublications =>
      match clientPublications !! channelId with
      | None => ret tt
      | Some publisher =>
          let! serializedMessage := lift (serialized_message message) in
          on_ros (ros_publish publisher serializedMessage)
      end
  end.

(** The handlers the constructor registers.
    @src ros2_foxglove_bridge/src/ros2_foxglove_bridge.cpp:152-159 FoxgloveBridge::FoxgloveBridge *)
Definition bridge_handlers : Handlers Bridge :=
  mkHandlers (Some subscribeHandler) (Some unsubscribeHandler) (Some clientAdvertiseHandler)
    (Some clientUnadvertiseHandler) (Some clientMessageHandler).

(** @src ros2_foxglove_bridge/src/ros2_foxglove_bridge.cpp:137-142 FoxgloveBridge::FoxgloveBridge *)
Definition serverCapabilities (useSimTime : bool) : list string :=
  CAPABILITY_CLIENT_PUBLISH :: (if useSimTime then [CAPABILITY_TIME] else []).

(** ** Messages and time *)

(** [timestamp] is the node's clock, in nanoseconds; it is asserted not to be
    negative.
    @src ros2_foxglove_bridge/src/ros2_foxglove_bridge.cpp:646-656 FoxgloveBridge::rosMessageHandler *)
Definition rosMessageHandler (channel : Channel) (clientHandle : ConnHandle) (timestamp : Z)
    (payload : list byte) : M (World Bridge) unit :=
  assertion (0 <=? timestamp)%Z ;;;
  sendMessage clientHandle (chan_id channel) (u64 timestamp) payload.

(** The callback of the subscription to /clock.
    @src ros2_foxglove_bridge/src/ros2_foxglove_bridge.cpp:186-190 FoxgloveBridge::FoxgloveBridge *)
Definition clockHandler (timestamp : Z) : M (World Bridge) unit :=
  assertion (0 <=? timestamp)%Z ;;;
  broadcastTime (u64 timestamp).

(** ** The advertised topics *)

(** The topics on the whitelist, with each of their types.
    @src ros2_foxglove_bridge/src/ros2_foxglove_bridge.cpp:228-243 FoxgloveBridge::updateAdvertisedTopics *)
Fixpoint latest_topics (patterns : list (string → result bool))
    (topicNamesAndTypes : list (string * list string)) : result (gset TopicAndDatatype) :=
  match topicNamesAndTypes with
  | [] => inr ∅
  | (topicName, datatypes) :: topicNamesAndTypes =>
      match any_of (λ regex, regex topicName) patterns with
      | inl e => inl e
      | inr matched =>
          match latest_topics patterns topicNamesAndTypes with
          | inl e => inl e
          | inr latestTopics =>
              inr (if matched
                   then list_to_set ((λ datatype, (topicName, datatype)) <$> datatypes) ∪ latestTopics
                   else latestTopics)
          end
      end
  end.

(** The [size_t] that the node logs as the number of ignored topics.
    @src ros2_foxglove_bridge/src/ros2_foxglove_bridge.cpp:245-245 FoxgloveBridge::updateAdvertisedTopics *)
Definition numIgnoredTopics (topicNamesAndTypes : list (string * list string))
    (latestTopics : gset TopicAndDatatype) : Z :=
  u64 (Z.of_nat (length topicNamesAndTypes) - Z.of_nat (size latestTopics)).

(** @src ros2_foxglove_bridge/src/ros2_foxglove_bridge.cpp:253-258 FoxgloveBridge::updateAdvertisedTopics *)
Definition new_topics (latestTopics : gset TopicAndDatatype)
    (advertised : gmap TopicAndDatatype Channel) : list TopicAndDatatype :=
  filter (λ topic, advertised !! topic = None) (iter_set latestTopics).

(** @src ros2_foxglove_bridge/src/ros2_foxglove_bridge.cpp:261-266 FoxgloveBridge::updateAdvertisedTopics *)
Definition removed_topics (latestTopics : gset TopicAndDatatype)
    (advertised : gmap TopicAndDatatype Channel) : list TopicAndDatatype :=
  filter (λ topic, topic ∉ latestTopics) (iter_map advertised).*1.

(** The log line that ends the body reads the channel's id after the channel
    was erased; the value only goes to the log.
    @src ros2_foxglove_bridge/src/ros2_foxglove_bridge.cpp:271-286 FoxgloveBridge::updateAdvertisedTopics *)
Definition remove_topic (topicAndDatatype : TopicAndDatatype) : M (World Bridge) unit :=
  let! advertised := on_env (gets _advertisedTopics) in
  match advertised !! topicAndDatatype with
  | None => throw (StdException "unordered_map::at")
  | Some channel =>
      removeChannel (chan_id channel) ;;;
      on_env (modify (λ b, set_subs (delete (chan_id channel) (_subscriptions b)) b)) ;;;
      on_env (modify (λ b, set_topics (delete topicAndDatatype (_advertisedTopics b))
                             (delete (chan_id channel) (_channelToTopicAndDatatype b)) b))
  end.

(** [_messageDefinitionCache.get_full_text(datatype)] *)
Definition full_text (datatype : string) : M Bridge (MessageDefinitionFormat * string) := λ b,
  let (c, r) := get_full_text full_text_fuel datatype (_messageDefinitionCache b) in
  (set_cache c b, r).

(** The channel to add for a topic; [None] when the loop goes on without it.
    A type without a definition leaves the encoding empty as well.
    @src ros2_foxglove_bridge/src/ros2_foxglove_bridge.cpp:290-320 FoxgloveBridge::updateAdvertisedTopics *)
Definition new_channel (topicAndDatatype : TopicAndDatatype)
  : M Bridge (option ChannelWithoutId) := λ b,
  let channel encoding schema :=
    mkChannelWithoutId topicAndDatatype.1 encoding topicAndDatatype.2 schema in
  match full_text topicAndDatatype.2 b with
  | (b, inr (_, schema)) => (b, inr (Some (channel "cdr" schema)))
  | (b, inl (DefinitionNotFoundError _)) => (b, inr (Some (channel "" "")))
  | (b, inl (StdException _)) => (b, inr None)
  | (b, inl e) => (b, inl e)
  end.

(** @src ros2_foxglove_bridge/src/ros2_foxglove_bridge.cpp:289-330 FoxgloveBridge::updateAdvertisedTopics *)
Definition add_topic (topicAndDatatype : TopicAndDatatype) : M (World Bridge) unit :=
  let! newChannel := on_env (new_channel topicAndDatatype) in
  match newChannel with
  | None => ret tt
  | Some newChannel =>
      let! id := addChannel newChannel in
      let channel := mkChannel id newChannel in
      on_env (modify (λ b,
        set_topics (emplace topicAndDatatype channel (_advertisedTopics b)).1
          (emplace id topicAndDatatype (_channelToTopicAndDatatype b)).1 b))
  end.

(** @src ros2_foxglove_bridge/src/ros2_foxglove_bridge.cpp:221-336 FoxgloveBridge::updateAdvertisedTopics *)
Definition updateAdvertisedTopics : M (World Bridge) unit :=
  let! ok := on_env (gets (λ b, ros_ok (ros b))) in
  if negb ok then ret tt else
  let! b := on_env (gets id) in
  let! topicNamesAndTypes := lift (ros_topic_names_and_types (ros b)) in
  let! latestTopics := lift (latest_topics (_topicWhitelistPatterns b) topicNamesAndTypes) in
  let! advertised := on_env (gets _advertisedTopics) in
  let newTopics := new_topics latestTopics advertised in
  for_each (removed_topics latestTopics advertised) remove_topic ;;;
  for_each newTopics add_topic ;;;
  when (negb (bool_decide (newTopics = []))) broadcastChannels.

(** One iteration of the polling loop; [triggered] is what the graph event
    says.
    @src ros2_foxglove_bridge/src/ros2_foxglove_bridge.cpp:207-216 FoxgloveBridge::rosgraphPollThread *)
Definition poll_graph (triggered : bool) : M (World Bridge) unit :=
  let! ok := on_env (gets (λ b, ros_ok (ros b))) in
  when (ok && triggered) updateAdvertisedTopics.

(** The loop, while ROS is running; [triggers] is what the graph event says in
    each of its turns.
    @src ros2_foxglove_bridge/src/ros2_foxglove_bridge.cpp:207-216 FoxgloveBridge::rosgraphPollThread *)
Fixpoint poll_loop (triggers : list bool) : M (World Bridge) unit :=
  match triggers with
  | [] => ret tt
  | triggered :: triggers =>
      let! ok := on_env (gets (λ b, ros_ok (ros b))) in
      if negb ok then ret tt else
      when triggered updateAdvertisedTopics ;;;
      poll_loop triggers
  end.

(** One wait of the loop for a change of the graph: what becomes of ROS meanwhile,
    and what the graph event says. *)
Record Turn := mkTurn {
  meanwhile : Ros → Ros;
  triggered : bool;
}.

(** The loop until it ends; [false] if it has not ended when [turns] are over.
    Only ROS that has been shut down ends it.
    @src ros2_foxglove_bridge/src/ros2_foxglove_bridge.cpp:207-216 FoxgloveBridge::rosgraphPollThread *)
Fixpoint poll_until_end (turns : list Turn) : M (World Bridge) bool :=
  let! ok := on_env (gets (λ b, ros_ok (ros b))) in
  if negb ok then ret true else
  match turns with
  | [] => ret false
  | turn :: turns =>
      on_env (modify (λ b, set_ros (meanwhile turn (ros b)) b)) ;;;
      when (triggered turn) updateAdvertisedTopics ;;;
      poll_until_end turns
  end.

(** An exception that leaves the thread's function ends the process.
    @src ros2_foxglove_bridge/src/ros2_foxglove_bridge.cpp:203-219 FoxgloveBridge::rosgraphPollThread *)
Definition rosgraphPollThread (triggers : list bool) : M (World Bridge) unit :=
  updateAdvertisedTopics ;;;
  poll_loop triggers.
End bridge.
