(* ===== verification/Ros2Setup.v ===== *)
(** * The construction of the ROS 2 node

    The constructor of [FoxgloveBridge] in [ros2_foxglove_bridge.cpp]: its
    parameters, the whitelist, the server it makes, starts and registers its
    handlers with; its destructor; and the process around it. *)

From Stdlib Require Import Strings.Byte.
From S2P Require Import Prelude Serialization Common Logging Interfaces Server ServerFacts.
From S2P Require Import Reachable MessageDefinitionCache Setup Ros2Bridge.

Local Open Scope Z_scope.
Local Open Scope string_scope.
Local Open Scope list_scope.

(** ** Parameters *)

Inductive ParameterType :=
| PARAMETER_BOOL | PARAMETER_INTEGER | PARAMETER_STRING | PARAMETER_STRING_ARRAY.

Inductive ParameterValue :=
| ParamBool (b : bool)
| ParamInteger (z : Z)
| ParamString (s : string)
| ParamStringArray (l : list string).

Record IntegerRange := mkIntegerRange { from_value : Z; to_value : Z; step : Z }.

(** [rcl_interfaces::msg::ParameterDescriptor] *)
Record ParameterDescriptor := mkParameterDescriptor {
  pd_name : string;
  pd_type : ParameterType;
  pd_description : string;
  pd_read_only : bool;
  pd_additional_constraints : string;
  pd_integer_range : list IntegerRange;
}.

Definition type_of (v : ParameterValue) : ParameterType :=
  match v with
  | ParamBool _ => PARAMETER_BOOL
  | ParamInteger _ => PARAMETER_INTEGER
  | ParamString _ => PARAMETER_STRING
  | ParamStringArray _ => PARAMETER_STRING_ARRAY
  end.

(** The value has the type the descriptor says, and lies in its ranges. *)
Definition admits (d : ParameterDescriptor) (v : ParameterValue) : Prop :=
  type_of v = pd_type d ∧
  match v with
  | ParamInteger z => Forall (λ r, (from_value r ≤ z ≤ to_value r)%Z) (pd_integer_range d)
  | _ => True
  end.

(** The parameters of a node: an override from outside takes the place of a
    default. *)
Class RclcppParameters := {
  Params : Type;
  declare_parameter : ParameterDescriptor → ParameterValue → Params → Params * result unit;
  get_parameter : Params → string → result ParameterValue;
  (** Answers whether it was successful. *)
  set_parameter : string → ParameterValue → Params → Params * result bool;
  declared : Params → string → option ParameterDescriptor;
  (** [what()] of the exception of a reader of the wrong type. *)
  parameter_type_exception : string;
}.

(** Documented behaviour: a declared parameter has a value its descriptor admits;
    a read-only parameter is not changed by [set_parameter]. *)
Class RclcppParametersLaws `{RclcppParameters} : Prop := {
  declare_declares d v p p' :
    declare_parameter d v p = (p', inr tt) →
    (∀ n, declared p' n = if decide (n = pd_name d) then Some d else declared p n) ∧
    ∀ n, n ≠ pd_name d → get_parameter p' n = get_parameter p n;
  declare_value d v p p' :
    declare_parameter d v p = (p', inr tt) →
    ∃ v', get_parameter p' (pd_name d) = inr v' ∧ admits d v';
  set_read_only n d v p :
    declared p n = Some d → pd_read_only d = true → set_parameter n v p = (p, inr false);
}.

(** ** What else the constructor needs *)

(** The creation of the /clock subscription. *)
Class Ros2SetupLibrary `{Rclcpp} := {
  ros_subscribe_clock : Ros → Ros * result unit;
}.

(** ** The declared parameters *)

Definition INT32_MAX : Z := 2 ^ 31 - 1.
Definition INT64_MAX : Z := 2 ^ 63 - 1.

(** @src ros2_foxglove_bridge/src/ros2_foxglove_bridge.cpp:16-16 DEFAULT_PORT *)
Definition DEFAULT_PORT : Z := 8765.
(** @src ros2_foxglove_bridge/src/ros2_foxglove_bridge.cpp:17-17 DEFAULT_ADDRESS *)
Definition DEFAULT_ADDRESS : string := "0.0.0.0".

(** @src ros2_foxglove_bridge/src/ros2_foxglove_bridge.cpp:40-50 FoxgloveBridge::FoxgloveBridge *)
Definition portDescription : ParameterDescriptor :=
  mkParameterDescriptor "port" PARAMETER_INTEGER
    "The TCP port to bind the WebSocket server to" true
    "Must be a valid TCP port number, or 0 to use a random port" [mkIntegerRange 0 65535 1].

(** @src ros2_foxglove_bridge/src/ros2_foxglove_bridge.cpp:53-57 FoxgloveBridge::FoxgloveBridge *)
Definition addressDescription : ParameterDescriptor :=
  mkParameterDescriptor "address" PARAMETER_STRING
    "The host address to bind the WebSocket server to" true "" [].

(** @src ros2_foxglove_bridge/src/ros2_foxglove_bridge.cpp:60-64 FoxgloveBridge::FoxgloveBridge *)
Definition useTlsDescription : ParameterDescriptor :=
  mkParameterDescriptor "tls" PARAMETER_BOOL
    "Use Transport Layer Security for encrypted communication" true "" [].

(** @src ros2_foxglove_bridge/src/ros2_foxglove_bridge.cpp:67-71 FoxgloveBridge::FoxgloveBridge *)
Definition certfileDescription : ParameterDescriptor :=
  mkParameterDescriptor "certfile" PARAMETER_STRING
    "Path to the certificate to use for TLS" true "" [].

(** @src ros2_foxglove_bridge/src/ros2_foxglove_bridge.cpp:74-78 FoxgloveBridge::FoxgloveBridge *)
Definition keyfileDescription : ParameterDescriptor :=
  mkParameterDescriptor "keyfile" PARAMETER_STRING
    "Path to the private key to use for TLS" true "" [].

(** @src ros2_foxglove_bridge/src/ros2_foxglove_bridge.cpp:81-90 FoxgloveBridge::FoxgloveBridge *)
Definition maxQosDepthDescription : ParameterDescriptor :=
  mkParameterDescriptor "max_qos_depth" PARAMETER_INTEGER
    "Maximum depth used for the QoS profile of subscriptions." true
    "Must be a non-negative integer" [mkIntegerRange 0 INT32_MAX 1].

(** @src ros2_foxglove_bridge/src/ros2_foxglove_bridge.cpp:93-98 FoxgloveBridge::FoxgloveBridge *)
Definition topicWhiteListDescription : ParameterDescriptor :=
  mkParameterDescriptor "topic_whitelist" PARAMETER_STRING_ARRAY
    "List of regular expressions (ECMAScript) of whitelisted topic names." true "" [].

(** @src ros2_foxglove_bridge/src/ros2_foxglove_bridge.cpp:102-111 FoxgloveBridge::FoxgloveBridge *)
Definition sendBufferLimit : ParameterDescriptor :=
  mkParameterDescriptor "send_buffer_limit" PARAMETER_INTEGER
    ("Connection send buffer limit in bytes. Messages will be dropped when a connection's send " +:+
     "buffer reaches this limit to avoid a queue of outdated messages building up.") true ""
    [mkIntegerRange 0 INT64_MAX 0].

(** The descriptors with their defaults, in the order they are declared.
    @src ros2_foxglove_bridge/src/ros2_foxglove_bridge.cpp:51-114 FoxgloveBridge::FoxgloveBridge *)
Definition parameters : list (ParameterDescriptor * ParameterValue) := [
  (portDescription, ParamInteger DEFAULT_PORT);
  (addressDescription, ParamString DEFAULT_ADDRESS);
  (useTlsDescription, ParamBool false);
  (certfileDescription, ParamString "");
  (keyfileDescription, ParamString "");
  (maxQosDepthDescription, ParamInteger DEFAULT_MAX_QOS_DEPTH);
  (topicWhiteListDescription, ParamStringArray [".*"]);
  (sendBufferLimit, ParamInteger DEFAULT_SEND_BUFFER_LIMIT_BYTES)].

(** ** The constructor *)

Section setup.
Context `{Platform, Iteration, LogChannels, Nlohmann, Websocketpp, !Asio}.
Context `{Rclcpp, !Ros2SetupLibrary, Ament, RclcppParameters, StdRegex}.

Abbreviation Node := (Owner Params Bridge).

Definition set_patterns (l : list (string → result bool)) (b : Bridge) : Bridge :=
  mkBridge (_messageDefinitionCache b) l (_advertisedTopics b) (_channelToTopicAndDatatype b)
    (_subscriptions b) (_clientAdvertisedTopics b) (_maxQosDepth b) (_useSimTime b) (ros b).
Definition set_useSimTime (sim : bool) (b : Bridge) : Bridge :=
  mkBridge (_messageDefinitionCache b) (_topicWhitelistPatterns b) (_advertisedTopics b)
    (_channelToTopicAndDatatype b) (_subscriptions b) (_clientAdvertisedTopics b)
    (_maxQosDepth b) sim (ros b).
Definition set_maxQosDepth (depth : Z) (b : Bridge) : Bridge :=
  mkBridge (_messageDefinitionCache b) (_topicWhitelistPatterns b) (_advertisedTopics b)
    (_channelToTopicAndDatatype b) (_subscriptions b) (_clientAdvertisedTopics b)
    depth (_useSimTime b) (ros b).

(** [get_parameter(name).as_bool()], and so on. *)
Definition wrong_type {A} : result A := inl (StdException parameter_type_exception).
Definition as_bool (v : ParameterValue) : result bool :=
  match v with ParamBool b => inr b | _ => wrong_type end.
Definition as_int (v : ParameterValue) : result Z :=
  match v with ParamInteger z => inr z | _ => wrong_type end.
Definition as_string (v : ParameterValue) : result string :=
  match v with ParamString s => inr s | _ => wrong_type end.
Definition as_string_array (v : ParameterValue) : result (list string) :=
  match v with ParamStringArray l => inr l | _ => wrong_type end.

Definition param {A} (name : string) (as_ : ParameterValue → result A) : M Node A :=
  on_params (λ p, (p, match get_parameter p name with inl e => inl e | inr v => as_ v end)).

(** @src ros2_foxglove_bridge/src/ros2_foxglove_bridge.cpp:40-114 FoxgloveBridge::FoxgloveBridge *)
Definition declare_parameters : M Node unit :=
  for_each parameters (λ '(description, value), on_params (declare_parameter description value)).

(** Patterns that do not compile are left out.
    @src ros2_foxglove_bridge/src/ros2_foxglove_bridge.cpp:119-127 FoxgloveBridge::FoxgloveBridge *)
Definition compile_patterns (regexPatterns : list string) : M Bridge unit :=
  for_each regexPatterns (λ pattern, try_catch
    (let! regex := lift (std_regex pattern) in
     modify (λ b, set_patterns (_topicWhitelistPatterns b ++ [regex]) b))
    (λ ex, ret tt)).

(** @src ros2_foxglove_bridge/src/ros2_foxglove_bridge.cpp:116-127 FoxgloveBridge::FoxgloveBridge *)
Definition read_whitelist : M Node unit :=
  let! regexPatterns := param "topic_whitelist" as_string_array in
  on_bridge (compile_patterns regexPatterns).

(** [logs] are the endpoint's logs as websocketpp constructs them.
    @src ros2_foxglove_bridge/src/ros2_foxglove_bridge.cpp:129-151 FoxgloveBridge::FoxgloveBridge *)
Definition create_server (logs : Logs) : M Node unit :=
  let! send_buffer_limit := param "send_buffer_limit" as_int in
  let! useTLS := param "tls" as_bool in
  let! certfile := param "certfile" as_string in
  let! keyfile := param "keyfile" as_string in
  let! use_sim_time := param "use_sim_time" as_bool in
  on_bridge (modify (set_useSimTime use_sim_time)) ;;;
  make_server (Server_new "foxglove_bridge" owner_callback (serverCapabilities use_sim_time)
    (u64 send_buffer_limit) (if useTLS : bool then Some (certfile, keyfile) else None) logs).

(** @src ros2_foxglove_bridge/src/ros2_foxglove_bridge.cpp:152-159 FoxgloveBridge::FoxgloveBridge *)
Definition register_handlers : M Node unit :=
  si_setSubscribeHandler (E:=Bridge) subscribeHandler ;;;
  si_setUnsubscribeHandler (E:=Bridge) unsubscribeHandler ;;;
  si_setClientAdvertiseHandler (E:=Bridge) clientAdvertiseHandler ;;;
  si_setClientUnadvertiseHandler (E:=Bridge) clientUnadvertiseHandler ;;;
  si_setClientMessageHandler (E:=Bridge) clientMessageHandler.

(** [_server->localEndpoint()->port()]: an empty optional must not be
    dereferenced. *)
Definition endpoint_port (endpoint : option (bool * string * Z)) : result Z :=
  match endpoint with
  | Some (_, _, port) => inr (u16 port)
  | None => inl (Undefined "empty optional")
  end.

(** @src ros2_foxglove_bridge/src/ros2_foxglove_bridge.cpp:161-171 FoxgloveBridge::FoxgloveBridge *)
Definition start_server : M Node unit :=
  let! address := param "address" as_string in
  let! port := param "port" as_int in
  let port := u16 port in
  si_start (E:=Bridge) address port ;;;
  let! endpoint := si_localEndpoint (E:=Bridge) in
  let! listeningPort := lift (endpoint_port endpoint) in
  when (negb (Z.eqb port listeningPort))
    (on_params (set_parameter "port" (ParamInteger listeningPort)) ;;; ret tt).

(** The polling thread runs from here on, beside the rest.
    @src ros2_foxglove_bridge/src/ros2_foxglove_bridge.cpp:35-192 FoxgloveBridge::FoxgloveBridge *)
Definition FoxgloveBridge_new (logs : Logs) : M Node unit :=
  declare_parameters ;;;
  read_whitelist ;;;
  create_server logs ;;;
  register_handlers ;;;
  start_server ;;;
  let! depth := param "max_qos_depth" as_int in
  on_bridge (modify (set_maxQosDepth (u64 depth))) ;;;
  modify (set_polling true) ;;;
  let! useSimTime := on_bridge (gets _useSimTime) in
  when useSimTime
    (on_bridge (on_ros ros_subscribe_clock) ;;;
     modify (set_clock true)).

(** Joining the polling thread waits for its end; [turns] are those of its loop.
    The answer is whether the destructor returns: [false] if the polling thread
    has not ended.
    @src ros2_foxglove_bridge/src/ros2_foxglove_bridge.cpp:194-201 FoxgloveBridge::~FoxgloveBridge *)
Definition FoxgloveBridge_delete (turns : list Turn) (next : World Bridge → option Pending)
  : M Node bool :=
  noexcept
    (let! polling := gets ow_polling in
     let! joined := if polling then through (λ _, poll_until_end turns) else ret true in
     if negb joined then ret false else
     modify (set_polling false) ;;;
     si_stop next ;;;
     ret true).

(** ** The log *)

Inductive Severity := SeverityDebug | SeverityInfo | SeverityWarn | SeverityError | SeverityFatal.

(** @src ros2_foxglove_bridge/src/ros2_foxglove_bridge.cpp:626-644 FoxgloveBridge::logHandler *)
Definition logHandler (level : WebSocketLogLevel) (msg : string) : Severity * string :=
  (match level with
   | Debug => SeverityDebug
   | LogInfo => SeverityInfo
   | Warn => SeverityWarn
   | LogError => SeverityError
   | Critical => SeverityFatal
   end, "[WS] " +:+ msg).

(** ** The process *)

(** @src ros2_foxglove_bridge/src/ros2_foxglove_bridge_node.cpp:7-18 main *)
Definition numThreadsDescription : ParameterDescriptor :=
  mkParameterDescriptor "num_threads" PARAMETER_INTEGER
    "The number of threads to use for the ROS node executor. 0 means one thread per CPU core." true
    "Must be a non-negative integer" [mkIntegerRange 0 INT32_MAX 1].
Definition DEFAULT_NUM_THREADS : Z := 0.

(** What the executor runs: its number of threads and the component it hosts. *)
Record Process := mkProcess {
  executor_threads : Z;
  component : option string;
  exit_code : Z;
}.

(** [componentResources] is what the component manager finds for the package.
    @src ros2_foxglove_bridge/src/ros2_foxglove_bridge_node.cpp:3-42 main *)
Definition ros2_main (componentResources : list string) : M Params Process :=
  declare_parameter numThreadsDescription (ParamInteger DEFAULT_NUM_THREADS) ;;;
  let! numThreads := λ p, (p, match get_parameter p "num_threads" with
                              | inl e => inl e
                              | inr v => as_int v
                              end) in
  match componentResources with
  | [] => ret (mkProcess (u64 numThreads) None 1)
  | resource :: _ => ret (mkProcess (u64 numThreads) (Some resource) 0)
  end.
End setup.
