(* ===== verification/Ros2Facts.v ===== *)
(** * The ROS 2 node keeps its promises to the server

    The handlers obey [TopicBridgeOk]: they keep a ROS subscription or publisher
    only for the client and channel they are called for, and do away with it
    when told to. *)

From Stdlib Require Import Strings.Byte.
From S2P Require Import Prelude Serialization Common Logging Interfaces Server ServerFacts.
From S2P Require Import ServerInvariant ServerSpec Reachable System SystemSteps Regex.
From S2P Require Import MessageDefinitionCache FullText Ros2Bridge.

Local Open Scope Z_scope.
Local Open Scope list_scope.

Section facts.
Context `{Platform, Iteration, LogChannels, Nlohmann, Websocketpp, Rclcpp, Ament}.
Implicit Types b : Bridge.

#[export] Instance ros2_bridge : TopicBridge Bridge := {|
  topics_of := _advertisedTopics;
  channels_of := _channelToTopicAndDatatype;
  subscribed b := nested (_subscriptions b);
  publishing b := nested (_clientAdvertisedTopics b);
|}.

Lemma ros2_subscribeHandler_gains ch hdl b :
  gains (just ch hdl) nobody b (subscribeHandler ch hdl b).1.
Proof.
  unfold subscribeHandler, bind at 1, gets at 1.
  destruct (_channelToTopicAndDatatype b !! ch) as [t|]; [|apply gains_refl].
  unfold bind at 1, gets at 1. destruct (_advertisedTopics b !! t) as [channel|]; [|apply gains_refl].
  unfold bind at 1, gets at 1. destruct (emplace ch ∅ (_subscriptions b)) as [subs' first] eqn:He.
  assert (subs' = (emplace ch ∅ (_subscriptions b)).1) as -> by (by rewrite He).
  set (b1 := set_subs (emplace ch ∅ (_subscriptions b)).1 b).
  assert (gains (just ch hdl) nobody b b1) as Hg1.
  { apply gains_intro; [done| |auto]. intros ch' hdl' Hs%nested_emplace_empty. by left. }
  unfold bind at 1, modify at 1. fold b1. case_match; [exact Hg1|].
  unfold bind, gets, lift, try_catch, on_ros, modify. simpl.
  destruct (ros_publishers_info_by_topic _ _) as [e|info]; simpl; [exact Hg1|].
  destruct (ros_create_subscription _ (ros b)) as [r' [e|[]]]; simpl.
  { destruct (catchable e); simpl; exact Hg1. }
  apply gains_intro; [done| |auto].
  intros ch' hdl' [Hn%nested_emplace_empty|Hn]%nested_put; [by left|by right].
Qed.

Lemma ros2_unsubscribeHandler_ends ch hdl b :
  (unsubscribeHandler ch hdl b).2 = inr tt ∧
  gains nobody nobody b (unsubscribeHandler ch hdl b).1 ∧
  ¬ nested (_subscriptions (unsubscribeHandler ch hdl b).1) ch hdl.
Proof.
  unfold unsubscribeHandler, bind, gets.
  destruct (_subscriptions b !! ch) as [m|] eqn:Hm.
  2: { split_and!; [done|apply gains_refl|]. intros (i & Hi & _). simpl in Hi. congruence. }
  destruct (m !! hdl) as [s|] eqn:Hs.
  2: { split_and!; [done|apply gains_refl|]. by eapply nested_absent. }
  case_bool_decide as Hempty; (split_and!; [done|apply gains_intro; [done| |auto]|]).
  - intros ch' hdl' [Hn _]%nested_delete. by left.
  - by intros [_ ?]%nested_delete.
  - intros ch' hdl' Hn. left. by apply (nested_erase _ _ _ _ _ _ Hm) in Hn as [? _].
  - intros Hn. apply (nested_erase _ _ _ _ _ _ Hm) in Hn as [_ Hno]. by apply Hno.
Qed.

Lemma ros2_clientAdvertiseHandler_gains adv hdl b :
  gains nobody (just hdl (adv_channelId adv)) b (clientAdvertiseHandler adv hdl b).1.
Proof.
  unfold clientAdvertiseHandler, bind at 1, gets at 1.
  destruct (emplace hdl ∅ (_clientAdvertisedTopics b)) as [pubs' first] eqn:He.
  assert (pubs' = (emplace hdl ∅ (_clientAdvertisedTopics b)).1) as -> by (by rewrite He).
  set (b1 := set_pubs (emplace hdl ∅ (_clientAdvertisedTopics b)).1 b).
  assert (gains nobody (just hdl (adv_channelId adv)) b b1) as Hg1.
  { apply gains_intro; [done|auto|]. intros hdl' id' Hs%nested_emplace_empty. by left. }
  unfold bind at 1, modify at 1. fold b1. case_match; [exact Hg1|].
  unfold bind, on_ros, modify. simpl.
  destruct (ros_create_publisher _ (ros b)) as [r' [e|[]]]; simpl; [exact Hg1|].
  apply gains_intro; [done|auto|].
  intros hdl' id' [Hn%nested_emplace_empty|Hn]%nested_put; [by left|by right].
Qed.

Lemma ros2_clientUnadvertiseHandler_ends id hdl b :
  (clientUnadvertiseHandler id hdl b).2 = inr tt ∧
  gains nobody nobody b (clientUnadvertiseHandler id hdl b).1 ∧
  ¬ nested (_clientAdvertisedTopics (clientUnadvertiseHandler id hdl b).1) hdl id.
Proof.
  unfold clientUnadvertiseHandler, bind, gets.
  destruct (_clientAdvertisedTopics b !! hdl) as [m|] eqn:Hm.
  2: { split_and!; [done|apply gains_refl|]. intros (i & Hi & _). simpl in Hi. congruence. }
  destruct (m !! id) as [s|] eqn:Hs.
  2: { split_and!; [done|apply gains_refl|]. by eapply nested_absent. }
  case_bool_decide as Hempty; (split_and!; [done|apply gains_intro; [done|auto|]|]).
  - intros hdl' id' [Hn _]%nested_delete. by left.
  - by intros [_ ?]%nested_delete.
  - intros hdl' id' Hn. left. by apply (nested_erase _ _ _ _ _ _ Hm) in Hn as [? _].
  - intros Hn. apply (nested_erase _ _ _ _ _ _ Hm) in Hn as [_ Hno]. by apply Hno.
Qed.

Lemma ros2_clientMessageHandler_gains msg hdl b :
  gains nobody nobody b (clientMessageHandler msg hdl b).1.
Proof.
  unfold clientMessageHandler, bind, gets, lift, on_ros. repeat case_match; simplify_eq; simpl;
    try apply gains_refl; apply gains_intro; auto; done.
Qed.

#[export] Instance ros2_bridge_ok : TopicBridgeOk bridge_handlers.
Proof.
  split.
  - intros f ch hdl b [= <-]. apply ros2_subscribeHandler_gains.
  - by eexists.
  - intros f ch hdl b [= <-]. apply ros2_unsubscribeHandler_ends.
  - intros f adv hdl b [= <-]. apply ros2_clientAdvertiseHandler_gains.
  - by eexists.
  - intros f id hdl b [= <-]. apply ros2_clientUnadvertiseHandler_ends.
  - intros f msg hdl b [= <-]. apply ros2_clientMessageHandler_gains.
Qed.

(** ** The handlers throw only what can be caught *)

(** No copy of a whole frame's payload is out of bounds. *)
Lemma serialized_message_whole msg :
  whole_frame msg → ∃ data, serialized_message msg = inr data.
Proof.
  intros [Hlen Hge]. unfold serialized_message.
  assert (getLength msg <= Z.of_nat (length (getData msg))) as Hle.
  { unfold getLength, getData, MSG_PAYLOAD_OFFSET in *. rewrite length_drop, Hlen in *.
    etrans; [apply Z.mod_le; lia|lia]. }
  apply Z.leb_le in Hle. rewrite Hle. by eexists.
Qed.

Lemma serialized_message_exact msg :
  getLength msg = Z.of_nat (length (getData msg)) → serialized_message msg = inr (getData msg).
Proof.
  intros Hl. unfold serialized_message. rewrite Hl, Z.leb_refl, Nat2Z.id. by rewrite take_ge.
Qed.

Lemma clientMessageHandler_run msg hdl pubs pub b :
  getLength msg = Z.of_nat (length (getData msg)) →
  _clientAdvertisedTopics b !! hdl = Some pubs →
  pubs !! adv_channelId (msg_advertisement msg) = Some pub →
  clientMessageHandler msg hdl b = on_ros (ros_publish pub (getData msg)) b.
Proof.
  intros Hl Hpubs Hpub. unfold clientMessageHandler, bind, gets, lift.
  by rewrite Hpubs, Hpub, serialized_message_exact.
Qed.

Lemma tame_on_ros {A} (f : Ros → Ros * result A) :
  (∀ r r' e, f r = (r', inl e) → catchable e = true) → tame (on_ros f).
Proof.
  intros Hf b. unfold on_ros. destruct (f (ros b)) as [r [e|a]] eqn:He; [|done]. by eapply Hf.
Qed.

Lemma tame_reading {S A} (r : result A) :
  (∀ e, r = inl e → catchable e = true) → tame (lift (S:=S) r).
Proof. intros Hr s. unfold lift. simpl. destruct r as [e|a]; [by apply Hr|done]. Qed.

Lemma tame_try_catch {S A} (m : M S A) h :
  tame m → (∀ e, tame (h e)) → tame (try_catch m h).
Proof.
  intros Hm Hh s. unfold try_catch. specialize (Hm s). destruct (m s) as [s' [e|a]]; [|done].
  simpl in Hm. rewrite Hm. apply Hh.
Qed.

Lemma ros2_tame : RclcppLaws → HandlersTame bridge_handlers.
Proof.
  intros [(_ & Hinfo & Hsub & Hadv & Hpub)].
  assert (∀ (m : M Bridge unit), m = ret tt → tame m) as Hret by (intros m ->; done).
  split; intros f x hdl [= <-].
  - unfold subscribeHandler. repeat first
      [ apply tame_bind; [done|intros ?] | apply tame_try_catch | case_match; simplify_eq
      | apply tame_bind; [apply tame_on_ros; eauto|intros ?]
      | apply tame_bind; [apply tame_reading; eauto|intros ?] | done ].
  - unfold unsubscribeHandler. repeat first
      [ apply tame_bind; [done|intros ?] | case_match | done ].
  - unfold clientAdvertiseHandler. repeat first
      [ apply tame_bind; [done|intros ?] | case_match
      | apply tame_bind; [apply tame_on_ros; eauto|intros ?] | done ].
  - unfold clientUnadvertiseHandler. repeat first
      [ apply tame_bind; [done|intros ?] | case_match | done ].
  - intros Hwhole. unfold clientMessageHandler.
    destruct (serialized_message_whole x Hwhole) as [data ->]. repeat first
      [ apply tame_bind; [done|intros ?] | case_match | apply tame_on_ros; eauto | done ].
Qed.
End facts.

(** ** The arithmetic of the quality of service *)

(** The sum of the publishers' depths. *)
Definition total_depth (pubs : list QoS) : Z := foldr (λ q, Z.add (depth q)) 0 pubs.

Section qos.
Implicit Types pubs : list QoS.

(** The endpoints that offer what a subscription may ask for. *)
Definition reliable_pubs pubs := filter (λ q, reliability q = Reliable) pubs.
Definition transient_pubs pubs := filter (λ q, durability q = TransientLocal) pubs.

(** The sums that the limit cuts off fit into a [size_t]. *)
Definition depths_fit m pubs : Prop := Forall (λ q, 0 <= depth q ∧ m + depth q < 2 ^ 64) pubs.

Lemma total_depth_nonneg m pubs : depths_fit m pubs → 0 <= total_depth pubs.
Proof. induction 1 as [|q pubs [Hq _] _ IH]; simpl; lia. Qed.

Lemma count_qos_run m pubs :
  0 <= m →
  ∃ d, count_qos m pubs = (d, length (reliable_pubs pubs), length (transient_pubs pubs)) ∧
    0 <= d <= m ∧ (depths_fit m pubs → d = Z.min m (total_depth pubs)).
Proof.
  intros Hm. unfold count_qos.
  assert (∀ pubs d0 r t, 0 <= d0 <= m → ∃ d,
    foldl (λ '(d, reliable, transient) qos,
      (Z.min m (u64 (d + depth qos)),
       if decide (reliability qos = Reliable) then S reliable else reliable,
       if decide (durability qos = TransientLocal) then S transient else transient))
      (d0, r, t) pubs =
    (d, r + length (reliable_pubs pubs), t + length (transient_pubs pubs))%nat ∧
    0 <= d <= m ∧ (depths_fit m pubs → d = Z.min m (d0 + total_depth pubs))) as Hgen.
  2: { destruct (Hgen pubs 0 0%nat 0%nat) as (d & -> & Hd); [lia|]. by exists d. }
  clear pubs. intros pubs. induction pubs as [|q pubs IH]; intros d0 r t Hd0; simpl.
  { exists d0. rewrite !Nat.add_0_r. split_and!; [done|lia|lia|lia]. }
  pose proof (u64_range (d0 + depth q)) as [Hu _].
  edestruct (IH (Z.min m (u64 (d0 + depth q)))) as (d & -> & Hd & Hfit); [lia|].
  exists d. split_and!; [|lia|lia|].
  - unfold reliable_pubs, transient_pubs. rewrite !filter_cons.
    repeat case_decide; simpl; rewrite ?Nat.add_succ_r; done.
  - intros [[Hq Hlim] Hpubs]%Forall_cons. rewrite (Hfit Hpubs), u64_id by (split; lia).
    pose proof (total_depth_nonneg m pubs Hpubs). lia.
Qed.

(** Whether all publishers offer it, by counting. *)
Lemma count_all (P : QoS → Prop) `{∀ q, Decision (P q)} pubs :
  Nat.eqb (length (filter P pubs)) (length pubs) = true ↔ ∀ q, q ∈ pubs → P q.
Proof.
  rewrite Nat.eqb_eq. induction pubs as [|q pubs IH]; simpl.
  { split; [by intros _ q ?%not_elem_of_nil|done]. }
  rewrite filter_cons. case_decide as Hq; simpl.
  - rewrite Nat.succ_inj_wd, IH. split; intros Hall q'.
    + intros [->|?]%elem_of_cons; auto.
    + intros Hin. apply Hall. by right.
  - split; [|intros Hall; exfalso; apply Hq, Hall; by left].
    pose proof (length_filter P pubs). lia.
Qed.

Lemma select_qos_run m pubs :
  0 <= m →
  ∃ d, select_qos m pubs =
    mkQoS
      (if Nat.eqb (length (reliable_pubs pubs)) (length pubs) then Reliable else BestEffort)
      (if Nat.eqb (length (transient_pubs pubs)) (length pubs) then TransientLocal else Volatile)
      (Z.max d 1) ∧
    0 <= d <= m ∧ (depths_fit m pubs → d = Z.min m (total_depth pubs)).
Proof.
  intros Hm. destruct (count_qos_run m pubs Hm) as (d & Hc & Hd). exists d.
  unfold select_qos. by rewrite Hc.
Qed.
End qos.
