(* ===== verification/Ros2Update.v ===== *)
(** * The update of the advertised topics, and the runs of the ROS 2 bridge *)

From Stdlib Require Import Strings.Byte.
From S2P Require Import Prelude Serialization Common Logging Interfaces Server ServerFacts.
From S2P Require Import ServerInvariant ServerSpec Reachable System SystemSteps TopicUpdate.
From S2P Require Import Regex MessageDefinitionCache FullText FullTextOutcomes Ros2Bridge.
From S2P Require Import Ros2Facts.

Local Open Scope Z_scope.
Local Open Scope list_scope.

Section update.
Context `{Platform, Iteration, LogChannels, Nlohmann, Websocketpp, Rclcpp, Ament}.
Implicit Types (b : Bridge) (w : World Bridge).

(** ** The node as a store of topics *)

Definition forget_topic (t : TopicAndDatatype) (ch : Channel) b : Bridge :=
  let b := set_subs (delete (chan_id ch) (_subscriptions b)) b in
  set_topics (delete t (_advertisedTopics b))
    (delete (chan_id ch) (_channelToTopicAndDatatype b)) b.

Definition register_topic (t : TopicAndDatatype) (ch : Channel) b : Bridge :=
  set_topics (emplace t ch (_advertisedTopics b)).1
    (emplace (chan_id ch) t (_channelToTopicAndDatatype b)).1 b.

(** Reading a definition only writes the cache. *)
Lemma ros2_new_channel_frame t b :
  (∃ c, (new_channel t b).1 = set_cache c b) ∧
  ∀ new, (new_channel t b).2 = inr (Some new) → (topic new, schemaName new) = t.
Proof.
  unfold new_channel, full_text. destruct t as [tp dt].
  destruct (get_full_text _ _ _) as [c [[| | |]|[fmt txt]]]; simpl;
    (split; [by eexists|]); intros new; try done; by intros [= <-].
Qed.

#[export] Program Instance ros2_store : TopicStore remove_topic add_topic := {|
  forget := forget_topic;
  register := register_topic;
  describe := new_channel;
|}.
Next Obligation.
  intros t ch w Hch. unfold remove_topic, bind, on_env, gets, modify. simpl in *. rewrite Hch.
  rewrite world_eta. by destruct (removeChannel (chan_id ch) w) as [w1 [e|[]]].
Qed.
Next Obligation. done. Qed.
Next Obligation. done. Qed.
Next Obligation.
  intros t ch b ch' hdl. apply nested_delete.
Qed.
Next Obligation. done. Qed.
Next Obligation.
  intros t ch b Ht Hc. simpl in *. by rewrite !emplace_fresh.
Qed.
Next Obligation. done. Qed.
Next Obligation. done. Qed.
Next Obligation.
  intros t b. destruct (ros2_new_channel_frame t b) as [[c ->] _].
  apply gains_intro; [done|by left|by left].
Qed.
Next Obligation. intros t b. apply ros2_new_channel_frame. Qed.

(** The channel a topic gets, from what is on disk; none if its definition
    cannot be read for another reason than that it is missing. *)
Definition expected_channel (t : TopicAndDatatype) : option ChannelWithoutId :=
  match (get_full_text full_text_fuel t.2 ∅).2 with
  | inr (_, schema) => Some (mkChannelWithoutId t.1 "cdr" t.2 schema)
  | inl (DefinitionNotFoundError _) => Some (mkChannelWithoutId t.1 "" t.2 "")
  | inl _ => None
  end.

Lemma ros2_new_channel_run t b :
  CacheOk (_messageDefinitionCache b) →
  wp (new_channel t)
     (λ r b', r = inr (expected_channel t) ∧
        b' = set_cache (_messageDefinitionCache b') b ∧ CacheOk (_messageDefinitionCache b')) b.
Proof.
  intros Hok. unfold wp, new_channel, full_text, expected_channel.
  pose proof (get_full_text_run full_text_fuel t.2 _ Hok (le_n _)) as [Hok' Hrun].
  pose proof (get_full_text_transparent full_text_fuel t.2 _ Hok) as Heq. rewrite <-Heq.
  destruct (get_full_text _ _ (_messageDefinitionCache b)) as [c r]. simpl in *.
  destruct r as [e|[fmt txt]]; simpl; [|by split_and!].
  assert (catchable e = true) as He by (destruct Hrun as [[Hf _]|[Hf _]]; by eapply failed_catchable).
  by destruct e; simpl; split_and!.
Qed.

(** ** The whole update *)

(** The topics on the graph, if it can be read and matched with the whitelist. *)
Definition latest w : result (gset TopicAndDatatype) :=
  match ros_topic_names_and_types (ros (env w)) with
  | inl e => inl e
  | inr names => latest_topics (_topicWhitelistPatterns (env w)) names
  end.

(** There are ids left for every topic on the graph. *)
Definition ids_last w : Prop :=
  ∀ X, latest w = inr X → _nextChannelId (srv w) + Z.of_nat (size X) < 2 ^ 32.

Context `{!NlohmannLaws, !WebsocketppLaws}.

Abbreviation sys := (sysm (B:=Bridge) (mirror:=True) nobody nobody).

Lemma ros2_update_differences w X :
  latest w = inr X → ids_last w →
  Differences X w (removed_topics X (topics w)) (new_topics X (topics w)).
Proof. intros HX Hids. exact (differences X w (Hids X HX)). Qed.

(** When ROS is running and the graph can be read, the update is the two loops. *)
Lemma ros2_updateAdvertisedTopics_loops w :
  updateAdvertisedTopics w =
  if ros_ok (ros (env w)) then
    match latest w with
    | inl e => (w, inl e)
    | inr X => loops remove_topic add_topic (removed_topics X (topics w)) (new_topics X (topics w)) w
    end
  else (w, inr tt).
Proof.
  unfold updateAdvertisedTopics, bind at 1, on_env at 1, gets at 1. rewrite world_eta.
  destruct (ros_ok _); [|done]. unfold latest. simpl.
  unfold bind at 1, on_env at 1, gets at 1. rewrite world_eta. unfold bind at 1, lift at 1. simpl.
  destruct (ros_topic_names_and_types _) as [e|names]; [done|].
  unfold bind at 1, lift at 1. simpl. destruct (latest_topics _ names) as [e|X]; [done|].
  unfold bind at 1, on_env at 1, gets at 1. by rewrite world_eta.
Qed.

Lemma ros2_keeps_updateAdvertisedTopics w :
  sys w → ids_last w → sys (updateAdvertisedTopics w).1.
Proof.
  intros HI Hids. rewrite ros2_updateAdvertisedTopics_loops.
  destruct (ros_ok _); [|done]. destruct (latest w) as [e|X] eqn:HX; [done|].
  exact (keeps_loops remove_topic add_topic _ _ _ w HI (ros2_update_differences w X HX Hids)).
Qed.

(** Whether ids last or not, nothing leaks. *)
Lemma ros2_leakless_updateAdvertisedTopics :
  preserves keeps_leakless updateAdvertisedTopics.
Proof.
  intros w HI. rewrite ros2_updateAdvertisedTopics_loops.
  destruct (ros_ok _); [|done]. destruct (latest w) as [e|X]; [done|].
  destruct (removed_advertised X w) as [Hnd Hin].
  exact (loops_leakless remove_topic add_topic _ _ w HI Hnd Hin).
Qed.

Lemma ros2_updateAdvertisedTopics_run w X :
  sys w → CacheOk (_messageDefinitionCache (env w)) → latest w = inr X → ids_last w →
  ros_ok (ros (env w)) = true →
  wp updateAdvertisedTopics
     (λ _ w', sys w' ∧ CacheOk (_messageDefinitionCache (env w')) ∧
        ∀ t, updated (λ t d, d = expected_channel t) X w w' t) w.
Proof.
  intros HI Hok HX Hids Hros. unfold wp. rewrite ros2_updateAdvertisedTopics_loops, Hros, HX.
  apply (loops_run remove_topic add_topic (λ b, CacheOk (_messageDefinitionCache b))
    (λ t d, d = expected_channel t)); [done|done| |done|done|by apply ros2_update_differences].
  intros t b Hb. destruct (ros2_new_channel_run t b Hb) as (Hr & _ & Hb').
  split; [exact Hb'|]. by eexists.
Qed.

(** ** The node's own steps *)

(** The steps of the node: an iteration of the polling thread in a world where it
    [may_poll], a message of a subscription, a tick of the clock. *)
Inductive ros2_step (may_poll : World Bridge → Prop) : World Bridge → World Bridge → Prop :=
| ros2_poll triggered w : may_poll w → ros2_step may_poll w (poll_graph triggered w).1
| ros2_message channel hdl timestamp payload w :
    ros2_step may_poll w (rosMessageHandler channel hdl timestamp payload w).1
| ros2_clock timestamp w : ros2_step may_poll w (clockHandler timestamp w).1.

Lemma assertion_same (b : bool) : preserves same_srv_env (assertion (S:=World Bridge) b).
Proof. unfold assertion. destruct (ndebug || b); auto with cpp. Qed.

Lemma ros2_messages_same channel hdl timestamp payload :
  preserves same_srv_env (rosMessageHandler channel hdl timestamp payload).
Proof.
  apply preserves_bind; [tc_solve|apply assertion_same|intros _; apply sendMessage_same].
Qed.

Lemma ros2_clock_same timestamp : preserves same_srv_env (clockHandler timestamp).
Proof.
  apply preserves_bind; [tc_solve|apply assertion_same|intros _; apply broadcastTime_same].
Qed.

Lemma ros2_step_keeps {mirror} (may_poll : World Bridge → Prop) w w' :
  (∀ w, may_poll w → keeps_sysm (mirror:=mirror) w (updateAdvertisedTopics w).1) →
  ros2_step may_poll w w' → keeps_sysm (mirror:=mirror) w w'.
Proof.
  intros Hup. destruct 1 as [triggered w Hw|ch hdl ts p w|ts w].
  - intros HI. unfold poll_graph, bind, on_env, gets. rewrite world_eta.
    destruct (ros_ok (ros (env w)) && triggered); [by apply Hup|done].
  - apply keeps_sys_same, ros2_messages_same.
  - apply keeps_sys_same, ros2_clock_same.
Qed.

Lemma ros2_step_sys w w' : ros2_step ids_last w w' → keeps_sys w w'.
Proof.
  apply ros2_step_keeps. intros w1 Hids HI. by apply ros2_keeps_updateAdvertisedTopics.
Qed.

Lemma ros2_step_leakless w w' : ros2_step (λ _, True) w w' → keeps_leakless w w'.
Proof. apply ros2_step_keeps. intros w1 _. apply ros2_leakless_updateAdvertisedTopics. Qed.
End update.

(** ** The beginning *)

(** A node that has not served anyone yet. *)
Definition fresh_node `{Rclcpp} (b : Bridge) : Prop :=
  _advertisedTopics b = ∅ ∧ _channelToTopicAndDatatype b = ∅ ∧
  _subscriptions b = ∅ ∧ _clientAdvertisedTopics b = ∅.

Section fresh.
Context `{Platform, Iteration, LogChannels, Nlohmann, Websocketpp, Rclcpp, Ament}.

Lemma ros2_fresh_sys name capabilities limit tls (b : Bridge) :
  fresh_node b → SysInv (new_Server name capabilities limit tls) b.
Proof.
  intros (Ht & Hc & Hs & Hp). split; simpl; rewrite ?Ht, ?Hc.
  - apply new_Server_inv.
  - intros _. split; simpl; rewrite ?Ht, ?Hc; [done|done| |]; by intros id [? ?].
  - intros ch hdl (i & Hi & _). by rewrite Hs in Hi.
  - intros hdl id (i & Hi & _). by rewrite Hp in Hi.
Qed.
End fresh.
