(* ===== verification/Ros2Views.v ===== *)
(** * What the clients of the ROS 2 bridge know of the graph

    The runs of the bridge in which the names on the graph and the definitions on
    disk are text: the node's cache stays right, and every client knows exactly
    the advertised topics. *)

From Stdlib Require Import Strings.Byte.
From S2P Require Import Prelude Serialization Common Logging Interfaces Server ServerFacts.
From S2P Require Import ServerInvariant ServerSpec Reachable Views ViewSteps System SystemSteps.
From S2P Require Import TopicUpdate TopicViews Regex MessageDefinitionCache FullText.
From S2P Require Import FullTextOutcomes Ros2Bridge Ros2Facts Ros2Update.

Local Open Scope Z_scope.
Local Open Scope list_scope.

Section views.
Context `{Platform, Iteration, LogChannels, Nlohmann, Websocketpp, Rclcpp, Ament}.
Implicit Types (b : Bridge) (w : World Bridge).

(** ** The handlers leave the cache alone *)

Definition same_cache b b' : Prop := _messageDefinitionCache b' = _messageDefinitionCache b.

#[export] Instance same_cache_preorder : PreOrder same_cache.
Proof. unfold same_cache. split; [done|]. intros ???. congruence. Qed.

Lemma same_cache_on_ros {A} (f : Ros → Ros * result A) : preserves same_cache (on_ros f).
Proof. intros b. unfold on_ros. by destruct (f (ros b)). Qed.

Lemma same_cache_modify f :
  (∀ b, _messageDefinitionCache (f b) = _messageDefinitionCache b) → preserves same_cache (modify f).
Proof. intros Hf b. apply Hf. Qed.

Ltac same_cache := traverse (idtac; match goal with
  | |- preserves _ (on_ros _) => apply same_cache_on_ros
  | |- preserves _ (modify _) => by apply same_cache_modify
  end).

Lemma ros2_keeps_cache : HandlersKeep bridge_handlers same_cache.
Proof.
  split; intros f x hdl [= <-]; unfold subscribeHandler, unsubscribeHandler,
    clientAdvertiseHandler, clientUnadvertiseHandler, clientMessageHandler; same_cache.
Qed.

(** ** Runs *)

(** What the node does not do itself: the graph changes. *)
Definition graph_moves b b' : Prop := ∃ r, b' = set_ros r b.

Lemma graph_moves_gains b b' : graph_moves b b' → gains nobody nobody b b'.
Proof. intros [r ->]. apply gains_intro; [done|by left|by left]. Qed.

Context `{!NlohmannLaws, !WebsocketppLaws, !NlohmannUtf8}.

(** The topics on the graph can be described to a client. *)
Definition utf8_graph w : Prop :=
  ∀ X t new, latest w = inr X → t ∈ X → expected_channel t = Some new → valid_channel new.

Definition ros2_text_step w w' : Prop := ros2_step ids_last w w' ∧ utf8_graph w.

Definition cache_ok b : Prop := CacheOk (_messageDefinitionCache b).

Abbreviation ros2_synced := (bridge_synced (B:=Bridge) cache_ok).

(** An update leaves every client with the topics that are then advertised. *)
Lemma ros2_update_synced w :
  ros2_synced w → ids_last w → utf8_graph w → ros2_synced (updateAdvertisedTopics w).1.
Proof.
  intros [HI Hw Hc] Hids Hutf. pose proof Hc as Hc'.
  destruct (ros_ok (ros (env w))) eqn:Hros.
  2: { rewrite ros2_updateAdvertisedTopics_loops, Hros. by split. }
  destruct (latest w) as [e|X] eqn:HX.
  { rewrite ros2_updateAdvertisedTopics_loops, Hros, HX. by split. }
  destruct (ros2_updateAdvertisedTopics_run w X HI Hc HX Hids Hros) as (HI' & Hc1 & _).
  split; [done| |done]. rewrite ros2_updateAdvertisedTopics_loops, Hros, HX.
  enough (wp (loops remove_topic add_topic (removed_topics X (topics w))
    (new_topics X (topics w))) (λ r w', r = inr tt ∧ synced w') w) as [_ ?] by done.
  apply (loops_complete remove_topic add_topic cache_ok X);
    [done|done| | | |done|done|by apply ros2_update_differences|done].
  - intros t b Hb. by destruct (ros2_new_channel_run t b Hb) as (_ & _ & ?).
  - intros t b new Ht Hb Hnew. destruct (ros2_new_channel_run t b Hb) as (Hr & _).
    apply (Hutf X t new HX Ht). change ((new_channel t b).2 = inr (Some new)) in Hnew. congruence.
  - intros t b Hb. destruct (ros2_new_channel_run t b Hb) as (Hr & _). by eexists.
Qed.

Lemma ros2_step_synced w w' : ros2_text_step w w' → ros2_synced w → ros2_synced w'.
Proof.
  intros [Hstep Hutf] Hw. destruct Hstep as [triggered w Hids|ch hdl ts p w|ts w].
  - unfold poll_graph, bind, on_env, gets. rewrite world_eta.
    destruct (ros_ok (ros (env w)) && triggered); [by apply ros2_update_synced|done].
  - apply bridge_synced_kept; [apply ros2_messages_same| |done].
    unfold rosMessageHandler, assertion. destruct (ndebug || _); auto with cpp.
  - apply bridge_synced_kept; [apply ros2_clock_same| |done].
    unfold clockHandler, assertion. destruct (ndebug || _); auto with cpp.
Qed.

Lemma ros2_run_synced w w' :
  rtc (system_step bridge_handlers graph_moves ros2_text_step) w w' →
  ros2_synced w → ros2_synced w'.
Proof.
  apply (bridge_run_synced bridge_handlers cache_ok graph_moves ros2_text_step); [|apply graph_moves_gains| |apply ros2_step_synced].
  - eapply handlers_keep_mono; [exact ros2_keeps_cache|].
    unfold same_cache, keeps_owner, cache_ok. by intros b b' ->.
  - by intros b b' [r ->].
Qed.

(** A node that is about to start. *)
Lemma ros2_synced_fresh name capabilities limit tls w :
  srv w = new_Server name capabilities limit tls →
  valid_utf8 name → Forall valid_utf8 capabilities →
  fresh_node (env w) → _messageDefinitionCache (env w) = ∅ → ros2_synced w.
Proof.
  intros Hs Hn Hc Hb Hcache. split.
  - rewrite Hs. by apply ros2_fresh_sys.
  - by eapply synced_fresh.
  - unfold cache_ok. rewrite Hcache. apply CacheOk_empty.
Qed.
End views.
