(* ===== verification/Ros2Start.v ===== *)
(** * What the constructor of the ROS 2 node establishes

    Every conversion of a parameter to a narrower or unsigned type keeps its
    value; the server has the node's handlers and hooks; and the invariant that
    the node and the server keep from then on holds. *)

From Stdlib Require Import Strings.Byte.
From S2P Require Import Prelude Serialization Common Logging Interfaces Server ServerFacts.
From S2P Require Import ServerInvariant ServerSpec Reachable System SystemSteps.
From S2P Require Import MessageDefinitionCache Setup SetupFacts Ros2Bridge Ros2Facts Ros2Update.
From S2P Require Import Ros2Setup.

Local Open Scope Z_scope.
Local Open Scope string_scope.
Local Open Scope list_scope.

(** ** The parameters *)

Section node.
Context `{Platform, Iteration, LogChannels, Nlohmann, Websocketpp, !Asio}.
Context `{Rclcpp, !Ros2SetupLibrary, Ament, RclcppParameters, StdRegex}.

Abbreviation Node := (Owner Params Bridge).
Implicit Types o : Node.

Definition set_params (p : Params) o : Node :=
  mkOwner p (ow_server o) (ow_net o) (ow_bridge o) (ow_out o) (ow_polling o) (ow_clock o).

(** The parameter is declared as [d] says, and has a value [d] admits. *)
Definition well_declared (p : Params) (d : ParameterDescriptor) : Prop :=
  declared p (pd_name d) = Some d ∧ ∃ v, get_parameter p (pd_name d) = inr v ∧ admits d v.

Context `{!RclcppParametersLaws}.

Lemma declare_all (l : list (ParameterDescriptor * ParameterValue)) o :
  NoDup ((λ dv, pd_name dv.1) <$> l) →
  wp (for_each l (λ '(d, v), on_params (declare_parameter d v))) (λ r o', r = inr tt →
    o' = set_params (ow_params o') o ∧
    Forall (λ dv, well_declared (ow_params o') dv.1) l ∧
    ∀ d, pd_name d ∉ ((λ dv, pd_name dv.1) <$> l) → well_declared (ow_params o) d →
      well_declared (ow_params o') d) o.
Proof.
  revert o. induction l as [|[d v] l IH]; intros o Hnd; simpl.
  { rewrite wp_ret. intros _. split_and!; [by destruct o|done|done]. }
  apply NoDup_cons in Hnd as [Hd Hnd]. rewrite wp_bind, wp_on_params.
  destruct (declare_parameter d v (ow_params o)) as [p [e|[]]] eqn:Hdecl; simpl; [done|].
  eapply wp_mono; [by apply IH|]. intros r o' Ho' Hr.
  destruct (Ho' Hr) as (Heq & Hall & Hkeep). split_and!.
  - rewrite Heq. done.
  - constructor; [|done]. apply Hkeep; [done|]. simpl.
    destruct (declare_value _ _ _ _ Hdecl) as (v' & Hv' & Had).
    destruct (declare_declares _ _ _ _ Hdecl) as [Hdd _].
    split; [by rewrite Hdd, decide_True|by exists v'].
  - intros d' [Hne Hin]%not_elem_of_cons [Hdd' (v' & Hv' & Had)]. apply Hkeep; [done|].
    destruct (declare_declares _ _ _ _ Hdecl) as [Hdd Hget]. simpl.
    split; [by rewrite Hdd, decide_False|]. exists v'. by rewrite Hget.
Qed.

Lemma wp_param {A} name (as_ : ParameterValue → result A) Q o :
  wp (param name as_) Q o ↔
  Q (match get_parameter (ow_params o) name with inl e => inl e | inr v => as_ v end) o.
Proof. unfold param. rewrite wp_on_params. by destruct o. Qed.

(** Reading a parameter, then the rest, which the reader's failure ends. *)
Lemma wp_bind_param {A B} name (as_ : ParameterValue → result A) (f : A → M Node B)
    (Q : result B → Node → Prop) o :
  (∀ e, Q (inl e) o) →
  (∀ v a, get_parameter (ow_params o) name = inr v → as_ v = inr a → wp (f a) Q o) →
  wp (bind (param name as_) f) Q o.
Proof.
  intros He Hf. rewrite wp_bind, wp_param.
  destruct (get_parameter _ _) as [e|v]; [done|]. destruct (as_ v) as [e|a] eqn:Ha; [done|].
  by eapply Hf.
Qed.

Lemma as_int_inv v z : as_int v = inr z → v = ParamInteger z.
Proof. destruct v; simpl; unfold wrong_type; congruence. Qed.

(** An integer parameter lies in the range of its descriptor. *)
Lemma integer_in_range p d r z :
  well_declared p d → pd_integer_range d = [r] → get_parameter p (pd_name d) = inr (ParamInteger z) →
  (from_value r ≤ z ≤ to_value r)%Z.
Proof.
  intros [_ (v & Hv & Had)] Hr Hz. rewrite Hz in Hv. injection Hv as <-.
  destruct Had as [_ Had]. rewrite Hr in Had. by inversion Had.
Qed.

(** ** The constructor *)

Context `{!StdRegexLaws, !NlohmannLaws, !WebsocketppLaws}.

(** The parameter has the value. *)
Definition has_param o (name : string) (v : ParameterValue) : Prop :=
  get_parameter (ow_params o) name = inr v.

(** A node between its server's construction and its start. *)
Record prepared (before : list (string → result bool)) (logs : Logs) o (s : ServerObject Bridge) : Prop := mkPrepared {
  pre_server : ow_server o = Some s;
  pre_params : Forall (λ dv, well_declared (ow_params o) dv.1) parameters;
  pre_state : ∃ limit tls certfile keyfile sim,
    has_param o "send_buffer_limit" (ParamInteger limit) ∧
    has_param o "tls" (ParamBool tls) ∧
    has_param o "certfile" (ParamString certfile) ∧
    has_param o "keyfile" (ParamString keyfile) ∧
    so_state s = new_Server "foxglove_bridge" (serverCapabilities sim) limit tls ∧
    so_hooks s = constructed_hooks (if tls : bool then Some (certfile, keyfile) else None) ∧
    _useSimTime (ow_bridge o) = sim;
  pre_logs : so_logs s = configured_logs owner_callback logs;
  pre_fresh : fresh_node (ow_bridge o);
  pre_patterns : ∃ l, has_param o "topic_whitelist" (ParamStringArray l) ∧
    _topicWhitelistPatterns (ow_bridge o) = before ++ omap compiled l;
}.

Lemma parameters_names : NoDup ((λ dv : ParameterDescriptor * ParameterValue, pd_name dv.1) <$> parameters).
Proof. apply (bool_decide_unpack _). vm_compute. exact I. Qed.

Lemma declared_at o (d : ParameterDescriptor) i v :
  Forall (λ dv, well_declared (ow_params o) dv.1) parameters → parameters !! i = Some (d, v) →
  well_declared (ow_params o) d.
Proof. intros Hall Hi. exact (Forall_lookup_1 _ _ _ _ Hall Hi). Qed.

Lemma create_server_run before logs o :
  Forall (λ dv, well_declared (ow_params o) dv.1) parameters → fresh_node (ow_bridge o) →
  (∃ l, has_param o "topic_whitelist" (ParamStringArray l) ∧
     _topicWhitelistPatterns (ow_bridge o) = before ++ omap compiled l) →
  wp (create_server logs) (λ r o', r = inr tt →
    ∃ s, prepared before logs o' s ∧ so_handlers s = no_handlers) o.
Proof.
  intros Hall Hfresh Hpat. unfold create_server.
  apply wp_bind_param; [done|]. intros v limit Hlimit ->%as_int_inv.
  apply wp_bind_param; [done|]. intros [tls| | |] ? Htls; try done. intros [= <-].
  apply wp_bind_param; [done|]. intros [| |cert|] ? Hcert; try done. intros [= <-].
  apply wp_bind_param; [done|]. intros [| |key|] ? Hkey; try done. intros [= <-].
  apply wp_bind_param; [done|]. intros [sim| | |] ? Hsim; try done. intros [= <-].
  rewrite wp_bind, wp_on_bridge. simpl. apply wp_make_server. intros n evs r Hr Hok.
  pose proof (Server_new_run (E:=Bridge) "foxglove_bridge" owner_callback (serverCapabilities sim) (u64 limit)
    (if tls then Some (cert, key) else None) logs (ow_net o, ow_out o)) as Hnew.
  unfold wp in Hr, Hnew. cbn [ow_net ow_out] in Hr. rewrite Hr in Hnew.
  destruct r as [e|s]; [done|]. destruct (Hnew s eq_refl) as (Hst & Hhs & Hhk & Hlogs).
  exists s. split; [|done]. simpl.
  pose proof (declared_at o sendBufferLimit 7 _ Hall eq_refl) as Hd.
  pose proof (integer_in_range _ _ _ _ Hd eq_refl Hlimit) as Hlim. simpl in Hlim.
  split; simpl; [done|done| |done|done|done].
  exists limit, tls, cert, key, sim. split_and!; try done.
  - rewrite Hst, u64_id by (unfold INT64_MAX in Hlim; split; lia). by destruct tls.
Qed.

Lemma prepare_run logs (k : M Node unit) (Q : result unit → Node → Prop) o :
  fresh_node (ow_bridge o) → (∀ e o', Q (inl e) o') →
  (∀ o' s, prepared (_topicWhitelistPatterns (ow_bridge o)) logs o' s → so_handlers s = no_handlers → wp k Q o') →
  wp (declare_parameters ;;; read_whitelist ;;; create_server logs ;;; k) Q o.
Proof.
  intros Hfresh He Hk. rewrite wp_bind. eapply wp_mono; [apply declare_all, parameters_names|].
  intros [e|[]] o1 Ho1; [done|]. destruct (Ho1 eq_refl) as (Heq & Hall & _).
  assert (ow_bridge o1 = ow_bridge o) as Hb by (by rewrite Heq).
  rewrite wp_bind. unfold read_whitelist. apply wp_bind_param; [done|].
  intros [| | |l] ? Hl; try done. intros [= <-].
  rewrite wp_on_bridge. unfold compile_patterns.
  rewrite (push_patterns_run _topicWhitelistPatterns set_patterns); [|by intros []|done..].
  simpl. rewrite wp_bind.
  eapply wp_mono; [apply create_server_run; simpl; [done|by rewrite Hb|exists l; by rewrite Hb]|].
  intros [e|[]] o2 Ho2; [done|]. destruct (Ho2 eq_refl) as (s & Hpre & Hno). by eapply Hk.
Qed.

Definition with_handlers (s : ServerObject Bridge) : ServerObject Bridge :=
  mkServerObject (so_state s) bridge_handlers (so_hooks s) (so_logs s).

(** The start: the server gets its thread; the parameter "port" is read-only, so
    giving it the port that was bound has no effect. *)
Lemma ros2_start_server_run before logs o s :
  prepared before logs o s →
  wp start_server (λ r o', r = inr tt →
    ow_params o' = ow_params o ∧ ow_bridge o' = ow_bridge o ∧
    ow_server o' = Some (mkServerObject (set_thread true (so_state s)) (so_handlers s)
      (so_hooks s) (so_logs s)) ∧
    ∃ address port w', has_param o "address" (ParamString address) ∧
      has_param o "port" (ParamInteger port) ∧ is_u16 port ∧
      start address port (world_of_owner o s) = (w', inr tt) ∧
      srv w' = set_thread true (so_state s) ∧ net w' = ow_net o' ∧ out w' = ow_out o') o.
Proof.
  intros Hpre. pose proof (declared_at o portDescription 0 _ (pre_params _ _ _ _ Hpre) eq_refl) as Hd.
  unfold start_server. apply wp_bind_param; [done|]. intros [| |address|] ? Haddr; try done.
  intros [= <-]. apply wp_bind_param; [done|]. intros v port Hport ->%as_int_inv.
  pose proof (integer_in_range _ _ _ _ Hd eq_refl Hport) as Hrange. simpl in Hrange.
  assert (is_u16 port) as Hu by (split; lia). rewrite (u16_id port Hu).
  rewrite wp_bind. simpl. rewrite (wp_through _ _ o s) by apply Hpre.
  pose proof (start_run address port (world_of_owner o s)) as Hrun.
  unfold wp in Hrun |- * at 1.
  destruct (start address port (world_of_owner o s)) as [w1 r1] eqn:Hstart.
  simpl in *. destruct Hrun as (Henv & _ & Hok). destruct r1 as [e|[]]; [done|].
  destruct (Hok eq_refl) as (Hsrv & ep & Hep).
  rewrite wp_bind. erewrite wp_through by done. rewrite localEndpoint_run. simpl. rewrite Hep.
  rewrite wp_bind, wp_lift. destruct ep as [[v6 addr] p]. simpl.
  assert (Hread : set_parameter "port" (ParamInteger (u16 p)) (ow_params o) =
    (ow_params o, inr false)).
  { apply (set_read_only _ portDescription); [apply Hd|done]. }
  rewrite wp_when. destruct (negb _);
    [rewrite wp_bind, wp_on_params; simpl; rewrite Hread; simpl; rewrite wp_ret|];
    intros _; simpl; rewrite Hsrv, Henv; do 3 (split; [done|]); by exists address, port, w1.
Qed.

Lemma prepared_sys before logs o s :
  prepared before logs o s → SysInv (set_thread true (so_state s)) (ow_bridge o).
Proof.
  intros Hpre. destruct (pre_state _ _ _ _ Hpre) as (limit & tls & cert & key & sim & _ & _ & _ & _ & Hs & _).
  apply sys_set_thread. rewrite Hs. apply ros2_fresh_sys. exact (pre_fresh _ _ _ _ Hpre).
Qed.
Lemma prepared_with_handlers before logs o s :
  prepared before logs o s → prepared before logs (set_server (Some (with_handlers s)) o) (with_handlers s).
Proof. intros [Hs Hp Hst Hlg Hf Hw]. by split. Qed.

(** The state of ROS and the depth limit do not matter to the invariant. *)
Lemma sys_finish s (b : Bridge) r depth :
  SysInv s b → SysInv s (set_ros r (set_maxQosDepth depth b)).
Proof.
  intros [Hsv Hm Hs Hp]. split; [done| |done|done]. intros Hmir. by destruct (Hm Hmir).
Qed.

(** The end of the constructor leaves the server, and of the node only the depth
    limit and ROS, as it was before. *)
Lemma finish_run o :
  Forall (λ dv, well_declared (ow_params o) dv.1) parameters →
  wp (let! depth := param "max_qos_depth" as_int in
      on_bridge (modify (set_maxQosDepth (u64 depth))) ;;;
      modify (set_polling true) ;;;
      let! useSimTime := on_bridge (gets _useSimTime) in
      when useSimTime
        (on_bridge (on_ros ros_subscribe_clock) ;;;
         modify (set_clock true)))
    (λ r o', r = inr tt → ∃ depth rs,
      has_param o "max_qos_depth" (ParamInteger depth) ∧
      o' = mkOwner (ow_params o) (ow_server o) (ow_net o)
        (set_ros rs (set_maxQosDepth depth (ow_bridge o))) (ow_out o) true
        (_useSimTime (ow_bridge o) || ow_clock o)) o.
Proof.
  intros Hall. apply wp_bind_param; [done|]. intros v depth Hdepth ->%as_int_inv.
  pose proof (declared_at o maxQosDepthDescription 5 _ Hall eq_refl) as Hd.
  pose proof (integer_in_range _ _ _ _ Hd eq_refl Hdepth) as Hrange.
  rewrite u64_id by (unfold INT32_MAX in Hrange; simpl in Hrange; split; lia).
  rewrite wp_bind, wp_on_bridge. simpl. rewrite wp_bind, wp_modify. simpl.
  rewrite wp_bind, wp_on_bridge. simpl.
  rewrite wp_when. destruct (_useSimTime (ow_bridge o)) eqn:Hsim.
  - rewrite wp_bind, wp_on_bridge. unfold on_ros. simpl.
    destruct (ros_subscribe_clock _) as [rs [e|[]]]; simpl; [done|]. rewrite wp_modify.
    intros _. by exists depth, rs.
  - intros _. exists depth, (ros (ow_bridge o)). split; [done|]. by destruct o as [? ? ? []].
Qed.

(** ** The destructor *)

Lemma poll_over turns (w : World Bridge) :
  ros_ok (ros (env w)) = false → poll_until_end turns w = (w, inr true).
Proof.
  intros Hok. destruct w as [s n b out]. simpl in Hok.
  by destruct turns; simpl; unfold bind, on_env, gets; simpl; rewrite Hok.
Qed.

(** Where nothing happens to ROS meanwhile, it is the loop of the polling thread. *)
Lemma poll_loop_turns triggers w :
  (poll_until_end (mkTurn id <$> triggers) w).1 = (poll_loop triggers w).1.
Proof.
  revert w. induction triggers as [|b triggers IH]; intros w; simpl; unfold bind, on_env, gets; simpl.
  - by destruct w as [s n [] out]; simpl; destruct (ros_ok _).
  - assert (mkWorld (srv w) (net w) (set_ros (ros (env w)) (env w)) (out w) = w) as Hw
      by (by destruct w as [s n [] out]).
    assert (mkWorld (srv w) (net w) (env w) (out w) = w) as Hw' by (by destruct w).
    unfold modify, id. simpl. rewrite Hw'. destruct (ros_ok (ros (env w))); simpl; [|done].
    rewrite Hw. destruct (when b updateAdvertisedTopics w) as [w' [e|[]]]; [done|apply IH].
Qed.

(** An update does not end ROS. *)
Definition same_ros (w w' : World Bridge) : Prop := ros (env w') = ros (env w).

#[local] Instance same_ros_preorder : PreOrder same_ros.
Proof. unfold same_ros. split; [done|]. intros ???. congruence. Qed.

Lemma same_ros_on_env {A} (m : M Bridge A) :
  (∀ b, ros (m b).1 = ros b) → preserves same_ros (on_env m).
Proof. intros Hm w. unfold on_env, same_ros. specialize (Hm (env w)). by destruct (m (env w)). Qed.

Lemma same_ros_same {A} (m : M (World Bridge) A) :
  preserves same_srv_env m → preserves same_ros m.
Proof. intros Hm w. destruct (Hm w) as [_ Henv]. unfold same_ros. by rewrite Henv. Qed.

Lemma new_channel_ros t b : ros (new_channel t b).1 = ros b.
Proof.
  unfold new_channel, full_text. destruct (get_full_text _ _ _) as [c r]. by repeat case_match; simplify_eq.
Qed.

Lemma same_ros_update : preserves same_ros updateAdvertisedTopics.
Proof.
  unfold updateAdvertisedTopics, remove_topic, add_topic. traverse (idtac; match goal with
    | |- preserves _ (on_env _) => apply same_ros_on_env; first [done|apply new_channel_ros]
    | |- preserves _ (lift _) => by intros w
    | |- preserves _ broadcastChannels => apply same_ros_same, broadcastChannels_same
    | |- preserves _ (addChannel _) => intros w; reflexivity
    | |- preserves _ (removeChannel ?ch) =>
        intros w; destruct (removeChannel_run ch w) as (_ & Henv & _); unfold same_ros; by rewrite Henv
    end).
Qed.

(** While ROS runs, the loop goes on. *)
Lemma poll_goes_on turns w :
  ros_ok (ros (env w)) = true →
  Forall (λ t, ∀ r, ros_ok r = true → ros_ok (meanwhile t r) = true) turns →
  (poll_until_end turns w).2 ≠ inr true.
Proof.
  intros Hok Hturns. revert w Hok. induction Hturns as [|t turns Ht _ IH]; intros w Hok.
  - simpl. unfold bind, on_env, gets. simpl. by rewrite Hok.
  - enough (wp (poll_until_end (t :: turns)) (λ r _, r ≠ inr true) w) as Hr by done.
    cbn [poll_until_end]. rewrite wp_bind, wp_on_env. cbn [gets fst snd]. rewrite Hok.
    simpl. rewrite wp_bind, wp_on_env. simpl. rewrite wp_bind.
    assert (preserves same_ros (when (triggered t) updateAdvertisedTopics)) as Hs.
    { apply preserves_when; [apply _|intros _; apply same_ros_update]. }
    unfold wp at 1. match goal with |- context [when _ _ ?w1] => specialize (Hs w1) end.
    destruct (when _ _ _) as [w' [e|[]]]; [done|]. apply IH.
    unfold same_ros in Hs. simpl in Hs |- *. rewrite Hs. by apply Ht.
Qed.

(** After a shutdown of ROS the polling thread has ended, or ends. *)
Lemma ros2_delete_run turns next o s w :
  ros_ok (ros (env w)) = false → ws_stopped (net w) = false → ow_polling o = true →
  wp (FoxgloveBridge_delete turns next) (λ r o', r ≠ inr false ∧ ow_polling o' = false ∧
    ∃ s', ow_server o' = Some s' ∧ (r = inr true → _clients (so_state s') = ∅ ∧
      _serverThread (so_state s') = false)) (owner_at o s w).
Proof.
  intros Hok Hns Hpoll. unfold FoxgloveBridge_delete.
  rewrite wp_noexcept, wp_bind, wp_gets. simpl. rewrite Hpoll, wp_bind.
  erewrite wp_through by done. unfold wp at 1.
  rewrite poll_over by done. simpl. rewrite wp_bind, wp_modify, wp_bind.
  eapply wp_mono; [by eapply si_stop_run|]. intros [e|[]] o'; [|rewrite wp_ret]; naive_solver.
Qed.
End node.
