(* ===== verification/Ros2Threads.v ===== *)
(** * The ROS 2 node's threads

    The node's handlers with their locks, the callbacks of its executor, and the
    polling thread's update of the topics, which takes the server's mutex while
    it holds the node's. *)

From Stdlib Require Import Strings.Byte.
From S2P Require Import Prelude Serialization Common Logging Interfaces Server ServerFacts.
From S2P Require Import ServerInvariant ServerSpec Reachable Views Threads ThreadPool Deadlock.
From S2P Require Import ServerThreads ServerThreadFacts ServerThreadInvariant.
From S2P Require Import MessageDefinitionCache Ros2Bridge.
From S2P Require Import System SystemSteps TopicUpdate FullText Ros2Facts Ros2Update.

Local Open Scope Z_scope.
Local Open Scope list_scope.

Section threads.
Context `{Platform, Iteration, LogChannels, Nlohmann, Websocketpp, Rclcpp, Ament}.

Abbreviation program := (prog (World Bridge) Mutex).

(** ** Handlers *)

(** @src ros2_foxglove_bridge/src/ros2_foxglove_bridge.cpp:362-470 FoxgloveBridge::subscribeHandler *)
Definition subscribeHandler_p (channelId : ChannelId) (clientHandle : ConnHandle) : program unit :=
  locked_act SubscriptionsMutex (subscribeHandler channelId clientHandle).

(** @src ros2_foxglove_bridge/src/ros2_foxglove_bridge.cpp:472-517 FoxgloveBridge::unsubscribeHandler *)
Definition unsubscribeHandler_p (channelId : ChannelId) (clientHandle : ConnHandle)
  : program unit :=
  locked_act SubscriptionsMutex (unsubscribeHandler channelId clientHandle).

(** @src ros2_foxglove_bridge/src/ros2_foxglove_bridge.cpp:519-551 FoxgloveBridge::clientAdvertiseHandler *)
Definition clientAdvertiseHandler_p (advertisement : ClientAdvertisement) (hdl : ConnHandle)
  : program unit :=
  locked_act PublicationsMutex (clientAdvertiseHandler advertisement hdl).

(** @src ros2_foxglove_bridge/src/ros2_foxglove_bridge.cpp:553-585 FoxgloveBridge::clientUnadvertiseHandler *)
Definition clientUnadvertiseHandler_p (channelId : ClientChannelId) (hdl : ConnHandle)
  : program unit :=
  locked_act PublicationsMutex (clientUnadvertiseHandler channelId hdl).

(** The publisher is looked up under the lock, and publishes without it.
    @src ros2_foxglove_bridge/src/ros2_foxglove_bridge.cpp:587-624 FoxgloveBridge::clientMessageHandler *)
Definition clientMessageHandler_p (message : ClientMessage) (hdl : ConnHandle) : program unit :=
  let channelId := adv_channelId (msg_advertisement message) in
  let* publisher := locked_act PublicationsMutex (gets (λ b,
    match _clientAdvertisedTopics b !! hdl with
    | None => None
    | Some clientPublications => clientPublications !! channelId
    end)) in
  match publisher with
  | None => pret tt
  | Some publisher =>
      let* serializedMessage := act (lift (serialized_message message)) in
      act (on_env (on_ros (ros_publish publisher serializedMessage)))
  end.

Definition locked_handlers : LockedHandlers Bridge :=
  mkLockedHandlers subscribeHandler_p unsubscribeHandler_p clientAdvertiseHandler_p
    clientUnadvertiseHandler_p clientMessageHandler_p.

(** ** The update of the topics *)

(** @src ros2_foxglove_bridge/src/ros2_foxglove_bridge.cpp:271-286 FoxgloveBridge::updateAdvertisedTopics *)
Definition remove_topic_p (topicAndDatatype : TopicAndDatatype) : program unit :=
  let* advertised := act (on_env (gets _advertisedTopics)) in
  match advertised !! topicAndDatatype with
  | None => act (throw (StdException "unordered_map::at"))
  | Some channel =>
      removeChannel_p (chan_id channel) ;;*
      act (on_env (modify (λ b, set_subs (delete (chan_id channel) (_subscriptions b)) b))) ;;*
      act (on_env (modify (λ b, set_topics (delete topicAndDatatype (_advertisedTopics b))
                             (delete (chan_id channel) (_channelToTopicAndDatatype b)) b)))
  end.

(** @src ros2_foxglove_bridge/src/ros2_foxglove_bridge.cpp:289-330 FoxgloveBridge::updateAdvertisedTopics *)
Definition add_topic_p (topicAndDatatype : TopicAndDatatype) : program unit :=
  let* newChannel := act (on_env (new_channel topicAndDatatype)) in
  match newChannel with
  | None => pret tt
  | Some newChannel =>
      let* id := addChannel_p newChannel in
      let channel := mkChannel id newChannel in
      act (on_env (modify (λ b,
        set_topics (emplace topicAndDatatype channel (_advertisedTopics b)).1
          (emplace id topicAndDatatype (_channelToTopicAndDatatype b)).1 b)))
  end.

(** Both loops run under the node's mutex; [broadcastChannels] does not.
    @src ros2_foxglove_bridge/src/ros2_foxglove_bridge.cpp:221-336 FoxgloveBridge::updateAdvertisedTopics *)
Definition updateAdvertisedTopics_p : program unit :=
  let* ok := act (on_env (gets (λ b, ros_ok (ros b)))) in
  if negb ok then pret tt else
  let* b := act (on_env (gets id)) in
  let* topicNamesAndTypes := act (lift (ros_topic_names_and_types (ros b))) in
  let* latestTopics := act (lift (latest_topics (_topicWhitelistPatterns b) topicNamesAndTypes)) in
  let* advertised := act (on_env (gets _advertisedTopics)) in
  let newTopics := new_topics latestTopics advertised in
  with_lock SubscriptionsMutex Exclusive
    (pfor_each (removed_topics latestTopics advertised) remove_topic_p ;;*
     pfor_each newTopics add_topic_p) ;;*
  pwhen (negb (bool_decide (newTopics = []))) broadcastChannels_p.

(** @src ros2_foxglove_bridge/src/ros2_foxglove_bridge.cpp:207-216 FoxgloveBridge::rosgraphPollThread *)
Fixpoint poll_loop_p (triggers : list bool) : program unit :=
  match triggers with
  | [] => pret tt
  | triggered :: triggers =>
      let* ok := act (on_env (gets (λ b, ros_ok (ros b)))) in
      if negb ok then pret tt else
      pwhen triggered updateAdvertisedTopics_p ;;*
      poll_loop_p triggers
  end.

(** @src ros2_foxglove_bridge/src/ros2_foxglove_bridge.cpp:203-219 FoxgloveBridge::rosgraphPollThread *)
Definition rosgraphPollThread_p (triggers : list bool) : program unit :=
  updateAdvertisedTopics_p ;;*
  poll_loop_p triggers.

(** The node: the server's run loop and the callbacks of the executor, a thread
    for each list of calls, and the polling thread. *)
Definition ros2_threads (css : list (list (Call Bridge))) (triggers : list bool)
  : list (Thread (World Bridge) Mutex) :=
  threads_of bridge_handlers locked_handlers css ++ [fresh_thread (rosgraphPollThread_p triggers)].

(** ** The locked handlers are the handlers *)

Lemma ros2_message_runs message hdl :
  runs (clientMessageHandler_p message hdl) (on_env (clientMessageHandler message hdl)).
Proof.
  intros [s n b o]. unfold clientMessageHandler, bind, gets, lift, ret, on_env at 1. cbn.
  destruct (_clientAdvertisedTopics b !! hdl) as [pubs|]; [|done].
  destruct (pubs !! _) as [publisher|]; [|done]. cbn. unfold lift.
  destruct (serialized_message message) as [e|d]; [done|]. cbn. unfold on_env. cbn.
  by destruct (on_ros (ros_publish publisher d) b).
Qed.

Lemma ros2_message_node message hdl : node_program (clientMessageHandler_p message hdl).
Proof.
  unfold clientMessageHandler_p. apply node_bind; [apply node_locked_act; simpl; lia|].
  intros [publisher|]; [|done]. apply node_bind; [by apply node_act|].
  intros d. apply node_act, on_env_untouched.
Qed.

#[export] Instance ros2_locked_ok : LockedHandlersOk bridge_handlers locked_handlers.
Proof.
  split; try (intros f ? ? [= <-]); intros; simpl;
    first [by apply runs_with_lock, runs_act | apply ros2_message_runs | apply node_locked_act; simpl; lia
      | apply ros2_message_node].
Qed.

(** ** The update on its own *)

Lemma runs_remove_topic t : runs (remove_topic_p t) (remove_topic t).
Proof.
  apply runs_bind; [apply runs_act|]. intros advertised. destruct (advertised !! t); [|done].
  apply runs_bind; [apply runs_removeChannel|]. intros _.
  apply runs_bind; [apply runs_act|]. intros _. apply runs_act.
Qed.

Lemma runs_add_topic t : runs (add_topic_p t) (add_topic t).
Proof.
  apply runs_bind; [apply runs_act|]. intros [new|]; [|done].
  apply runs_bind; [apply runs_addChannel|]. intros id. apply runs_act.
Qed.

Lemma ros2_runs_update : runs updateAdvertisedTopics_p updateAdvertisedTopics.
Proof.
  apply runs_bind; [apply runs_act|]. intros ok. destruct (negb ok); [done|].
  do 4 (apply runs_bind; [apply runs_act|]; intros ?).
  apply runs_bind_assoc; [|intros _; apply runs_when, runs_broadcastChannels].
  apply runs_with_lock, runs_bind; [|intros _]; apply runs_for_each; intros t.
  - apply runs_remove_topic.
  - apply runs_add_topic.
Qed.

Lemma ros2_runs_poll triggers : runs (rosgraphPollThread_p triggers) (rosgraphPollThread triggers).
Proof.
  apply runs_bind; [apply ros2_runs_update|]. intros _.
  induction triggers as [|b l IH]; [done|]. apply runs_bind; [apply runs_act|].
  intros ok. destruct (negb ok); [done|].
  apply runs_bind; [apply runs_when, ros2_runs_update|]. by intros _.
Qed.

(** ** The update keeps what the server's mutex protects *)

Context `{!NlohmannLaws, !WebsocketppLaws, !NlohmannUtf8}.

Abbreviation Guarded := (guarded ClientsChannelMutex shared_inv same_shared None).

Lemma ros2_guarded_update : Guarded updateAdvertisedTopics_p.
Proof.
  apply guarded_bind; [apply guarded_env|]. intros ok. destruct (negb ok); [done|].
  apply guarded_bind; [apply guarded_env|]. intros b.
  do 2 (apply guarded_bind; [by apply guarded_act|]; intros ?).
  apply guarded_bind; [apply guarded_env|]. intros advertised.
  apply guarded_bind; [apply guarded_with_lock; [done|]|intros _; apply guarded_when, guarded_broadcastChannels].
  apply guarded_bind; [|intros _]; apply guarded_for_each; intros t;
    (apply guarded_bind; [apply guarded_env|]).
  - intros adv. destruct (adv !! t); [|by apply guarded_act].
    apply guarded_bind; [apply guarded_removeChannel|]. intros _.
    apply guarded_bind; [apply guarded_env|]. intros _. apply guarded_env.
  - intros [new|]; [|done]. apply guarded_bind; [apply guarded_addChannel|].
    intros id. apply guarded_env.
Qed.

Lemma ros2_guarded_poll triggers : Guarded (rosgraphPollThread_p triggers).
Proof.
  apply guarded_bind; [apply ros2_guarded_update|]. intros _.
  induction triggers as [|b l IH]; [done|]. apply guarded_bind; [apply guarded_env|].
  intros ok. destruct (negb ok); [done|].
  apply guarded_bind; [apply guarded_when, ros2_guarded_update|]. by intros _.
Qed.

Lemma ros2_protected css triggers w :
  shared_inv w →
  protected ClientsChannelMutex shared_inv same_shared (mkConfig (ros2_threads css triggers) w).
Proof.
  intros HI. unfold ros2_threads, threads_of.
  rewrite <-(fmap_app fresh_thread _ [rosgraphPollThread_p triggers]).
  apply protected_start; [|done]. apply Forall_app. split.
  - apply Forall_fmap, Forall_forall. intros cs _. apply guarded_calls; apply _.
  - apply Forall_singleton, ros2_guarded_poll.
Qed.

(** ** The update takes the mutexes in the other order *)

Lemma waits_update busy Q X t ch w :
  ros_ok (ros (env w)) = true → latest w = inr X → _advertisedTopics (env w) !! t = Some ch → t ∉ X →
  SubscriptionsMutex ∉ busy → Q [(SubscriptionsMutex, Exclusive)] w →
  waits ClientsChannelMutex busy Q [] updateAdvertisedTopics_p w.
Proof.
  intros Hok HX Ht Hl Hbusy HQ.
  assert (∀ A (f : Bridge → A), on_env (gets f) w = (w, inr (f (env w)))) as Hgets.
  { intros A f. unfold on_env, gets. by rewrite world_eta. }
  eapply waits_act; [apply Hgets|]. rewrite Hok.
  eapply waits_act; [apply Hgets|].
  unfold latest in HX. destruct (ros_topic_names_and_types _) as [e|names] eqn:Hnames; [done|].
  eapply waits_act; [done|].
  eapply waits_act; [unfold lift, id; by rewrite HX|].
  eapply waits_act; [apply Hgets|].
  destruct (removed_first _ _ t ch Ht Hl) as (t0 & ch0 & l & Hr & Ht0).
  apply waits_bind, waits_with_lock; [done|done|apply not_elem_of_nil|]. cbv beta zeta.
  unfold removed_topics. rewrite Hr. apply waits_bind, waits_for_each.
  eapply waits_act; [apply Hgets|]. rewrite Ht0. apply waits_bind, waits_stop, HQ.
Qed.

Lemma ros2_deadlock ts hdl text triggers X t ch w :
  grants_subscription w hdl text →
  ros_ok (ros (env w)) = true → latest w = inr X → _advertisedTopics (env w) !! t = Some ch → t ∉ X →
  ∃ c, rtc pool_step
         (mkConfig (ros2_threads [[CallPending (PMessage ts hdl (TextFrame text))]] triggers) w) c ∧
       deadlocked c.
Proof.
  intros Hreq Hok HX Ht Hl. apply (deadlock_of ClientsChannelMutex SubscriptionsMutex).
  apply waits_subscribe; [by eexists|by eexists|done|apply not_elem_of_nil|].
  intros w' Hw'. split_and!; [apply list_elem_of_here|by intros ?%list_elem_of_singleton|].
  apply waits_bind. eapply (waits_update _ _ X t ch); rewrite ?Hw'; [done| |done|done| |].
  - unfold latest. by rewrite Hw'.
  - by intros ?%list_elem_of_singleton.
  - apply list_elem_of_here.
Qed.
End threads.
