(* ===== verification/Ros1Bridge.v ===== *)
(** * The ROS 1 nodelet: [FoxgloveBridge] of [ros1_foxglove_bridge_nodelet.cpp]

    The nodelet's state, the handlers it registers with the server, and the
    timer callback that updates the advertised topics.  Log lines are left
    out. *)

From Stdlib Require Import Strings.Byte.
From S2P Require Import Prelude Serialization Common Logging Interfaces Server.

Local Open Scope Z_scope.
Local Open Scope string_scope.
Local Open Scope list_scope.

(** @src ros1_foxglove_bridge/src/ros1_foxglove_bridge_nodelet.cpp:26-26 DEFAULT_MAX_UPDATE_MS *)
Definition DEFAULT_MAX_UPDATE_MS : Z := 5000.
(** @src ros1_foxglove_bridge/src/ros1_foxglove_bridge_nodelet.cpp:27-27 ROS1_CHANNEL_ENCODING *)
Definition ROS1_CHANNEL_ENCODING : string := "ros1".
(** @src ros1_foxglove_bridge/src/ros1_foxglove_bridge_nodelet.cpp:28-28 SUBSCRIPTION_QUEUE_LENGTH *)
Definition SUBSCRIPTION_QUEUE_LENGTH : Z := 10.
(** @src ros1_foxglove_bridge/src/ros1_foxglove_bridge_nodelet.cpp:29-29 MIN_UPDATE_PERIOD_MS *)
Definition MIN_UPDATE_PERIOD_MS : Z := 100.
(** @src ros1_foxglove_bridge/src/ros1_foxglove_bridge_nodelet.cpp:30-30 PUBLICATION_QUEUE_LENGTH *)
Definition PUBLICATION_QUEUE_LENGTH : Z := 10.

Abbreviation TopicAndDatatype := (string * string)%type (only parsing).

(** The hash of the pairs in the sets and maps of topics.
    @src ros1_foxglove_bridge/src/ros1_foxglove_bridge_nodelet.cpp:119-124 PairHash *)
Definition PairHash {T1 T2} `{StdHash T1, StdHash T2} (pair : T1 * T2) : Z :=
  Z.lxor (std_hash pair.1) (std_hash pair.2).

Lemma ros1_PairHash_range {T1 T2} `{StdHash T1, StdHash T2} (pair : T1 * T2) :
  is_u64 (PairHash pair).
Proof. apply lxor_u64; apply std_hash_range. Qed.

(** ** roscpp and ros_babel_fish *)

(** A subscriber: its topic, and the arguments bound to its callback. *)
Record Subscriber := mkSubscriber {
  sub_topic : string;
  sub_queue_size : Z;
  sub_channel : Channel;
  sub_client : ConnHandle;
}.

Record MessageDescription := mkMessageDescription {
  md5 : string;
  message_definition : string;
}.

(** [ros::AdvertiseOptions]; a publisher is known by them. *)
Record AdvertiseOptions := mkAdvertiseOptions {
  ao_topic : string;
  ao_datatype : string;
  ao_md5sum : string;
  ao_message_definition : string;
  ao_queue_size : Z;
  ao_has_header : bool;
  ao_latch : bool;
}.

#[export] Instance Subscriber_eq_dec : EqDecision Subscriber.
Proof. solve_decision. Defined.
#[export] Instance AdvertiseOptions_eq_dec : EqDecision AdvertiseOptions.
Proof. solve_decision. Defined.

(** [ros1_advertise] says whether the publisher it returns is valid. *)
Class Roscpp := {
  Ros : Type;
  ros_ok : Ros → bool;
  ros_getTopics : Ros → option (list (string * string));
  ros_subscribe : Subscriber → Ros → Ros * result unit;
  ros_getMessageDescription : string → Ros → Ros * result (option MessageDescription);
  ros_advertise : AdvertiseOptions → Ros → Ros * result bool;
  ros_read : ClientMessage → result (list byte);
  ros_publish : AdvertiseOptions → list byte → Ros → Ros * result unit;
  (** [createTimer(ros::Duration(ms / 1e3), ...)] *)
  ros_createTimer : Z → Ros → Ros * result unit;
}.

(** What these calls throw is a [std::exception]; a [ros::Duration] throws when it
    is out of the range of 32-bit seconds. *)
Class RoscppLaws `{Roscpp} : Prop := {
  ros_throws_std :
    (∀ s r r' e, ros_subscribe s r = (r', inl e) → catchable e = true) ∧
    (∀ t r r' e, ros_getMessageDescription t r = (r', inl e) → catchable e = true) ∧
    (∀ o r r' e, ros_advertise o r = (r', inl e) → catchable e = true) ∧
    (∀ m e, ros_read m = inl e → catchable e = true) ∧
    (∀ o d r r' e, ros_publish o d r = (r', inl e) → catchable e = true) ∧
    (∀ ms r r' e, ros_createTimer ms r = (r', inl e) → catchable e = true);
  ros_timer_in_range ms r :
    0 ≤ ms < 2 ^ 31 * 1000 → (ros_createTimer ms r).2 = inr tt;
}.

(** ** State *)

(** [_updateTimer] is the period of the pending timer in milliseconds, if there
    is one.
    @src ros1_foxglove_bridge/src/ros1_foxglove_bridge_nodelet.cpp:483-496 FoxgloveBridge *)
Record Bridge `{Roscpp} := mkBridge {
  _topicWhitelistPatterns : list (string → result bool);
  _advertisedTopics : gmap TopicAndDatatype Channel;
  _channelToTopicAndDatatype : gmap ChannelId TopicAndDatatype;
  _subscriptions : gmap ChannelId (gmap ConnHandle Subscriber);
  _clientAdvertisedTopics : gmap ConnHandle (gmap ClientChannelId AdvertiseOptions);
  _updateTimer : option Z;
  _maxUpdateMs : Z;
  _updateCount : Z;
  ros : Ros;
}.
Arguments mkBridge {_}.

Section bridge.
Context `{Platform, Iteration, LogChannels, Nlohmann, Websocketpp, Roscpp}.

Definition set_topics (adv : gmap TopicAndDatatype Channel)
    (chans : gmap ChannelId TopicAndDatatype) (b : Bridge) : Bridge :=
  mkBridge (_topicWhitelistPatterns b) adv chans (_subscriptions b) (_clientAdvertisedTopics b)
    (_updateTimer b) (_maxUpdateMs b) (_updateCount b) (ros b).
Definition set_subs (subs : gmap ChannelId (gmap ConnHandle Subscriber)) (b : Bridge) : Bridge :=
  mkBridge (_topicWhitelistPatterns b) (_advertisedTopics b) (_channelToTopicAndDatatype b) subs
    (_clientAdvertisedTopics b) (_updateTimer b) (_maxUpdateMs b) (_updateCount b) (ros b).
Definition set_pubs (pubs : gmap ConnHandle (gmap ClientChannelId AdvertiseOptions))
    (b : Bridge) : Bridge :=
  mkBridge (_topicWhitelistPatterns b) (_advertisedTopics b) (_channelToTopicAndDatatype b)
    (_subscriptions b) pubs (_updateTimer b) (_maxUpdateMs b) (_updateCount b) (ros b).
Definition set_timer (timer : option Z) (count : Z) (b : Bridge) : Bridge :=
  mkBridge (_topicWhitelistPatterns b) (_advertisedTopics b) (_channelToTopicAndDatatype b)
    (_subscriptions b) (_clientAdvertisedTopics b) timer (_maxUpdateMs b) count (ros b).
Definition set_ros (r : Ros) (b : Bridge) : Bridge :=
  mkBridge (_topicWhitelistPatterns b) (_advertisedTopics b) (_channelToTopicAndDatatype b)
    (_subscriptions b) (_clientAdvertisedTopics b) (_updateTimer b) (_maxUpdateMs b)
    (_updateCount b) r.

Definition on_ros {A} (f : Ros → Ros * result A) : M Bridge A := λ b,
  let (r, res) := f (ros b) in (set_ros r b, res).

(** ** Subscriptions *)

(** @src ros1_foxglove_bridge/src/ros1_foxglove_bridge_nodelet.cpp:126-174 FoxgloveBridge::subscribeHandler *)
Definition subscribeHandler (channelId : ChannelId) (clientHandle : ConnHandle)
  : M Bridge unit :=
  let! chans := gets _channelToTopicAndDatatype in
  match chans !! channelId with
  | None => ret tt
  | Some topicAndDatatype =>
      let topic := topicAndDatatype.1 in
      let! advertised := gets _advertisedTopics in
      match advertised !! topicAndDatatype with
      | None => ret tt
      | Some channel =>
          let! subs := gets _subscriptions in
          let '(subs', firstSubscription) := emplace channelId ∅ subs in
          modify (set_subs subs') ;;;
          let subscriptionsByClient := default ∅ (subs' !! channelId) in
          if negb firstSubscription &&
             bool_decide (is_Some (subscriptionsByClient !! clientHandle)) then ret tt else
          let subscriber := mkSubscriber topic SUBSCRIPTION_QUEUE_LENGTH channel clientHandle in
          try_catch
            (on_ros (ros_subscribe subscriber) ;;;
             modify (λ b, set_subs (alter (λ m, (emplace clientHandle subscriber m).1)
                                      channelId (_subscriptions b)) b))
            (λ ex, ret tt)
      end
  end.

(** @src ros1_foxglove_bridge/src/ros1_foxglove_bridge_nodelet.cpp:176-216 FoxgloveBridge::unsubscribeHandler *)
Definition unsubscribeHandler (channelId : ChannelId) (clientHandle : ConnHandle)
  : M Bridge unit :=
  let! subs := gets _subscriptions in
  match subs !! channelId with
  | None => ret tt
  | Some subscriptionsByClient =>
      match subscriptionsByClient !! clientHandle with
      | None => ret tt
      | Some _ =>
          let subscriptionsByClient := delete clientHandle subscriptionsByClient in
          if bool_decide (subscriptionsByClient = ∅)
          then modify (set_subs (delete channelId subs))
          else modify (set_subs (<[ channelId := subscriptionsByClient ]> subs))
      end
  end.

(** ** Client publications *)

(** @src ros1_foxglove_bridge/src/ros1_foxglove_bridge_nodelet.cpp:248-255 FoxgloveBridge::clientAdvertiseHandler *)
Definition advertiseOptions (channel : ClientAdvertisement) (msgDescription : MessageDescription)
  : AdvertiseOptions :=
  mkAdvertiseOptions (adv_topic channel) (adv_schemaName channel) (md5 msgDescription)
    (message_definition msgDescription) PUBLICATION_QUEUE_LENGTH false false.

(** @src ros1_foxglove_bridge/src/ros1_foxglove_bridge_nodelet.cpp:218-267 FoxgloveBridge::clientAdvertiseHandler *)
Definition clientAdvertiseHandler (channel : ClientAdvertisement) (clientHandle : ConnHandle)
  : M Bridge unit :=
  if negb (String.eqb (adv_encoding channel) ROS1_CHANNEL_ENCODING) then ret tt else
  let! pubs := gets _clientAdvertisedTopics in
  let '(pubs', isFirstPublication) := emplace clientHandle ∅ pubs in
  modify (set_pubs pubs') ;;;
  let clientPublications := default ∅ (pubs' !! clientHandle) in
  if negb isFirstPublication &&
     bool_decide (is_Some (clientPublications !! adv_channelId channel)) then ret tt else
  let! msgDescription := on_ros (ros_getMessageDescription (adv_schemaName channel)) in
  match msgDescription with
  | None => ret tt
  | Some msgDescription =>
      let options := advertiseOptions channel msgDescription in
      let! publisher := on_ros (ros_advertise options) in
      when publisher
        (modify (λ b, set_pubs (alter (λ m, (emplace (adv_channelId channel) options m).1)
                                  clientHandle (_clientAdvertisedTopics b)) b))
  end.

(** @src ros1_foxglove_bridge/src/ros1_foxglove_bridge_nodelet.cpp:269-302 FoxgloveBridge::clientUnadvertiseHandler *)
Definition clientUnadvertiseHandler (channelId : ClientChannelId) (clientHandle : ConnHandle)
  : M Bridge unit :=
  let! pubs := gets _clientAdvertisedTopics in
  match pubs !! clientHandle with
  | None => ret tt
  | Some clientPublications =>
      match clientPublications !! channelId with
      | None => ret tt
      | Some _ =>
          let clientPublications := delete channelId clientPublications in
          if bool_decide (clientPublications = ∅)
          then modify (set_pubs (delete clientHandle pubs))
          else modify (set_pubs (<[ clientHandle := clientPublications ]> pubs))
      end
  end.

(** @src ros1_foxglove_bridge/src/ros1_foxglove_bridge_nodelet.cpp:304-332 FoxgloveBridge::clientMessageHandler *)
Definition clientMessageHandler (clientMsg : ClientMessage) (clientHandle : ConnHandle)
  : M Bridge unit :=
  let! msg := lift (ros_read clientMsg) in
  let! pubs := gets _clientAdvertisedTopics in
  match pubs !! clientHandle with
  | None => ret tt
  | Some clientPublications =>
      match clientPublications !! adv_channelId (msg_advertisement clientMsg) with
      | None => ret tt
      | Some publisher => on_ros (ros_publish publisher msg)
      end
  end.

(** @src ros1_foxglove_bridge/src/ros1_foxglove_bridge_nodelet.cpp:85-95 FoxgloveBridge::onInit *)
Definition bridge_handlers : Handlers Bridge :=
  mkHandlers (Some subscribeHandler) (Some unsubscribeHandler) (Some clientAdvertiseHandler)
    (Some clientUnadvertiseHandler) (Some clientMessageHandler).

(** @src ros1_foxglove_bridge/src/ros1_foxglove_bridge_nodelet.cpp:67-72 FoxgloveBridge::onInit *)
Definition serverCapabilities (useSimTime : bool) : list string :=
  CAPABILITY_CLIENT_PUBLISH :: (if useSimTime then [CAPABILITY_TIME] else []).

(** ** Messages *)

(** @src ros1_foxglove_bridge/src/ros1_foxglove_bridge_nodelet.cpp:473-481 FoxgloveBridge::rosMessageHandler *)
Definition rosMessageHandler (channel : Channel) (clientHandle : ConnHandle)
    (receiptTimeNs : Z) (payload : list byte) : M (World Bridge) unit :=
  sendMessage clientHandle (chan_id channel) receiptTimeNs payload.

(** @src ros1_foxglove_bridge/src/ros1_foxglove_bridge_nodelet.cpp:102-104 FoxgloveBridge::onInit *)
Definition clockHandler (timestamp : Z) : M (World Bridge) unit := broadcastTime timestamp.

(** ** The advertised topics *)

(** @src ros1_foxglove_bridge/src/ros1_foxglove_bridge_nodelet.cpp:347-360 FoxgloveBridge::updateAdvertisedTopics *)
Fixpoint latest_topics (patterns : list (string → result bool))
    (topicNamesAndTypes : list (string * string)) : result (gset TopicAndDatatype) :=
  match topicNamesAndTypes with
  | [] => inr ∅
  | topicNameAndType :: topicNamesAndTypes =>
      match any_of (λ regex, regex topicNameAndType.1) patterns with
      | inl e => inl e
      | inr matched =>
          match latest_topics patterns topicNamesAndTypes with
          | inl e => inl e
          | inr latestTopics =>
              inr (if matched then {[ topicNameAndType ]} ∪ latestTopics else latestTopics)
          end
      end
  end.

(** @src ros1_foxglove_bridge/src/ros1_foxglove_bridge_nodelet.cpp:369-374 FoxgloveBridge::updateAdvertisedTopics *)
Definition new_topics (latestTopics : gset TopicAndDatatype)
    (advertised : gmap TopicAndDatatype Channel) : list TopicAndDatatype :=
  filter (λ topic, advertised !! topic = None) (iter_set latestTopics).

(** @src ros1_foxglove_bridge/src/ros1_foxglove_bridge_nodelet.cpp:377-383 FoxgloveBridge::updateAdvertisedTopics *)
Definition removed_topics (latestTopics : gset TopicAndDatatype)
    (advertised : gmap TopicAndDatatype Channel) : list TopicAndDatatype :=
  filter (λ topic, topic ∉ latestTopics) (iter_map advertised).*1.

(** The log line that ends the body reads the channel's id after the channel
    was erased; the value only goes to the log.
    @src ros1_foxglove_bridge/src/ros1_foxglove_bridge_nodelet.cpp:388-403 FoxgloveBridge::updateAdvertisedTopics *)
Definition remove_topic (topicAndDatatype : TopicAndDatatype) : M (World Bridge) unit :=
  let! advertised := on_env (gets _advertisedTopics) in
  match advertised !! topicAndDatatype with
  | None => throw (StdException "unordered_map::at")
  | Some channel =>
      removeChannel (chan_id channel) ;;;
      on_env (modify (λ b, set_subs (delete (chan_id channel) (_subscriptions b)) b)) ;;;
      on_env (modify (λ b, set_topics (delete topicAndDatatype (_advertisedTopics b))
                             (delete (chan_id channel) (_channelToTopicAndDatatype b)) b))
  end.

(** The channel to add for a topic; [None] when the loop goes on without it.
    @src ros1_foxglove_bridge/src/ros1_foxglove_bridge_nodelet.cpp:407-427 FoxgloveBridge::updateAdvertisedTopics *)
Definition new_channel (topicAndDatatype : TopicAndDatatype)
  : M Bridge (option ChannelWithoutId) :=
  try_catch
    (let! msgDescription := on_ros (ros_getMessageDescription topicAndDatatype.2) in
     let schema :=
       match msgDescription with Some d => message_definition d | None => "" end in
     ret (Some (mkChannelWithoutId topicAndDatatype.1 ROS1_CHANNEL_ENCODING
                  topicAndDatatype.2 schema)))
    (λ err, ret None).

(** @src ros1_foxglove_bridge/src/ros1_foxglove_bridge_nodelet.cpp:406-437 FoxgloveBridge::updateAdvertisedTopics *)
Definition add_topic (topicAndDatatype : TopicAndDatatype) : M (World Bridge) unit :=
  let! newChannel := on_env (new_channel topicAndDatatype) in
  match newChannel with
  | None => ret tt
  | Some newChannel =>
      let! id := addChannel newChannel in
      let channel := mkChannel id newChannel in
      on_env (modify (λ b,
        set_topics (emplace topicAndDatatype channel (_advertisedTopics b)).1
          (emplace id topicAndDatatype (_channelToTopicAndDatatype b)).1 b))
  end.

(** [static_cast<double>] of a [size_t]: the nearest number with 53 significant
    bits, the even one of two. *)
Definition double_of_size_t (z : Z) : Z :=
  let e := Z.log2 z - 52 in
  if (e <=? 0)%Z then z else
  let q := Z.shiftr z e in
  let rest := z - Z.shiftl q e in
  let half := Z.shiftl 1 (e - 1) in
  let up := (half <? rest)%Z || ((rest =? half)%Z && Z.odd q) in
  Z.shiftl (if up then q + 1 else q)%Z e.

(** The next period; shifting a [size_t] by 64 or more is undefined.
    @src ros1_foxglove_bridge/src/ros1_foxglove_bridge_nodelet.cpp:447-448 FoxgloveBridge::updateAdvertisedTopics *)
Definition next_update_ms (updateCount maxUpdateMs : Z) : result Z :=
  if (updateCount <? 64)%Z
  then inr (Z.max MIN_UPDATE_PERIOD_MS
              (double_of_size_t (Z.min (Z.shiftl 1 updateCount) maxUpdateMs)))
  else inl (Undefined "shift count").

(** @src ros1_foxglove_bridge/src/ros1_foxglove_bridge_nodelet.cpp:444-450 FoxgloveBridge::updateAdvertisedTopics *)
Definition schedule_update : M Bridge unit :=
  modify (λ b, set_timer (_updateTimer b) (u64 (_updateCount b + 1)) b) ;;;
  let! count := gets _updateCount in
  let! maxMs := gets _maxUpdateMs in
  let! nextUpdateMs := lift (next_update_ms count maxMs) in
  on_ros (ros_createTimer nextUpdateMs) ;;;
  modify (λ b, set_timer (Some nextUpdateMs) (_updateCount b) b).

(** @src ros1_foxglove_bridge/src/ros1_foxglove_bridge_nodelet.cpp:334-451 FoxgloveBridge::updateAdvertisedTopics *)
Definition updateAdvertisedTopics : M (World Bridge) unit :=
  on_env (modify (λ b, set_timer None (_updateCount b) b)) ;;;
  let! ok := on_env (gets (λ b, ros_ok (ros b))) in
  if negb ok then ret tt else
  let! topicNamesAndTypes := on_env (gets (λ b, ros_getTopics (ros b))) in
  match topicNamesAndTypes with
  | None => ret tt
  | Some topicNamesAndTypes =>
      let! patterns := on_env (gets _topicWhitelistPatterns) in
      let! latestTopics := lift (latest_topics patterns topicNamesAndTypes) in
      let! advertised := on_env (gets _advertisedTopics) in
      let newTopics := new_topics latestTopics advertised in
      for_each (removed_topics latestTopics advertised) remove_topic ;;;
      for_each newTopics add_topic ;;;
      when (negb (bool_decide (newTopics = []))) broadcastChannels ;;;
      on_env schedule_update
  end.
End bridge.
