(* ===== verification/Ros1Setup.v ===== *)
(** * The construction of the ROS 1 nodelet

    [onInit] of [FoxgloveBridge] in [ros1_foxglove_bridge_nodelet.cpp]: its
    parameters, the whitelist, the server it makes, registers its handlers with
    and starts; its destructor; and the process around it. *)

From Stdlib Require Import Strings.Byte.
From S2P Require Import Prelude Serialization Common Logging Interfaces Server ServerFacts.
From S2P Require Import Reachable Setup Ros1Bridge.

Local Open Scope Z_scope.
Local Open Scope string_scope.
Local Open Scope list_scope.

(** ** What else [onInit] needs of roscpp *)

(** [param<T>(name, default)]: the default if the parameter is not set or has
    another type. *)
Class RosParams := {
  Params : Type;
  param_string : Params → string → string → string;
  param_int : Params → string → Z → Z;
  param_bool : Params → string → bool → bool;
  param_strings : Params → string → list string → list string;
}.

Class Ros1SetupLibrary `{Roscpp} := {
  ros_subscribe_clock : Ros → Ros * result unit;
  (** [what()] of an exception of class [std::exception] itself. *)
  std_exception_what : string;
}.

(** ** [onInit] *)

(** @src ros1_foxglove_bridge/src/ros1_foxglove_bridge_nodelet.cpp:24-24 DEFAULT_PORT *)
Definition DEFAULT_PORT : Z := 8765.
(** @src ros1_foxglove_bridge/src/ros1_foxglove_bridge_nodelet.cpp:25-25 DEFAULT_ADDRESS *)
Definition DEFAULT_ADDRESS : string := "0.0.0.0".
(** @src ros1_foxglove_bridge/src/ros1_foxglove_bridge_nodelet.cpp:26-26 DEFAULT_MAX_UPDATE_MS *)
Definition DEFAULT_MAX_UPDATE_MS : Z := 5000.

Section setup.
Context `{Platform, Iteration, LogChannels, Nlohmann, Websocketpp, !Asio, StdRegex}.
Context `{Roscpp, !Ros1SetupLibrary, RosParams}.

Abbreviation Nodelet := (Owner Params Bridge).

Definition set_maxUpdateMs (maxUpdateMs : Z) (b : Bridge) : Bridge :=
  mkBridge (_topicWhitelistPatterns b) (_advertisedTopics b) (_channelToTopicAndDatatype b)
    (_subscriptions b) (_clientAdvertisedTopics b) (_updateTimer b) maxUpdateMs
    (_updateCount b) (ros b).
Definition set_patterns (patterns : list (string → result bool)) (b : Bridge) : Bridge :=
  mkBridge patterns (_advertisedTopics b) (_channelToTopicAndDatatype b)
    (_subscriptions b) (_clientAdvertisedTopics b) (_updateTimer b) (_maxUpdateMs b)
    (_updateCount b) (ros b).

(** Patterns that do not compile are left out.
    @src ros1_foxglove_bridge/src/ros1_foxglove_bridge_nodelet.cpp:53-61 FoxgloveBridge::onInit *)
Definition compile_patterns (regexPatterns : list string) : M Bridge unit :=
  for_each regexPatterns (λ pattern, try_catch
    (let! regex := lift (std_regex pattern) in
     modify (λ b, set_patterns (_topicWhitelistPatterns b ++ [regex]) b))
    (λ ex, ret tt)).

(** @src ros1_foxglove_bridge/src/ros1_foxglove_bridge_nodelet.cpp:84-95 FoxgloveBridge::onInit *)
Definition register_handlers : M Nodelet unit :=
  si_setSubscribeHandler (E:=Bridge) subscribeHandler ;;;
  si_setUnsubscribeHandler (E:=Bridge) unsubscribeHandler ;;;
  si_setClientAdvertiseHandler (E:=Bridge) clientAdvertiseHandler ;;;
  si_setClientUnadvertiseHandler (E:=Bridge) clientUnadvertiseHandler ;;;
  si_setClientMessageHandler (E:=Bridge) clientMessageHandler.

(** The body of the [try]; [logs] are the endpoint's logs as websocketpp constructs them.
    @src ros1_foxglove_bridge/src/ros1_foxglove_bridge_nodelet.cpp:66-105 FoxgloveBridge::onInit *)
Definition start_server (logs : Logs) (address : string) (port send_buffer_limit : Z)
    (useTLS : bool) (certfile keyfile : string) (useSimTime : bool) : M Nodelet unit :=
  make_server (Server_new "foxglove_bridge" owner_callback (serverCapabilities useSimTime) send_buffer_limit
    (if useTLS then Some (certfile, keyfile) else None) logs) ;;;
  register_handlers ;;;
  si_start (E:=Bridge) address (u16 port) ;;;
  through (λ _, updateAdvertisedTopics) ;;;
  when useSimTime
    (on_bridge (on_ros ros_subscribe_clock) ;;;
     modify (set_clock true)).

(** [throw err] throws a copy of the static type of [err]: the message is lost.
    [_useSimTime] is read nowhere else.
    @src ros1_foxglove_bridge/src/ros1_foxglove_bridge_nodelet.cpp:40-111 FoxgloveBridge::onInit *)
Definition onInit (logs : Logs) : M Nodelet unit :=
  let! nhp := gets ow_params in
  let address := param_string nhp "address" DEFAULT_ADDRESS in
  let port := param_int nhp "port" DEFAULT_PORT in
  let send_buffer_limit := u64 (param_int nhp "send_buffer_limit" DEFAULT_SEND_BUFFER_LIMIT_BYTES) in
  let useTLS := param_bool nhp "tls" false in
  let certfile := param_string nhp "certfile" "" in
  let keyfile := param_string nhp "keyfile" "" in
  on_bridge (modify (set_maxUpdateMs (u64 (param_int nhp "max_update_ms" DEFAULT_MAX_UPDATE_MS)))) ;;;
  let useSimTime := param_bool nhp "/use_sim_time" false in
  on_bridge (compile_patterns (param_strings nhp "topic_whitelist" [".*"])) ;;;
  try_catch
    (start_server logs address port send_buffer_limit useTLS certfile keyfile useSimTime)
    (λ err, throw (StdException std_exception_what)).

(** @src ros1_foxglove_bridge/src/ros1_foxglove_bridge_nodelet.cpp:112-116 FoxgloveBridge::~FoxgloveBridge *)
Definition FoxgloveBridge_delete (next : World Bridge → option Pending) : M Nodelet unit :=
  noexcept
    (let! server := gets ow_server in
     match server with
     | Some _ => si_stop next
     | None => ret tt
     end).

(** ** The log and the process *)

Inductive Severity := ROS_DEBUG | ROS_INFO | ROS_WARN | ROS_ERROR | ROS_FATAL.

(** @src ros1_foxglove_bridge/src/ros1_foxglove_bridge_nodelet.cpp:453-471 FoxgloveBridge::logHandler *)
Definition logHandler (level : WebSocketLogLevel) (msg : string) : Severity * string :=
  (match level with
   | Debug => ROS_DEBUG
   | LogInfo => ROS_INFO
   | Warn => ROS_WARN
   | LogError => ROS_ERROR
   | Critical => ROS_FATAL
   end, "[WS] " +:+ msg).

(** [load] is what the nodelet loader makes of a name and a type: whether the
    nodelet has been loaded.
    @src ros1_foxglove_bridge/src/ros1_foxglove_bridge_node.cpp:4-16 main *)
Definition ros1_main (load : string → string → bool) (nodelet_name : string) : Z :=
  if load nodelet_name "foxglove_bridge/foxglove_bridge_nodelet" then 0 else 1.
End setup.
