(* ===== verification/Ros1Facts.v ===== *)
(** * The ROS 1 nodelet keeps its promises to the server

    The handlers obey [TopicBridgeOk]: they keep a ROS subscription or publisher
    only for the client and channel they are called for, and do away with it
    when told to. *)

From Stdlib Require Import Strings.Byte.
From S2P Require Import Prelude Serialization Common Logging Interfaces Server ServerFacts.
From S2P Require Import ServerInvariant ServerSpec Reachable System SystemSteps Ros1Bridge.

Local Open Scope Z_scope.
Local Open Scope list_scope.

Section facts.
Context `{Platform, Iteration, LogChannels, Nlohmann, Websocketpp, Roscpp}.
Implicit Types b : Bridge.

#[export] Instance ros1_bridge : TopicBridge Bridge := {|
  topics_of := _advertisedTopics;
  channels_of := _channelToTopicAndDatatype;
  subscribed b := nested (_subscriptions b);
  publishing b := nested (_clientAdvertisedTopics b);
|}.

Lemma ros1_subscribeHandler_gains ch hdl b :
  gains (just ch hdl) nobody b (subscribeHandler ch hdl b).1.
Proof.
  unfold subscribeHandler, bind at 1, gets at 1.
  destruct (_channelToTopicAndDatatype b !! ch) as [t|]; [|apply gains_refl].
  unfold bind at 1, gets at 1. destruct (_advertisedTopics b !! t) as [channel|]; [|apply gains_refl].
  unfold bind at 1, gets at 1. destruct (emplace ch ∅ (_subscriptions b)) as [subs' first] eqn:He.
  assert (subs' = (emplace ch ∅ (_subscriptions b)).1) as -> by (by rewrite He).
  set (b1 := set_subs (emplace ch ∅ (_subscriptions b)).1 b).
  assert (gains (just ch hdl) nobody b b1) as Hg1.
  { apply gains_intro; [done| |auto]. intros ch' hdl' Hs%nested_emplace_empty. by left. }
  unfold bind at 1, modify at 1. fold b1. case_match; [exact Hg1|].
  unfold bind, gets, try_catch, on_ros, modify. simpl.
  destruct (ros_subscribe _ (ros b)) as [r' [e|[]]]; simpl.
  { destruct (catchable e); simpl; exact Hg1. }
  apply gains_intro; [done| |auto].
  intros ch' hdl' [Hn%nested_emplace_empty|Hn]%nested_put; [by left|by right].
Qed.

Lemma ros1_unsubscribeHandler_ends ch hdl b :
  (unsubscribeHandler ch hdl b).2 = inr tt ∧
  gains nobody nobody b (unsubscribeHandler ch hdl b).1 ∧
  ¬ nested (_subscriptions (unsubscribeHandler ch hdl b).1) ch hdl.
Proof.
  unfold unsubscribeHandler, bind, gets.
  destruct (_subscriptions b !! ch) as [m|] eqn:Hm.
  2: { split_and!; [done|apply gains_refl|]. intros (i & Hi & _). simpl in Hi. congruence. }
  destruct (m !! hdl) as [s|] eqn:Hs.
  2: { split_and!; [done|apply gains_refl|]. by eapply nested_absent. }
  case_bool_decide as Hempty; (split_and!; [done|apply gains_intro; [done| |auto]|]).
  - intros ch' hdl' [Hn _]%nested_delete. by left.
  - by intros [_ ?]%nested_delete.
  - intros ch' hdl' Hn. left. by apply (nested_erase _ _ _ _ _ _ Hm) in Hn as [? _].
  - intros Hn. apply (nested_erase _ _ _ _ _ _ Hm) in Hn as [_ Hno]. by apply Hno.
Qed.

Lemma ros1_clientAdvertiseHandler_gains adv hdl b :
  gains nobody (just hdl (adv_channelId adv)) b (clientAdvertiseHandler adv hdl b).1.
Proof.
  unfold clientAdvertiseHandler.
  destruct (negb _); [apply gains_refl|]. unfold bind at 1, gets at 1.
  destruct (emplace hdl ∅ (_clientAdvertisedTopics b)) as [pubs' first] eqn:He.
  assert (pubs' = (emplace hdl ∅ (_clientAdvertisedTopics b)).1) as -> by (by rewrite He).
  set (b1 := set_pubs (emplace hdl ∅ (_clientAdvertisedTopics b)).1 b).
  assert (gains nobody (just hdl (adv_channelId adv)) b b1) as Hg1.
  { apply gains_intro; [done|auto|]. intros hdl' id' Hs%nested_emplace_empty. by left. }
  unfold bind at 1, modify at 1. fold b1. case_match; [exact Hg1|].
  unfold bind, on_ros, modify. simpl.
  destruct (ros_getMessageDescription _ (ros b)) as [r1 [e|[d|]]]; simpl; [exact Hg1| |exact Hg1].
  destruct (ros_advertise _ r1) as [r2 [e|[]]]; simpl; [exact Hg1| |exact Hg1].
  apply gains_intro; [done|auto|].
  intros hdl' id' [Hn%nested_emplace_empty|Hn]%nested_put; [by left|by right].
Qed.

Lemma ros1_clientUnadvertiseHandler_ends id hdl b :
  (clientUnadvertiseHandler id hdl b).2 = inr tt ∧
  gains nobody nobody b (clientUnadvertiseHandler id hdl b).1 ∧
  ¬ nested (_clientAdvertisedTopics (clientUnadvertiseHandler id hdl b).1) hdl id.
Proof.
  unfold clientUnadvertiseHandler, bind, gets.
  destruct (_clientAdvertisedTopics b !! hdl) as [m|] eqn:Hm.
  2: { split_and!; [done|apply gains_refl|]. intros (i & Hi & _). simpl in Hi. congruence. }
  destruct (m !! id) as [s|] eqn:Hs.
  2: { split_and!; [done|apply gains_refl|]. by eapply nested_absent. }
  case_bool_decide as Hempty; (split_and!; [done|apply gains_intro; [done|auto|]|]).
  - intros hdl' id' [Hn _]%nested_delete. by left.
  - by intros [_ ?]%nested_delete.
  - intros hdl' id' Hn. left. by apply (nested_erase _ _ _ _ _ _ Hm) in Hn as [? _].
  - intros Hn. apply (nested_erase _ _ _ _ _ _ Hm) in Hn as [_ Hno]. by apply Hno.
Qed.

Lemma ros1_clientMessageHandler_gains msg hdl b :
  gains nobody nobody b (clientMessageHandler msg hdl b).1.
Proof.
  unfold clientMessageHandler, bind, gets, lift, on_ros. repeat case_match; simplify_eq; simpl;
    try apply gains_refl; apply gains_intro; auto; done.
Qed.

#[export] Instance ros1_bridge_ok : TopicBridgeOk bridge_handlers.
Proof.
  split.
  - intros f ch hdl b [= <-]. apply ros1_subscribeHandler_gains.
  - by eexists.
  - intros f ch hdl b [= <-]. apply ros1_unsubscribeHandler_ends.
  - intros f adv hdl b [= <-]. apply ros1_clientAdvertiseHandler_gains.
  - by eexists.
  - intros f id hdl b [= <-]. apply ros1_clientUnadvertiseHandler_ends.
  - intros f msg hdl b [= <-]. apply ros1_clientMessageHandler_gains.
Qed.
End facts.
