(* ===== verification/Ros1Update.v ===== *)
(** * The update of the advertised topics, and the runs of the ROS 1 bridge

    The nodelet as a store of topics, its timer with its back-off, and its own
    steps. *)

From Stdlib Require Import Strings.Byte.
From S2P Require Import Prelude Serialization Common Logging Interfaces Server ServerFacts.
From S2P Require Import ServerInvariant ServerSpec Reachable System SystemSteps TopicUpdate.
From S2P Require Import Ros1Bridge Ros1Facts.

Local Open Scope Z_scope.
Local Open Scope list_scope.

Section update.
Context `{Platform, Iteration, LogChannels, Nlohmann, Websocketpp, Roscpp}.
Implicit Types (b : Bridge) (w : World Bridge).

(** ** The nodelet as a store of topics *)

Definition forget_topic (t : TopicAndDatatype) (ch : Channel) b : Bridge :=
  let b := set_subs (delete (chan_id ch) (_subscriptions b)) b in
  set_topics (delete t (_advertisedTopics b))
    (delete (chan_id ch) (_channelToTopicAndDatatype b)) b.

Definition register_topic (t : TopicAndDatatype) (ch : Channel) b : Bridge :=
  set_topics (emplace t ch (_advertisedTopics b)).1
    (emplace (chan_id ch) t (_channelToTopicAndDatatype b)).1 b.

(** Asking for a message description only reaches ROS. *)
Lemma ros1_new_channel_frame t b :
  (∃ r, (new_channel t b).1 = set_ros r b) ∧
  ∀ new, (new_channel t b).2 = inr (Some new) → (topic new, schemaName new) = t.
Proof.
  unfold new_channel, try_catch, bind, on_ros, ret. destruct t as [tp dt].
  destruct (ros_getMessageDescription dt (ros b)) as [r [e|d]] eqn:Hd; simpl; rewrite Hd; simpl.
  - destruct (catchable e); simpl; (split; [by eexists|done]).
  - split; [by eexists|]. by intros new [= <-].
Qed.

#[export] Program Instance ros1_store : TopicStore remove_topic add_topic := {|
  forget := forget_topic;
  register := register_topic;
  describe := new_channel;
|}.
Next Obligation.
  intros t ch w Hch. unfold remove_topic, bind, on_env, gets, modify. simpl in *. rewrite Hch.
  rewrite world_eta. by destruct (removeChannel (chan_id ch) w) as [w1 [e|[]]].
Qed.
Next Obligation. done. Qed.
Next Obligation. done. Qed.
Next Obligation. intros t ch b ch' hdl. apply nested_delete. Qed.
Next Obligation. done. Qed.
Next Obligation. intros t ch b Ht Hc. simpl in *. by rewrite !emplace_fresh. Qed.
Next Obligation. done. Qed.
Next Obligation. done. Qed.
Next Obligation.
  intros t b. destruct (ros1_new_channel_frame t b) as [[r ->] _].
  apply gains_intro; [done|by left|by left].
Qed.
Next Obligation. intros t b. apply ros1_new_channel_frame. Qed.

(** ** The update *)

(** The topics on the graph, if the master answers and they can be matched with the
    whitelist. *)
Definition latest w : result (option (gset TopicAndDatatype)) :=
  match ros_getTopics (ros (env w)) with
  | None => inr None
  | Some names =>
      match latest_topics (_topicWhitelistPatterns (env w)) names with
      | inl e => inl e
      | inr X => inr (Some X)
      end
  end.

(** There are ids left for every topic on the graph. *)
Definition ids_last w : Prop :=
  ∀ X, latest w = inr (Some X) → _nextChannelId (srv w) + Z.of_nat (size X) < 2 ^ 32.

Definition timer_stopped w : World Bridge :=
  mkWorld (srv w) (net w) (set_timer None (_updateCount (env w)) (env w)) (out w).

(** The update stops the timer; if the master answers it runs the two loops
    and starts the timer again. *)
Lemma ros1_updateAdvertisedTopics_loops w :
  updateAdvertisedTopics w =
  if ros_ok (ros (env w)) then
    match latest w with
    | inl e => (timer_stopped w, inl e)
    | inr None => (timer_stopped w, inr tt)
    | inr (Some X) =>
        (loops remove_topic add_topic (removed_topics X (topics w)) (new_topics X (topics w)) ;;;
         on_env schedule_update) (timer_stopped w)
    end
  else (timer_stopped w, inr tt).
Proof.
  unfold updateAdvertisedTopics, latest. destruct w as [s n b o].
  unfold bind at 1, on_env at 1, modify. cbn -[bind].
  unfold bind at 1, on_env at 1, gets at 1. cbn -[bind].
  destruct (ros_ok _); [|done]. cbn -[bind].
  unfold bind at 1, on_env at 1, gets at 1. cbn -[bind].
  destruct (ros_getTopics _) as [l|]; [|done]. cbn -[bind].
  unfold bind at 1, on_env at 1, gets at 1; cbn -[bind].
  unfold bind at 1, lift at 1. destruct (latest_topics _ l) as [e|X]; [done|]. cbn -[bind].
  unfold bind at 1, on_env at 1, gets at 1; cbn -[bind].
  unfold loops, bind, timer_stopped. simpl.
  destruct (for_each (removed_topics _ _) remove_topic _) as [w1 [e|[]]]; [done|].
  by destruct (for_each (new_topics _ _) add_topic w1) as [w2 [e|[]]].
Qed.

(** ** The back-off *)

(** The period of the timer after [n] updates. *)
Definition backoff (maxMs n : Z) : Z :=
  Z.max MIN_UPDATE_PERIOD_MS (double_of_size_t (Z.min (2 ^ n) maxMs)).

(** Small numbers are [double]s. *)
Lemma double_of_size_t_exact z : z < 2 ^ 53 → double_of_size_t z = z.
Proof.
  intros Hz. unfold double_of_size_t. destruct (Z.leb_spec (Z.log2 z - 52) 0) as [|Hlog]; [done|].
  destruct (Z.le_gt_cases z 0) as [Hle|Hpos]; [rewrite Z.log2_nonpos in Hlog; lia|].
  apply Z.log2_lt_pow2 in Hz; lia.
Qed.

Lemma next_update_backoff maxMs n :
  0 <= n → next_update_ms n maxMs =
    if n <? 64 then inr (backoff maxMs n) else inl (Undefined "shift count").
Proof.
  intros Hn. unfold next_update_ms, backoff. destruct (n <? 64); [|done].
  by rewrite Z.shiftl_mul_pow2, Z.mul_1_l.
Qed.

(** The period is between 100 ms and the limit. *)
Lemma backoff_range maxMs n :
  maxMs < 2 ^ 53 → MIN_UPDATE_PERIOD_MS <= backoff maxMs n <= Z.max MIN_UPDATE_PERIOD_MS maxMs.
Proof. intros Hmax. unfold backoff. rewrite double_of_size_t_exact; lia. Qed.

(** The timer is started unless the shift is undefined or the period refused. *)
Lemma schedule_update_run b :
  let n := u64 (_updateCount b + 1) in
  let period := backoff (_maxUpdateMs b) n in
  let created := ros_createTimer period (ros b) in
  schedule_update b =
  if n <? 64
  then match created.2 with
       | inl e => (set_ros created.1 (set_timer (_updateTimer b) n b), inl e)
       | inr _ => (set_timer (Some period) n (set_ros created.1 b), inr tt)
       end
  else (set_timer (_updateTimer b) n b, inl (Undefined "shift count")).
Proof.
  intros n period created. unfold schedule_update, bind, modify, gets, lift, on_ros. simpl.
  rewrite next_update_backoff by apply u64_range. fold n.
  destruct (n <? 64); [|done]. simpl. subst created period. destruct b. simpl.
  by destruct (ros_createTimer _ _) as [r [e|[]]].
Qed.

(** ** The nodelet's own steps *)

Context `{!NlohmannLaws, !WebsocketppLaws}.

Abbreviation sys := (sysm (B:=Bridge) (mirror:=True) nobody nobody).

Lemma sys_env w b : sys w → gains nobody nobody (env w) b → sys (mkWorld (srv w) (net w) b (out w)).
Proof. apply sys_shrinks. Qed.

Lemma schedule_update_gains b : gains nobody nobody b (schedule_update b).1.
Proof.
  rewrite schedule_update_run. cbv zeta. repeat case_match; apply gains_intro; by auto.
Qed.

Lemma sys_timer_stopped w : sys w → sys (timer_stopped w).
Proof. intros HI. apply sys_env; [done|]. apply gains_intro; by auto. Qed.

Lemma ros1_update_differences w X :
  latest w = inr (Some X) → ids_last w →
  Differences X (timer_stopped w) (removed_topics X (topics w)) (new_topics X (topics w)).
Proof.
  intros HX Hids. change (topics w) with (topics (timer_stopped w)).
  eapply differences. exact (Hids X HX).
Qed.

Lemma ros1_keeps_updateAdvertisedTopics w :
  sys w → ids_last w → sys (updateAdvertisedTopics w).1.
Proof.
  intros HI Hids. rewrite ros1_updateAdvertisedTopics_loops.
  pose proof (sys_timer_stopped w HI) as HI0.
  destruct (ros_ok _); [|done]. destruct (latest w) as [e|[X|]] eqn:HX; [done| |done].
  change (wp (loops remove_topic add_topic (removed_topics X (topics w)) (new_topics X (topics w)) ;;;
    on_env schedule_update) (λ _ w', sysx nobody nobody w') (timer_stopped w)).
  rewrite wp_bind. eapply wp_mono.
  { apply (keeps_loops remove_topic add_topic X); [exact HI0|by apply ros1_update_differences]. }
  intros [e|r] w1 HI1; [exact HI1|]. rewrite wp_on_env.
  exact (sys_env w1 _ HI1 (schedule_update_gains (env w1))).
Qed.

(** Whether ids last or not, nothing leaks. *)
Lemma ros1_leakless_updateAdvertisedTopics : preserves keeps_leakless updateAdvertisedTopics.
Proof.
  intros w HI. rewrite ros1_updateAdvertisedTopics_loops.
  assert (leakless (timer_stopped w)) as HI0.
  { eapply sys_shrinks; [exact HI|]. apply gains_intro; by auto. }
  destruct (ros_ok _); [|done]. destruct (latest w) as [e|[X|]]; [done| |done].
  destruct (removed_advertised X (timer_stopped w)) as [Hnd Hin].
  pose proof (loops_leakless remove_topic add_topic _ (new_topics X (topics w)) _ HI0 Hnd Hin) as HI1.
  change (removed_topics X (topics w)) with (removed_topics X (topics (timer_stopped w))).
  unfold bind. unfold removed_topics. unfold topics in HI1 at 1. revert HI1.
  destruct (loops _ _ _ _ _) as [w1 [e|[]]]; [done|]. intros HI1.
  pose proof (schedule_update_gains (env w1)) as Hg. unfold on_env.
  destruct (schedule_update (env w1)) as [b r]. by eapply sys_shrinks.
Qed.

(** The steps of the nodelet: the timer's callback in a world where it
    [may_update], a message of a subscription, a tick of the clock. *)
Inductive ros1_step (may_update : World Bridge → Prop) : World Bridge → World Bridge → Prop :=
| ros1_update_timer w : may_update w → ros1_step may_update w (updateAdvertisedTopics w).1
| ros1_message channel hdl receiptTimeNs payload w :
    ros1_step may_update w (rosMessageHandler channel hdl receiptTimeNs payload w).1
| ros1_clock timestamp w : ros1_step may_update w (clockHandler timestamp w).1.

Lemma ros1_step_keeps {mirror} (may_update : World Bridge → Prop) w w' :
  (∀ w, may_update w → keeps_sysm (mirror:=mirror) w (updateAdvertisedTopics w).1) →
  ros1_step may_update w w' → keeps_sysm (mirror:=mirror) w w'.
Proof.
  intros Hup. destruct 1 as [w Hw|ch hdl ts p w|ts w].
  - by apply Hup.
  - apply keeps_sys_same, sendMessage_same.
  - apply keeps_sys_same, broadcastTime_same.
Qed.

Lemma ros1_step_sys w w' : ros1_step ids_last w w' → keeps_sys w w'.
Proof.
  apply ros1_step_keeps. intros w1 Hids HI. by apply ros1_keeps_updateAdvertisedTopics.
Qed.

Lemma ros1_step_leakless w w' : ros1_step (λ _, True) w w' → keeps_leakless w w'.
Proof. apply ros1_step_keeps. intros w1 _. apply ros1_leakless_updateAdvertisedTopics. Qed.

(** ** What an update does *)

(** A state of ROS that asking for descriptions leads to. *)
Definition asked : Ros → Ros → Prop := rtc (λ r r', ∃ t, r' = (ros_getMessageDescription t r).1).

(** The channel of a topic, when ROS was in the state [r0] before the update: what
    ROS answers when asked for the description of the topic's type. *)
Definition described1 (r0 : Ros) (t : TopicAndDatatype) (d : option ChannelWithoutId) : Prop :=
  ∃ r, asked r0 r ∧
    d = match (ros_getMessageDescription t.2 r).2 with
        | inl _ => None
        | inr desc => Some (mkChannelWithoutId t.1 ROS1_CHANNEL_ENCODING t.2
            (match desc with Some desc => message_definition desc | None => "" end))
        end.

Lemma ros1_new_channel_run r0 t b :
  RoscppLaws → asked r0 (ros b) →
  ∃ r d, new_channel t b = (set_ros r b, inr d) ∧ described1 r0 t d ∧ asked r0 r.
Proof.
  intros [(_ & Hdesc & _) _] Hr0. unfold new_channel, try_catch, bind, on_ros, ret.
  destruct (ros_getMessageDescription t.2 (ros b)) as [r [e|d]] eqn:Hd; simpl.
  - rewrite (Hdesc _ _ _ _ Hd). exists r, None. split; [done|]. split.
    + exists (ros b). by rewrite Hd.
    + etrans; [exact Hr0|]. apply rtc_once. exists t.2. by rewrite Hd.
  - do 2 eexists. split; [done|]. split.
    + exists (ros b). by rewrite Hd.
    + etrans; [exact Hr0|]. apply rtc_once. exists t.2. by rewrite Hd.
Qed.

(** The nodelet while the loops run: the timer stopped, the count unchanged. *)
Definition stopped_at (r0 : Ros) (n maxMs : Z) b : Prop :=
  _updateTimer b = None ∧ _updateCount b = n ∧ _maxUpdateMs b = maxMs ∧ asked r0 (ros b).

Lemma loops_stopped w X :
  RoscppLaws → sys w → latest w = inr (Some X) → ids_last w →
  wp (loops remove_topic add_topic (removed_topics X (topics w)) (new_topics X (topics w)))
     (λ _ w', sys w' ∧
        stopped_at (ros (env w)) (_updateCount (env w)) (_maxUpdateMs (env w)) (env w') ∧
        ∀ t, updated (described1 (ros (env w))) X w w' t) (timer_stopped w).
Proof.
  intros Hlaws HI HX Hids.
  assert (∀ t b, stopped_at (ros (env w)) (_updateCount (env w)) (_maxUpdateMs (env w)) b →
    stopped_at (ros (env w)) (_updateCount (env w)) (_maxUpdateMs (env w)) (new_channel t b).1 ∧
    ∃ d, (new_channel t b).2 = inr d ∧ described1 (ros (env w)) t d) as Hdesc.
  { intros t b (Ht & Hn & Hm & Hr).
    destruct (ros1_new_channel_run _ t b Hlaws Hr) as (r & d & -> & Hd & Hr').
    split; [by split_and!|]. by exists d. }
  eapply wp_mono.
  { apply (loops_run remove_topic add_topic
      (stopped_at (ros (env w)) (_updateCount (env w)) (_maxUpdateMs (env w)))
      (described1 (ros (env w)))) with (X:=X).
    - done.
    - done.
    - exact Hdesc.
    - by apply sys_timer_stopped.
    - split_and!; [done..|]. unfold asked. reflexivity.
    - by apply ros1_update_differences. }
  intros r w' (HI' & Hst & Hupd). split_and!; [done|exact Hst|exact Hupd].
Qed.

(** What the callback makes of the timer. *)
Definition rescheduled w (r : result unit) w' : Prop :=
  let n := u64 (_updateCount (env w) + 1) in
  let period := backoff (_maxUpdateMs (env w)) n in
  match r with
  | inr _ => n < 64 ∧ _updateCount (env w') = n ∧ _updateTimer (env w') = Some period
  | inl _ => _updateTimer (env w') = None
  end.

(** The callback, when the master answers: the loops, then the timer. *)
Lemma ros1_updateAdvertisedTopics_run w X :
  RoscppLaws → sys w → latest w = inr (Some X) → ids_last w → ros_ok (ros (env w)) = true →
  wp updateAdvertisedTopics
     (λ r w', sys w' ∧ (∀ t, updated (described1 (ros (env w))) X w w' t) ∧ rescheduled w r w') w.
Proof.
  intros Hlaws HI HX Hids Hros. unfold wp.
  rewrite ros1_updateAdvertisedTopics_loops, Hros, HX.
  change (wp (loops remove_topic add_topic (removed_topics X (topics w)) (new_topics X (topics w)) ;;;
    on_env schedule_update) (λ r w', sysx nobody nobody w' ∧
      (∀ t, updated (described1 (ros (env w))) X w w' t) ∧ rescheduled w r w') (timer_stopped w)).
  rewrite wp_bind. eapply wp_mono; [by apply loops_stopped|].
  intros [e|r] w1 (HI1 & (Ht & Hn & Hm & _) & Hupd); [done|].
  rewrite wp_on_env. split_and!; [exact (sys_env w1 _ HI1 (schedule_update_gains (env w1)))| |].
  - intros t. specialize (Hupd t). unfold updated, described_topic in *.
    destruct (schedule_update_gains (env w1)) as [[Htop _] _].
    unfold topics in *. cbn [env]. rewrite !Htop. exact Hupd.
  - unfold rescheduled. rewrite schedule_update_run, Hm, Hn. cbv zeta.
    destruct (Z.ltb_spec (u64 (_updateCount (env w) + 1)) 64); simpl; [|exact Ht].
    by destruct (ros_createTimer _ _) as [rs [e|[]]].
Qed.
End update.

(** A nodelet whose tables are empty, as when it has just been constructed. *)
Definition no_topics `{Roscpp} (b : Bridge) : Prop :=
  _advertisedTopics b = ∅ ∧ _channelToTopicAndDatatype b = ∅ ∧
  _subscriptions b = ∅ ∧ _clientAdvertisedTopics b = ∅.

Section fresh.
Context `{Platform, Iteration, LogChannels, Nlohmann, Websocketpp, Roscpp}.

Lemma ros1_fresh_sys name capabilities limit tls (b : Bridge) :
  no_topics b → SysInv (new_Server name capabilities limit tls) b.
Proof.
  intros (Ht & Hc & Hs & Hp). split; simpl; rewrite ?Ht, ?Hc.
  - apply new_Server_inv.
  - intros _. split; simpl; rewrite ?Ht, ?Hc; [done|done| |]; by intros id [? ?].
  - intros ch hdl (i & Hi & _). by rewrite Hs in Hi.
  - intros hdl id (i & Hi & _). by rewrite Hp in Hi.
Qed.
End fresh.
