(* ===== verification/Ros1Views.v ===== *)
(** * What the clients of the ROS 1 bridge know of the graph

    The runs of the bridge in which what the master says of the topics is text:
    every client knows exactly the advertised topics. *)

From Stdlib Require Import Strings.Byte.
From S2P Require Import Prelude Serialization Common Logging Interfaces Server ServerFacts.
From S2P Require Import ServerInvariant ServerSpec Reachable Views ViewSteps System SystemSteps.
From S2P Require Import TopicUpdate TopicViews Ros1Bridge Ros1Facts Ros1Update.

Local Open Scope Z_scope.
Local Open Scope list_scope.

Section views.
Context `{Platform, Iteration, LogChannels, Nlohmann, Websocketpp, Roscpp}.
Context `{!NlohmannLaws, !WebsocketppLaws, !NlohmannUtf8, !RoscppLaws}.
Implicit Types (b : Bridge) (w : World Bridge).

(** What the nodelet does not do itself: the graph changes. *)
Definition master_moves b b' : Prop := ∃ r, b' = set_ros r b.

Lemma master_moves_gains b b' : master_moves b b' → gains nobody nobody b b'.
Proof. intros [r ->]. apply gains_intro; [done|by left|by left]. Qed.

(** The topics of the master can be described to a client, whatever it says of
    their types. *)
Definition utf8_master w : Prop :=
  ∀ X t b new, latest w = inr (Some X) → t ∈ X → (new_channel t b).2 = inr (Some new) →
    valid_channel new.

Definition ros1_text_step w w' : Prop := ros1_step ids_last w w' ∧ utf8_master w.

Definition any_bridge b : Prop := True.
Abbreviation ros1_synced := (bridge_synced (B:=Bridge) any_bridge).

Lemma ros1_synced_env w b :
  gains nobody nobody (env w) b → ros1_synced w →
  ros1_synced (mkWorld (srv w) (net w) b (out w)).
Proof. intros Hg Hw. by eapply (bridge_synced_moves any_bridge w). Qed.

Lemma ros1_update_synced w :
  ros1_synced w → ids_last w → utf8_master w → ros1_synced (updateAdvertisedTopics w).1.
Proof.
  intros Hw Hids Hutf. pose proof (ros1_keeps_updateAdvertisedTopics w (bs_sys _ _ Hw) Hids) as HI'.
  revert HI'. rewrite ros1_updateAdvertisedTopics_loops.
  assert (ros1_synced (timer_stopped w)) as Hw0.
  { apply ros1_synced_env; [|done]. apply gains_intro; by auto. }
  destruct (ros_ok _); [|done].
  destruct (latest w) as [e|[X|]] eqn:HX; [done| |done]. intros HI'.
  destruct (loops_complete remove_topic add_topic any_bridge X)
    with (removed := removed_topics X (topics w)) (new := new_topics X (topics w))
         (w := timer_stopped w) as [Hr Hs];
    [done|done|done| | |apply Hw0|done|by apply ros1_update_differences|apply Hw0|].
  - intros t b new Ht _. by apply (Hutf X t b new HX Ht).
  - intros t b _. destruct (ros1_new_channel_run (ros b) t b _ (rtc_refl _ _)) as (r & d & Hd & _).
    change (∃ r, (new_channel t b).2 = inr r). rewrite Hd. by eexists.
  - split; [exact HI'| |done]. revert Hr Hs. unfold bind.
    destruct (loops _ _ _ _ _) as [w1 r1]. simpl. intros -> Hs.
    unfold on_env. destruct (schedule_update (env w1)) as [b r]. by eapply synced_outside; [..|exact Hs].
Qed.

Lemma ros1_step_synced w w' : ros1_text_step w w' → ros1_synced w → ros1_synced w'.
Proof.
  intros [Hstep Hutf] Hw. destruct Hstep as [w Hids|ch hdl ts p w|ts w].
  - by apply ros1_update_synced.
  - unfold rosMessageHandler. apply bridge_synced_kept; [auto with cpp|auto with cpp|done].
  - unfold clockHandler. apply bridge_synced_kept; [auto with cpp|auto with cpp|done].
Qed.

Lemma ros1_run_synced w w' :
  rtc (system_step bridge_handlers master_moves ros1_text_step) w w' →
  ros1_synced w → ros1_synced w'.
Proof.
  apply (bridge_run_synced bridge_handlers any_bridge master_moves ros1_text_step);
    [by split|apply master_moves_gains|done|apply ros1_step_synced].
Qed.

(** ** The timer *)

Definition same_timer b b' : Prop := _updateTimer b' = _updateTimer b.

#[export] Instance same_timer_preorder : PreOrder same_timer.
Proof. unfold same_timer. split; [done|]. intros ???. congruence. Qed.

Lemma same_timer_on_ros {A} (f : Ros → Ros * result A) : preserves same_timer (on_ros f).
Proof. intros b. unfold on_ros. by destruct (f (ros b)). Qed.

Lemma same_timer_modify f :
  (∀ b, _updateTimer (f b) = _updateTimer b) → preserves same_timer (modify f).
Proof. intros Hf b. apply Hf. Qed.

Lemma ros1_keeps_timer : HandlersKeep bridge_handlers same_timer.
Proof.
  split; intros f x hdl [= <-]; unfold subscribeHandler, unsubscribeHandler,
    clientAdvertiseHandler, clientUnadvertiseHandler, clientMessageHandler;
    traverse (idtac; match goal with
    | |- preserves _ (on_ros _) => apply same_timer_on_ros
    | |- preserves _ (modify _) => by apply same_timer_modify
    end).
Qed.

(** The timer's callback only runs while there is a timer. *)
Definition has_timer w : Prop := is_Some (_updateTimer (env w)).

(** Without one, nothing the nodelet still does makes another. *)
Lemma ros1_timer_stays_stopped w w' :
  rtc (system_step bridge_handlers master_moves (ros1_step has_timer)) w w' →
  _updateTimer (env w) = None → _updateTimer (env w') = None.
Proof.
  induction 1 as [|w1 w2 w3 Hstep _ IH]; [done|]. intros Hw. apply IH. clear IH.
  assert (∀ A (m : M (World Bridge) A) w, preserves same_srv_env m →
    _updateTimer (env w) = None → _updateTimer (env (m w).1) = None) as Hsame.
  { intros A m w0 Hm Hw0. by rewrite (proj2 (Hm w0)). }
  destruct Hstep as [host port w|p w Hp|w w' Hn|w w' _ _ [r Hr]].
  - pose proof (keeps_env_start same_timer host port w) as Hk. unfold keeps_env, same_timer in Hk.
    by rewrite Hk.
  - pose proof (keeps_env_run_pending bridge_handlers same_timer p ros1_keeps_timer w) as Hk.
    unfold keeps_env, same_timer in Hk. by rewrite Hk.
  - destruct Hn as [w [period Hperiod]|ch hdl ts pl w|ts w].
    + congruence.
    + apply Hsame; [apply sendMessage_same|done].
    + apply Hsame; [apply broadcastTime_same|done].
  - by rewrite Hr.
Qed.

(** A nodelet that is about to start. *)
Lemma ros1_synced_fresh name capabilities limit tls w :
  srv w = new_Server name capabilities limit tls →
  valid_utf8 name → Forall valid_utf8 capabilities → no_topics (env w) → ros1_synced w.
Proof.
  intros Hs Hn Hc Hb. split; [|by eapply synced_fresh|done]. rewrite Hs. by apply ros1_fresh_sys.
Qed.
End views.
