(* ===== verification/Ros1Start.v ===== *)
(** * What the start of the ROS 1 nodelet establishes

    The server runs with the nodelet's handlers and hooks; the topics of the graph
    have been advertised once and the next update is scheduled, if the master
    answered; the invariant of the nodelet and the server holds. *)

From Stdlib Require Import Strings.Byte.
From S2P Require Import Prelude Serialization Common Logging Interfaces Server ServerFacts.
From S2P Require Import ServerInvariant ServerSpec Reachable System SystemSteps TopicUpdate.
From S2P Require Import Setup SetupFacts Ros1Bridge Ros1Facts Ros1Update Ros1Setup.

Local Open Scope Z_scope.
Local Open Scope string_scope.
Local Open Scope list_scope.

Section start.
Context `{Platform, Iteration, LogChannels, Nlohmann, Websocketpp, !Asio, StdRegex}.
Context `{Roscpp, !Ros1SetupLibrary, RosParams}.
Context `{!NlohmannLaws, !WebsocketppLaws, !StdRegexLaws, !RoscppLaws}.
Implicit Types (o : Owner Params Bridge) (b : Bridge).

(** There are channel ids for all the topics the master knows. *)
Definition few_topics b : Prop :=
  ∀ l, ros_getTopics (ros b) = Some l → Z.of_nat (length l) < 2 ^ 32.

Lemma latest_topics_size patterns l X :
  latest_topics patterns l = inr X → (size X ≤ length l)%nat.
Proof.
  revert X. induction l as [|t l IH]; intros X; simpl.
  { intros [= <-]. by rewrite size_empty. }
  destruct (any_of _ _) as [e|matched]; [done|].
  destruct (latest_topics patterns l) as [e|Y]; [done|]. pose proof (IH Y eq_refl) as HY.
  intros [= <-]. destruct matched; [|lia]. rewrite size_union_alt, size_singleton.
  etrans; [|apply le_n_S, HY]. apply le_n_S, subseteq_size. set_solver.
Qed.

Lemma first_backoff maxMs : backoff maxMs 1 = MIN_UPDATE_PERIOD_MS.
Proof. unfold backoff, MIN_UPDATE_PERIOD_MS. rewrite double_of_size_t_exact; lia. Qed.

(** The update [onInit] makes. *)
Lemma first_update (w : World Bridge) :
  SysInv (srv w) (env w) → _nextChannelId (srv w) = 0 →
  few_topics (env w) → _updateCount (env w) = 0 → ros_ok (ros (env w)) = true →
  wp updateAdvertisedTopics (λ r w', SysInv (srv w') (env w') ∧
    match latest w with
    | inl e => r = inl e
    | inr None => _updateTimer (env w') = None
    | inr (Some X) =>
        (r = inr tt → _updateTimer (env w') = Some MIN_UPDATE_PERIOD_MS) ∧
        ∀ t, is_Some (_advertisedTopics (env w') !! t) → t ∈ X
    end) w.
Proof.
  intros HI Hn Hfew Hc Hok. destruct (latest w) as [e|[X|]] eqn:HX.
  - unfold wp. rewrite ros1_updateAdvertisedTopics_loops, Hok, HX.
    split; [by apply sys_timer_stopped|done].
  - assert (ids_last w) as Hids.
    { intros X' HX'. rewrite Hn. revert HX'. unfold latest.
      destruct (ros_getTopics _) as [l|] eqn:Hl; [|done].
      destruct (latest_topics _ l) as [e|Y] eqn:HY; [done|]. intros [= <-].
      pose proof (latest_topics_size _ _ _ HY). pose proof (Hfew l Hl). lia. }
    eapply wp_mono; [by apply (ros1_updateAdvertisedTopics_run w X)|].
    intros r w' (HI' & Hupd & Hr). split; [done|]. split.
    + intros ->. destruct Hr as (_ & _ & Htimer). rewrite Htimer, Hc. f_equal. apply first_backoff.
    + intros t [ch Hch]. specialize (Hupd t). unfold updated, topics in Hupd. simpl in *.
      case_decide; [done|congruence].
  - unfold wp. rewrite ros1_updateAdvertisedTopics_loops, Hok, HX.
    split; [by apply sys_timer_stopped|done].
Qed.

(** What a server was constructed with, and whether its thread runs. *)
Definition setup_of (s : ServerState) : string * list string * Z * bool * bool :=
  (_name s, _capabilities s, _send_buffer_limit_bytes s, Server.USES_TLS s, _serverThread s).

Definition same_setup (w w' : World Bridge) : Prop := setup_of (srv w') = setup_of (srv w).

#[local] Instance same_setup_preorder : PreOrder same_setup.
Proof. unfold same_setup. split; [done|]. intros ???. congruence. Qed.

Lemma same_setup_update : preserves same_setup updateAdvertisedTopics.
Proof.
  unfold updateAdvertisedTopics, remove_topic, add_topic. traverse (idtac; match goal with
    | |- preserves _ (on_env ?m) =>
        intros w; unfold on_env, same_setup; by destruct (m (env w))
    | |- preserves _ (lift _) => by intros w
    | |- preserves _ broadcastChannels =>
        intros w; unfold same_setup; by rewrite (proj1 (broadcastChannels_same w))
    | |- preserves _ (addChannel _) => intros w; reflexivity
    | |- preserves _ (removeChannel ?ch) =>
        intros w; destruct (removeChannel_run ch w) as (_ & _ & Hs & _); unfold same_setup; by rewrite Hs
    end).
Qed.

(** ** The server *)

(** The state of ROS does not matter to the invariant. *)
Lemma sys_set_ros s b r : SysInv s b → SysInv s (set_ros r b).
Proof.
  intros [Hsv Hm Hs Hp]. split; [done| |done|done]. intros Hmir. by destruct (Hm Hmir).
Qed.

Definition with_handlers (s : ServerObject Bridge) : ServerObject Bridge :=
  mkServerObject (so_state s) bridge_handlers (so_hooks s) (so_logs s).

(** The server that [onInit] leaves: constructed, started on the port, and updated
    once; [o] is the nodelet before, [o'] the one after. *)
Record served (limit : Z) (tls sim : bool) (address : string) (port : Z) o o'
    (s : ServerState) : Prop := mkServed {
  served_run : ∃ w0 w1 w2 : World Bridge,
    srv w0 = new_Server "foxglove_bridge" (serverCapabilities sim) limit tls ∧
    env w0 = ow_bridge o ∧ start address port w0 = (w1, inr tt) ∧
    updateAdvertisedTopics w1 = (w2, inr tt) ∧
    s = srv w2 ∧ ow_net o' = net w2 ∧ ow_out o' = out w2 ∧
    ∃ r, ow_bridge o' = set_ros r (env w2);
  served_setup :
    setup_of s = ("foxglove_bridge", serverCapabilities sim, limit, tls, true);
}.

(** What the first update makes of the topics and the timer. *)
Definition first_topics o o' : Prop :=
  match ros_getTopics (ros (ow_bridge o)) with
  | None => _updateTimer (ow_bridge o') = None
  | Some l => ∃ X, latest_topics (_topicWhitelistPatterns (ow_bridge o)) l = inr X ∧
      _updateTimer (ow_bridge o') = Some MIN_UPDATE_PERIOD_MS ∧
      ∀ t, is_Some (_advertisedTopics (ow_bridge o') !! t) → t ∈ X
  end.

(** The end of [start_server] only changes what ROS knows, and sets up the clock. *)
Lemma subscribe_clock_run (sim : bool) (Q : result unit → Owner Params Bridge → Prop) o :
  (∀ e o', Q (inl e) o') →
  (∀ rs clock, (sim = true → clock = true) →
     Q (inr tt) (mkOwner (ow_params o) (ow_server o) (ow_net o) (set_ros rs (ow_bridge o))
       (ow_out o) (ow_polling o) clock)) →
  wp (when sim (on_bridge (on_ros ros_subscribe_clock) ;;; modify (set_clock true))) Q o.
Proof.
  intros He Hend. rewrite wp_when. destruct sim.
  - rewrite wp_bind, wp_on_bridge. unfold on_ros. simpl.
    destruct (ros_subscribe_clock _) as [rs [e|[]]]; simpl; [done|]. rewrite wp_modify.
    by apply Hend.
  - specialize (Hend (ros (ow_bridge o)) (ow_clock o)).
    replace (mkOwner _ _ _ _ _ _ _) with o in Hend by (by destruct o as [? ? ? []]).
    by apply Hend.
Qed.

Lemma ros1_start_server_run logs address port limit (tls : bool) cert key sim o :
  no_topics (ow_bridge o) → few_topics (ow_bridge o) → _updateCount (ow_bridge o) = 0 →
  ros_ok (ros (ow_bridge o)) = true →
  wp (start_server logs address port limit tls cert key sim) (λ r o', r = inr tt →
    ∃ s, ow_server o' = Some s ∧ so_handlers s = bridge_handlers ∧
      so_hooks s = constructed_hooks (if tls then Some (cert, key) else None) ∧
      so_logs s = configured_logs owner_callback logs ∧
      served limit tls sim address (u16 port) o o' (so_state s) ∧
      (sim = true → ow_clock o' = true) ∧ SysInv (so_state s) (ow_bridge o') ∧
      first_topics o o') o.
Proof.
  intros Hno Hfew Hc Hros. unfold start_server. rewrite wp_bind.
  apply wp_make_server. intros n evs r Hr.
  pose proof (Server_new_run (E:=Bridge) "foxglove_bridge" owner_callback (serverCapabilities sim) limit
    (if tls then Some (cert, key) else None) logs (ow_net o, ow_out o)) as Hnew.
  unfold wp in Hr, Hnew. rewrite Hr in Hnew.
  destruct r as [e|s]; [done|]. destruct (Hnew s eq_refl) as (Hst & Hhs & Hhk & Hlogs).
  assert (so_state s = new_Server "foxglove_bridge" (serverCapabilities sim) limit tls) as Hst'
    by (rewrite Hst; by destruct tls).
  clear Hnew Hr Hst. rewrite wp_bind. eapply register_run; [done|done|]. simpl.
  set (o1 := set_server _ _). set (w0 := world_of_owner o1 (with_handlers s)).
  rewrite wp_bind, (wp_through _ _ o1 (with_handlers s)) by done.
  eapply wp_mono; [apply wp_eq, start_run|]. intros r w1 (Hstart & Henv & _ & Hok). simpl.
  destruct r as [e|[]]; [done|]. destruct (Hok eq_refl) as [Hsrv _].
  rewrite wp_bind. erewrite wp_through by done. unfold world_of_owner at 1. simpl.
  rewrite world_eta. eapply wp_mono.
  { apply wp_eq, first_update; rewrite ?Hsrv, ?Henv; simpl; rewrite ?Hst'; try done.
    by apply sys_set_thread, ros1_fresh_sys. }
  simpl. intros r w2 (Hupd & HI & Hr). destruct r as [e|[]]; [done|].
  assert (first_topics o (mkOwner (ow_params o) None (net w2) (env w2) (out w2) true true)) as Hfirst.
  { revert Hr. unfold first_topics, latest. rewrite Henv. simpl.
    destruct (ros_getTopics _) as [l|]; [|done].
    destruct (latest_topics _ l) as [e|X]; [done|]. intros [Htimer Htop].
    exists X. split_and!; [done|by apply Htimer|done]. }
  apply subscribe_clock_run; [done|]. intros rs clock Hclock _.
  eexists. split; [done|]. split; [done|]. split; [exact Hhk|]. split; [exact Hlogs|]. split.
  { split; simpl.
    - exists w0, w1, w2. do 7 (split; [done|]). by exists rs.
    - pose proof (same_setup_update w1) as Hsame. rewrite Hupd in Hsame.
      unfold same_setup in Hsame. simpl in Hsame. rewrite Hsame, Hsrv. simpl. by rewrite Hst'. }
  split; [exact Hclock|]. split; [by apply sys_set_ros|exact Hfirst].
Qed.
End start.
