(* ===== verification/Ros1Threads.v ===== *)
(** * The ROS 1 nodelet's threads

    The nodelet's handlers with their locks, and the timer's update of the
    topics, which takes the server's mutex while it holds the nodelet's. *)

From Stdlib Require Import Strings.Byte.
From S2P Require Import Prelude Serialization Common Logging Interfaces Server ServerFacts.
From S2P Require Import ServerInvariant ServerSpec Reachable Views Threads ThreadPool Deadlock.
From S2P Require Import ServerThreads ServerThreadFacts ServerThreadInvariant.
From S2P Require Import System SystemSteps TopicUpdate Ros1Bridge Ros1Facts Ros1Update.

Local Open Scope Z_scope.
Local Open Scope list_scope.

Section threads.
Context `{Platform, Iteration, LogChannels, Nlohmann, Websocketpp, Roscpp}.

Abbreviation program := (prog (World Bridge) Mutex).

(** ** Handlers *)

(** @src ros1_foxglove_bridge/src/ros1_foxglove_bridge_nodelet.cpp:126-174 FoxgloveBridge::subscribeHandler *)
Definition subscribeHandler_p (channelId : ChannelId) (clientHandle : ConnHandle) : program unit :=
  locked_act SubscriptionsMutex (subscribeHandler channelId clientHandle).

(** @src ros1_foxglove_bridge/src/ros1_foxglove_bridge_nodelet.cpp:176-216 FoxgloveBridge::unsubscribeHandler *)
Definition unsubscribeHandler_p (channelId : ChannelId) (clientHandle : ConnHandle)
  : program unit :=
  locked_act SubscriptionsMutex (unsubscribeHandler channelId clientHandle).

(** The encoding is checked before the lock is taken.
    @src ros1_foxglove_bridge/src/ros1_foxglove_bridge_nodelet.cpp:218-267 FoxgloveBridge::clientAdvertiseHandler *)
Definition clientAdvertiseHandler_p (channel : ClientAdvertisement) (clientHandle : ConnHandle)
  : program unit :=
  if negb (String.eqb (adv_encoding channel) ROS1_CHANNEL_ENCODING) then pret tt else
  locked_act PublicationsMutex (clientAdvertiseHandler channel clientHandle).

(** @src ros1_foxglove_bridge/src/ros1_foxglove_bridge_nodelet.cpp:269-302 FoxgloveBridge::clientUnadvertiseHandler *)
Definition clientUnadvertiseHandler_p (channelId : ClientChannelId) (clientHandle : ConnHandle)
  : program unit :=
  locked_act PublicationsMutex (clientUnadvertiseHandler channelId clientHandle).

(** The message is read before the lock is taken; the publisher is looked up, and
    publishes, under the shared lock.
    @src ros1_foxglove_bridge/src/ros1_foxglove_bridge_nodelet.cpp:304-332 FoxgloveBridge::clientMessageHandler *)
Definition clientMessageHandler_p (clientMsg : ClientMessage) (clientHandle : ConnHandle)
  : program unit :=
  let* msg := act (lift (ros_read clientMsg)) in
  with_lock PublicationsMutex Shared
    (act (on_env (
       let! pubs := gets _clientAdvertisedTopics in
       match pubs !! clientHandle with
       | None => ret tt
       | Some clientPublications =>
           match clientPublications !! adv_channelId (msg_advertisement clientMsg) with
           | None => ret tt
           | Some publisher => on_ros (ros_publish publisher msg)
           end
       end))).

Definition locked_handlers : LockedHandlers Bridge :=
  mkLockedHandlers subscribeHandler_p unsubscribeHandler_p clientAdvertiseHandler_p
    clientUnadvertiseHandler_p clientMessageHandler_p.

(** ** The update of the topics *)

(** @src ros1_foxglove_bridge/src/ros1_foxglove_bridge_nodelet.cpp:388-403 FoxgloveBridge::updateAdvertisedTopics *)
Definition remove_topic_p (topicAndDatatype : TopicAndDatatype) : program unit :=
  let* advertised := act (on_env (gets _advertisedTopics)) in
  match advertised !! topicAndDatatype with
  | None => act (throw (StdException "unordered_map::at"))
  | Some channel =>
      removeChannel_p (chan_id channel) ;;*
      act (on_env (modify (λ b, set_subs (delete (chan_id channel) (_subscriptions b)) b))) ;;*
      act (on_env (modify (λ b, set_topics (delete topicAndDatatype (_advertisedTopics b))
                             (delete (chan_id channel) (_channelToTopicAndDatatype b)) b)))
  end.

(** @src ros1_foxglove_bridge/src/ros1_foxglove_bridge_nodelet.cpp:406-437 FoxgloveBridge::updateAdvertisedTopics *)
Definition add_topic_p (topicAndDatatype : TopicAndDatatype) : program unit :=
  let* newChannel := act (on_env (new_channel topicAndDatatype)) in
  match newChannel with
  | None => pret tt
  | Some newChannel =>
      let* id := addChannel_p newChannel in
      let channel := mkChannel id newChannel in
      act (on_env (modify (λ b,
        set_topics (emplace topicAndDatatype channel (_advertisedTopics b)).1
          (emplace id topicAndDatatype (_channelToTopicAndDatatype b)).1 b)))
  end.

(** Both loops run under the nodelet's mutex.
    @src ros1_foxglove_bridge/src/ros1_foxglove_bridge_nodelet.cpp:334-451 FoxgloveBridge::updateAdvertisedTopics *)
Definition updateAdvertisedTopics_p : program unit :=
  act (on_env (modify (λ b, set_timer None (_updateCount b) b))) ;;*
  let* ok := act (on_env (gets (λ b, ros_ok (ros b)))) in
  if negb ok then pret tt else
  let* topicNamesAndTypes := act (on_env (gets (λ b, ros_getTopics (ros b)))) in
  match topicNamesAndTypes with
  | None => pret tt
  | Some topicNamesAndTypes =>
      let* patterns := act (on_env (gets _topicWhitelistPatterns)) in
      let* latestTopics := act (lift (latest_topics patterns topicNamesAndTypes)) in
      let* advertised := act (on_env (gets _advertisedTopics)) in
      let newTopics := new_topics latestTopics advertised in
      with_lock SubscriptionsMutex Exclusive
        (pfor_each (removed_topics latestTopics advertised) remove_topic_p ;;*
         pfor_each newTopics add_topic_p) ;;*
      pwhen (negb (bool_decide (newTopics = []))) broadcastChannels_p ;;*
      act (on_env schedule_update)
  end.

(** The nodelet: the server's run loop and the callbacks, a thread for each list
    of calls, and the timer's callback. *)
Definition ros1_threads (css : list (list (Call Bridge))) : list (Thread (World Bridge) Mutex) :=
  threads_of bridge_handlers locked_handlers css ++ [fresh_thread updateAdvertisedTopics_p].

(** ** The locked handlers are the handlers *)

Lemma ros1_advertise_runs channel hdl :
  runs (clientAdvertiseHandler_p channel hdl) (on_env (clientAdvertiseHandler channel hdl)).
Proof.
  unfold clientAdvertiseHandler_p. destruct (negb _) eqn:He; [|by apply runs_with_lock, runs_act].
  intros w. unfold clientAdvertiseHandler. rewrite He. unfold on_env, ret. by rewrite world_eta.
Qed.

Lemma ros1_message_runs msg hdl :
  runs (clientMessageHandler_p msg hdl) (on_env (clientMessageHandler msg hdl)).
Proof.
  eapply runs_ext; [|apply runs_bind; [apply runs_act|intros m; apply runs_with_lock, runs_act]].
  intros [s n b o]. unfold clientMessageHandler, bind, lift, on_env. cbn.
  by destruct (ros_read msg).
Qed.

#[export] Instance ros1_locked_ok : LockedHandlersOk bridge_handlers locked_handlers.
Proof.
  split; try (intros f ? ? [= <-]); intros; simpl;
    first [apply ros1_advertise_runs | by apply runs_with_lock, runs_act | apply ros1_message_runs
      | apply node_locked_act; simpl; lia | idtac].
  - unfold clientAdvertiseHandler_p. destruct (negb _); [by apply node_ret|].
    apply node_locked_act; simpl; lia.
  - apply node_bind; [by apply node_act|]. intros m. apply node_with_lock; [simpl; lia|].
    apply on_env_untouched.
Qed.

(** ** The update on its own *)

Lemma ros1_runs_remove_topic t : runs (remove_topic_p t) (remove_topic t).
Proof.
  apply runs_bind; [apply runs_act|]. intros advertised. destruct (advertised !! t); [|done].
  apply runs_bind; [apply runs_removeChannel|]. intros _.
  apply runs_bind; [apply runs_act|]. intros _. apply runs_act.
Qed.

Lemma ros1_runs_add_topic t : runs (add_topic_p t) (add_topic t).
Proof.
  apply runs_bind; [apply runs_act|]. intros [new|]; [|done].
  apply runs_bind; [apply runs_addChannel|]. intros id. apply runs_act.
Qed.

Lemma ros1_runs_update : runs updateAdvertisedTopics_p updateAdvertisedTopics.
Proof.
  apply runs_bind; [apply runs_act|]. intros _.
  apply runs_bind; [apply runs_act|]. intros ok. destruct (negb ok); [done|].
  apply runs_bind; [apply runs_act|]. intros [l|]; [|done].
  do 3 (apply runs_bind; [apply runs_act|]; intros ?).
  apply runs_bind_assoc.
  - apply runs_with_lock, runs_bind; [|intros _]; apply runs_for_each; intros t.
    + apply ros1_runs_remove_topic.
    + apply ros1_runs_add_topic.
  - intros _. apply runs_bind; [apply runs_when, runs_broadcastChannels|]. intros _.
    apply runs_act.
Qed.

(** ** The update keeps what the server's mutex protects *)

Context `{!NlohmannLaws, !WebsocketppLaws, !NlohmannUtf8}.

Abbreviation Guarded := (guarded ClientsChannelMutex shared_inv same_shared None).

Lemma ros1_guarded_update : Guarded updateAdvertisedTopics_p.
Proof.
  apply guarded_bind; [apply guarded_env|]. intros _.
  apply guarded_bind; [apply guarded_env|]. intros ok. destruct (negb ok); [done|].
  apply guarded_bind; [apply guarded_env|]. intros [l|]; [|done].
  apply guarded_bind; [apply guarded_env|]. intros patterns.
  apply guarded_bind; [by apply guarded_act|]. intros X.
  apply guarded_bind; [apply guarded_env|]. intros advertised.
  apply guarded_bind; [apply guarded_with_lock; [done|]|intros _].
  - apply guarded_bind; [|intros _]; apply guarded_for_each; intros t;
      (apply guarded_bind; [apply guarded_env|]).
    + intros adv. destruct (adv !! t); [|by apply guarded_act].
      apply guarded_bind; [apply guarded_removeChannel|]. intros _.
      apply guarded_bind; [apply guarded_env|]. intros _. apply guarded_env.
    + intros [new|]; [|done]. apply guarded_bind; [apply guarded_addChannel|].
      intros id. apply guarded_env.
  - apply guarded_bind; [apply guarded_when, guarded_broadcastChannels|]. intros _.
    apply guarded_env.
Qed.

Lemma ros1_protected css w :
  shared_inv w →
  protected ClientsChannelMutex shared_inv same_shared (mkConfig (ros1_threads css) w).
Proof.
  intros HI. unfold ros1_threads, threads_of.
  rewrite <-(fmap_app fresh_thread _ [updateAdvertisedTopics_p]).
  apply protected_start; [|done]. apply Forall_app. split.
  - apply Forall_fmap, Forall_forall. intros cs _. apply guarded_calls; apply _.
  - apply Forall_singleton, ros1_guarded_update.
Qed.

(** ** The update takes the mutexes in the other order *)

Lemma ros1_waits_update busy (Q : list (Mutex * Mode) → World Bridge → Prop) X t ch w :
  ros_ok (ros (env w)) = true → latest w = inr (Some X) → _advertisedTopics (env w) !! t = Some ch →
  t ∉ X → SubscriptionsMutex ∉ busy →
  (∀ w', Q [(SubscriptionsMutex, Exclusive)] w') →
  waits ClientsChannelMutex busy Q [] updateAdvertisedTopics_p w.
Proof.
  intros Hok HX Ht Hl Hbusy HQ.
  assert (∀ A (f : Bridge → A) w', on_env (gets f) w' = (w', inr (f (env w')))) as Hgets.
  { intros A f w'. unfold on_env, gets. by rewrite world_eta. }
  eapply waits_act; [done|]. eapply waits_act; [apply Hgets|].
  cbn [env ros set_timer fst snd modify]. rewrite Hok.
  eapply waits_act; [apply Hgets|]. unfold latest in HX.
  cbn [env ros set_timer fst snd modify] in *.
  destruct (ros_getTopics (ros (env w))) as [l0|]; [|done].
  destruct (latest_topics _ l0) as [e|X0] eqn:HX0; [done|]. injection HX as ->.
  eapply waits_act; [apply Hgets|].
  eapply waits_act.
  { unfold lift. cbn [env _topicWhitelistPatterns set_timer fst snd modify]. by rewrite HX0. }
  eapply waits_act; [apply Hgets|].
  destruct (removed_first _ _ t ch Ht Hl) as (t0 & ch0 & l & Hr & Ht0).
  apply waits_bind, waits_with_lock; [done|done|apply not_elem_of_nil|]. cbv beta zeta.
  cbn [env _topicWhitelistPatterns _advertisedTopics set_timer fst snd modify].
  unfold removed_topics. rewrite Hr. apply waits_bind, waits_for_each.
  eapply waits_act; [apply Hgets|].
  cbn [env _advertisedTopics set_timer fst snd modify]. rewrite Ht0.
  apply waits_bind, waits_stop, HQ.
Qed.

Lemma ros1_deadlock ts hdl text X t ch w :
  grants_subscription w hdl text →
  ros_ok (ros (env w)) = true → latest w = inr (Some X) → _advertisedTopics (env w) !! t = Some ch →
  t ∉ X →
  ∃ c, rtc pool_step
         (mkConfig (ros1_threads [[CallPending (PMessage ts hdl (TextFrame text))]]) w) c ∧
       deadlocked c.
Proof.
  intros Hreq Hok HX Ht Hl. apply (deadlock_of ClientsChannelMutex SubscriptionsMutex).
  apply waits_subscribe; [by eexists|by eexists|done|apply not_elem_of_nil|].
  intros w' Hw'. split_and!; [apply list_elem_of_here|by intros ?%list_elem_of_singleton|].
  eapply (ros1_waits_update _ _ X t ch); rewrite ?Hw'; [done| |done|done| |].
  - unfold latest in *. by rewrite Hw'.
  - by intros ?%list_elem_of_singleton.
  - intros _. apply list_elem_of_here.
Qed.
End threads.
