(* ===== verification/Ros1Custody.v ===== *)
(** * What the ROS 1 nodelet keeps is accounted for

    The nodelet's handlers and its timer's update are careful: between any two steps
    of the nodelet's threads, a ROS subscription or publisher belongs to a client
    that asked for it, or a thread is about to end it. *)

From Stdlib Require Import Strings.Byte.
From S2P Require Import Prelude Serialization Common Logging Interfaces Server ServerFacts.
From S2P Require Import ServerInvariant ServerSpec Reachable Views Threads ThreadPool Custody.
From S2P Require Import ServerThreads ServerThreadFacts System SystemSteps TopicUpdate.
From S2P Require Import ServerCustody Ros1Bridge Ros1Facts.
From S2P Require Import Ros1Update Ros1Threads.

Local Open Scope Z_scope.
Local Open Scope list_scope.

Section custody.
Context `{Platform, Iteration, LogChannels, Nlohmann, Websocketpp, Roscpp}.
Context `{!NlohmannLaws, !WebsocketppLaws}.
Implicit Types b : Bridge.

Abbreviation CarefulThread :=
  (careful_thread ClientsChannelMutex same_clients kept (accounted (B:=Bridge)) None).

#[export] Instance ros1_custody : LockedCustody locked_handlers.
Proof.
  split; intros; cbn [locked_handlers locked_subscribe locked_unsubscribe locked_advertise
    locked_unadvertise locked_message].
  - eapply gains_acquiring; [done|apply ros1_subscribeHandler_gains| |by intros ?? []].
    by intros ?? [-> ->].
  - eapply gains_acquiring; [done|intros b; apply ros1_unsubscribeHandler_ends|by intros ?? []..].
  - unfold unsubscribeHandler_p. apply locked_act_returns. intros b. exists tt. apply ros1_unsubscribeHandler_ends.
  - apply locked_act_ends. intros b. apply ros1_unsubscribeHandler_ends.
  - unfold clientAdvertiseHandler_p. destruct (negb _); [done|].
    eapply gains_acquiring; [done|apply ros1_clientAdvertiseHandler_gains|by intros ?? []|].
    by intros ?? [-> ->].
  - eapply gains_acquiring; [done|intros b; apply ros1_clientUnadvertiseHandler_ends|by intros ?? []..].
  - apply locked_act_returns. intros b. exists tt. apply ros1_clientUnadvertiseHandler_ends.
  - apply locked_act_ends. intros b. apply ros1_clientUnadvertiseHandler_ends.
  - unfold clientMessageHandler_p. apply quiet_bind; [by apply quiet_act, acquiring_same|].
    intros m. apply quiet_with_lock, quiet_act, acquiring_env; [done|]. intros b x.
    unfold bind, gets. destruct (_clientAdvertisedTopics b !! hdl) as [pubs|]; [|done].
    destruct (pubs !! _); [|done]. unfold on_ros. by destruct (ros_publish _ _ _).
Qed.

(** ** The update of the topics *)

Lemma ros1_careful_remove_topic t : CarefulThread (remove_topic_p t).
Proof.
  apply careful_gets. intros advertised. destruct (advertised !! t) as [channel|].
  - apply careful_drop_channel.
    + intros b hdl Hn. simpl in Hn. by apply nested_delete in Hn as [_ ?].
    + intros b [ch hdl|hdl id]; simpl; [|done]. by intros [Hn _]%nested_delete.
    + by intros b [].
  - apply mild_thread, mild_act; [apply stable_free|by apply steady_same].
Qed.

Lemma ros1_careful_add_topic t : CarefulThread (add_topic_p t).
Proof.
  apply careful_new_channel.
  - intros b [ch hdl|hdl id]; destruct (ros1_new_channel_frame t b) as [[c ->] _]; done.
  - intros new. apply mild_bind; [apply mild_addChannel|]. intros id. by apply mild_env; intros b [].
Qed.

Lemma ros1_careful_update : CarefulThread updateAdvertisedTopics_p.
Proof.
  apply careful_then; [apply mild_thread, mild_env; by intros b []|intros _].
  apply careful_gets. intros ok. destruct (negb ok); [done|].
  apply careful_gets. intros [l|]; [|done].
  apply careful_gets. intros patterns. apply careful_lift. intros X.
  apply careful_gets. intros advertised. cbv zeta. apply careful_then.
  - apply careful_with_lock; [done|]. apply careful_then; [|intros _];
      apply careful_for_each; intros t _; [apply ros1_careful_remove_topic|apply ros1_careful_add_topic].
  - intros _. apply careful_then; [apply careful_when, mild_thread, mild_broadcastChannels|].
    intros _. apply mild_thread, mild_env. intros b x.
    rewrite schedule_update_run. cbv zeta. by repeat case_match; destruct x.
Qed.

(** The threads that run while the nodelet does. *)
Lemma ros1_careful css :
  Forall (Forall running_call) css →
  ∃ ps, ros1_threads css = fresh_thread <$> ps ∧ Forall CarefulThread ps.
Proof.
  intros Hcss. exists ((calls_p bridge_handlers locked_handlers <$> css) ++ [updateAdvertisedTopics_p]).
  split; [by rewrite fmap_app|]. apply Forall_app. split.
  - apply Forall_fmap. eapply Forall_impl; [exact Hcss|]. intros cs Hcs.
    apply careful_calls; [apply _..|done].
  - apply Forall_singleton, ros1_careful_update.
Qed.
End custody.
