(* ===== verification/Concrete.v ===== *)
(** * Concrete platforms and libraries

    One implementation of each parameter of the model, with the proof that it
    obeys the laws the theorems assume: the theorems' hypotheses can hold, and
    the definitions can be evaluated.  None of this describes the repository's
    code; no theorem about it uses these instances except its own example. *)

From Stdlib Require Import Strings.Byte Strings.Ascii.
From S2P Require Import Prelude Serialization Common Logging Interfaces Server ServerFacts.
From S2P Require Import ServerInvariant ServerSpec Client EndToEnd Reachable Setup.

Local Open Scope Z_scope.
Local Open Scope string_scope.

(** ** Platforms *)

Definition x86_64 : Platform := {| big_endian := false; char_is_signed := true; ndebug := false |}.
Definition s390x : Platform := {| big_endian := true; char_is_signed := false; ndebug := true |}.

(** ** Containers in the order of their keys' codes *)

#[export, refine] Instance sorted_iteration : Iteration := {|
  iter_map K _ _ V m := map_to_list m;
  iter_set K _ _ X := elements X;
|}.
Proof. all: done. Defined.

(** In the opposite order. *)
#[refine] Definition reversed_iteration : Iteration := {|
  iter_map K _ _ V m := reverse (map_to_list m);
  iter_set K _ _ X := reverse (elements X);
|}.
Proof. all: intros; by rewrite reverse_Permutation. Defined.

(** ** The log channels of websocketpp 0.8 *)

#[export] Instance websocketpp_channels : LogChannels := {|
  elevel_devel := 0x1;
  elevel_library := 0x2;
  elevel_info := 0x4;
  elevel_warn := 0x8;
  elevel_rerror := 0x10;
  elevel_fatal := 0x20;
  alevel_app := 0x2000;
  alevel_all := 0xffffffff;
|}.

#[export] Instance websocketpp_channels_ok : LogChannelsOk.
Proof.
  split.
  - unfold elevels; simpl. repeat constructor;
      [exists 0|exists 1|exists 2|exists 3|exists 4|exists 5]; done.
  - apply (bool_decide_unpack _). vm_compute. exact I.
  - exists 13. done.
  - done.
Defined.

(** ** JSON

    Values are trees; the text of a value is a numeral that encodes it. *)
Module Json.
Definition leaf : Type := string + Z.
Definition t : Type := gen_tree leaf.

Definition null : t := GenNode 0 [].
Definition array (l : list t) : t := GenNode 1 l.
Definition entry (kv : string * t) : t := GenNode 3 [GenLeaf (inl kv.1); kv.2].
Definition object (kvs : list (string * t)) : t := GenNode 2 (entry <$> kvs).

Definition push_back (j x : t) : sum exn t :=
  match j with
  | GenNode 0 [] => inr (array [x])
  | GenNode 1 l => inr (array (l ++ [x]))
  | _ => inl (StdException "type_error.308")
  end.

Fixpoint digits (p : positive) : string :=
  match p with
  | xH => ""
  | xO p => String "0"%char (digits p)
  | xI p => String "1"%char (digits p)
  end.
Fixpoint number (s : string) : option positive :=
  match s with
  | EmptyString => Some xH
  | String c s =>
      p ← number s;
      if Ascii.eqb c "0"%char then Some (xO p) else if Ascii.eqb c "1"%char then Some (xI p) else None
  end.

Definition dump (j : t) : sum exn string := inr (digits (encode j)).
Definition parse (s : string) : sum exn t :=
  match number s ≫= decode with
  | Some j => inr j
  | None => inl (StdException "parse_error.101")
  end.

Definition entry_of (e : t) : option (string * t) :=
  match e with GenNode 3 [GenLeaf (inl k); v] => Some (k, v) | _ => None end.
Fixpoint find (l : list t) (k : string) : sum exn t :=
  match l with
  | [] => inl (StdException "out_of_range.403")
  | e :: l =>
      match entry_of e with
      | Some (k', v) => if String.eqb k k' then inr v else find l k
      | None => find l k
      end
  end.
Definition at_ (j : t) (k : string) : sum exn t :=
  match j with GenNode 2 l => find l k | _ => inl (StdException "type_error.304") end.

Definition get_string (j : t) : sum exn string :=
  match j with GenLeaf (inl s) => inr s | _ => inl (StdException "type_error.302") end.
(** A number is converted as by a [static_cast]. *)
Definition get_uint32 (j : t) : sum exn Z :=
  match j with GenLeaf (inr z) => inr (u32 z) | _ => inl (StdException "type_error.302") end.

(** A scalar is visited as a sequence of one. *)
Definition items (j : t) : list t :=
  match j with
  | GenNode 0 [] => []
  | GenNode 1 l => l
  | GenNode 2 l => (λ e, match e with GenNode 3 [_; v] => v | _ => e end) <$> l
  | _ => [j]
  end.

Lemma number_digits p : number (digits p) = Some p.
Proof. induction p as [p IH|p IH|]; simpl; rewrite ?IH; done. Qed.

Lemma find_throws l k e : find l k = inl e → catchable e = true.
Proof.
  induction l as [|x l IH]; simpl; [by intros [= <-]|].
  destruct (entry_of x) as [[k' v]|]; [|done]. by destruct (String.eqb k k').
Qed.

Lemma find_entry kvs k v :
  NoDup kvs.*1 → (k, v) ∈ kvs → find (entry <$> kvs) k = inr v.
Proof.
  induction kvs as [|[k' v'] kvs IH]; simpl; [by intros _ ?%not_elem_of_nil|].
  intros [Hk Hnd]%NoDup_cons [[= <- <-]|Hin]%elem_of_cons; [by rewrite String.eqb_refl|].
  destruct (String.eqb_spec k k') as [->|_]; [|auto].
  exfalso. apply Hk. apply list_elem_of_fmap. by exists (k', v).
Qed.
End Json.

#[export] Instance json_library : Nlohmann := {|
  json := Json.t;
  json_null := Json.null;
  json_string s := GenLeaf (inl s);
  json_number z := GenLeaf (inr z);
  json_array := Json.array;
  json_object := Json.object;
  json_push_back := Json.push_back;
  json_dump := Json.dump;
  json_parse := Json.parse;
  json_at := Json.at_;
  json_get_string := Json.get_string;
  json_get_uint32 := Json.get_uint32;
  json_items := Json.items;
|}.

#[export] Instance json_library_laws : NlohmannLaws.
Proof.
  split; simpl; try done.
  - intros j s [= <-]. unfold Json.parse. rewrite Json.number_digits. cbn [mbind option_bind]. by rewrite decode_encode.
  - apply Json.find_entry.
  - intros n Hn. by rewrite u32_id.
  - intros j n. unfold Json.get_uint32. repeat case_match; try done. intros [= <-]. apply u32_range.
  - split_and!.
    + done.
    + intros s e. unfold Json.parse. case_match; [done|]. by intros [= <-].
    + intros j k e. unfold Json.at_. repeat case_match; try by intros [= <-].
      apply Json.find_throws.
    + intros j e. unfold Json.get_string. repeat case_match; try done; by intros [= <-].
    + intros j e. unfold Json.get_uint32. repeat case_match; try done; by intros [= <-].
Defined.

(** Any string can be put out. *)
#[export] Instance json_library_utf8 : NlohmannUtf8.
Proof.
  refine {| valid_utf8 s := True |}; [done|]. intros j _. by eexists.
Defined.

(** ** The network

    A set of open connections, each with the bytes it has yet to send. *)
Record Network := mkNetwork {
  connections : gmap ConnHandle Z;
  listening : bool;
  halted : bool;
}.

#[export] Instance websocketpp_library : Websocketpp := {|
  Net := Network;
  ws_send hdl f n :=
    (n, if decide (is_Some (connections n !! hdl)) then inr tt
        else inl (StdException "Bad Connection"));
  ws_con_send hdl f n := n;
  ws_has_con n hdl := bool_decide (is_Some (connections n !! hdl));
  ws_bad_connection := "Bad Connection";
  ws_remote_endpoint n hdl := "127.0.0.1:" +:+ pretty hdl;
  ws_resource n hdl := "/";
  ws_requested_subprotocols n hdl := [SUPPORTED_SUBPROTOCOL];
  ws_select_subprotocol hdl p n := (n, inr tt);
  ws_buffered_amount n hdl := default 0 (connections n !! hdl);
  ws_set_no_delay hdl n := (n, None);
  ws_listen host port n := (mkNetwork (connections n) true false, None);
  ws_start_accept n := (n, None);
  ws_is_listening := listening;
  ws_local_endpoint n := inr (false, "127.0.0.1", 8765);
  ws_stopped := halted;
  ws_stop_perpetual n := n;
  ws_stop_listening n := (mkNetwork (connections n) false (halted n), None);
  ws_close hdl reason n := (n, None);
  ws_terminate hdl n := mkNetwork (delete hdl (connections n)) (listening n) (halted n);
  ws_stop n := mkNetwork (connections n) (listening n) true;
  ws_spawn_run n := n;
  ws_join n := Some n;
|}.

#[export] Instance websocketpp_library_laws : WebsocketppLaws.
Proof.
  split. split; simpl; [|done]. intros hdl f n n' e [= _ He].
  case_decide; [done|]. by injection He as <-.
Defined.

(** ** Asio and OpenSSL

    A context remembers the names of what was done to it; only "cert.pem" and
    "key.pem" exist. *)
Definition load_file (known f : string) (c : list string) : list string * result unit :=
  if String.eqb f known then (c ++ [f], inr tt)%list else (c, inl (StdException ("no file " +:+ f))).

#[export] Instance asio_library : Asio := {|
  ws_init_asio n := (n, None);
  TlsContext := list string;
  tls_context := [];
  tls_set_options _ c := (c ++ ["options"], inr tt)%list;
  tls_use_certificate_chain_file := load_file "cert.pem";
  tls_use_private_key_file := load_file "key.pem";
  tls_set_cipher_list l c := (c ++ [l], 1)%list;
|}.

#[export] Instance asio_library_laws : AsioLaws.
Proof.
  split. split_and!; simpl; unfold load_file; intros *; try case_match; by intros; simplify_eq.
Defined.

(** ** The client's network

    It remembers the frames that were sent; there is one connection. *)
#[export] Instance websocketpp_client : WebsocketppClient := {|
  ClientNet := list Frame;
  wc_get_connection _ n := (n, inr 1%positive);
  wc_set_handlers _ _ _ n := n;
  wc_add_subprotocol _ _ n := n;
  wc_connect _ n := n;
  wc_close _ n := (n, inr tt);
  wc_send con f n :=
    match con with
    | Some _ => (n ++ [f], inr tt)%list
    | None => (n, inl (StdException "Bad Connection"))
    end;
  wc_new := [];
  wc_init_asio n := (n, inr tt);
  wc_start_perpetual n := n;
  wc_stop_perpetual n := n;
  wc_spawn_run n := n;
  wc_join n := Some n;
|}.

#[export] Instance websocketpp_client_ok uri : ReliableClient uri.
Proof. exists (λ _ _, True); intros; repeat eexists. Defined.

(** ** A program that records the calls of its handlers *)

Definition recorder {X} (f : X → ConnHandle → Event)
  : option (X → ConnHandle → M (list Event) unit) :=
  Some (λ x hdl, modify (λ l, l ++ [f x hdl])%list).

Definition recording : Handlers (list Event) :=
  mkHandlers (recorder EvSubscribe) (recorder EvUnsubscribe) (recorder EvClientAdvertise)
    (recorder EvClientUnadvertise) (recorder EvClientMessage).

(** ** A server with two channels and one client *)

Definition chatter : ChannelWithoutId := mkChannelWithoutId "/chatter" "cdr" "std_msgs/msg/String" "string data".
Definition odom : ChannelWithoutId := mkChannelWithoutId "/odom" "cdr" "nav_msgs/msg/Odometry" "".

Definition example_client : ClientInfo :=
  mkClientInfo "127.0.0.1:1" 1%positive {[ 2 := 20 ]} {[ 5 ]}.

Definition example_adv : ClientAdvertisement :=
  mkClientAdvertisement 5 "/cmd_vel" "json" "geometry_msgs/msg/Twist" [].

Definition example_server : ServerState :=
  mkServer "bridge" [CAPABILITY_CLIENT_PUBLISH] DEFAULT_SEND_BUFFER_LIMIT_BYTES false true 2
    {[ 1%positive := example_client ]}
    (<[ 1 := mkChannel 1 chatter ]> {[ 2 := mkChannel 2 odom ]})
    {[ 1%positive := {[ 5 := example_adv ]} ]}.

Definition example_net : Network := mkNetwork {[ 1%positive := 0 ]} true false.

Definition world_of (s : ServerState) : World (list Event) := mkWorld s example_net [] [].

Definition example_world : World (list Event) := world_of example_server.

Lemma example_client_ok : ClientOk (_channels example_server) 1 example_client.
Proof.
  split; [done| |]; cbn [subscriptionsByChannel example_client].
  - intros ch1 ch2 sid [<- _]%lookup_singleton_Some [<- _]%lookup_singleton_Some. done.
  - intros ch [sid [<- _]%lookup_singleton_Some]. by eexists.
Qed.

(** A text that a payload builder made. *)
Definition text_of (r : result string) : string := match r with inr s => s | inl _ => "" end.
