(* ===== verification/ConcreteRos.v ===== *)
(** * A concrete disk, ROS 1 and ROS 2

    One implementation of each parameter that stands for ROS, with its laws:
    the theorems' hypotheses can hold, and the definitions can be evaluated.  No
    theorem about the repository uses these except its own example. *)

From Stdlib Require Import Strings.Byte.
From S2P Require Import Prelude Serialization Common Logging Interfaces Server Regex.
From S2P Require Import MessageDefinitionCache Setup.
From S2P Require Ros1Bridge Ros1Setup Ros2Bridge Ros2Setup.

Local Open Scope string_scope.

(** ** Message definitions *)

(** Two packages on disk: [a] has a message that depends on itself and on one of
    [b], which depends back on it; [b] also has a message with a "wstring". *)
#[export] Instance example_disk : Ament := {|
  package_share_directory := {[ "a" := "/opt/a"; "b" := "/opt/b" ]};
  rosidl_interfaces := {[ "a" := "msg/Node.msg" +:+ nl; "b" := "msg/Leaf.msg" +:+ nl +:+ "msg/Text.msg" +:+ nl ]};
  files := {[ "/opt/a/msg/Node.msg" := "Node[] children" +:+ nl +:+ "b/Leaf leaf" +:+ nl;
              "/opt/b/msg/Leaf.msg" := "a/Node parent" +:+ nl;
              "/opt/b/msg/Text.msg" := "wstring text" +:+ nl ]};
|}.

(** ** rclcpp

    A graph of topics and endpoints; what is published is remembered.  A topic
    without a name cannot be subscribed to or published on. *)
Record Graph := mkGraph {
  graph_running : bool;
  graph_topics : list (string * list string);
  graph_endpoints : gmap string (list Ros2Bridge.QoS);
  graph_published : list (string * list byte);
}.

Definition named {A} (name : string) (r : Graph) (a : A) : Graph * (exn + A) :=
  if String.eqb name "" then (r, inl (StdException "invalid topic name")) else (r, inr a).

#[export] Instance example_rclcpp : Ros2Bridge.Rclcpp := {|
  Ros2Bridge.Ros := Graph;
  Ros2Bridge.ros_ok := graph_running;
  Ros2Bridge.ros_topic_names_and_types r := inr (graph_topics r);
  Ros2Bridge.ros_publishers_info_by_topic r topic := inr (default [] (graph_endpoints r !! topic));
  Ros2Bridge.ros_create_subscription s r := named (Ros2Bridge.sub_topic s) r tt;
  Ros2Bridge.ros_create_publisher p r := named (Ros2Bridge.pub_topic p) r tt;
  Ros2Bridge.ros_publish p data r :=
    (mkGraph (graph_running r) (graph_topics r) (graph_endpoints r)
       (graph_published r ++ [(Ros2Bridge.pub_topic p, data)]), inr tt);
|}.

#[export] Instance example_rclcpp_laws : Ros2Bridge.RclcppLaws.
Proof.
  split. split_and!; simpl; unfold named; intros *; try case_match; intros [= _ <-]; done.
Defined.

(** What was set from outside, the parameters' values, and their descriptors. *)
Record ParameterTable := mkParameterTable {
  overrides : gmap string Ros2Setup.ParameterValue;
  values : gmap string Ros2Setup.ParameterValue;
  descriptors : gmap string Ros2Setup.ParameterDescriptor;
}.

Definition same_type (a b : Ros2Setup.ParameterType) : bool :=
  match a, b with
  | Ros2Setup.PARAMETER_BOOL, Ros2Setup.PARAMETER_BOOL
  | Ros2Setup.PARAMETER_INTEGER, Ros2Setup.PARAMETER_INTEGER
  | Ros2Setup.PARAMETER_STRING, Ros2Setup.PARAMETER_STRING
  | Ros2Setup.PARAMETER_STRING_ARRAY, Ros2Setup.PARAMETER_STRING_ARRAY => true
  | _, _ => false
  end.

Definition admitsb (d : Ros2Setup.ParameterDescriptor) (v : Ros2Setup.ParameterValue) : bool :=
  same_type (Ros2Setup.type_of v) (Ros2Setup.pd_type d) &&
  match v with
  | Ros2Setup.ParamInteger z =>
      forallb (λ r, Z.leb (Ros2Setup.from_value r) z && Z.leb z (Ros2Setup.to_value r))
        (Ros2Setup.pd_integer_range d)
  | _ => true
  end.

Lemma admitsb_admits d v : admitsb d v = true → Ros2Setup.admits d v.
Proof.
  unfold admitsb, Ros2Setup.admits. intros [Ht Hv]%andb_true_iff. split.
  - by destruct (Ros2Setup.type_of v), (Ros2Setup.pd_type d).
  - destruct v; try done. apply Forall_forall. intros r Hr.
    apply list_elem_of_In in Hr. eapply forallb_forall in Hv; [|exact Hr]. lia.
Qed.

#[export] Instance example_parameters : Ros2Setup.RclcppParameters := {|
  Ros2Setup.Params := ParameterTable;
  Ros2Setup.declare_parameter d v p :=
    let n := Ros2Setup.pd_name d in
    let v := default v (overrides p !! n) in
    if admitsb d v
    then (mkParameterTable (overrides p) (<[n := v]> (values p)) (<[n := d]> (descriptors p)), inr tt)
    else (p, inl (StdException "invalid parameter"));
  Ros2Setup.get_parameter p n :=
    match values p !! n with
    | Some v => inr v
    | None => inl (StdException "parameter not declared")
    end;
  Ros2Setup.set_parameter n v p :=
    match descriptors p !! n with
    | Some d =>
        if negb (Ros2Setup.pd_read_only d) && admitsb d v
        then (mkParameterTable (overrides p) (<[n := v]> (values p)) (descriptors p), inr true)
        else (p, inr false)
    | None => (p, inl (StdException "parameter not declared"))
    end;
  Ros2Setup.declared p n := descriptors p !! n;
  Ros2Setup.parameter_type_exception := "wrong parameter type";
|}.

#[export] Instance example_parameters_laws : Ros2Setup.RclcppParametersLaws.
Proof.
  split; simpl.
  - intros d v p p'. case_match; [|done]. intros [= <-]. simpl. split; intros n.
    + case_decide; subst; by rewrite ?lookup_insert_eq, ?lookup_insert_ne by done.
    + intros Hn. by rewrite lookup_insert_ne by done.
  - intros d v p p'. case_match eqn:Had; [|done]. intros [= <-]. simpl.
    rewrite lookup_insert_eq. eexists. split; [done|by apply admitsb_admits].
  - intros n d v p Hd Hr. by rewrite Hd, Hr.
Defined.

(** A regular expression is a name, or matches everything. *)
#[export] Instance example_regex : StdRegex := {|
  std_regex s :=
    if String.eqb s "(" then inl (StdException "regex_error")
    else inr (λ name, inr (String.eqb s ".*" || String.eqb s name));
|}.

#[export] Instance example_regex_laws : StdRegexLaws.
Proof. split; simpl; intros *; case_match; by intros; simplify_eq. Defined.

#[export] Instance example_setup : Ros2Setup.Ros2SetupLibrary := {|
  Ros2Setup.ros_subscribe_clock r := (r, inr tt);
|}.

(** ** roscpp

    The topics of the master, if it answers, and the known message
    descriptions. *)
Record Master := mkMaster {
  master_running : bool;
  master_topics : option (list (string * string));
  descriptions : gmap string Ros1Bridge.MessageDescription;
  master_published : list (string * list byte);
}.

#[export] Instance example_roscpp : Ros1Bridge.Roscpp := {|
  Ros1Bridge.Ros := Master;
  Ros1Bridge.ros_ok := master_running;
  Ros1Bridge.ros_getTopics := master_topics;
  Ros1Bridge.ros_subscribe s r :=
    (r, if String.eqb (Ros1Bridge.sub_topic s) "" then inl (StdException "invalid name") else inr tt);
  Ros1Bridge.ros_getMessageDescription datatype r := (r, inr (descriptions r !! datatype));
  Ros1Bridge.ros_advertise o r := (r, inr true);
  Ros1Bridge.ros_read m := inr (getData m);
  Ros1Bridge.ros_publish o data r :=
    (mkMaster (master_running r) (master_topics r) (descriptions r)
       (master_published r ++ [(Ros1Bridge.ao_topic o, data)]), inr tt);
  Ros1Bridge.ros_createTimer ms r :=
    (r, if (Z.leb 0 ms && Z.ltb ms (2 ^ 31 * 1000))%Z then inr tt
        else inl (StdException "Duration is out of dual 32-bit range"));
|}.

#[export] Instance example_roscpp_laws : Ros1Bridge.RoscppLaws.
Proof.
  split.
  - split_and!; simpl; intros *; try case_match; try (intros [= _ <-]); done.
  - simpl. intros ms r Hms. destruct (Z.leb_spec 0 ms), (Z.ltb_spec ms (2 ^ 31 * 1000)); simpl; first [done|lia].
Defined.

(** The parameter server: the parameters that are set, by type. *)
Record RosParameters := mkRosParameters {
  string_params : gmap string string;
  int_params : gmap string Z;
  bool_params : gmap string bool;
  strings_params : gmap string (list string);
}.

#[export] Instance example_ros_params : Ros1Setup.RosParams := {|
  Ros1Setup.Params := RosParameters;
  Ros1Setup.param_string p n d := default d (string_params p !! n);
  Ros1Setup.param_int p n d := default d (int_params p !! n);
  Ros1Setup.param_bool p n d := default d (bool_params p !! n);
  Ros1Setup.param_strings p n d := default d (strings_params p !! n);
|}.

#[export] Instance example_ros1_setup : Ros1Setup.Ros1SetupLibrary := {|
  Ros1Setup.ros_subscribe_clock r := (r, inr tt);
  Ros1Setup.std_exception_what := "std::exception";
|}.
