(* ===== verification/WireTheorems.v ===== *)
(** * What goes on the wire, and what is logged

    The properties of the byte-level writers, of the binary frames and their
    reader, of the opcode hash and of the log adapter. *)

From Stdlib Require Import Strings.Byte.
From S2P Require Import Prelude Serialization Common Logging Interfaces Server ServerFacts.
From S2P Require Import ServerInvariant ServerSpec Client Protocol Concrete.

Local Open Scope Z_scope.
Local Open Scope string_scope.
Local Open Scope list_scope.

(** The bytes a writer is documented to store. *)
Definition writes_le (n : nat) (buf : list byte) (off : nat) (val : Z) (r : option (list byte))
    : Prop :=
  if decide (off + n ≤ length buf)%nat then
    ∃ buf', r = Some buf' ∧ length buf' = length buf ∧
      le_combine (take n (drop off buf')) = val mod 2 ^ (8 * Z.of_nat n) ∧
      ∀ i, (i < off ∨ off + n ≤ i)%nat → buf' !! i = buf !! i
  else r = None.

Lemma memcpy_writes_le n buf off val :
  writes_le n buf off val (memcpy buf off (le_split n val)).
Proof.
  unfold writes_le. case_decide as Hlen.
  - rewrite memcpy_in by (by rewrite length_le_split). eexists. split; [done|].
    assert (memcpy buf off (le_split n val) =
      Some (take off buf ++ le_split n val ++ drop (off + length (le_split n val)) buf)) as Hm
      by (apply memcpy_in; by rewrite length_le_split).
    split_and!.
    + by apply length_memcpy in Hm.
    + apply memcpy_read in Hm. rewrite length_le_split in *. rewrite Hm. apply le_combine_split.
    + intros i Hi. rewrite length_le_split. destruct Hi as [Hi|Hi].
      * rewrite lookup_app_l by (rewrite length_take; lia). by apply lookup_take_lt.
      * rewrite lookup_app_r by (rewrite length_take; lia).
        rewrite lookup_app_r by (rewrite length_le_split, length_take; lia).
        rewrite lookup_drop, length_le_split, length_take. f_equal. lia.
  - apply memcpy_out. rewrite length_le_split. lia.
Qed.

(** C38. [WriteUint32LE] and [WriteUint64LE] store the low bytes of their argument
    least significant first and touch no other byte, on little- and big-endian
    machines alike; a store that does not fit is out of bounds. *)
Theorem writers_little_endian `{Platform} buf off val :
  writes_le 4 buf off val (WriteUint32LE buf off val) ∧
  writes_le 8 buf off val (WriteUint64LE buf off val).
Proof.
  rewrite WriteUint32LE_memcpy, WriteUint64LE_memcpy. split; apply memcpy_writes_le.
Qed.

(** What a client reads in the header of a message data frame. *)
Definition frame_field (off n : nat) (frame : list byte) : Z :=
  le_combine (take n (drop off frame)).

Lemma frame_field_split pre off n v post :
  length pre = off →
  frame_field off n (pre ++ le_split n v ++ post) = v mod 2 ^ (8 * Z.of_nat n).
Proof.
  intros <-. unfold frame_field. rewrite drop_app_length.
  rewrite take_app_length' by (by rewrite length_le_split). apply le_combine_split.
Qed.

(** The buffer [sendMessage] fills never overflows and is read back by the
    client as it was meant, on every machine: the opcode, the subscription id,
    the 64-bit timestamp, and the payload that the test client's handler
    extracts. *)
Theorem message_data_roundtrip `{Platform} subId timestamp data :
  ∃ frame, message_data subId timestamp data = Some frame ∧
    frame !! 0%nat = Some (byte_of_Z (BinaryOpcode_value MESSAGE_DATA)) ∧
    frame_field 1 4 frame = u32 subId ∧
    frame_field 5 8 frame = u64 timestamp ∧
    test_binary_handler frame = Some data.
Proof.
  exists (message_frame subId timestamp data). split; [apply message_data_frame|].
  split_and!.
  - done.
  - exact (frame_field_split [byte_of_Z 1] 1 4 subId _ eq_refl).
  - transitivity (frame_field 5 8 ((byte_of_Z 1 :: le_split 4 subId) ++ le_split 8 timestamp ++ data));
      [done|]. by apply frame_field_split.
  - unfold test_binary_handler, message_frame. rewrite decide_True.
    2: { simpl. rewrite !length_app, !length_le_split. lia. }
    simpl. rewrite !drop_app_ge by (rewrite ?length_le_split; lia).
    by rewrite !length_le_split.
Qed.

(** The time frame is nine bytes: the opcode and the 64-bit timestamp. *)
Theorem time_data_roundtrip `{Platform} timestamp :
  ∃ frame, time_data timestamp = Some frame ∧ length frame = 9%nat ∧
    frame !! 0%nat = Some (byte_of_Z (BinaryOpcode_value TIME_DATA)) ∧
    frame_field 1 8 frame = u64 timestamp.
Proof.
  exists (time_frame timestamp). split; [apply time_data_frame|]. split_and!.
  - unfold time_frame. simpl. by rewrite length_le_split.
  - done.
  - rewrite <-(app_nil_r (time_frame timestamp)).
    exact (frame_field_split [byte_of_Z 2] 1 8 timestamp [] eq_refl).
Qed.

(** The [switch] on the opcode's hash takes strings that are not opcodes for
    opcodes: the 32-bit hash collides, on signed and unsigned [char] alike. *)
Theorem opcode_collisions `{Platform, Iteration, LogChannels, Nlohmann, Websocketpp}
    {E} (handlers : Handlers E) hdl payload :
  dispatch_op handlers hdl "fylznbk" payload = handleSubscribe handlers hdl payload ∧
  dispatch_op handlers hdl "evvisvt" payload = handleUnsubscribe handlers hdl payload ∧
  dispatch_op handlers hdl "jnvvtls" payload = handleAdvertise handlers hdl payload ∧
  dispatch_op handlers hdl "srspxaa" payload = handleUnadvertise handlers hdl payload.
Proof.
  unfold dispatch_op.
  rewrite SUBSCRIBE_value, UNSUBSCRIBE_value, ADVERTISE_value, UNADVERTISE_value.
  assert (Integer "fylznbk" = 2946386435 ∧ Integer "evvisvt" = 4190043798 ∧
          Integer "jnvvtls" = 3642182174 ∧ Integer "srspxaa" = 429097563) as (-> & -> & -> & ->).
  { unfold Integer, fnv_loop, fnv_step, char_to_u32.
    destruct char_is_signed; split_and!; vm_compute; reflexivity. }
  done.
Qed.

(** The log adapter calls its callback for a line at most once, and exactly when its
    channel's bit is set in the dynamic mask; that bit is then set in the static
    mask the logger was built with, whatever masks were set and cleared since.
    A string without a NUL is forwarded whole. *)
Theorem logger_forwards `{LogChannels} hint static l (k : Z) msg :
  logger_reachable hint static l → (0 ≤ k)%Z →
  write (2 ^ k) msg l =
    (if Z.testbit (_dynamicChannels l) k
     then match forwarded hint (2 ^ k) with Some lv => _callback l lv msg | None => [] end
     else []) ∧
  (Ascii.zero ∉ String.list_ascii_of_string msg → write_string (2 ^ k) msg l = write (2 ^ k) msg l) ∧
  (Z.testbit (_dynamicChannels l) k = true → static_test (2 ^ k) l = true).
Proof.
  intros Hl Hk. destruct (reachable_static _ _ _ Hl) as [Hs Hh]. split_and!.
  - by rewrite write_forwarded, dynamic_test_bit, Hh.
  - intros Hmsg. unfold write_string. by rewrite c_str_whole.
  - intros Hb. rewrite static_test_bit, Hs by done. by apply (reachable_dynamic hint static l).
Qed.

Lemma logger_forwards_witness :
  ∃ l, write 0x10 "oops" l = [(LogError, "oops")] ∧ static_test 0x10 l = true.
Proof.
  exists (set_callback owner_callback (set_channels 0x30 (new_logger_channels 0xffffffff error))).
  destruct (logger_forwards error 0xffffffff
    (set_callback owner_callback (set_channels 0x30 (new_logger_channels 0xffffffff error)))
    4 "oops") as (H1 & _ & H2).
  - apply logger_callback, logger_set; [split; reflexivity || discriminate|apply logger_init].
  - discriminate.
  - split; [exact H1|apply H2; reflexivity].
Defined.

(** The masks work as bit sets: setting channels adds those the static mask
    allows, clearing removes, and setting none clears all. *)
Lemma logger_masks channels l (i : Z) :
  is_u32 channels → (0 ≤ i < 32)%Z →
  Z.testbit (_dynamicChannels (set_channels channels l)) i =
    (if Z.eqb channels 0 then false
     else Z.testbit (_dynamicChannels l) i ||
          (Z.testbit channels i && Z.testbit (_staticChannels l) i)) ∧
  Z.testbit (_dynamicChannels (clear_channels channels l)) i =
    Z.testbit (_dynamicChannels l) i && negb (Z.testbit channels i).
Proof.
  intros Hc Hi. split.
  - unfold set_channels. destruct (Z.eqb channels 0); simpl.
    + rewrite Z.land_spec, not_u32_testbit by done.
      change 0xffffffff with (Z.ones 32). by rewrite Z.ones_spec_low, andb_false_r by lia.
    + by rewrite Z.lor_spec, Z.land_spec.
  - simpl. by rewrite Z.land_spec, not_u32_testbit.
Qed.
