(* ===== verification/ServerTheorems.v ===== *)
(** * The server's properties

    The invariant over all runs, and what each operation promises its caller
    and the connected clients. *)

From Stdlib Require Import Strings.Byte.
From S2P Require Import Prelude Serialization Common Logging Interfaces Server ServerFacts.
From S2P Require Import ServerInvariant ServerSpec Client Protocol Reachable ServerTypes.
From S2P Require Import Views ViewSteps Concrete.

Local Open Scope Z_scope.
Local Open Scope string_scope.
Local Open Scope list_scope.

(** ** Lemmas *)

Section lemmas.
Context `{Platform, Iteration, LogChannels, Nlohmann, Websocketpp}.
Context `{!NlohmannLaws, !WebsocketppLaws}.
Context {E : Type} (handlers : Handlers E).
Implicit Types w : World E.

(** The advertisement names each channel once. *)
Definition advertises (s : ServerState) (txt : string) : Prop :=
  ∃ j l, json_parse txt = inr j ∧ json_string_at j "op" = inr "advertise" ∧
    l ≡ₚ (map_to_list (_channels s)).*2 ∧
    json_elements j "channels" = inr (Channel_to_json <$> l).

Lemma advertisement_advertises s txt :
  advertisement_text s = inr txt → advertises s txt.
Proof.
  unfold advertisement_text. rewrite push_channels_all.
  destruct (push_all_null (Channel_to_json <$> (iter_map (_channels s)).*2))
    as (j & -> & Hitems & _).
  intros Htxt. exists (advertise_json j), (iter_map (_channels s)).*2.
  split_and!.
  - by apply parse_dump.
  - unfold advertise_json. apply string_at_object; solve_object.
  - by rewrite iter_map_perm.
  - unfold advertise_json. erewrite elements_object; [by rewrite Hitems| |]; solve_object.
Qed.

Definition open_state (endpoint : string) (hdl : ConnHandle) (s : ServerState) : ServerState :=
  upd_clients (<[ hdl := mkClientInfo endpoint hdl ∅ ∅ ]>) s.

Lemma handleConnectionOpened_run hdl info txt w :
  ws_has_con (net w) hdl = true → _clients (srv w) !! hdl = None →
  json_dump (serverInfo_json (_name (srv w)) (_capabilities (srv w))) = inr info →
  advertisement_text (srv w) = inr txt →
  wp (handleConnectionOpened (E:=E) hdl)
     (λ r w', r = inr tt ∧ env w' = env w ∧
        srv w' = open_state (ws_remote_endpoint (net w) hdl) hdl (srv w) ∧
        emits (only hdl [TextFrame info; TextFrame txt]) [] w w') w.
Proof.
  intros Hcon Hnew Hinfo Htxt. unfold handleConnectionOpened, get_con_from_hdl.
  rewrite !wp_bind, wp_gets, Hcon, wp_ret. unfold remoteEndpointString, alog.
  rewrite wp_bind, wp_gets, Hcon, wp_bind, wp_gets, wp_bind, wp_emit, wp_bind, wp_update.
  rewrite wp_bind, wp_server, wp_bind, wp_server, wp_bind, wp_lift. simpl. rewrite Hinfo.
  rewrite wp_bind, wp_emit. unfold on_net_. rewrite wp_bind, wp_on_net. simpl.
  unfold channels_json. rewrite !wp_bind, wp_server, wp_lift. simpl.
  unfold advertisement_text in Htxt. destruct (push_channels _ _) as [e|j]; [done|].
  eapply wp_mono; [apply sends_sendJson|]. intros r w' (-> & [Hs He] & Hem). simpl in *.
  split_and!; [done|done| |].
  - rewrite Hs. unfold open_state, upd_clients, emplace. by rewrite Hnew.
  - unfold json_frames in Hem. rewrite Htxt in Hem.
    destruct Hem as (evs & Ho & Hsent & Hcalls). simpl in Ho.
    eexists. split; [by rewrite Ho, <-!app_assoc|]. split.
    + intros h. rewrite !sent_app, Hsent. unfold only. simpl.
      case_decide as Hh; case_decide; naive_solver.
    + by rewrite !calls_app, Hcalls.
Qed.

Lemma for_each_app {S X} (l1 l2 : list X) (body : X → M S unit) s Q :
  wp (for_each l1 body)
     (λ r s', match r with inl e => Q (inl e) s' | inr _ => wp (for_each l2 body) Q s' end) s →
  wp (for_each (l1 ++ l2) body) Q s.
Proof.
  revert s. induction l1 as [|x l1 IH]; intros s; simpl; [done|].
  rewrite !wp_bind. intros Hw. eapply wp_mono; [exact Hw|].
  intros [e|a] s' Hr; [done|]. by apply IH.
Qed.

(** The id [addChannel] gives out, and the ids of a sequence of calls. *)
Fixpoint addChannels (l : list ChannelWithoutId) : M (World E) (list ChannelId) :=
  match l with
  | [] => ret []
  | c :: l => let! id := addChannel c in let! ids := addChannels l in ret (id :: ids)
  end.

Lemma addChannels_run l n w :
  _nextChannelId (srv w) = n → (0 ≤ n)%Z → (n + Z.of_nat (length l) < 2 ^ 32)%Z →
  (∀ id, is_Some (_channels (srv w) !! id) → (id ≤ n)%Z) →
  wp (addChannels l)
     (λ r w', r = inr (seqZ (n + 1) (Z.of_nat (length l))) ∧
        net w' = net w ∧ env w' = env w ∧ out w' = out w ∧
        ∀ id c, _channels (srv w') !! id = Some c ↔
          _channels (srv w) !! id = Some c ∨
          (n < id)%Z ∧ (λ ch, mkChannel id ch) <$> l !! Z.to_nat (id - n - 1) = Some c) w.
Proof.
  revert n w. induction l as [|ch l IH]; intros n w Hn H0' Hlen Hle.
  { simpl. rewrite wp_ret. split_and!; [done..|]. intros id c. split; [by left|].
    by intros [?|[_ ?]]. }
  cbn [length] in *. simpl. rewrite wp_bind. unfold addChannel.
  rewrite wp_bind, wp_server, wp_bind, wp_update, wp_bind, wp_update, wp_ret.
  rewrite Hn, u32_id by (split; lia). rewrite wp_bind.
  assert (_channels (srv w) !! (n + 1)%Z = None) as Hnone.
  { apply eq_None_not_Some. intros Hs%Hle. lia. }
  eapply wp_mono.
  { apply (IH (n + 1)%Z); [done|lia|lia|]. simpl. rewrite emplace_fresh by done. simpl.
    intros id [c Hc]. apply lookup_insert_Some in Hc as [[<- _]|[_ Hc]]; [lia|].
    pose proof (Hle id (ex_intro _ c Hc)). lia. }
  intros r w' (-> & Hnet & Henv & Hout & Hch). rewrite wp_ret. simpl in *. split_and!; [|done..|].
  { f_equal. rewrite (seqZ_cons (n + 1)) by lia. f_equal. f_equal; lia. }
  intros id c. rewrite Hch, emplace_fresh by done. simpl. rewrite lookup_insert_Some.
  destruct (decide (id = n + 1)%Z) as [->|Hne].
  - replace (Z.to_nat (n + 1 - n - 1)) with 0%nat by lia. simpl.
    split; [intros [[[_ <-]|[? _]]|[? _]]; [right; split; [lia|done]|done|lia]|].
    intros [Hc|[_ [= <-]]]; [congruence|]. left. by left.
  - split.
    + intros [[[? _]|[_ Hc]]|[Hlt Hc]]; [congruence|by left|]. right. split; [lia|].
      replace (Z.to_nat (id - n - 1)) with (S (Z.to_nat (id - (n + 1) - 1))) by lia. done.
    + intros [Hc|[Hlt Hc]]; [left; right; by split|]. right. split; [lia|].
      replace (Z.to_nat (id - n - 1)) with (S (Z.to_nat (id - (n + 1) - 1))) in Hc by lia. done.
Qed.
End lemmas.

(** ** Properties *)

Section theorems.
Context `{Platform, Iteration, LogChannels, Nlohmann, Websocketpp}.
Context `{!NlohmannLaws, !WebsocketppLaws}.
Context {E : Type} (handlers : Handlers E).
Implicit Types w : World E.

(** C3. In every run of the server, whatever its owner, its clients and its
  libraries do, the containers agree: channels are filed under their own
  32-bit id, each client's subscription ids name one channel each, every
  subscribed channel exists, and every publication is one the disconnect
  handler will withdraw. *)
Theorem server_invariant name capabilities limit tls w0 w :
srv w0 = new_Server name capabilities limit tls →
rtc (server_step handlers) w0 w → ServerInv (srv w).
Proof. intros Hw0 Hrun. apply (server_steps_inv handlers w0 w Hrun). rewrite Hw0. apply new_Server_inv. Qed.

(** C11. Types are kept.  In every run of the server, whatever clients, owner and
  libraries do, every id it keeps and every id it hands to a handler is one of
  its 32-bit type, every published message a handler gets is whole and carries
  its advertisement, and everything it sends is the text of a JSON value or one
  of the two binary messages of the protocol. *)
Theorem server_types name capabilities limit tls w0 w :
srv w0 = new_Server name capabilities limit tls → Forall typed_event (out w0) →
rtc (server_step handlers) w0 w → typed_server (srv w) ∧ Forall typed_event (out w).
Proof.
intros Hw0 Hout Hrun. assert (typed w0) as Ht.
{ split; [|done]. rewrite Hw0. split; [done|]. split_and!; apply map_Forall_empty. }
clear Hw0 Hout. induction Hrun as [w0|w0 w1 w Hs _ IH]; [done|].
by apply IH, (server_step_types handlers w0 w1 Hs).
Qed.

(** C5. In every run of the server, whatever is called in whatever order, a
  connected client has been told only of channels that exist, each as it is:
  what a client of the protocol makes of all the frames handed over for its
  connection is part of the server's table of channels.  And once
  [broadcastChannels] returns it is the whole table, unless the channels have no
  text. *)
Theorem clients_informed `{!NlohmannUtf8} name capabilities limit tls w0 w hdl :
srv w0 = new_Server name capabilities limit tls →
valid_utf8 name → Forall valid_utf8 capabilities → rtc (server_step handlers) w0 w →
is_Some (_clients (srv w) !! hdl) →
known w hdl ⊆ _channels (srv w) ∧
∀ txt, advertisement_text (srv w) = inr txt →
  known (broadcastChannels w).1 hdl = _channels (srv w).
Proof.
intros Hw0 Hn Hc Hrun Hcl.
assert (informed w) as HI.
{ assert (informed w0) as HI0 by by eapply informed_fresh.
  clear Hw0 Hcl. induction Hrun as [w0|w0 w1 w Hs _ IH]; [done|].
  by apply IH, (server_step_informed handlers w0 w1 Hs). }
split; [by apply informed_view; [apply HI|]|]. intros txt Htxt.
destruct (broadcastChannels_sends txt w Htxt) as (_ & [Hs _] & _).
rewrite (broadcastChannels_updates txt w HI Htxt hdl); rewrite Hs; done.
Qed.

(** C10. No frame a client sends, text or binary, of any length and content, makes
  [handleMessage] throw or read out of bounds, as long as the owner's handlers
  throw only [std::exception]s. *)
Theorem handleMessage_total timestamp hdl msg w :
HandlersTame handlers → (handleMessage handlers timestamp hdl msg w).2 = inr tt.
Proof. apply handleMessage_ok. Qed.

(** A text message that cannot be parsed, has no string under "op" or comes
  from a client that is not connected changes nothing: its sender gets one
  error status with the reason, and no handler is called. *)
Theorem handleMessage_rejects timestamp hdl txt e w :
(json_parse txt = inl e ∨
 (∃ j, json_parse txt = inr j ∧ json_string_at j "op" = inl e) ∨
 (∃ j op, json_parse txt = inr j ∧ json_string_at j "op" = inr op ∧
    _clients (srv w) !! hdl = None ∧ e = StdException "map::at")) →
wp (handleMessage handlers timestamp hdl (TextFrame txt))
   (sends (only hdl (json_frames (status_json Error
     (String.append "Error parsing message: " (what e))))) w) w.
Proof.
intros Hrej. unfold handleMessage. rewrite wp_try_catch.
assert (handleTextMessage handlers hdl txt w = (w, inl e) ∧ catchable e = true) as [Heq Hcatch].
{ unfold handleTextMessage, bind, lift.
  destruct Hrej as [Hp|[(j & Hp & Hop)|(j & op & Hp & Hop & Hc & ->)]]; rewrite Hp.
  - split; [done|]. pose proof (tame_parse txt) as Ht. by rewrite Hp in Ht.
  - rewrite Hop. split; [done|]. pose proof (tame_string_at j "op") as Ht. by rewrite Hop in Ht.
  - rewrite Hop. unfold client_at, bind, server, gets. by rewrite Hc. }
unfold wp at 1. rewrite Heq. simpl. rewrite Hcatch. apply sends_sendStatus.
Qed.

(** A subscribe message with a malformed entry takes effect up to that entry:
  the subscriptions before it stay, the handler was called for them, and the
  client gets an error status after their replies. *)
Theorem subscribe_partial timestamp hdl c subs bad rest txt j e w :
handler_returns (_subscribeHandler handlers) →
Forall (λ r, is_u32 r.1 ∧ is_u32 r.2) subs → _clients (srv w) !! hdl = Some c →
json_parse txt = inr j → json_string_at j "op" = inr "subscribe" →
json_elements j "subscriptions" = inr ((subscription_json <$> subs) ++ bad :: rest) →
json_uint32_at bad "id" = inl e →
let channels := dom (_channels (srv w)) in
let m := subscriptionsByChannel c in
wp (handleMessage handlers timestamp hdl (TextFrame txt))
   (λ r w', r = inr tt ∧
      srv w' = set_subscriptions hdl (Subscriptions.run channels m subs) (srv w) ∧
      emits (only hdl (Subscriptions.replies channels m subs ++
                       json_frames (status_json Error
                         (String.append "Error parsing message: " (what e)))))
        (calls_of (_subscribeHandler handlers) EvSubscribe hdl
           (Subscriptions.requested channels m subs)) w w') w.
Proof.
intros Hret Hr Hc Hp Hop Hel Hbad channels m. unfold handleMessage. rewrite wp_try_catch.
assert (catchable e = true) as Hcatch.
{ pose proof (tame_uint32_at bad "id") as Ht. by rewrite Hbad in Ht. }
unfold handleTextMessage.
rewrite wp_bind, wp_lift, Hp, wp_bind, wp_lift, Hop, wp_bind, wp_client_at, Hc.
rewrite dispatch_subscribe. unfold handleSubscribe. rewrite wp_bind, wp_lift, Hel.
apply for_each_app. eapply wp_mono; [by apply (subscribe_list_run handlers hdl c subs)|].
intros r w1 (-> & Hs1 & Hem1). simpl. unfold subscribe_one.
rewrite wp_bind, wp_bind, wp_lift, Hbad, Hcatch.
eapply wp_mono; [apply sends_sendStatus|]. intros r w2 (-> & [Hs2 _] & Hem2).
split_and!; [done|by rewrite Hs2|].
eapply emits_ext; [eapply emits_trans; [exact Hem1|exact Hem2]| |by rewrite app_nil_r].
intros h. unfold only. by case_decide.
Qed.

(** C14. [sendMessage] sends exactly one binary frame, and only to a client whose
  connection is open, whose send buffer is below the limit and which is
  subscribed to the channel, under that client's subscription id; otherwise
  it does nothing at all. *)
Theorem sendMessage_delivers hdl chanId timestamp data w :
(∀ subId, delivery w hdl chanId = Some subId ↔
   ws_has_con (net w) hdl = true ∧
   (ws_buffered_amount (net w) hdl < _send_buffer_limit_bytes (srv w))%Z ∧
   ∃ c, _clients (srv w) !! hdl = Some c ∧ subscriptionsByChannel c !! chanId = Some subId) ∧
match delivery w hdl chanId with
| Some subId => wp (sendMessage hdl chanId timestamp data)
    (sends (only hdl [BinaryFrame (message_frame subId timestamp data)]) w) w
| None => sendMessage hdl chanId timestamp data w = (w, inr tt)
end.
Proof.
split.
- intros subId. unfold delivery. destruct (ws_has_con (net w) hdl); simpl; [|naive_solver].
  destruct (Z.ltb_spec (ws_buffered_amount (net w) hdl) (_send_buffer_limit_bytes (srv w)));
    [|split; [done|lia]].
  rewrite bind_Some. naive_solver.
- pose proof (sendMessage_eq hdl chanId timestamp data w) as Heq.
  destruct (delivery w hdl chanId) as [subId|]; [|exact Heq].
  unfold wp. rewrite Heq. apply sends_sendBinary.
Qed.

(** [removeChannel] makes the channel unknown, ends every client's
  subscription to it, changes nothing else, and tells each connected client
  once that the channel is gone; the owner's handlers are not called. *)
Theorem removeChannel_effect chanId w :
wp (removeChannel chanId)
   (λ r w', r = inr tt ∧ env w' = env w ∧
      srv w' = remove_channel_state chanId (srv w) ∧
      _channels (srv w') !! chanId = None ∧
      (∀ hdl c, _clients (srv w') !! hdl = Some c →
         subscriptionsByChannel c !! chanId = None) ∧
      emits (to_all (srv w) (json_frames (unadvertise_json chanId))) [] w w') w.
Proof.
eapply wp_mono; [apply removeChannel_run|]. intros r w' (-> & He & Hs & Hem).
split_and!; [done|done|done| | |done].
- rewrite Hs. simpl. apply lookup_delete_eq.
- intros hdl c. rewrite Hs. simpl. rewrite lookup_fmap.
  intros (c0 & _ & ->)%fmap_Some_1. apply lookup_delete_eq.
Qed.

(** C31. Channels added one after the other, fewer than 2^32 in all, get
  consecutive ids that no channel had, and each is registered under its id
  next to those that were there. *)
Theorem addChannel_fresh channels n w :
_nextChannelId (srv w) = n → (0 ≤ n)%Z → (n + Z.of_nat (length channels) < 2 ^ 32)%Z →
(∀ id, is_Some (_channels (srv w) !! id) → (id ≤ n)%Z) →
wp (addChannels channels)
   (λ r w', r = inr (seqZ (n + 1) (Z.of_nat (length channels))) ∧
      ∀ id c, _channels (srv w') !! id = Some c ↔
        _channels (srv w) !! id = Some c ∨
        (n < id)%Z ∧ (λ ch, mkChannel id ch) <$> channels !! Z.to_nat (id - n - 1) = Some c) w.
Proof.
intros Hn Hpos Hlen Hle. eapply wp_mono; [by apply (addChannels_run channels n)|].
intros r w' (-> & _ & _ & _ & Hch). done.
Qed.

(** When the 32-bit counter has come round to an id that is still in use,
  [addChannel] returns that id and drops the new channel. *)
Theorem addChannel_wraps channel old w :
_nextChannelId (srv w) = (2 ^ 32 - 1)%Z → _channels (srv w) !! 0%Z = Some old →
wp (addChannel channel)
   (λ r w', r = inr 0%Z ∧ _channels (srv w') = _channels (srv w)) w.
Proof.
intros Hn Hold. unfold addChannel. rewrite wp_bind, wp_server, Hn.
change (u32 (2 ^ 32 - 1 + 1)) with 0%Z.
rewrite wp_bind, wp_update, wp_bind, wp_update, wp_ret. simpl.
by rewrite (emplace_present 0%Z _ old).
Qed.

(** The answer of [findSubscriptionBySubId] is the channel subscribed under
  the id, if there is one: it does not depend on the order in which the hash
  table is visited. *)
Theorem findSubscriptionBySubId_order (I1 I2 : Iteration) channels hdl c subId :
ClientOk channels hdl c →
@findSubscriptionBySubId I1 c subId = @findSubscriptionBySubId I2 c subId.
Proof.
intros Hok. apply option_eq. intros [ch sid].
destruct (decide (sid = subId)) as [->|Hne].
- by rewrite !(findSubscriptionBySubId_iff _ _ _ _ _ Hok).
- split; intros Hf; by apply findSubscriptionBySubId_Some in Hf as [? _].
Qed.

(** [broadcastTime] sends the time frame to every connected client and to no
  one else, whatever becomes of the individual sends. *)
Theorem broadcastTime_reaches_all timestamp w :
wp (broadcastTime timestamp) (sends (to_all (srv w) [BinaryFrame (time_frame timestamp)]) w) w.
Proof. apply broadcastTime_sends. Qed.

(** [broadcastChannels] sends every connected client, and no one else, one
  message, which parses to an advertisement of the current channels, each
  once; an advertisement without a channel carries null. *)
Theorem broadcastChannels_reaches_all txt w :
advertisement_text (srv w) = inr txt →
wp broadcastChannels (sends (to_all (srv w) [TextFrame txt]) w) w ∧
advertises (srv w) txt ∧
(_channels (srv w) = ∅ → json_parse txt = inr (advertise_json json_null)).
Proof.
intros Htxt. split_and!.
- by apply broadcastChannels_sends.
- by apply advertisement_advertises.
- intros Hno. apply parse_dump. unfold advertisement_text in Htxt.
  by rewrite Hno, iter_map_empty in Htxt.
Qed.

(** A client that connects is registered without subscriptions or
  publications and is sent two messages: the server's name and capabilities,
  and the advertisement of all channels. *)
Theorem handleConnectionOpened_greets hdl info txt w :
ws_has_con (net w) hdl = true → _clients (srv w) !! hdl = None →
json_dump (serverInfo_json (_name (srv w)) (_capabilities (srv w))) = inr info →
advertisement_text (srv w) = inr txt →
wp (handleConnectionOpened hdl)
   (λ r w', r = inr tt ∧ env w' = env w ∧
      srv w' = open_state (ws_remote_endpoint (net w) hdl) hdl (srv w) ∧
      emits (only hdl [TextFrame info; TextFrame txt]) [] w w') w ∧
json_parse info = inr (serverInfo_json (_name (srv w)) (_capabilities (srv w))) ∧
advertises (srv w) txt.
Proof.
intros Hcon Hnew Hinfo Htxt. split_and!.
- by apply handleConnectionOpened_run.
- by apply parse_dump.
- by apply advertisement_advertises.
Qed.

(** C15. A client that disconnects leaves nothing behind, and the owner hears of
  each id it ever advertised and of each channel it was subscribed to exactly
  once, the publications first. *)
Theorem handleConnectionClosed_cleans_up hdl c w :
handler_returns (_clientUnadvertiseHandler handlers) →
handler_returns (_unsubscribeHandler handlers) →
_clients (srv w) !! hdl = Some c →
wp (handleConnectionClosed handlers hdl)
   (λ r w', r = inr tt ∧
      srv w' = close_state hdl (srv w) ∧
      ∃ ids chans, ids ≡ₚ elements (advertisedChannels c) ∧
        chans ≡ₚ elements (dom (subscriptionsByChannel c)) ∧
        emits silent
          (calls_of (_clientUnadvertiseHandler handlers) EvClientUnadvertise hdl ids ++
           calls_of (_unsubscribeHandler handlers) EvUnsubscribe hdl chans) w w') w.
Proof.
intros Hua Hus Hc. eapply wp_mono; [by apply handleConnectionClosed_run|].
intros r w' (-> & Hs & Hem). split_and!; [done|done|].
eexists _, _. split_and!; [| |exact Hem].
- apply iter_set_perm.
- rewrite iter_map_perm. apply NoDup_Permutation.
  + apply NoDup_fst_map_to_list.
  + apply NoDup_elements.
  + intros ch. rewrite elem_of_elements, elem_of_dom, list_elem_of_fmap. split.
    * intros ([k v] & -> & Hin). apply elem_of_map_to_list in Hin. by exists v.
    * intros [v Hv]. exists (ch, v). split; [done|]. by apply elem_of_map_to_list.
Qed.

(** C36. How [stop] ends.  Its waiting loop gives up after a second of sleeps,
  within the fuel it has, and more fuel would change nothing.  A server that is
  stopped already is left as it is.  Otherwise, if the pending handlers it runs
  return, it comes to one of two ends: it returns, with no client left and no
  server thread; or it joins the server's thread, and waits there for good
  because [run()] never returns.  It returns if [run()] does.  And it returns if some
  client is connected when it looks for connections to close, since it then stops
  the endpoint, provided that [run()] returns once the endpoint is stopped: so only a
  server without clients, whose [run()] a connection that opens meanwhile keeps
  going, may never be stopped. *)
Theorem stop_ends (poll_one : M (World E) unit) fuel w :
(stop_fuel ≤ fuel)%nat →
stop_wait poll_one fuel 0 w = stop_wait poll_one stop_fuel 0 w ∧
(stop_wait poll_one stop_fuel 0 w).2 ≠ inr false ∧
(ws_stopped (net w) = true → stop poll_one w = (w, inr tt)) ∧
(ws_stopped (net w) = false → total poll_one →
 wp (stop poll_one) (λ r w', (r = inr tt ∧ shut_down w') ∨ join_blocks r w') w) ∧
(total poll_one → (∀ n, is_Some (ws_join n)) → (stop poll_one w).2 = inr tt) ∧
(run_returns_when_stopped → total poll_one → somebody_connected w →
 (stop poll_one w).2 = inr tt).
Proof.
unfold stop_fuel. intros Hfuel.
assert (ws_stopped (net w) = true → stop poll_one w = (w, inr tt)) as Hstopped
  by (intros Hs; unfold stop, bind, gets; by rewrite Hs).
assert (ws_stopped (net w) = false → total poll_one →
  wp (stop poll_one) (λ r w', (r = inr tt ∧ shut_down w') ∨ join_blocks r w') w) as Hrun.
{ intros Hns Htotal. eapply wp_mono; [by apply stop_run|]. intros r w' [Hr Hd].
  destruct (Hr Htotal) as [->|Hb]; [left|by right]. by split; [|apply Hd]. }
split_and!; [| |exact Hstopped|exact Hrun| |].
- destruct fuel as [|fuel]; [lia|]. apply stop_wait_fuel; [unfold MAX_SHUTDOWN_MS, SLEEP_MS|]; lia.
- apply stop_wait_ends. unfold MAX_SHUTDOWN_MS, SLEEP_MS. lia.
- intros Htotal Hjoin. destruct (ws_stopped (net w)) eqn:Hns; [by rewrite Hstopped|].
  destruct (Hrun eq_refl Htotal) as [[Hr _]|(_ & _ & Hnone)]; [exact Hr|].
  destruct (Hjoin (net (stop poll_one w).1)). congruence.
- intros Hret Htotal Hcon. destruct (ws_stopped (net w)) eqn:Hns; [by rewrite Hstopped|].
  by apply stop_returns.
Qed.
End theorems.

(** ** Examples *)

Section examples.
#[local] Existing Instance x86_64.

Lemma server_invariant_witness :
  ServerInv (srv (addChannel chatter (run_pending recording (POpen 1)
    (world_of (new_Server "bridge" [] 10000000 false))).1).1).
Proof.
  eapply (server_invariant recording "bridge" [] 10000000 false
    (world_of (new_Server "bridge" [] 10000000 false))); [reflexivity|].
  eapply rtc_l; [apply (step_pending recording (POpen 1)); exact eq_refl|].
  eapply rtc_l; [apply step_addChannel|]. apply rtc_refl.
Defined.

(** A client connects and a channel is added; the client knows of it after the
    broadcast. *)
Definition lagging_world : World (list Event) :=
  (addChannel chatter (run_pending recording (POpen 1)
    (world_of (new_Server "bridge" [] 10000000 false))).1).1.

Lemma clients_informed_witness :
  known lagging_world 1 = ∅ ∧ known lagging_world 1 ⊆ _channels (srv lagging_world) ∧
  known (broadcastChannels lagging_world).1 1 = _channels (srv lagging_world) ∧
  map_size (_channels (srv lagging_world)) = 1%nat.
Proof.
  destruct (advertisement_text (srv lagging_world)) as [e|txt] eqn:Htxt;
    [vm_compute in Htxt; discriminate|].
  destruct (clients_informed recording "bridge" [] 10000000 false
    (world_of (new_Server "bridge" [] 10000000 false)) lagging_world 1%positive) as [Hk Hb].
  - reflexivity.
  - exact I.
  - constructor.
  - eapply rtc_l; [apply (step_pending recording (POpen 1)); exact eq_refl|].
    eapply rtc_l; [apply step_addChannel|]. apply rtc_refl.
  - vm_compute. by eexists.
  - split; [vm_compute; reflexivity|]. split; [exact Hk|]. split; [exact (Hb txt Htxt)|].
    vm_compute. reflexivity.
Defined.

(** A client connects and publishes a message that the owner gets. *)
Definition published_world : World (list Event) :=
  (run_pending recording (PMessage 7 1 (BinaryFrame
    [Byte.x01; Byte.x05; Byte.x00; Byte.x00; Byte.x00; Byte.xff]))
    (run_pending recording (PMessage 7 1 (TextFrame (text_of (advertise_text
       [mkClientAdvertisement 5 "/t" "json" "s" []]))))
      (run_pending recording (POpen 1)
        (world_of (new_Server "bridge" [] 10000000 false))).1).1).1.

Lemma server_types_witness :
  typed_server (srv published_world) ∧ Forall typed_event (out published_world) ∧
  Exists (λ e, match e with EvClientMessage m _ => getData m = [Byte.xff] | _ => False end)
    (out published_world).
Proof.
  assert (Exists (λ e, match e with EvClientMessage m _ => getData m = [Byte.xff] | _ => False end)
    (out published_world)) as Hmsg.
  { vm_compute. repeat first [apply Exists_cons_hd; reflexivity | apply Exists_cons_tl]. }
  destruct (server_types recording "bridge" [] 10000000 false
    (world_of (new_Server "bridge" [] 10000000 false)) published_world) as [Hs Ho].
  - reflexivity.
  - constructor.
  - eapply rtc_l; [apply (step_pending recording (POpen 1)); exact eq_refl|].
    eapply rtc_l; [eapply (step_pending recording (PMessage _ _ _)); exact I|].
    eapply rtc_l; [eapply (step_pending recording (PMessage _ _ _)); exact I|]. apply rtc_refl.
  - exact (conj Hs (conj Ho Hmsg)).
Defined.

Lemma recording_tame : HandlersTame recording.
Proof. split; intros f x hdl [= <-] s; done. Qed.

Lemma recording_returns :
  handler_returns (_subscribeHandler recording) ∧
  handler_returns (_unsubscribeHandler recording) ∧
  handler_returns (_clientAdvertiseHandler recording) ∧
  handler_returns (_clientUnadvertiseHandler recording) ∧
  handler_returns (_clientMessageHandler recording).
Proof. split_and!; intros f x hdl [= <-] s; done. Qed.

Lemma handleMessage_total_witness :
  (handleMessage recording 0 1 (BinaryFrame [Byte.x01; Byte.x05; Byte.x00]) example_world).2
    = inr tt.
Proof. apply handleMessage_total. exact recording_tame. Defined.

Lemma handleMessage_rejects_witness :
  wp (handleMessage recording 0 1 (TextFrame "{"))
     (sends (only 1%positive (json_frames (status_json Error
        "Error parsing message: parse_error.101"))) example_world) example_world.
Proof.
  apply (handleMessage_rejects recording 0 1 "{" (StdException "parse_error.101")).
  left. reflexivity.
Defined.

(** Two subscriptions, the second without an id. *)
Definition partial_message : json :=
  json_object [("op", json_string "subscribe");
    ("subscriptions", json_array [subscription_json (10, 1)%Z; json_object []])].
Definition partial_text : string := Json.digits (encode (partial_message : Json.t)).

Lemma subscribe_partial_witness :
  wp (handleMessage recording 0 1 (TextFrame partial_text))
     (λ r w', r = inr tt ∧
        srv w' = set_subscriptions 1 (<[1:=10]> {[2 := 20]})%Z example_server ∧
        emits (only 1%positive (json_frames (status_json Error
            "Error parsing message: out_of_range.403")))
          [EvSubscribe 1 1%positive] example_world w') example_world.
Proof.
  exact (subscribe_partial recording 0 1 example_client [(10, 1)%Z] (json_object []) []
    partial_text partial_message (StdException "out_of_range.403") example_world
    (proj1 recording_returns) ltac:(repeat constructor; discriminate) eq_refl
    (parse_dump partial_message partial_text eq_refl) eq_refl eq_refl eq_refl).
Defined.

Lemma addChannel_fresh_witness :
  wp (addChannels [chatter])
     (λ r w', r = inr [3%Z] ∧
        ∀ id c, _channels (srv w') !! id = Some c ↔
          _channels example_server !! id = Some c ∨
          (2 < id)%Z ∧ (λ ch, mkChannel id ch) <$> [chatter] !! Z.to_nat (id - 2 - 1) = Some c)
     example_world.
Proof.
  apply (addChannel_fresh [chatter] 2 example_world); [reflexivity|lia|reflexivity|].
  intros id [c Hc]. simpl in Hc.
  apply lookup_insert_Some in Hc as [[<- _]|[_ Hc]]; [lia|].
  apply lookup_singleton_Some in Hc as [<- _]. lia.
Defined.

Lemma addChannel_wraps_witness :
  let w := world_of (set_nextChannelId (2 ^ 32 - 1)
    (upd_channels (<[0%Z := mkChannel 0 odom]>) example_server)) in
  wp (addChannel chatter) (λ r w', r = inr 0%Z ∧ _channels (srv w') = _channels (srv w)) w.
Proof. intros w. apply (addChannel_wraps chatter (mkChannel 0 odom)); reflexivity. Defined.

Lemma findSubscriptionBySubId_order_witness :
  @findSubscriptionBySubId sorted_iteration example_client 20 =
  @findSubscriptionBySubId reversed_iteration example_client 20.
Proof.
  exact (findSubscriptionBySubId_order sorted_iteration reversed_iteration _ 1%positive
    example_client 20 example_client_ok).
Defined.

Lemma sendMessage_delivers_witness :
  wp (sendMessage 1 2 7 [Byte.xff])
     (sends (only 1%positive [BinaryFrame (message_frame 20 7 [Byte.xff])]) example_world)
     example_world.
Proof. exact (proj2 (sendMessage_delivers 1%positive 2 7 [Byte.xff] example_world)). Defined.

Lemma removeChannel_effect_witness :
  wp (removeChannel 2)
     (λ r w', r = inr tt ∧ env w' = [] ∧
        srv w' = remove_channel_state 2 example_server ∧
        _channels (srv w') !! 2%Z = None ∧
        (∀ hdl c, _clients (srv w') !! hdl = Some c →
           subscriptionsByChannel c !! 2%Z = None) ∧
        emits (to_all example_server (json_frames (unadvertise_json 2))) [] example_world w')
     example_world.
Proof. exact (removeChannel_effect 2 example_world). Defined.

Lemma broadcastTime_reaches_all_witness :
  wp (broadcastTime 7)
     (sends (to_all example_server [BinaryFrame (time_frame 7)]) example_world) example_world.
Proof. exact (broadcastTime_reaches_all 7 example_world). Defined.

Lemma broadcastChannels_reaches_all_witness :
  ∃ txt, advertisement_text example_server = inr txt ∧ advertises example_server txt.
Proof.
  eexists. split; [reflexivity|].
  exact (proj1 (proj2 (broadcastChannels_reaches_all _ example_world eq_refl))).
Defined.

Lemma handleConnectionOpened_greets_witness :
  ∃ info, json_parse info = inr (serverInfo_json "bridge" []).
Proof.
  eexists.
  exact (proj1 (proj2 (handleConnectionOpened_greets 1%positive _ _
    (world_of (new_Server "bridge" [] 10000000 false))
    eq_refl eq_refl eq_refl eq_refl))).
Defined.

Lemma handleConnectionClosed_cleans_up_witness :
  wp (handleConnectionClosed recording 1)
     (λ r w', r = inr tt ∧
        srv w' = close_state 1 example_server ∧
        ∃ ids chans, ids ≡ₚ [5%Z] ∧ chans ≡ₚ [2%Z] ∧
          emits silent
            (calls_of (_clientUnadvertiseHandler recording) EvClientUnadvertise 1%positive ids ++
             calls_of (_unsubscribeHandler recording) EvUnsubscribe 1%positive chans)
            example_world w') example_world.
Proof.
  exact (handleConnectionClosed_cleans_up recording 1%positive example_client example_world
    (proj1 (proj2 (proj2 (proj2 recording_returns)))) (proj1 (proj2 recording_returns)) eq_refl).
Defined.

Lemma stop_ends_witness :
  (stop (ret tt) example_world).2 = inr tt ∧ shut_down (stop (ret tt) example_world).1.
Proof.
  destruct (stop_ends (ret tt) stop_fuel example_world (le_n _)) as (_ & _ & _ & Hrun & _ & Hret).
  assert (total (ret tt : M (World (list Event)) unit)) as Ht by (intros w; reflexivity).
  assert ((stop (ret tt) example_world).2 = inr tt) as Hr.
  { apply Hret; [split; intros n; by eexists|exact Ht|].
    exists 1%positive. split; [vm_compute; by eexists|reflexivity]. }
  split; [exact Hr|]. destruct (Hrun eq_refl Ht) as [[_ Hd]|[Hb _]]; [exact Hd|].
  rewrite Hr in Hb. discriminate.
Defined.
End examples.
