(* ===== verification/ProtocolTheorems.v ===== *)
(** * Properties of client and server together

    What happens in the server, in its owner and at the client when the client
    of [websocket_client.hpp] subscribes, unsubscribes, advertises, unadvertises
    and publishes. *)

From Stdlib Require Import Strings.Byte.
From S2P Require Import Prelude Serialization Common Logging Interfaces Server ServerFacts.
From S2P Require Import ServerInvariant ServerSpec Client Protocol Publications Reachable Session.
From S2P Require Import Concrete.

Local Open Scope Z_scope.
Local Open Scope string_scope.
Local Open Scope list_scope.

Section lemmas.
Context `{Platform, Iteration, LogChannels, Nlohmann, Websocketpp}.
Context `{!NlohmannLaws, !WebsocketppLaws}.
Context {E : Type} (handlers : Handlers E).
Implicit Types w : World E.

(** One computation after the other. *)
Lemma wp_seq (m1 m2 : M (World E) unit) (P Q : World E → Prop) w :
  wp m1 (λ r w', r = inr tt ∧ P w') w →
  (∀ w', P w' → wp m2 (λ r w'', r = inr tt ∧ Q w'') w') →
  wp (m1 ;;; m2) (λ r w', r = inr tt ∧ Q w') w.
Proof. intros Hm1 Hm2. rewrite wp_bind. eapply wp_mono; [exact Hm1|]. intros r w' [-> ?]. auto. Qed.
End lemmas.

Section theorems.
Context `{Platform, Iteration, LogChannels, Nlohmann, Websocketpp}.
Context `{!NlohmannLaws, !WebsocketppLaws}.
Context {E : Type} (handlers : Handlers E).
Implicit Types w : World E.

(** C4. The server implements the abstract account of its clients.  In a session in
  which connected clients, in any order, subscribe, unsubscribe, advertise,
  unadvertise, publish and disconnect, each client's subscriptions and
  publications are at its end what [Session.run] says, each client has got
  exactly the frames of [Session.replies], none of them because of what another
  client did, and the owner's handlers have been called as in [Session.calls],
  in order.  The machine is little-endian. *)
Theorem session_refines l ps w :
HandlersReturn handlers → big_endian = false → ServerInv (srv w) →
let channels := dom (_channels (srv w)) in
let A := account_of (srv w) in
Session.valid channels A l → Forall2 (λ i p, input_pending i = inr p) l ps →
wp (for_each ps (run_pending handlers))
   (λ r w', r = inr tt ∧
      (∀ hdl, account_of (srv w') hdl = Session.run channels A l hdl) ∧
      emits (Session.replies channels A l) (Session.calls handlers channels A l) w w') w.
Proof. intros Hret Hle HI channels A Hv Hps. by apply session_run. Qed.

(** The server implements the abstract account of subscriptions: the client's
  subscribe message changes the client's subscriptions, and nothing else, as
  [Subscriptions.run] says; the client gets the status messages and the owner
  the calls that account foresees, in order. *)
Theorem subscribe_refines ts hdl c subs txt w :
handler_returns (_subscribeHandler handlers) →
Forall (λ r, is_u32 r.1 ∧ is_u32 r.2) subs → _clients (srv w) !! hdl = Some c →
subscribe_text subs = inr txt →
let channels := dom (_channels (srv w)) in
let m := subscriptionsByChannel c in
wp (handleMessage handlers ts hdl (TextFrame txt))
   (λ r w', r = inr tt ∧
      srv w' = set_subscriptions hdl (Subscriptions.run channels m subs) (srv w) ∧
      emits (only hdl (Subscriptions.replies channels m subs))
        (calls_of (_subscribeHandler handlers) EvSubscribe hdl
           (Subscriptions.requested channels m subs)) w w') w.
Proof. intros. by apply handleMessage_text_ok, client_subscribe_run. Qed.

(** The same for the client's unsubscribe message and
  [Subscriptions.cancel_all]. *)
Theorem unsubscribe_refines ts hdl c sids txt w :
handler_returns (_unsubscribeHandler handlers) →
Forall is_u32 sids → _clients (srv w) !! hdl = Some c → ClientOk (_channels (srv w)) hdl c →
unsubscribe_text sids = inr txt →
let m := subscriptionsByChannel c in
wp (handleMessage handlers ts hdl (TextFrame txt))
   (λ r w', r = inr tt ∧
      srv w' = set_subscriptions hdl (Subscriptions.cancel_all m sids) (srv w) ∧
      emits (only hdl (Subscriptions.cancel_replies m sids))
        (calls_of (_unsubscribeHandler handlers) EvUnsubscribe hdl
           (Subscriptions.cancelled m sids)) w w') w.
Proof. intros. by apply handleMessage_text_ok, client_unsubscribe_run. Qed.

(** C34. Subscribing under new ids to channels that exist, and then unsubscribing
  the same ids, restores the server exactly; the client hears nothing, and the
  owner is asked to subscribe to each channel and then to unsubscribe from
  each, in the client's order. *)
Theorem subscribe_unsubscribe ts1 ts2 hdl c subs txt1 txt2 w :
handler_returns (_subscribeHandler handlers) →
handler_returns (_unsubscribeHandler handlers) →
Forall (λ r, is_u32 r.1 ∧ is_u32 r.2) subs → _clients (srv w) !! hdl = Some c →
ServerInv (srv w) →
Subscriptions.fresh (dom (_channels (srv w))) (subscriptionsByChannel c) subs →
subscribe_text subs = inr txt1 → unsubscribe_text subs.*1 = inr txt2 →
wp (handleMessage handlers ts1 hdl (TextFrame txt1) ;;;
    handleMessage handlers ts2 hdl (TextFrame txt2))
   (λ r w', r = inr tt ∧
      srv w' = srv w ∧
      emits silent
        (calls_of (_subscribeHandler handlers) EvSubscribe hdl subs.*2 ++
         calls_of (_unsubscribeHandler handlers) EvUnsubscribe hdl subs.*2) w w') w.
Proof.
intros Hs Hu Hr Hc HI Hf Ht1 Ht2.
pose proof (inv_client _ HI _ _ Hc) as Hok.
assert (Subscriptions.inj (subscriptionsByChannel c)) as Hinj
  by (intros ???; apply (ok_sub_inj _ _ _ Hok)).
set (m' := Subscriptions.run (dom (_channels (srv w))) (subscriptionsByChannel c) subs).
apply (wp_seq _ _ (λ w', srv w' = set_subscriptions hdl m' (srv w) ∧
  emits silent (calls_of (_subscribeHandler handlers) EvSubscribe hdl subs.*2) w w')).
{ apply handleMessage_text_ok. eapply wp_mono; [by apply (client_subscribe_run handlers hdl c subs)|].
  intros r w' (-> & Hsrv & Hem). split_and!; [done|done|].
  eapply emits_ext; [exact Hem| |by rewrite Subscriptions.requested_fresh].
  intros h. rewrite Subscriptions.replies_fresh by done. apply only_nil. }
intros w1 [Hsrv1 Hem1]. apply handleMessage_text_ok. eapply wp_mono.
{ apply (client_unsubscribe_run handlers hdl (upd_subscriptions (λ _, m') c) subs.*1); [done| | | |done].
  - apply Forall_fmap. eapply Forall_impl; [exact Hr|]. by intros [] [? ?].
  - rewrite Hsrv1. by apply set_subscriptions_lookup.
  - rewrite Hsrv1. simpl. split; simpl; [apply Hok|by apply Subscriptions.inj_run_fresh|].
    intros ch [sid Hl]. apply Subscriptions.lookup_run_fresh in Hl as [Hin|Hl]; [|by apply Hok|done].
    apply elem_of_dom. by apply (proj2 (proj2 Hf) sid ch). }
simpl. intros r w2 (-> & Hsrv2 & Hem2). split_and!; [done| |].
- unfold m' in Hsrv2. rewrite Hsrv2, Hsrv1, set_subscriptions_twice.
  rewrite Subscriptions.cancel_all_run_fresh by done. by apply set_subscriptions_same.
- eapply emits_ext; [eapply emits_trans; [exact Hem1|exact Hem2]| |].
  + intros h. unfold m'. rewrite Subscriptions.cancel_replies_live; [apply only_nil|apply Hf|].
    intros sid ch Hin. apply Subscriptions.lookup_run_fresh; auto.
  + unfold m'. by rewrite Subscriptions.cancelled_run_fresh.
Qed.

(** The server implements the abstract account of publications: the client's
  advertise message changes that client's publications, and nothing else, as
  [Publications.advertise_all] says, with the calls and status messages it
  foresees; the first message of a client is not checked for ids in use. *)
Theorem advertise_refines ts hdl c advs txt w :
handler_returns (_clientAdvertiseHandler handlers) →
Forall (λ adv, is_u32 (adv_channelId adv)) advs → _clients (srv w) !! hdl = Some c →
advertise_text advs = inr txt →
let first := bool_decide (_clientChannels (srv w) !! hdl = None) in
let p := Publications.mk (default ∅ (_clientChannels (srv w) !! hdl)) (advertisedChannels c) in
wp (handleMessage handlers ts hdl (TextFrame txt))
   (λ r w', r = inr tt ∧
      srv w' = set_publications hdl (Publications.advertise_all first p advs) (srv w) ∧
      emits (only hdl (Publications.replies first p advs))
        (calls_of (_clientAdvertiseHandler handlers) EvClientAdvertise hdl
           (Publications.announced first p advs)) w w') w.
Proof. intros. by apply handleMessage_text_ok, client_advertise_run. Qed.

(** The same for the client's unadvertise message: ids that are not live are
  passed over in silence. *)
Theorem unadvertise_refines ts hdl p ids txt w :
handler_returns (_clientUnadvertiseHandler handlers) →
Forall is_u32 ids → holds (srv w) hdl p → unadvertise_text ids = inr txt →
wp (handleMessage handlers ts hdl (TextFrame txt))
   (λ r w', r = inr tt ∧
      srv w' = set_publications hdl (Publications.unadvertise_all p ids) (srv w) ∧
      emits silent
        (calls_of (_clientUnadvertiseHandler handlers) EvClientUnadvertise hdl
           (Publications.withdrawn p ids)) w w') w.
Proof. intros. by apply handleMessage_text_ok, client_unadvertise_run. Qed.

(** C39. A channel that a client advertised and unadvertised is unadvertised a
  second time when the client disconnects: the disconnect handler withdraws
  every id ever advertised, and the unadvertise message does not strike them
  off. *)
Theorem unadvertised_twice ts1 ts2 hdl c adv txt1 txt2 w :
is_Some (_clientAdvertiseHandler handlers) → is_Some (_clientUnadvertiseHandler handlers) →
handler_returns (_clientAdvertiseHandler handlers) →
handler_returns (_clientUnadvertiseHandler handlers) →
handler_returns (_unsubscribeHandler handlers) →
is_u32 (adv_channelId adv) →
_clients (srv w) !! hdl = Some c → _clientChannels (srv w) !! hdl = None →
advertisedChannels c = ∅ → subscriptionsByChannel c = ∅ →
advertise_text [adv] = inr txt1 → unadvertise_text [adv_channelId adv] = inr txt2 →
wp (handleMessage handlers ts1 hdl (TextFrame txt1) ;;;
    handleMessage handlers ts2 hdl (TextFrame txt2) ;;;
    handleConnectionClosed handlers hdl)
   (λ r w', r = inr tt ∧
      emits silent
        [EvClientAdvertise (Publications.strip adv) hdl;
         EvClientUnadvertise (adv_channelId adv) hdl;
         EvClientUnadvertise (adv_channelId adv) hdl] w w') w.
Proof.
intros [f Hf] [g Hg] Hra Hru Hrs Hid Hc Hno Hadv Hsub Ht1 Ht2.
set (id := adv_channelId adv).
set (p1 := Publications.mk {[ id := Publications.strip adv ]} {[ id ]}).
apply (wp_seq _ _ (λ w', srv w' = set_publications hdl p1 (srv w) ∧
  emits silent [EvClientAdvertise (Publications.strip adv) hdl] w w')).
{ apply handleMessage_text_ok.
  eapply wp_mono; [by apply (client_advertise_run handlers hdl c [adv]); try (by constructor)|].
  rewrite Hno, Hadv. intros r w' (-> & Hsrv & Hem). split_and!; [done| |].
  - rewrite Hsrv. unfold Publications.advertise_all. simpl. unfold Publications.advertise,
      Publications.refused. simpl. unfold p1. by rewrite union_empty_r_L.
  - unfold calls_of in Hem. rewrite Hf in Hem. eapply emits_ext; [exact Hem| |done].
    intros h. apply only_nil. }
intros w1 [Hs1 Hem1].
assert (holds (srv w1) hdl p1) as Hh by (rewrite Hs1; apply set_publications_holds; by exists c).
apply (wp_seq _ _ (λ w', srv w' =
    set_publications hdl (Publications.unadvertise p1 id) (srv w1) ∧
  emits silent [EvClientUnadvertise id hdl] w1 w')).
{ apply handleMessage_text_ok.
  eapply wp_mono; [by apply (client_unadvertise_run handlers hdl p1 [id]); try (by constructor)|].
  intros r w' (-> & Hsrv & Hem). split_and!; [done|done|].
  unfold calls_of in Hem. rewrite Hg in Hem. eapply emits_ext; [exact Hem|done|].
  simpl. by rewrite lookup_singleton_eq. }
intros w2 [Hs2 Hem2].
eapply wp_mono.
{ apply (handleConnectionClosed_run handlers hdl (upd_advertised (λ _, {[ id ]}) c)); [done|done|].
  rewrite Hs2, Hs1. simpl. rewrite !lookup_alter_eq, Hc. done. }
simpl. intros r w3 (-> & _ & Hem3). split; [done|].
eapply emits_ext; [eapply emits_trans; [exact Hem1|eapply emits_trans; [exact Hem2|exact Hem3]]|done|].
unfold calls_of. rewrite Hg, Hsub, iter_map_empty. simpl.
assert (iter_set ({[ id ]} : gset Z) = [id]) as ->.
{ apply Permutation_singleton_r. by rewrite iter_set_perm, elements_singleton. }
simpl. by destruct (_unsubscribeHandler handlers).
Qed.
(** C25. On a little-endian machine, what a client publishes on a channel it has
  advertised reaches the owner's handler once, with the payload, its length
  and the advertisement intact; the server does not change. *)
Theorem publish_delivers ts hdl pubs adv channelId buffer w :
big_endian = false → is_u32 channelId → (Z.of_nat (length buffer) < 2 ^ 64)%Z →
is_Some (_clientMessageHandler handlers) → handler_returns (_clientMessageHandler handlers) →
_clientChannels (srv w) !! hdl = Some pubs → pubs !! channelId = Some adv →
∃ frame msg, publish_data channelId buffer = Some frame ∧
  getData msg = buffer ∧ getLength msg = Z.of_nat (length buffer) ∧
  msg_advertisement msg = adv ∧ msg_logTime msg = u64 ts ∧ msg_publishTime msg = u64 ts ∧
  wp (handleMessage handlers ts hdl (BinaryFrame frame))
     (only_calls [EvClientMessage msg hdl] w) w.
Proof.
intros Hle Hid Hlen [f Hf] Hret Hpubs Hadv.
exists (publish_frame channelId buffer), (published ts adv channelId buffer).
split_and!; [apply publish_data_frame|apply getData_published|by apply getLength_published|done..|].
unfold handleMessage. rewrite wp_try_catch. unfold wp at 1.
rewrite (client_publish_eq handlers ts hdl pubs) by done.
unfold received_id. rewrite Hle, u32_id, Hadv by done.
eapply wp_mono; [by apply call_only_calls|]. intros r w' (-> & Hs & Hem).
split_and!; [done|done|]. unfold calls_of in Hem. by rewrite Hf in Hem.
Qed.

(** The channel id with its four bytes in the opposite order. *)
Definition byteswap (channelId : Z) : Z := le_combine (rev (le_split 4 channelId)).

(** On a big-endian machine the server reads the channel id of a published
  message in the wrong byte order: the message is refused with a status that
  names another channel, although the client advertised the one it used. *)
Theorem publish_big_endian_refused ts hdl pubs channelId buffer w :
big_endian = true → _clientChannels (srv w) !! hdl = Some pubs →
pubs !! byteswap channelId = None →
∃ frame, publish_data channelId buffer = Some frame ∧
  wp (handleMessage handlers ts hdl (BinaryFrame frame))
     (sends (only hdl (json_frames (status_json Error
        (String.append "Channel " (String.append (to_string (byteswap channelId))
           " is not advertised"))))) w) w.
Proof.
intros Hbe Hpubs Hno. exists (publish_frame channelId buffer).
split; [apply publish_data_frame|]. unfold handleMessage. rewrite wp_try_catch. unfold wp at 1.
rewrite (client_publish_eq handlers ts hdl pubs) by done.
unfold received_id. rewrite Hbe. fold (byteswap channelId). rewrite Hno.
eapply wp_mono; [apply sends_sendStatus|]. by intros r w' (-> & ? & ?).
Qed.
End theorems.

(** ** Examples *)

Section examples.
#[local] Existing Instance x86_64.

Lemma recording_subscribe : handler_returns (_subscribeHandler recording).
Proof. intros f x hdl [= <-] s. done. Qed.
Lemma recording_unsubscribe : handler_returns (_unsubscribeHandler recording).
Proof. intros f x hdl [= <-] s. done. Qed.
Lemma recording_advertise : handler_returns (_clientAdvertiseHandler recording).
Proof. intros f x hdl [= <-] s. done. Qed.
Lemma recording_unadvertise : handler_returns (_clientUnadvertiseHandler recording).
Proof. intros f x hdl [= <-] s. done. Qed.
Lemma recording_message : handler_returns (_clientMessageHandler recording).
Proof. intros f x hdl [= <-] s. done. Qed.

Lemma example_server_inv : ServerInv example_server.
Proof.
  split.
  - intros id ch. simpl. rewrite lookup_insert_Some, lookup_singleton_Some.
    intros [[<- <-]|[_ [<- <-]]]; (split; [done|]); split; [discriminate|reflexivity|discriminate|reflexivity].
  - split; [discriminate|reflexivity].
  - intros hdl c. simpl. intros [<- <-]%lookup_singleton_Some. apply example_client_ok.
  - intros hdl pubs. simpl. intros [<- <-]%lookup_singleton_Some. split.
    + intros id adv [<- <-]%lookup_singleton_Some. done.
    + intros c'. rewrite lookup_singleton_eq. intros [= <-]. simpl.
      rewrite dom_singleton_L. done.
Qed.

(** The second id is in use, the third channel does not exist. *)
Lemma subscribe_refines_witness :
  wp (handleMessage recording 0 1
        (TextFrame (text_of (subscribe_text [(10, 1); (20, 1); (30, 9)]%Z))))
     (λ r w', r = inr tt ∧
        srv w' = set_subscriptions 1 (<[1:=10]> {[2 := 20]})%Z example_server ∧
        emits (only 1%positive
            (json_frames (status_json Error "Client subscription id 20 was already used; ignoring subscription") ++
             json_frames (status_json Warning "Channel 9 is not available; ignoring subscription")))
          [EvSubscribe 1 1%positive] example_world w') example_world.
Proof.
  exact (subscribe_refines recording 0 1%positive example_client [(10, 1); (20, 1); (30, 9)]%Z
    _ example_world recording_subscribe ltac:(repeat constructor; discriminate) eq_refl eq_refl).
Defined.

Lemma unsubscribe_refines_witness :
  wp (handleMessage recording 0 1 (TextFrame (text_of (unsubscribe_text [20; 21]%Z))))
     (λ r w', r = inr tt ∧
        srv w' = set_subscriptions 1 ∅ example_server ∧
        emits (only 1%positive (json_frames (status_json Warning
            "Client subscription id 21 did not exist; ignoring unsubscription")))
          [EvUnsubscribe 2 1%positive] example_world w') example_world.
Proof.
  exact (unsubscribe_refines recording 0 1%positive example_client [20; 21]%Z
    _ example_world recording_unsubscribe ltac:(repeat constructor; discriminate) eq_refl
    example_client_ok eq_refl).
Defined.

Lemma example_fresh :
  Subscriptions.fresh (dom (_channels example_server)) (subscriptionsByChannel example_client)
    [(10, 1)%Z].
Proof.
  split_and!.
  - apply NoDup_singleton.
  - apply NoDup_singleton.
  - intros sid ch [= -> ->]%list_elem_of_singleton. split_and!.
    + apply (bool_decide_unpack _). vm_compute. exact I.
    + reflexivity.
    + apply (bool_decide_unpack _). vm_compute. exact I.
Qed.

Lemma subscribe_unsubscribe_witness :
  wp (handleMessage recording 0 1 (TextFrame (text_of (subscribe_text [(10, 1)%Z]))) ;;;
      handleMessage recording 1 1 (TextFrame (text_of (unsubscribe_text [10%Z]))))
     (λ r w', r = inr tt ∧ srv w' = example_server ∧
        emits silent [EvSubscribe 1 1%positive; EvUnsubscribe 1 1%positive] example_world w')
     example_world.
Proof.
  exact (subscribe_unsubscribe recording 0 1 1%positive example_client [(10, 1)%Z] _ _
    example_world recording_subscribe recording_unsubscribe
    ltac:(repeat constructor; discriminate) eq_refl example_server_inv example_fresh
    eq_refl eq_refl).
Defined.

Definition joy : ClientAdvertisement :=
  mkClientAdvertisement 6 "/joy" "json" "sensor_msgs/msg/Joy" [].

Lemma recording_all_return : HandlersReturn recording.
Proof. split; intros f x hdl [= <-] s; reflexivity. Qed.

(** The client of the example and one that has just connected. *)
Definition two_clients : World (list Event) :=
  world_of (upd_clients (λ cs, (emplace 2%positive (mkClientInfo "127.0.0.1:2" 2%positive ∅ ∅) cs).1)
    example_server).

Definition example_session : list Session.Input :=
  [Session.mkInput 1 2 (Session.Publish 6 [Byte.x2a]);
   Session.mkInput 2 1 (Session.Subscribe [(10, 1); (20, 1)]%Z);
   Session.mkInput 3 2 (Session.Advertise [joy]);
   Session.mkInput 4 1 (Session.Publish 5 [Byte.x2a]);
   Session.mkInput 5 2 (Session.Publish 6 [Byte.x2b]);
   Session.mkInput 6 2 Session.Close;
   Session.mkInput 7 1 (Session.Unsubscribe [10%Z])].

Definition example_pendings : list Pending :=
  (λ i, match input_pending i with inr p => p | inl _ => PClose 1 end) <$> example_session.

Lemma session_refines_witness :
  wp (for_each example_pendings (run_pending recording))
     (λ r w', r = inr tt ∧ account_of (srv w') 2%positive = None ∧
        (Session.subscriptions <$> account_of (srv w') 1%positive) = Some {[2 := 20]}%Z ∧
        emits (Session.replies {[1; 2]}%Z (account_of (srv two_clients)) example_session)
          [EvSubscribe 1 1%positive; EvClientAdvertise joy 2%positive;
           EvClientMessage (published 4 example_adv 5 [Byte.x2a]) 1%positive;
           EvClientMessage (published 5 joy 6 [Byte.x2b]) 2%positive;
           EvClientUnadvertise 6 2%positive; EvUnsubscribe 1 1%positive]
          two_clients w') two_clients.
Proof.
  assert (dom (_channels (srv two_clients)) = ({[1; 2]} : gset Z)) as Hch by (vm_compute; reflexivity).
  eapply wp_mono.
  - apply (session_refines (H:=x86_64) recording example_session example_pendings two_clients recording_all_return eq_refl).
    + apply inv_open_client; [reflexivity|exact example_server_inv].
    + rewrite Hch. unfold example_session. cbn [Session.valid].
      repeat (split; [repeat constructor; discriminate|eexists; split; [vm_compute; reflexivity|]]).
      exact I.
    + repeat (constructor; [vm_compute; reflexivity|]). constructor.
  - rewrite Hch. intros r w' (-> & HA & Hem). split; [reflexivity|]. rewrite !HA.
    split; [vm_compute; reflexivity|]. split; [vm_compute; reflexivity|]. exact Hem.
Defined.

Lemma advertise_refines_witness :
  wp (handleMessage recording 0 1 (TextFrame (text_of (advertise_text [joy; example_adv]))))
     (λ r w', r = inr tt ∧
        srv w' = set_publications 1
          (Publications.mk (<[6%Z := joy]> {[5%Z := example_adv]}) {[5%Z; 6%Z]}) example_server ∧
        emits (only 1%positive (json_frames (status_json Error "Channel 5 was already advertised")))
          [EvClientAdvertise joy 1%positive] example_world w') example_world.
Proof.
  exact (advertise_refines recording 0 1%positive example_client [joy; example_adv] _
    example_world recording_advertise ltac:(repeat constructor; discriminate) eq_refl eq_refl).
Defined.

Lemma example_holds :
  holds example_server 1 (Publications.mk {[5%Z := example_adv]} {[5%Z]}).
Proof. split; [reflexivity|]. exists example_client. split; reflexivity. Qed.

Lemma unadvertise_refines_witness :
  wp (handleMessage recording 0 1 (TextFrame (text_of (unadvertise_text [7; 5]%Z))))
     (λ r w', r = inr tt ∧
        srv w' = set_publications 1 (Publications.mk ∅ {[5%Z]}) example_server ∧
        emits silent [EvClientUnadvertise 5 1%positive] example_world w') example_world.
Proof.
  exact (unadvertise_refines recording 0 1%positive _ [7; 5]%Z _ example_world
    recording_unadvertise ltac:(repeat constructor; discriminate) example_holds eq_refl).
Defined.

(** A client that just connected. *)
Definition newcomer : World (list Event) :=
  world_of (upd_clients (<[2%positive := mkClientInfo "127.0.0.1:2" 2%positive ∅ ∅]>)
    example_server).

Lemma unadvertised_twice_witness :
  wp (handleMessage recording 0 2 (TextFrame (text_of (advertise_text [joy]))) ;;;
      handleMessage recording 1 2 (TextFrame (text_of (unadvertise_text [6%Z]))) ;;;
      handleConnectionClosed recording 2)
     (λ r w', r = inr tt ∧
        emits silent [EvClientAdvertise joy 2%positive; EvClientUnadvertise 6 2%positive;
                      EvClientUnadvertise 6 2%positive] newcomer w') newcomer.
Proof.
  exact (unadvertised_twice recording 0 1 2%positive (mkClientInfo "127.0.0.1:2" 2%positive ∅ ∅)
    joy _ _ newcomer ltac:(eexists; reflexivity) ltac:(eexists; reflexivity)
    recording_advertise recording_unadvertise recording_unsubscribe
    ltac:(split; [discriminate|reflexivity]) eq_refl eq_refl eq_refl eq_refl eq_refl eq_refl).
Defined.

Lemma publish_delivers_witness :
  ∃ frame msg, publish_data 5 [Byte.x61; Byte.x62] = Some frame ∧
    getData msg = [Byte.x61; Byte.x62] ∧ getLength msg = 2%Z ∧
    wp (handleMessage recording 77 1 (BinaryFrame frame))
       (only_calls [EvClientMessage msg 1%positive] example_world) example_world.
Proof.
  destruct (publish_delivers (H:=x86_64) recording 77 1%positive {[5%Z := example_adv]} example_adv 5
    [Byte.x61; Byte.x62] example_world ltac:(reflexivity)
    ltac:(split; [discriminate|reflexivity]) eq_refl ltac:(eexists; reflexivity) recording_message eq_refl eq_refl)
    as (frame & msg & Hf & Hd & Hl & _ & _ & _ & Hw).
  exists frame, msg. exact (conj Hf (conj Hd (conj Hl Hw))).
Defined.
End examples.

Lemma publish_big_endian_refused_witness :
  ∃ frame, @publish_data s390x 5 [Byte.x61] = Some frame ∧
    wp (handleMessage (H:=s390x) recording 0 1 (BinaryFrame frame))
       (sends (only 1%positive (json_frames (status_json Error
          "Channel 83886080 is not advertised"))) example_world) example_world.
Proof.
  exact (publish_big_endian_refused (H:=s390x) recording 0 1%positive
    {[5%Z := example_adv]} 5 [Byte.x61] example_world eq_refl eq_refl eq_refl).
Defined.
