(* ===== verification/DefinitionTheorems.v ===== *)
(** * Properties of the message definition cache *)

From Stdlib Require Import Strings.Ascii.
From S2P Require Import Prelude Regex MessageDefinitionCache DefinitionNames FullText.
From S2P Require Import FullTextOutcomes ConcreteRos.

Local Open Scope string_scope.
Local Open Scope list_scope.
Local Open Scope nat_scope.

(** ** Properties *)

Section theorems.
Context `{Ament}.

(** C7. [get_full_text], with a cache filled from the same disk, ends, whatever cycles
  the definitions have: with as much fuel as there are definitions to name, or more, it comes to the same answer or
  exception, and never to an overflow of the stack.  What it returns is complete:
  the text of the root, and after it one section for each definition it depends on
  directly or indirectly, each exactly once, all of one format; the format is IDL
  only if a .msg definition is missing. *)
Theorem get_full_text_complete fuel root c :
CacheOk c → full_text_fuel ≤ fuel →
get_full_text fuel root c = get_full_text full_text_fuel root c ∧
match (get_full_text fuel root c).2 with
| inl e => catchable e = true
| inr (format, txt) =>
    let d := mkDefinitionIdentifier format root in
    full_text_of d txt ∧ (∀ d', rtc edge d d' → loads d') ∧
    (format = IDL → ∃ n, failed (mkDefinitionIdentifier MSG root) (DefinitionNotFoundError n))
end.
Proof.
intros Hok Hfuel.
assert (∀ e, (get_full_text full_text_fuel root c).2 = inl e → catchable e = true) as He.
{ intros e He. pose proof (get_full_text_run full_text_fuel root c Hok (le_n _)) as [_ Hrun].
  rewrite He in Hrun. destruct Hrun as [[Hf _]|[Hf _]]; by eapply failed_catchable. }
assert (get_full_text fuel root c = get_full_text full_text_fuel root c) as Heq.
{ apply covers_full_text; [done|]. by intros Ho%He. }
split; [exact Heq|]. pose proof (get_full_text_run fuel root c Hok Hfuel) as [_ Hrun].
rewrite Heq in *. destruct (get_full_text full_text_fuel root c).2 as [e|[format txt]];
  [by apply He|exact Hrun].
Qed.

(** C29. If it throws, it is because some definition the root depends on cannot be
  loaded: in .msg form for another reason than that it is missing, or in .idl
  form after one was missing in .msg form.  Nothing else goes wrong, and if all
  .msg definitions load it returns the .msg text. *)
Theorem get_full_text_errors fuel root c :
CacheOk c → full_text_fuel ≤ fuel →
match (get_full_text fuel root c).2 with
| inl e =>
    (∀ msg, e ≠ Undefined msg) ∧
    (failed (mkDefinitionIdentifier MSG root) e ∧ (∀ n, e ≠ DefinitionNotFoundError n) ∨
     failed (mkDefinitionIdentifier IDL root) e ∧
     ∃ n, failed (mkDefinitionIdentifier MSG root) (DefinitionNotFoundError n))
| inr (format, _) =>
    (∀ d, rtc edge (mkDefinitionIdentifier MSG root) d → loads d) ↔ format = MSG
end.
Proof.
intros Hok Hfuel. pose proof (get_full_text_run fuel root c Hok Hfuel) as [_ Hrun].
assert (∀ d e, failed d e → (∀ d', rtc edge d d' → loads d') → False) as Hno.
{ intros d e (d' & Hd' & He) Hall. destruct (Hall d' Hd') as [spec Hs]. congruence. }
destruct (get_full_text fuel root c).2 as [e|[format txt]].
- split; [|exact Hrun]. intros msg ->.
  assert (∀ d, ¬ failed d (Undefined msg)) as Hu by (by intros d ?%failed_catchable).
  destruct Hrun as [[Hf _]|[Hf _]]; by apply Hu in Hf.
- destruct Hrun as (_ & Hl & Hidl). split.
  + intros Hall. destruct format; [|done]. destruct (Hidl eq_refl) as [n Hn].
    by destruct (Hno _ _ Hn).
  + intros ->. exact Hl.
Qed.

(** C30. What [get_full_text] returns does not depend on what it was asked before:
  a cache that holds what is on disk, as every cache does after any number of
  calls, gives the same answer as an empty one. *)
Theorem get_full_text_cache fuel1 fuel2 root root' c :
CacheOk c → full_text_fuel ≤ fuel1 →
CacheOk (get_full_text fuel1 root' c).1 ∧
(get_full_text fuel2 root (get_full_text fuel1 root' c).1).2 = (get_full_text fuel2 root ∅).2.
Proof.
intros Hok Hfuel.
destruct (get_full_text_run fuel1 root' c Hok Hfuel) as [Hok' _].
split; [exact Hok'|]. by apply get_full_text_transparent.
Qed.

(** A package resource name is accepted exactly when it is two words separated
  by a slash or by "/msg/"; the captures are the two words, in one way only. *)
Theorem package_name_parts name pkg typ :
is_word (chars pkg) → is_word (chars typ) →
(∃ m, regex_match PACKAGE_TYPENAME_REGEX (chars name) = Some m ∧
      captured m 1 = pkg ∧ captured m 2 = typ) ↔
name = pkg +:+ "/" +:+ typ ∨ name = pkg +:+ "/msg/" +:+ typ.
Proof.
intros Hp Ht. unfold captured. split.
- intros (m & Hm & <- & <-).
  destruct (regex_match_package (chars name)) as [Hno|(p & mid & t & Hn & Hs & Hm')]; [congruence|].
  rewrite Hm in Hm'. injection Hm' as ->. unfold capture. simpl.
  destruct Hn as (_ & _ & [->| ->]); [left|right]; apply chars_inj; rewrite Hs, !chars_app,
    !String.list_ascii_of_string_of_list_ascii; done.
- intros Hname.
  assert (∃ mid, name_parts (chars pkg) mid (chars typ) ∧
    chars name = chars pkg ++ "/"%char :: mid ++ chars typ) as (mid & Hn & Hs).
  { destruct Hname as [->| ->]; [exists []|exists (chars "msg/")]; rewrite !chars_app;
      (split; [split_and!; auto|done]). }
  destruct (regex_match_package (chars name)) as [Hno|(p & mid' & t & Hn' & Hs' & Hm')].
  + exfalso. apply (regex_match_None _ _ [(1, chars pkg); (2, chars typ)]) in Hno. apply Hno.
    apply matches_package. by exists (chars pkg), mid, (chars typ).
  + eexists. split; [exact Hm'|]. rewrite Hs in Hs'.
    destruct (name_parts_unique _ _ _ _ _ _ Hn Hn' Hs') as [<- <-]. unfold capture. simpl.
    by rewrite !String.string_of_list_ascii_of_string.
Qed.

(** "wstring", a primitive type of .msg files, is not in the list of
  primitive types: a definition with such a field is taken to depend on a
  message "wstring" of its own package, so that, when there is no such
  message, [get_full_text] never returns its .msg text. *)
Theorem wstring_not_primitive fuel package type fields c :
CacheOk c → full_text_fuel ≤ fuel →
let d := mkDefinitionIdentifier MSG (package +:+ "/" +:+ type) in
read_spec d = inr (new_MessageSpec MSG ("wstring " +:+ fields) package) →
(∃ e, read_spec (mkDefinitionIdentifier MSG (package +:+ "/wstring")) = inl e) →
∀ txt, (get_full_text fuel (package +:+ "/" +:+ type) c).2 ≠ inr (MSG, txt).
Proof.
intros Hok Hfuel d Hs [e He] txt Hr.
pose proof (get_full_text_run fuel (package +:+ "/" +:+ type) c Hok Hfuel) as [_ Hrun].
rewrite Hr in Hrun. destruct Hrun as (_ & Hl & _).
destruct (Hl (mkDefinitionIdentifier MSG (package +:+ "/wstring"))) as [spec Hspec]; [|congruence].
apply rtc_once. eapply (edge_spec d); [exact Hs|].
apply wstring_dependency.
Qed.
End theorems.

(** ** Examples *)

Section examples.
#[local] Existing Instance example_disk.

Definition node : DefinitionIdentifier := mkDefinitionIdentifier MSG "a/Node".
Definition leaf : DefinitionIdentifier := mkDefinitionIdentifier MSG "b/Leaf".

(** The root is a dependency of its dependencies, so it comes twice. *)
Definition node_text : string :=
  "Node[] children" +:+ nl +:+ "b/Leaf leaf" +:+ nl +:+
  nl +:+ delimiter node +:+ "Node[] children" +:+ nl +:+ "b/Leaf leaf" +:+ nl +:+
  nl +:+ delimiter leaf +:+ "a/Node parent" +:+ nl.

Lemma get_full_text_complete_witness :
  full_text_of node node_text ∧ (∀ d', rtc edge node d' → loads d').
Proof.
  assert ((get_full_text full_text_fuel "a/Node" ∅).2 = inr (MSG, node_text)) as Heq
    by (vm_compute; reflexivity).
  destruct (get_full_text_complete full_text_fuel "a/Node" ∅ CacheOk_empty
    (le_n full_text_fuel)) as [_ Hr].
  rewrite Heq in Hr. destruct Hr as (Ht & Hl & _). exact (conj Ht Hl).
Defined.

Lemma get_full_text_errors_witness :
  (∀ msg, StdException "package not found" ≠ Undefined msg) ∧
  (get_full_text full_text_fuel "c/X" ∅).2 = inl (StdException "package not found").
Proof.
  assert ((get_full_text full_text_fuel "c/X" ∅).2 = inl (StdException "package not found"))
    as Heq by (vm_compute; reflexivity).
  pose proof (get_full_text_errors full_text_fuel "c/X" ∅ CacheOk_empty (le_n full_text_fuel)) as Hr.
  rewrite Heq in Hr. exact (conj (proj1 Hr) Heq).
Defined.

Lemma get_full_text_cache_witness :
  (get_full_text full_text_fuel "a/Node" (get_full_text full_text_fuel "b/Leaf" ∅).1).2 =
  (get_full_text full_text_fuel "a/Node" ∅).2.
Proof.
  exact (proj2 (get_full_text_cache full_text_fuel full_text_fuel "a/Node" "b/Leaf" ∅
    CacheOk_empty (le_n full_text_fuel))).
Defined.

Lemma package_name_parts_witness :
  ∃ m, regex_match PACKAGE_TYPENAME_REGEX (chars "std_msgs/msg/String") = Some m ∧
       captured m 1 = "std_msgs" ∧ captured m 2 = "String".
Proof.
  apply (package_name_parts "std_msgs/msg/String" "std_msgs" "String").
  - split; [discriminate|]. repeat constructor.
  - split; [discriminate|]. repeat constructor.
  - right. reflexivity.
Defined.

Lemma wstring_not_primitive_witness :
  is_ok (read_spec (mkDefinitionIdentifier MSG "b/Text")) = true ∧
  (get_full_text full_text_fuel ("b" +:+ "/" +:+ "Text") ∅).2 ≠ inr (MSG, "wstring text" +:+ nl).
Proof.
  split; [vm_compute; reflexivity|].
  refine (wstring_not_primitive full_text_fuel "b" "Text" ("text" +:+ nl) ∅ CacheOk_empty
    (le_n full_text_fuel) _ _ ("wstring text" +:+ nl)).
  - vm_compute. reflexivity.
  - eexists. vm_compute. reflexivity.
Defined.
End examples.
