(* ===== verification/ThreadTheorems.v ===== *)
(** * Properties of the server's threads

    The run loop of websocketpp and the threads of the server's owner, in any
    interleaving: they finish, they keep the tables in order, and one alone does
    what the functions of [Server] say. *)

From stdpp Require Import relations.
From Stdlib Require Import Strings.Byte.
From S2P Require Import Prelude Serialization Common Logging Interfaces Server ServerFacts.
From S2P Require Import ServerInvariant ServerSpec Client Reachable Threads ThreadPool Deadlock.
From S2P Require Import ServerThreads ServerThreadFacts ServerThreadInvariant.
From S2P Require Import Atomicity ClientThreads Concrete.

Local Open Scope Z_scope.
Local Open Scope list_scope.

Section theorems.
Context `{Platform, Iteration, LogChannels, Nlohmann, Websocketpp}.
Context {E : Type} (handlers : Handlers E) (locked : LockedHandlers E).
Implicit Types w : World E.

(** C17. Neither the mutexes nor the join in [stop] make the server's threads wait for
  each other for good.  Beside the thread of the run loop, which handles a list of
  pending events and then returns, there may be any number of threads that call
  whatever they like, [stop] included, with handlers that take the node's mutexes
  inside the server's and do not call the server; [stop] waits until the thread of the
  run loop has ended.  Every run is finite, can go on until every thread has
  finished, and then no mutex is held.  What this leaves out is a [run()] of
  websocketpp that never returns: the join that waits for it counts as finished, and
  C36 says when that happens. *)
Theorem server_threads_finish ps css w :
LockedHandlersOk handlers locked →
let c := mkConfig (run_loop handlers locked ps :: threads_of handlers locked css) w in
sn pool_step c ∧
∀ c', rtc pool_step c c' →
  (all_finished c' ∨ ∃ c'', pool_step c' c'') ∧
  (all_finished c' → Forall (λ t, held t = []) (pool c')).
Proof.
intros Hok c. split; [apply sn_pool|]. intros c' Hrun.
assert (well_ordered mutex_rank c') as Ho.
{ eapply well_ordered_steps; [exact Hrun|]. apply server_threads_well_ordered; apply _. }
split; [by apply (not_stuck mutex_rank)|].
intros Hf. apply Forall_lookup. intros i t Ht. eapply (finished_holds_nothing mutex_rank); [done|done|].
by eapply Forall_lookup_1 in Hf.
Qed.

(** C32. A thread that runs alone does what the functions of the server say, one
  call after the other until one throws: it reaches the state and the outcome
  they compute, and every run of it that cannot go on has reached them. *)
Theorem thread_alone cs w :
LockedHandlersOk handlers locked →
let c := mkConfig (threads_of handlers locked [cs]) w in
let (w', r) := run_calls handlers cs w in
let last := mkConfig [mkThread [] (Done r)] w' in
rtc pool_step c last ∧ ∀ c', rtc pool_step c c' → nf pool_step c' → c' = last.
Proof.
intros Hok c. destruct (run_calls handlers cs w) as [w' r] eqn:Hcs. intros last.
assert (∀ c', rtc pool_step c c' → all_finished c' → c' = last) as Hlast.
{ intros c' Hrun Hf.
  destruct (alone_steps (w', r) c c' Hrun) as (t & Hc' & Ho).
  { exists (fresh_thread (calls_p handlers locked cs)). split; [done|]. simpl.
    rewrite <-Hcs. by apply runs_calls. }
  destruct c' as [ts w1]. simpl in *. subst ts. inversion Hf as [|? ? Hft _]. subst.
  pose proof Hft as [r1 Hr1]. rewrite Hr1 in Ho. simpl in Ho. injection Ho as -> ->.
  assert (held t = []) as Hh.
  { eapply (finished_holds_nothing mutex_rank (mkConfig [t] w') 0); [|done|done].
    eapply well_ordered_steps; [exact Hrun|]. apply threads_well_ordered; apply _. }
  destruct t as [h p]. simpl in *. by subst. }
assert (well_ordered mutex_rank c) as Hc by (apply threads_well_ordered; apply _).
split.
- destruct (runs_to_the_end mutex_rank c Hc) as (c' & Hrun & Hf).
  by rewrite <-(Hlast c' Hrun Hf).
- intros c' Hrun Hnf. apply Hlast; [done|].
  destruct (not_stuck mutex_rank c') as [Hf|Hs]; [by eapply well_ordered_steps|done|by destruct Hnf].
Qed.
End theorems.

(** ** The client's threads *)

Section client.
Context `{Platform, Nlohmann, WebsocketppClient}.
Context {U : Type}.
Implicit Types w : ClientWorld U.

(** C23. The client's mutex makes its member functions atomic, for a user whose message
  handlers only change the user's own state, in one step (C24 is about others).  In
  any pool of threads that call them, with the endpoint's thread that delivers
  messages to the user's handlers, whatever has come about has come about by calls that each
  happened at once, those of a thread in its order: whenever nobody holds the
  mutex exclusively, the client and its user are in the state they lead to, and
  a thread that has ended has made all its calls, up to one that threw.  And
  every run ends, and is never stuck before all threads have ended. *)
Theorem client_calls_atomic (on_text : string → M U unit) (on_binary : list byte → M U unit)
  css w c :
let threads := client_threads (user_text on_text) (user_binary on_binary) css in
rtc pool_step (mkConfig threads w) c →
(∃ ds w', rtc (atomic_step (client_op on_text on_binary)) (pair (inr tt) <$> css, w) (ds, w') ∧
  (Forall (grants ClientMutex Shared) (pool c) → shared c = w') ∧
  ∀ i h r, pool c !! i = Some (mkThread h (Done r)) → ds !! i = Some (r, [])) ∧
sn pool_step c ∧ (all_finished c ∨ ∃ c', pool_step c c').
Proof.
intros threads Hrun. split; [|split; [apply sn_pool|]].
- destruct (linked_steps _ _ _ _ _ _ _ Hrun (client_threads_linked on_text on_binary css w))
    as (ds & w' & Hs & Hl).
  exists ds, w'. split; [done|]. split; [by eapply linked_state|].
  intros i h r Hi. by destruct (linked_ended _ _ _ _ _ _ _ _ _ Hl Hi).
- apply (not_stuck client_rank). eapply well_ordered_steps; [exact Hrun|].
  by apply client_threads_ordered.
Qed.

(** C24. A message handler must not connect or close the client, nor set a handler:
  it is called under the client's mutex, shared, and these take it exclusively.
  From then on the endpoint's thread waits for itself whatever other threads do,
  and none of them is ever given the mutex exclusively. *)
Theorem client_reentry_hangs text_p binary_p payload call rest (others : list (Thread (ClientWorld U) _)) w :
exclusive_call call = true →
text_p payload = (client_call_p text_p binary_p call ;;* rest) →
_textMessageHandler (the_client w) = true → Forall (λ t, held t = []) others →
let deliver := fresh_thread (messageHandler_p text_p binary_p (TextFrame payload)) in
∃ c t, rtc pool_step (mkConfig (deliver :: others) w) c ∧ ¬ finished t ∧
  ∀ c', rtc pool_step c c' → pool c' !! 0%nat = Some t ∧
    ∀ j u, pool c' !! j = Some u → (ClientMutex, Exclusive) ∉ held u.
Proof.
intros Hcall Hp Hset Ho deliver.
destruct (exclusive_call_locks text_p binary_p call Hcall) as [k Hk]. rewrite Hk in Hp.
set (t := mkThread [(ClientMutex, Shared)]
  (Lock ClientMutex Exclusive (unlock_after ClientMutex (k ;;* rest)))).
exists (mkConfig (t :: others) w), t. split_and!.
- eapply rtc_l; [exists 0%nat; by apply (step_act 0 (lift (inr (TextFrame payload))))|].
  eapply rtc_l; [exists 0%nat; apply step_lock; [done|]; constructor; [constructor|]|].
  { eapply Forall_impl; [exact Ho|]. intros u Hu. unfold grants. rewrite Hu. constructor. }
  eapply rtc_l; [exists 0%nat; by apply step_act|]. simpl. rewrite Hset. simpl. rewrite Hp.
  apply rtc_refl.
- by intros [r [=]].
- intros c' Hrun.
  assert (pool c' !! 0%nat = Some t) as Ht.
  { by eapply (self_waiting 0 _ _ Shared); [exact Hrun|apply list_elem_of_here|]. }
  split; [done|]. intros j u Hu [b Hb]%list_elem_of_lookup.
  assert (excludes c') as Hex.
  { clear - Hrun Ho. assert (excludes (mkConfig (t :: others) w)) as Hex.
    - intros i j [h p] [h' p'] a b l m Hi Hj Ha Hb. exfalso. clear Hj Hb.
      destruct i as [|i]; simpl in *.
      + injection Hi as <- <-. by destruct a.
      + rewrite Forall_lookup in Ho. specialize (Ho _ _ Hi). simpl in Ho. by subst.
    - clear Ho. induction Hrun as [|c c1 c2 [i Hs] _ IH]; [done|]. by apply IH, (excludes_step i c). }
  by destruct (Hex j 0%nat u t b 0%nat ClientMutex Shared Hu Ht Hb eq_refl) as [-> ->];
    rewrite Ht in Hu; injection Hu as <-.
Qed.
End client.

(** ** Examples *)

Section examples.
#[local] Existing Instance x86_64.

(** The recording handlers, each under a mutex of its own. *)
Definition locked_recorder {X} (l : Mutex) (f : X → ConnHandle → Event) (x : X) (hdl : ConnHandle)
  : prog (World (list Event)) Mutex unit :=
  locked_act l (modify (λ l, l ++ [f x hdl])).

Definition locked_recording : LockedHandlers (list Event) :=
  mkLockedHandlers (locked_recorder SubscriptionsMutex EvSubscribe)
    (locked_recorder SubscriptionsMutex EvUnsubscribe)
    (locked_recorder PublicationsMutex EvClientAdvertise)
    (locked_recorder PublicationsMutex EvClientUnadvertise)
    (locked_recorder PublicationsMutex EvClientMessage).

#[local] Instance locked_recording_ok : LockedHandlersOk recording locked_recording.
Proof.
  split; try (intros f ? ? [= <-]); intros; simpl;
    first [by apply runs_with_lock, runs_act | apply node_locked_act; simpl; lia].
Defined.

(** A client subscribes to channel 1 and disconnects, while the owner removes
    the channel and a message is sent on it. *)
Definition example_calls : list (list (Call (list Event))) :=
  [[CallPending (PMessage 0 1 (TextFrame (text_of (subscribe_text [(10, 1)])))); CallPending (PClose 1)];
   [CallRemoveChannel 1; CallBroadcastChannels]; [CallSendMessage 1 1 7 [x61]]].

(** The run loop subscribes and disconnects the client, while one thread stops the
    server and two others use it. *)
Definition pending_calls : list Pending :=
  [PMessage 0 1 (TextFrame (text_of (subscribe_text [(10, 1)]))); PClose 1].
Definition stopping_calls : list (list (Call (list Event))) :=
  [[CallStop (λ _, None)]; [CallRemoveChannel 1; CallBroadcastChannels]; [CallSendMessage 1 1 7 [x61]]].

Lemma server_threads_finish_witness :
  ∃ c', rtc pool_step (mkConfig (run_loop recording locked_recording pending_calls ::
      threads_of recording locked_recording stopping_calls) example_world) c' ∧
    all_finished c'.
Proof.
  destruct (server_threads_finish recording locked_recording pending_calls stopping_calls
    example_world locked_recording_ok) as [Hsn Hrun].
  set (c := mkConfig _ _) in *.
  assert (∀ c0, sn pool_step c0 → rtc pool_step c c0 →
    ∃ c', rtc pool_step c0 c' ∧ all_finished c') as Hend.
  { induction 1 as [c0 _ IH]. intros Hc0. destruct (Hrun c0 Hc0) as [[Hf|[c1 Hs]] _].
    - exists c0. split; [apply rtc_refl|exact Hf].
    - destruct (IH c1 Hs) as (c2 & H2 & Hf).
      + eapply rtc_r; [exact Hc0|exact Hs].
      + exists c2. split; [eapply rtc_l; [exact Hs|exact H2]|exact Hf]. }
  exact (Hend c Hsn (rtc_refl _ _)).
Defined.

Lemma thread_alone_witness :
  ∃ w', rtc pool_step (mkConfig (threads_of recording locked_recording [[CallPending (PClose 1)]])
      example_world) (mkConfig [mkThread [] (Done (inr tt))] w') ∧ _clients (srv w') = ∅.
Proof.
  pose proof (thread_alone recording locked_recording [CallPending (PClose 1)] example_world
    locked_recording_ok) as Ht.
  cbv zeta in Ht.
  destruct (run_calls recording [CallPending (PClose 1)] example_world) as [w' r] eqn:Hr.
  assert ((run_calls recording [CallPending (PClose 1)] example_world).2 = inr tt) as H2
    by (vm_compute; reflexivity).
  assert (_clients (srv (run_calls recording [CallPending (PClose 1)] example_world).1) = ∅) as H1
    by (vm_compute; reflexivity).
  rewrite Hr in H1, H2. simpl in H1, H2. subst r. exists w'. split; [apply Ht|exact H1].
Defined.

(** A connected client whose user keeps the texts it receives. *)
Definition keep_text (payload : string) : M (list string) unit := modify (λ l, l ++ [payload]).
Definition ignore_binary (payload : list byte) : M (list string) unit := ret tt.

Definition connected_client : ClientWorld (list string) :=
  mkClientWorld (mkClient (Some 1%positive) true false []) [].

(** The user subscribes and closes the client while a text arrives. *)
Definition client_calls : list (list ClientCall) :=
  [[CDeliver (TextFrame "hello")]; [CSubscribe [(10, 1)]; CClose]].

Lemma client_calls_atomic_witness :
  ∃ c ds w', rtc pool_step (mkConfig (client_threads (user_text keep_text)
        (user_binary ignore_binary) client_calls) connected_client) c ∧
    all_finished c ∧
    rtc (atomic_step (client_op keep_text ignore_binary))
      (pair (inr tt) <$> client_calls, connected_client) (ds, w') ∧
    shared c = w'.
Proof.
  assert (ClientHandlersOrdered (user_text keep_text) (user_binary ignore_binary)) as Hok
    by (by split).
  pose proof (client_threads_ordered _ _ client_calls connected_client Hok) as Ho.
  destruct (runs_to_the_end client_rank _ Ho) as (c & Hrun & Hf).
  destruct (client_calls_atomic keep_text ignore_binary client_calls connected_client c Hrun)
    as [(ds & w' & Hs & Hw & _) _].
  exists c, ds, w'. split; [exact Hrun|]. split; [exact Hf|]. split; [exact Hs|]. apply Hw.
  apply Forall_lookup. intros i t Ht. unfold grants.
  rewrite (finished_holds_nothing client_rank c i t); [constructor| |exact Ht|].
  - eapply well_ordered_steps; [exact Hrun|exact Ho].
  - unfold all_finished in Hf. rewrite Forall_lookup in Hf. exact (Hf i t Ht).
Defined.

(** A handler that closes the client, beside a thread that sets a handler. *)
Lemma client_reentry_hangs_witness :
  ∃ c t, rtc pool_step
      (mkConfig [fresh_thread (messageHandler_p (λ _, close_p ;;* pret tt) (λ _, pret tt) (TextFrame "bye"));
                 fresh_thread (setTextMessageHandler_p false)] connected_client) c ∧
    ¬ finished t ∧ ∀ c', rtc pool_step c c' → pool c' !! 0%nat = Some t.
Proof.
  destruct (client_reentry_hangs (λ _, close_p ;;* pret tt) (λ _, pret tt) "bye" CClose (pret tt)
    [fresh_thread (setTextMessageHandler_p false)] connected_client eq_refl eq_refl eq_refl)
    as (c & t & Hrun & Hn & Hc').
  - repeat constructor.
  - exists c, t. split; [exact Hrun|]. split; [exact Hn|]. intros c' Hc. apply (Hc' c' Hc).
Defined.
End examples.
