(* ===== verification/Ros2Theorems.v ===== *)
(** * Properties of the ROS 2 bridge

    The node together with the server it owns: what it keeps and for how long,
    what an update of the topics does, how it subscribes and publishes. *)

From Stdlib Require Import Strings.Byte.
From S2P Require Import Prelude Serialization Common Logging Interfaces Server ServerFacts.
From S2P Require Import ServerInvariant ServerSpec Client Protocol Reachable System.
From S2P Require Import SystemSteps TopicUpdate Regex MessageDefinitionCache FullText.
From S2P Require Import FullTextOutcomes Ros2Bridge Ros2Facts Ros2Update Concrete ConcreteRos.
From S2P Require Import Threads ThreadPool Deadlock ServerThreads ServerThreadFacts.
From S2P Require Import ServerThreadInvariant Ros2Threads Custody ServerCustody Ros2Custody.
From S2P Require Import Setup SetupFacts Ros2Setup.
From S2P Require Import Ros2Start Views ViewSteps TopicViews Ros2Views.

Local Open Scope Z_scope.
Local Open Scope string_scope.
Local Open Scope list_scope.

(** A subscription and an endpoint are matched by DDS if the endpoint offers at
    least what the subscription requests. *)
Definition matched (requested offered : QoS) : Prop :=
  (reliability requested = Reliable → reliability offered = Reliable) ∧
  (durability requested = TransientLocal → durability offered = TransientLocal).

Section theorems.
Context `{Platform, Iteration, LogChannels, Nlohmann, Websocketpp, Rclcpp, Ament}.
Context `{!NlohmannLaws, !WebsocketppLaws}.
Implicit Types w : World Bridge.

(** The system's invariant holds in every run of a fresh node. *)
Lemma ros2_run_sys name capabilities limit tls w0 w :
srv w0 = new_Server name capabilities limit tls → fresh_node (env w0) →
rtc (system_step bridge_handlers (gains nobody nobody) (ros2_step ids_last)) w0 w →
SysInv (srv w) (env w).
Proof.
intros Hs Hb Hrun.
apply (system_steps_inv bridge_handlers _ (ros2_step ids_last) w0 w (λ _ _ Hg, Hg) ros2_step_sys Hrun).
unfold sysm. rewrite Hs. by apply ros2_fresh_sys.
Qed.

(** C1. At any time before the server is stopped, whatever clients, network and graph
  do and however many channels have been added, every ROS subscription of the ROS 2
  bridge belongs to a connected client that is subscribed to its channel, and every
  ROS publisher to a connected client that has advertised its channel.  And as long
  as no update has run out of channel ids, of which there are 2^32, the node's two
  tables of topics and the server's table of channels hold the same entries. *)
Theorem ros2_nothing_leaks name capabilities limit tls w0 w :
srv w0 = new_Server name capabilities limit tls → fresh_node (env w0) →
(rtc (system_step bridge_handlers (gains nobody nobody) (ros2_step (λ _, True))) w0 w →
 (∀ ch hdl, nested (_subscriptions (env w)) ch hdl →
    ∃ c, _clients (srv w) !! hdl = Some c ∧ is_Some (subscriptionsByChannel c !! ch)) ∧
 (∀ hdl id, nested (_clientAdvertisedTopics (env w)) hdl id →
    ∃ c, _clients (srv w) !! hdl = Some c ∧ id ∈ advertisedChannels c)) ∧
(rtc (system_step bridge_handlers (gains nobody nobody) (ros2_step ids_last)) w0 w →
 (∀ id t, _channelToTopicAndDatatype (env w) !! id = Some t ↔
    ∃ ch, _advertisedTopics (env w) !! t = Some ch ∧ chan_id ch = id) ∧
 (∀ id ch, _channels (srv w) !! id = Some ch ↔
    ∃ t, _advertisedTopics (env w) !! t = Some ch ∧ chan_id ch = id)).
Proof.
intros Hs Hb. split; intros Hrun.
- assert (NoLeak (srv w) (env w)) as HI.
  { apply (system_steps_inv (mirror:=False) bridge_handlers _ (ros2_step (λ _, True)) w0 w
      (λ _ _ Hg, Hg) ros2_step_leakless Hrun).
    apply sys_leakless. rewrite Hs. by apply ros2_fresh_sys. }
  split.
  + intros ch hdl Hn. by destruct (sys_sub _ _ _ _ HI ch hdl Hn) as [[]|?].
  + intros hdl id Hn. by destruct (sys_pub _ _ _ _ HI hdl id Hn) as [[]|?].
- pose proof (ros2_run_sys name capabilities limit tls w0 w Hs Hb Hrun) as HI.
  split; [apply (sys_channels_iff _ _ HI)|apply (sys_registered_iff _ _ HI)].
Qed.

(** C6. The bridge shows the graph.  As long as the names on the graph and the
  definitions on disk are text, and channel ids left at each update, at any time
  before the server is stopped each connected client knows exactly the server's channels.  When an update is
  over, ROS running and its graph read, these are the topics on the graph that the whitelist admits: each
  channel a client knows is of such a topic, and each such topic whose
  definition can be read, or is missing, has exactly one. *)
Theorem ros2_clients_follow_graph `{!NlohmannUtf8} name capabilities limit tls w0 w :
srv w0 = new_Server name capabilities limit tls →
valid_utf8 name → Forall valid_utf8 capabilities →
fresh_node (env w0) → _messageDefinitionCache (env w0) = ∅ →
rtc (system_step bridge_handlers graph_moves ros2_text_step) w0 w →
(∀ hdl, is_Some (_clients (srv w) !! hdl) → known w hdl = _channels (srv w)) ∧
(∀ X, latest w = inr X → ids_last w → utf8_graph w → ros_ok (ros (env w)) = true →
 let w' := (updateAdvertisedTopics w).1 in
 ∀ hdl, is_Some (_clients (srv w') !! hdl) →
   shows (known w' hdl)
     (λ t, t ∈ X ∧ is_Some (expected_channel t)) (λ t, t ∈ X)).
Proof.
intros Hs Hn Hc Hb Hcache Hrun.
assert (bridge_synced cache_ok w) as Hw.
{ apply (ros2_run_synced w0 w Hrun). by apply ros2_synced_fresh with name capabilities limit tls. }
split; [apply Hw|]. intros X HX Hids Hutf Hros w' hdl Hcl.
pose proof (ros2_update_synced w Hw Hids Hutf) as [HI' Hw' _]. destruct Hw as [HI _ Hok].
destruct (ros2_updateAdvertisedTopics_run w X HI Hok HX Hids Hros) as (_ & _ & Hupd).
apply known_shows; [exact HI'|exact Hw'|exact Hcl| |]; intros t;
  specialize (Hupd t); unfold updated, described_topic in Hupd.
- intros [ch Ht]. case_decide; [done|]. unfold w' in Ht. congruence.
- intros [Ht [new Hnew]]. rewrite decide_True in Hupd by done.
  destruct (topics w !! t) as [ch|]; [by exists ch|].
  destruct Hupd as (r & -> & Hr). rewrite Hnew in Hr. destruct Hr as [id Hr]. by eexists.
Qed.

(** C13. While there are channel ids left, ROS runs, and node, server and cache satisfy
  their invariants, an update of the ROS 2 node leaves exactly the topics on the graph that the whitelist admits advertised: one
  that was advertised keeps its channel; a new one gets a channel with the
  schema found on disk, or without a schema and encoding if there is none; it
  is left out only if its definition cannot be read for another reason.  If the
  graph cannot be read, or a name on it not be matched with the whitelist, the
  update fails with that error and has done nothing. *)
Theorem ros2_update w :
SysInv (srv w) (env w) → CacheOk (_messageDefinitionCache (env w)) → ids_last w →
ros_ok (ros (env w)) = true →
wp updateAdvertisedTopics (λ r w',
  SysInv (srv w') (env w') ∧ CacheOk (_messageDefinitionCache (env w')) ∧
  match latest w with
  | inl e => r = inl e ∧ w' = w
  | inr X =>
      ∀ t, let after := _advertisedTopics (env w') !! t in
        if decide (t ∈ X) then
          match _advertisedTopics (env w) !! t with
          | Some ch => after = Some ch
          | None =>
              match expected_channel t with
              | Some new => ∃ id, after = Some (mkChannel id new)
              | None => after = None
              end
          end
        else after = None
  end) w.
Proof.
intros HI Hok Hids Hros. destruct (latest w) as [e|X] eqn:HX.
{ unfold wp. by rewrite ros2_updateAdvertisedTopics_loops, Hros, HX. }
eapply wp_mono; [by apply (ros2_updateAdvertisedTopics_run w X)|].
intros r w' (HI' & Hok' & Hupd). split_and!; [done|done|].
intros t. specialize (Hupd t). unfold updated, described_topic, topics in Hupd. simpl in *.
repeat case_match; try done; by destruct Hupd as (? & -> & ?).
Qed.

(** C28. The quality of service the node chooses for a subscription matches every
  publisher of the topic; it asks for reliability, and for durability, exactly
  when all of them offer it; and the depth is at least one and at most the limit
  (or one).  The depth is the sum of theirs, up to the limit, if the limit and each
  single depth add up to less than 2^64; otherwise the sum may wrap around. *)
Theorem select_qos_matches maxQosDepth publisherInfo :
0 <= maxQosDepth →
let qos := select_qos maxQosDepth publisherInfo in
(∀ p, p ∈ publisherInfo → matched qos p) ∧
(reliability qos = Reliable ↔ ∀ p, p ∈ publisherInfo → reliability p = Reliable) ∧
(durability qos = TransientLocal ↔ ∀ p, p ∈ publisherInfo → durability p = TransientLocal) ∧
1 <= depth qos <= Z.max 1 maxQosDepth ∧
(Forall (λ q, 0 <= depth q ∧ maxQosDepth + depth q < 2 ^ 64) publisherInfo →
 depth qos = Z.max 1 (Z.min maxQosDepth (total_depth publisherInfo))).
Proof.
intros Hm qos. subst qos.
destruct (select_qos_run maxQosDepth publisherInfo Hm) as (d & -> & Hd & Hfit).
assert (∀ {X} (b : bool) (x y : X), x ≠ y → (if b then x else y) = x ↔ b = true) as Hif
  by (intros X [] x y ?; naive_solver).
split_and!; simpl; [|rewrite Hif by done; apply count_all|rewrite Hif by done; apply count_all|lia|lia|].
- intros p Hin. split; simpl; rewrite Hif by done;
    unfold reliable_pubs, transient_pubs; rewrite count_all; auto.
- intros Hp. rewrite (Hfit Hp). lia.
Qed.

(** A publisher may offer any depth: then the sum wraps around, and the
    subscription gets 4 instead of the limit 25. *)
Lemma qos_depth_wraps :
  depth (select_qos 25 [mkQoS Reliable Volatile 5; mkQoS Reliable Volatile (2 ^ 64 - 1)]) = 4.
Proof. vm_compute. reflexivity. Qed.

(** C35. No frame a client sends makes the server of the ROS 2 bridge throw or read
  out of bounds, through the node's handlers either: in particular the copy
  of a published payload stays inside the frame. *)
Theorem ros2_handles_every_frame timestamp hdl msg w :
RclcppLaws → (handleMessage bridge_handlers timestamp hdl msg w).2 = inr tt.
Proof. intros Hlaws. by apply handleMessage_ok, ros2_tame. Qed.

(** On a little-endian machine, what a client of the ROS 2 bridge publishes on
  a channel for which the node has a publisher is published on ROS, once, with
  that publisher and the client's bytes; nothing else changes. *)
Theorem ros2_publishes timestamp hdl channelId buffer advs adv pubs pub w :
big_endian = false → is_u32 channelId → Z.of_nat (length buffer) < 2 ^ 64 →
_clientChannels (srv w) !! hdl = Some advs → advs !! channelId = Some adv →
adv_channelId adv = channelId →
_clientAdvertisedTopics (env w) !! hdl = Some pubs → pubs !! channelId = Some pub →
(ros_publish pub buffer (ros (env w))).2 = inr tt →
∃ frame, publish_data channelId buffer = Some frame ∧
  wp (handleMessage bridge_handlers timestamp hdl (BinaryFrame frame))
     (λ r w', r = inr tt ∧ srv w' = srv w ∧ net w' = net w ∧
        env w' = set_ros (ros_publish pub buffer (ros (env w))).1 (env w)) w.
Proof.
intros Hle Hid Hlen Hadvs Hadv Heq Hpubs Hpub Hok.
exists (publish_frame channelId buffer). split; [apply publish_data_frame|].
unfold handleMessage. rewrite wp_try_catch. unfold wp.
rewrite (client_publish_eq bridge_handlers timestamp hdl advs) by done.
unfold received_id. rewrite Hle, u32_id, Hadv by done.
set (msg := published timestamp adv channelId buffer).
assert (clientMessageHandler msg hdl (env w) =
  (set_ros (ros_publish pub buffer (ros (env w))).1 (env w), inr tt)) as Hrun.
{ rewrite (clientMessageHandler_run msg hdl pubs pub).
  - unfold on_ros, msg. rewrite getData_published.
    by destruct (ros_publish _ _ _) as [r [e|[]]].
  - unfold msg. rewrite getData_published. by apply getLength_published.
  - done.
  - unfold msg. simpl. by rewrite Heq. }
unfold call, bind, emit, modify, on_env. simpl. by rewrite Hrun.
Qed.

(** C18. In every interleaving of the ROS 2 bridge's threads - the server's run
  loop, the executor's callbacks and the polling thread - the clients' and the
  channels' tables agree whenever no thread holds [_clientsChannelMutex]
  exclusively, in particular whenever one reads them under the shared lock:
  every subscription is to a channel that exists, no client has an id twice, and
  what any connected client has been told of is a channel that exists. *)
Theorem ros2_threads_agree `{!NlohmannUtf8} css triggers w c :
SharedInv (srv w) → Informed w →
rtc pool_step (mkConfig (ros2_threads css triggers) w) c →
(∀ i t, pool c !! i = Some t → (ClientsChannelMutex, Exclusive) ∉ held t) ∨
(∃ i t, pool c !! i = Some t ∧ (ClientsChannelMutex, Shared) ∈ held t) →
SharedInv (srv (shared c)) ∧
∀ hdl, is_Some (_clients (srv (shared c)) !! hdl) →
  known (shared c) hdl ⊆ _channels (srv (shared c)).
Proof.
intros HI Hv Hrun Hfree.
pose proof (protected_steps _ _ _ shared_inv_same _ _ Hrun
  (ros2_protected css triggers w (conj HI Hv))) as Hp.
assert (shared_inv (shared c)) as [HI' Hv'].
{ apply (prot_inv _ _ _ _ Hp). destruct Hfree as [Hfree|(i & t & Ht & Hs)]; [exact Hfree|].
  intros j u Hu Ho. exact (reader_alone _ _ _ c i j t u Hp Ht Hs Hu Ho). }
split; [done|]. intros hdl. by apply informed_view.
Qed.

(** C2. No interleaving of the ROS 2 bridge's threads leaves anything behind.
  Whatever the run loop, the executor's callbacks and the polling thread do
  between each other's steps: at any moment a ROS subscription or publisher of
  the node belongs to a connected client that has subscribed or advertised, or
  some thread does away with it before that thread ends, whatever the others do
  meanwhile.  When all threads have ended, every subscription and publisher
  belongs to a connected client that asked for it. *)
Theorem ros2_threads_leave_nothing css triggers w c :
Forall (Forall running_call) css → (∀ x, kept w x → accounted w x) →
rtc pool_step (mkConfig (ros2_threads css triggers) w) c →
(∀ x, kept (shared c) x → accounted (shared c) x ∨
   ∃ i t, pool c !! i = Some t ∧ ends kept (λ _, False) x (code t)) ∧
(all_finished c → ∀ x, kept (shared c) x → accounted (shared c) x).
Proof.
intros Hcss Hw Hrun. destruct (ros2_careful css triggers Hcss) as (ps & Hps & Hc).
rewrite Hps in Hrun. by eapply (custody_run ClientsChannelMutex same_clients).
Qed.

(** C16. The ROS 2 bridge can deadlock.  In any state in which an advertised topic
  has left the graph and a client's subscription will be granted, the thread
  that serves the client and the thread that polls the graph can reach a state
  in which each waits for the mutex the other holds. *)
Theorem ros2_can_deadlock timestamp hdl text triggers X t ch w :
grants_subscription w hdl text →
ros_ok (ros (env w)) = true → latest w = inr X → _advertisedTopics (env w) !! t = Some ch →
t ∉ X →
∃ c, rtc pool_step
       (mkConfig (ros2_threads [[CallPending (PMessage timestamp hdl (TextFrame text))]] triggers) w) c ∧
     ¬ all_finished c ∧ ∀ c', ¬ pool_step c c'.
Proof.
intros Hreq Hok HX Ht Hl. destruct (ros2_deadlock timestamp hdl text triggers X t ch w) as (c & Hrun & Hn & Hnf);
  [done..|]. exists c. split_and!; [done|done|]. intros c' Hs. apply Hnf. by exists c'.
Qed.
End theorems.

Section construction.
Context `{Platform, Iteration, LogChannels, Nlohmann, Websocketpp, !Asio, Rclcpp, Ament}.
Context `{!Ros2SetupLibrary, RclcppParameters, !NlohmannLaws, !WebsocketppLaws}.
Context `{StdRegex, !StdRegexLaws, !RclcppParametersLaws, !LogChannelsOk}.

(** C12. A ROS 2 node whose constructor returns has a server that has been started,
  successfully and on the address and port of the parameters, runs on its own
  thread since, has the node's five handlers, and has TLS if the parameter says so.  No number taken
  from a parameter is changed by its conversion to an unsigned type; the
  whitelist gets the patterns that compile; the polling thread and the clock
  subscription are set up; and what the server logs as the application reaches the
  log of ROS as information.  From then on the invariant of node and server holds
  in every run in which channel ids are left at each update; and the destructor of
  the node, when ROS has been shut down and websocketpp's endpoint not been stopped
  before, leaves a server without clients and without its thread if it returns:
  instead, the process may end, or the join of the server's thread wait for good. *)
Theorem ros2_constructed logs (o : Owner Params Bridge) :
fresh_node (ow_bridge o) →
wp (FoxgloveBridge_new logs) (λ r o', r = inr tt →
  ∃ s address port limit tls certfile keyfile sim patterns,
  has_param o' "address" (ParamString address) ∧ has_param o' "port" (ParamInteger port) ∧
  has_param o' "send_buffer_limit" (ParamInteger limit) ∧ has_param o' "tls" (ParamBool tls) ∧
  has_param o' "certfile" (ParamString certfile) ∧
  has_param o' "keyfile" (ParamString keyfile) ∧
  has_param o' "topic_whitelist" (ParamStringArray patterns) ∧
  has_param o' "max_qos_depth" (ParamInteger (_maxQosDepth (ow_bridge o'))) ∧
  ow_server o' = Some s ∧
  so_state s = set_thread true
    (new_Server "foxglove_bridge" (serverCapabilities sim) limit tls) ∧
  so_handlers s = bridge_handlers ∧
  so_hooks s = constructed_hooks (if tls then Some (certfile, keyfile) else None) ∧
  is_u16 port ∧
  (∃ w w' : World Bridge,
     srv w = new_Server "foxglove_bridge" (serverCapabilities sim) limit tls ∧
     start address port w = (w', inr tt) ∧
     srv w' = so_state s ∧ net w' = ow_net o' ∧ out w' = ow_out o') ∧
  _topicWhitelistPatterns (ow_bridge o') =
    _topicWhitelistPatterns (ow_bridge o) ++ omap compiled patterns ∧
  _useSimTime (ow_bridge o') = sim ∧ (sim = true → ow_clock o' = true) ∧
  ow_polling o' = true ∧
  (app_log (access_log logs) → ∀ msg,
     uncurry logHandler <$> write alevel_app msg (access_log (so_logs s)) =
     [(SeverityInfo, "[WS] " +:+ msg)]) ∧
  ∀ w, rtc (system_step bridge_handlers (gains nobody nobody) (ros2_step ids_last)) (world_of_owner o' s) w →
    SysInv (srv w) (env w) ∧
    ∀ turns next, ros_ok (ros (env w)) = false → ws_stopped (net w) = false →
      wp (FoxgloveBridge_delete turns next) (λ r' o'', r' ≠ inr false ∧ ow_polling o'' = false ∧
        ∃ s', ow_server o'' = Some s' ∧ (r' = inr true → _clients (so_state s') = ∅ ∧
          _serverThread (so_state s') = false)) (owner_at o' s w)) o.
Proof.
intros Hfresh. unfold FoxgloveBridge_new. apply prepare_run; [done..|].
intros o1 s Hpre Hno. rewrite wp_bind. eapply register_run; [apply Hpre|done|]. simpl.
apply prepared_with_handlers in Hpre. set (o2 := set_server _ o1) in *.
rewrite wp_bind. eapply wp_mono; [by eapply ros2_start_server_run|].
intros [e|[]] o3 Ho3; [done|].
destruct (Ho3 eq_refl) as (Hp & Hb & Hs & address & port & w' & Ha & Hport & Hu & Hstart & Hw' & Hnet & Hout).
clear Ho3. eapply wp_mono; [apply finish_run; rewrite Hp; apply Hpre|].
intros r o4 Ho4 Hr. destruct (Ho4 Hr) as (depth & rs & Hdepth & ->). clear Ho4.
destruct (pre_state _ _ _ _ Hpre)
  as (limit & tls & cert & key & sim & Hlimit & Htls & Hc & Hk & Hst & Hh & Hsim).
destruct (pre_patterns _ _ _ _ Hpre) as (patterns & Hpat & Hwl). unfold has_param in *.
eexists _, address, port, limit, tls, cert, key, sim, patterns. simpl.
rewrite Hp in Hdepth |- *. rewrite Hb, Hs, Hsim. do 9 (split; [done|]). simpl in Hst, Hh |- *.
rewrite Hst. do 2 (split; [done|]). rewrite Hh. do 2 (split; [done|]).
split; [by exists (world_of_owner o2 (with_handlers s)), w'; rewrite Hw'; simpl; rewrite Hst|].
do 2 (split; [done|]). split; [by intros ->|]. split; [done|]. split.
{ intros Happ msg. pose proof (pre_logs _ _ _ _ Hpre) as Hlogs. simpl in Hlogs. simpl. rewrite Hlogs. by rewrite configured_forwards. }
intros w Hrun. split.
- apply (system_steps_inv bridge_handlers _ (ros2_step ids_last) _ w (λ _ _ Hg, Hg) ros2_step_sys Hrun).
  apply sys_finish. rewrite <-Hst. exact (prepared_sys _ _ _ _ Hpre).
- intros turns next Hshut Hns. by apply ros2_delete_run.
Qed.

(** C40. Destroying the ROS 2 node while ROS runs does not return: the destructor
  joins the polling thread first, whose loop only the shutdown of ROS ends, so a
  component that is unloaded from a running container hangs, however long its
  loop goes on, unless the process ends.  Once ROS has been shut down the
  destructor does not wait for the polling thread; what may still keep it is the
  join of the server's thread, of which C36 speaks. *)
Theorem ros2_destructor_waits turns next o s w :
ow_polling o = true →
(ros_ok (ros (env w)) = true →
 Forall (λ t, ∀ r, ros_ok r = true → ros_ok (meanwhile t r) = true) turns →
 (FoxgloveBridge_delete turns next (owner_at o s w)).2 ≠ inr true) ∧
(ros_ok (ros (env w)) = false → ws_stopped (net w) = false →
 (FoxgloveBridge_delete turns next (owner_at o s w)).2 ≠ inr false).
Proof.
intros Hpoll. split.
- intros Hok Hturns.
  enough (wp (FoxgloveBridge_delete turns next) (λ r _, r ≠ inr true) (owner_at o s w)) as Hr by done.
  unfold FoxgloveBridge_delete. rewrite wp_noexcept, wp_bind, wp_gets. simpl. rewrite Hpoll, wp_bind.
  erewrite wp_through by done. unfold wp at 1.
  pose proof (poll_goes_on turns w Hok Hturns) as Hgo.
  assert (world_of_owner (owner_at o s w) (mkServerObject (srv w) (so_handlers s) (so_hooks s) (so_logs s)) = w)
    as -> by (by destruct w).
  destruct (poll_until_end turns w) as [w' [e|[]]]; [done| |done]. by destruct Hgo.
- intros Hok Hns. by destruct (ros2_delete_run turns next o s w Hok Hns Hpoll).
Qed.
End construction.

(** The count of ignored topics wraps around when topics with several types make
    the admitted pairs outnumber the topics. *)
Lemma numIgnoredTopics_wraps (names : list (string * list string)) (X : gset TopicAndDatatype) :
  Z.of_nat (length names) < Z.of_nat (size X) < 2 ^ 64 →
  numIgnoredTopics names X = 2 ^ 64 - (Z.of_nat (size X) - Z.of_nat (length names)).
Proof.
  intros Hlt. unfold numIgnoredTopics, u64. symmetry.
  apply (Z.mod_unique _ _ (-1)); [left|]; lia.
Qed.

(** One topic of two types. *)
Lemma numIgnoredTopics_example :
  let names := [("/t", ["a/A"; "a/B"])] in
  ∃ X, latest_topics [λ _, inr true] names = inr X ∧ numIgnoredTopics names X = 2 ^ 64 - 1.
Proof. eexists. split; [reflexivity|]. vm_compute. reflexivity. Qed.

(** ** Examples *)

Section examples.
#[local] Existing Instance x86_64.

(** A graph with three topics, one of them without a definition, and a node that
    has just been constructed. *)
Definition offer (r : ReliabilityPolicy) (d : DurabilityPolicy) (n : Z) : QoS := mkQoS r d n.

Definition example_graph : Graph :=
  mkGraph true [("/tree", ["a/Node"]); ("/lost", ["b/Lost"]); ("/leaf", ["b/Leaf"])]
    {[ "/leaf" := [offer Reliable Volatile 7; offer BestEffort Volatile 5] ]} [].

Definition example_node : Bridge := mkBridge ∅ [λ _, inr true] ∅ ∅ ∅ ∅ 10 false example_graph.

Definition start_world : World Bridge :=
  mkWorld (new_Server "bridge" (serverCapabilities false) 10000000 false) example_net example_node [].

(** A client connects, the topics are polled, the client subscribes to the first
    channel and advertises one of its own. *)
Definition opened_world : World Bridge := (run_pending bridge_handlers (POpen 1) start_world).1.
Definition polled_world : World Bridge := (poll_graph true opened_world).1.
Definition subscribed_world : World Bridge :=
  (run_pending bridge_handlers (PMessage 0 1 (TextFrame (text_of (subscribe_text [(10, 1)]))))
     polled_world).1.
Definition advertised_world : World Bridge :=
  (run_pending bridge_handlers (PMessage 0 1 (TextFrame (text_of (advertise_text [example_adv]))))
     subscribed_world).1.

(** The topics of the graph. *)
Definition example_topics : gset TopicAndDatatype :=
  list_to_set [("/tree", "a/Node"); ("/lost", "b/Lost"); ("/leaf", "b/Leaf")].

Lemma ros2_ids_last_at w X :
  latest w = inr X → _nextChannelId (srv w) + Z.of_nat (size X) < 2 ^ 32 → ids_last w.
Proof. intros HX Hids X'. rewrite HX. by intros [= <-]. Defined.

Lemma ros2_advertised_run (may_poll : World Bridge → Prop) :
  may_poll opened_world →
  rtc (system_step bridge_handlers (gains nobody nobody) (ros2_step may_poll))
    start_world advertised_world.
Proof.
  intros Hpoll.
  eapply rtc_l; [apply (sys_pending bridge_handlers _ _ (POpen 1)); exact eq_refl|].
  eapply rtc_l; [apply sys_node, (ros2_poll _ true); exact Hpoll|].
  eapply rtc_l; [eapply (sys_pending bridge_handlers _ _ (PMessage _ _ _)); exact I|].
  eapply rtc_l; [eapply (sys_pending bridge_handlers _ _ (PMessage _ _ _)); exact I|].
  apply rtc_refl.
Qed.

Lemma ros2_opened_ids : ids_last opened_world.
Proof. apply (ros2_ids_last_at _ example_topics); [vm_compute; reflexivity|vm_compute; reflexivity]. Qed.

Lemma ros2_nothing_leaks_witness :
  nested (_subscriptions (env advertised_world)) 1 1%positive ∧
  nested (_clientAdvertisedTopics (env advertised_world)) 1%positive 5 ∧
  (∃ c, _clients (srv advertised_world) !! 1%positive = Some c ∧
     is_Some (subscriptionsByChannel c !! 1)) ∧
  (∃ c, _clients (srv advertised_world) !! 1%positive = Some c ∧ 5 ∈ advertisedChannels c).
Proof.
  assert (nested (_subscriptions (env advertised_world)) 1 1%positive) as Hs
    by (eexists; split; [vm_compute; reflexivity|eexists; vm_compute; reflexivity]).
  assert (nested (_clientAdvertisedTopics (env advertised_world)) 1%positive 5) as Hp
    by (eexists; split; [vm_compute; reflexivity|eexists; vm_compute; reflexivity]).
  destruct (ros2_nothing_leaks "bridge" (serverCapabilities false) 10000000 false
    start_world advertised_world) as [Hrun _].
  - reflexivity.
  - split_and!; reflexivity.
  - destruct (Hrun (ros2_advertised_run _ I)) as [Hsub Hpub].
    exact (conj Hs (conj Hp (conj (Hsub _ _ Hs) (Hpub _ _ Hp)))).
Defined.

Lemma ros2_update_witness :
  wp updateAdvertisedTopics (λ _ w',
    (∃ id, _advertisedTopics (env w') !! ("/lost", "b/Lost") =
       Some (mkChannel id (mkChannelWithoutId "/lost" "" "b/Lost" "")))) start_world.
Proof.
  eapply wp_mono.
  - apply (ros2_update start_world).
    + apply ros2_fresh_sys. split_and!; reflexivity.
    + exact CacheOk_empty.
    + apply (ros2_ids_last_at _ example_topics); [vm_compute; reflexivity|vm_compute; reflexivity].
    + reflexivity.
  - intros r w' (_ & _ & Hupd).
    assert (latest start_world = inr example_topics) as Hlatest by (vm_compute; reflexivity).
    rewrite Hlatest in Hupd. specialize (Hupd ("/lost", "b/Lost")). cbv zeta in Hupd.
    rewrite decide_True in Hupd by (apply (bool_decide_unpack _); vm_compute; exact I).
    assert (_advertisedTopics (env start_world) !! ("/lost", "b/Lost") = None) as Hnone
      by reflexivity.
    assert (expected_channel ("/lost", "b/Lost") =
      Some (mkChannelWithoutId "/lost" "" "b/Lost" "")) as Hexp by (vm_compute; reflexivity).
    rewrite Hnone, Hexp in Hupd. exact Hupd.
Defined.

Lemma select_qos_matches_witness :
  matched (select_qos 10 [offer Reliable Volatile 7; offer BestEffort Volatile 5])
    (offer BestEffort Volatile 5) ∧
  depth (select_qos 10 [offer Reliable Volatile 7; offer BestEffort Volatile 5]) = 10.
Proof.
  destruct (select_qos_matches 10 [offer Reliable Volatile 7; offer BestEffort Volatile 5])
    as (Hm & _ & _ & _ & Hd).
  - discriminate.
  - split; [apply Hm; right; left|apply Hd; repeat constructor; discriminate].
Defined.

Lemma ros2_handles_every_frame_witness :
  (handleMessage bridge_handlers 0 1 (BinaryFrame [Byte.x01; Byte.x05; Byte.x00]) polled_world).2
    = inr tt.
Proof. apply ros2_handles_every_frame. exact example_rclcpp_laws. Defined.

Lemma ros2_publishes_witness :
  ∃ frame, publish_data 5 [Byte.x61] = Some frame ∧
    wp (handleMessage bridge_handlers 0 1 (BinaryFrame frame))
       (λ r w', r = inr tt ∧
          graph_published (ros (env w')) = [("/cmd_vel", [Byte.x61])]) advertised_world.
Proof.
  destruct (ros2_publishes 0 1%positive 5 [Byte.x61] {[ 5 := mkClientAdvertisement 5 "/cmd_vel" "json" "geometry_msgs/msg/Twist" [] ]}
    example_adv {[ 5 := mkPublication "/cmd_vel" "geometry_msgs/msg/Twist" ]}
    (mkPublication "/cmd_vel" "geometry_msgs/msg/Twist") advertised_world) as (frame & Hf & Hw).
  1-9: vm_compute; (reflexivity || (split; [discriminate|reflexivity])).
  exists frame. split; [exact Hf|]. eapply wp_mono; [exact Hw|].
  intros r w' (-> & _ & _ & ->). split; [reflexivity|vm_compute; reflexivity].
Defined.

(** The topics leave the graph. *)
Definition gone_world : World Bridge :=
  mkWorld (srv polled_world) (net polled_world)
    (set_ros (mkGraph true [] ∅ []) (env polled_world)) (out polled_world).

(** All strings are text to this library. *)
Lemma ros2_example_utf8 w : utf8_graph w.
Proof. by intros X t new _ _ _. Qed.

Lemma polled_run : rtc (system_step bridge_handlers graph_moves ros2_text_step) start_world polled_world.
Proof.
  eapply rtc_l; [apply (sys_pending bridge_handlers _ _ (POpen 1)); exact eq_refl|].
  eapply rtc_l; [apply sys_node; split; [apply (ros2_poll _ true)|apply ros2_example_utf8]|apply rtc_refl].
  exact ros2_opened_ids.
Qed.

Lemma polled_synced : bridge_synced cache_ok polled_world.
Proof.
  apply (ros2_run_synced start_world polled_world polled_run).
  apply (ros2_synced_fresh "bridge" (serverCapabilities false) 10000000 false);
    [reflexivity|exact I|repeat constructor|split_and!; reflexivity|reflexivity].
Qed.

Lemma gone_latest : latest gone_world = inr ∅.
Proof. done. Qed.

(** A client that has connected knows the three topics; when they leave the graph it
    knows none. *)
Lemma ros2_clients_follow_graph_witness :
  known polled_world 1 = _channels (srv polled_world) ∧
  map_size (known polled_world 1) = 3%nat ∧
  known (updateAdvertisedTopics gone_world).1 1 = ∅.
Proof.
  assert (is_Some (_clients (srv polled_world) !! 1%positive)) as Hc
    by (vm_compute; by eexists).
  destruct (ros2_clients_follow_graph "bridge" (serverCapabilities false) 10000000 false
    start_world polled_world) as [Hk _].
  1-5: first [reflexivity | exact I | repeat constructor].
  { exact polled_run. }
  destruct (ros2_clients_follow_graph "bridge" (serverCapabilities false) 10000000 false
    start_world gone_world) as [_ Hg].
  1-5: first [reflexivity | exact I | repeat constructor].
  { eapply rtc_r; [exact polled_run|]. unfold gone_world. generalize polled_world. intros w0.
    by apply sys_outside; [..|exists (mkGraph true [] ∅ [])]. }
  assert (known polled_world 1 = _channels (srv polled_world)) as Hk1 by exact (Hk _ Hc).
  split; [exact Hk1|]. split; [rewrite Hk1; vm_compute; reflexivity|].
  destruct (Hg ∅ gone_latest ltac:(apply (ros2_ids_last_at _ ∅ gone_latest); vm_compute; reflexivity)
    (ros2_example_utf8 _) eq_refl 1%positive) as [Hhi _]; [vm_compute; by eexists|].
  apply map_eq. intros id. rewrite lookup_empty. apply eq_None_not_Some. intros [ch Hch].
  specialize (Hhi id ch Hch). by apply not_elem_of_empty in Hhi.
Defined.

Lemma ros2_threads_agree_witness :
  let c := mkConfig (ros2_threads [[CallPending (PClose 1)]] [true]) polled_world in
  SharedInv (srv (shared c)) ∧ known (shared c) 1 ⊆ _channels (srv (shared c)).
Proof.
  destruct (ros2_threads_agree [[CallPending (PClose 1)]] [true] polled_world
    (mkConfig (ros2_threads [[CallPending (PClose 1)]] [true]) polled_world)) as [HI Hk].
  - apply shared_of_inv, polled_synced.
  - apply polled_synced.
  - apply rtc_refl.
  - left. intros i t Ht. repeat (destruct i as [|i]; [injection Ht as <-; apply not_elem_of_nil|]).
    discriminate Ht.
  - split; [exact HI|]. apply Hk. vm_compute. by eexists.
Defined.

(** The client disconnects, another one connects and the topics leave the graph;
    the threads take turns. *)
Definition leaving_calls : list (list (Call Bridge)) :=
  [[CallPending (PClose 1)]; [CallPending (POpen 2)]].
Definition leaving_config (turns : list nat) : Config (World Bridge) Mutex :=
  scheduled turns (mkConfig (ros2_threads leaving_calls [true]) advertised_world).
Definition some_turns : list nat := replicate 8 0%nat.
Definition all_turns : list nat := concat (replicate 150 [0; 1; 2]%nat).

(** After a few steps the client is gone and the node still keeps what it had; at
    the end nothing is left. *)
Lemma ros2_threads_leave_nothing_witness :
  (let w := shared (leaving_config some_turns) in
   _clients (srv w) !! 1%positive = None ∧ nested (_subscriptions (env w)) 1 1%positive) ∧
  (let c := leaving_config all_turns in
   all_finished c ∧ ∀ x, kept (shared c) x → accounted (shared c) x).
Proof.
  destruct (ros2_threads_leave_nothing leaving_calls [true] advertised_world
    (leaving_config all_turns)) as [_ Hend].
  - repeat (constructor || exact I).
  - intros x. apply sys_accounted.
    apply (ros2_run_sys "bridge" (serverCapabilities false) 10000000 false start_world);
      [reflexivity|split_and!; reflexivity|exact (ros2_advertised_run _ ros2_opened_ids)].
  - apply scheduled_runs.
  - assert (all_finished (leaving_config all_turns)) as Hf
      by (apply (bool_decide_unpack _); vm_compute; exact I).
    split; [split|].
    + vm_compute. reflexivity.
    + eexists. split; [vm_compute; reflexivity|]. eexists. vm_compute. reflexivity.
    + split; [exact Hf|exact (Hend Hf)].
Defined.

Lemma ros2_can_deadlock_witness :
  ∃ c, rtc pool_step
         (mkConfig (ros2_threads [[CallPending (PMessage 0 1
            (TextFrame (text_of (subscribe_text [(10, 1)]))))]] []) gone_world) c ∧
       ¬ all_finished c ∧ ∀ c', ¬ pool_step c c'.
Proof.
  destruct (_advertisedTopics (env gone_world) !! ("/leaf", "b/Leaf")) as [ch|] eqn:Hch;
    [|vm_compute in Hch; discriminate].
  apply (ros2_can_deadlock 0 1 _ [] ∅ ("/leaf", "b/Leaf") ch).
  - do 6 eexists. split_and!; [vm_compute; reflexivity..|].
    eexists. vm_compute. reflexivity.
  - reflexivity.
  - exact gone_latest.
  - exact Hch.
  - apply (bool_decide_unpack _). vm_compute. exact I.
Defined.

(** A node that is started with TLS on any free port, and with a pattern that does
    not compile. *)
Definition example_overrides : ParameterTable :=
  mkParameterTable {[ "port" := ParamInteger 0; "tls" := ParamBool true;
                      "topic_whitelist" := ParamStringArray ["("; "/leaf"] ]}
    {[ "use_sim_time" := ParamBool true ]} ∅.

Definition unstarted : Owner Params Bridge :=
  mkOwner example_overrides None (mkNetwork ∅ false false) example_node [] false false.

Lemma ros2_constructed_witness :
  ∃ o' s, FoxgloveBridge_new new_logs unstarted = (o', inr tt) ∧
    ow_server o' = Some s ∧
    SysInv (srv (run_pending bridge_handlers (POpen 1) (world_of_owner o' s)).1)
      (env (run_pending bridge_handlers (POpen 1) (world_of_owner o' s)).1).
Proof.
  pose proof (ros2_constructed new_logs unstarted ltac:(split_and!; reflexivity)) as Hc.
  unfold wp in Hc.
  assert ((FoxgloveBridge_new new_logs unstarted).2 = inr tt) as Hr
    by (vm_compute; reflexivity).
  destruct (Hc Hr) as (s & address & port & limit & tls & cert & key & sim & patterns & Hs).
  destruct Hs as (_ & _ & _ & _ & _ & _ & _ & _ & Hs & Hst & _ & _ & _ & _ & _ & _ & _ & _ & _ & HI).
  exists (FoxgloveBridge_new new_logs unstarted).1, s.
  split; [rewrite <-Hr; apply surjective_pairing|]. split; [exact Hs|]. apply HI, rtc_once.
  apply (sys_pending bridge_handlers _ _ (POpen 1)). simpl. rewrite Hst. reflexivity.
Defined.

(** A node that is destroyed while ROS runs, and after its shutdown. *)
Definition polling_node : Owner Params Bridge :=
  mkOwner example_overrides None (mkNetwork ∅ false false) example_node [] true false.

Definition polled_server : ServerObject Bridge :=
  mkServerObject (srv start_world) bridge_handlers no_hooks new_logs.

Lemma ros2_destructor_waits_witness :
  (FoxgloveBridge_delete [mkTurn id true; mkTurn id false] (λ _, None)
    (owner_at polling_node polled_server start_world)).2 ≠ inr true.
Proof.
  apply (ros2_destructor_waits _ _ polling_node polled_server start_world); [reflexivity..|].
  repeat constructor; intros r Hr; exact Hr.
Defined.
End examples.
