(* ===== verification/Ros1Theorems.v ===== *)
(** * Properties of the ROS 1 bridge

    The nodelet together with the server it owns: what it keeps and for how
    long, what an update of the topics does, and when the next one comes. *)

From Stdlib Require Import Strings.Byte.
From S2P Require Import Prelude Serialization Common Logging Interfaces Server ServerFacts.
From S2P Require Import ServerInvariant ServerSpec Client Protocol Reachable System.
From S2P Require Import SystemSteps TopicUpdate EndToEnd Publications SmokeTest.
From S2P Require Import Ros1Bridge Ros1Facts Ros1Update Concrete.
From S2P Require Import ConcreteRos.
From S2P Require Import Threads ThreadPool Deadlock ServerThreads ServerThreadFacts.
From S2P Require Import ServerThreadInvariant Ros1Threads Custody ServerCustody Ros1Custody.
From S2P Require Import Setup SetupFacts Ros1Setup Ros1Start.
From S2P Require Import Views ViewSteps TopicViews Ros1Views.

Local Open Scope Z_scope.
Local Open Scope string_scope.
Local Open Scope list_scope.

Section theorems.
Context `{Platform, Iteration, LogChannels, Nlohmann, Websocketpp, Roscpp}.
Context `{!NlohmannLaws, !WebsocketppLaws}.
Implicit Types w : World Bridge.

(** The system's invariant holds in every run of a fresh nodelet. *)
Lemma ros1_run_sys name capabilities limit tls w0 w :
srv w0 = new_Server name capabilities limit tls → no_topics (env w0) →
rtc (system_step bridge_handlers (gains nobody nobody) (ros1_step ids_last)) w0 w →
SysInv (srv w) (env w).
Proof.
intros Hs Hb Hrun.
apply (system_steps_inv bridge_handlers _ (ros1_step ids_last) w0 w (λ _ _ Hg, Hg) ros1_step_sys Hrun).
unfold sysm. rewrite Hs. by apply ros1_fresh_sys.
Qed.

(** C19. At any time before the server is stopped, whatever clients, network and
  master do and however many channels have been added, every ROS subscription of
  the ROS 1 bridge belongs to a connected client that is subscribed to its channel,
  and every ROS publisher to a connected client that has advertised its channel.
  And as long as no update has run out of channel ids, of which there are 2^32, the
  nodelet's two tables of topics and the server's table of channels hold the same
  entries. *)
Theorem ros1_nothing_leaks name capabilities limit tls w0 w :
srv w0 = new_Server name capabilities limit tls → no_topics (env w0) →
(rtc (system_step bridge_handlers (gains nobody nobody) (ros1_step (λ _, True))) w0 w →
 (∀ ch hdl, nested (_subscriptions (env w)) ch hdl →
    ∃ c, _clients (srv w) !! hdl = Some c ∧ is_Some (subscriptionsByChannel c !! ch)) ∧
 (∀ hdl id, nested (_clientAdvertisedTopics (env w)) hdl id →
    ∃ c, _clients (srv w) !! hdl = Some c ∧ id ∈ advertisedChannels c)) ∧
(rtc (system_step bridge_handlers (gains nobody nobody) (ros1_step ids_last)) w0 w →
 (∀ id t, _channelToTopicAndDatatype (env w) !! id = Some t ↔
    ∃ ch, _advertisedTopics (env w) !! t = Some ch ∧ chan_id ch = id) ∧
 (∀ id ch, _channels (srv w) !! id = Some ch ↔
    ∃ t, _advertisedTopics (env w) !! t = Some ch ∧ chan_id ch = id)).
Proof.
intros Hs Hb. split; intros Hrun.
- assert (NoLeak (srv w) (env w)) as HI.
  { apply (system_steps_inv (mirror:=False) bridge_handlers _ (ros1_step (λ _, True)) w0 w
      (λ _ _ Hg, Hg) ros1_step_leakless Hrun).
    apply sys_leakless. rewrite Hs. by apply ros1_fresh_sys. }
  split.
  + intros ch hdl Hn. by destruct (sys_sub _ _ _ _ HI ch hdl Hn) as [[]|?].
  + intros hdl id Hn. by destruct (sys_pub _ _ _ _ HI hdl id Hn) as [[]|?].
- pose proof (ros1_run_sys name capabilities limit tls w0 w Hs Hb Hrun) as HI.
  split; [apply (sys_channels_iff _ _ HI)|apply (sys_registered_iff _ _ HI)].
Qed.

(** C26. While there are channel ids left, ROS runs, and nodelet and server satisfy
  their invariant [SysInv], an update of the ROS 1 nodelet for which the master answers leaves exactly these topics advertised: one that was
  advertised stays, with its channel, if the master still knows it and the whitelist
  admits it; any other such topic gets a channel of encoding "ros1" with the message
  definition ROS gives for its type, if any, and is left out exactly if asking ROS
  for it failed.  The next update is scheduled after the back-off, between 100 ms and
  the limit when that is below 2^53 ms, unless this update failed: then no update is
  scheduled.  The 64th update cannot succeed. *)
Theorem ros1_update w X :
RoscppLaws → SysInv (srv w) (env w) → latest w = inr (Some X) → ids_last w →
ros_ok (ros (env w)) = true →
let n := u64 (_updateCount (env w) + 1) in
let maxMs := _maxUpdateMs (env w) in
wp updateAdvertisedTopics (λ r w',
  SysInv (srv w') (env w') ∧
  (∀ t, let after := _advertisedTopics (env w') !! t in
    if decide (t ∈ X) then
      match _advertisedTopics (env w) !! t with
      | Some ch => after = Some ch
      | None => ∃ r0, asked (ros (env w)) r0 ∧
          match (ros_getMessageDescription t.2 r0).2 with
          | inl _ => after = None
          | inr desc => ∃ id, after = Some (mkChannel id (mkChannelWithoutId t.1 ROS1_CHANNEL_ENCODING
              t.2 (match desc with Some desc => message_definition desc | None => "" end)))
          end
      end
    else after = None) ∧
  match r with
  | inr _ => n < 64 ∧ _updateCount (env w') = n ∧
      ∃ period, _updateTimer (env w') = Some period ∧
        period = Z.max MIN_UPDATE_PERIOD_MS (double_of_size_t (Z.min (2 ^ n) maxMs)) ∧
        (maxMs < 2 ^ 53 →
         period = Z.max MIN_UPDATE_PERIOD_MS (Z.min (2 ^ n) maxMs) ∧
         MIN_UPDATE_PERIOD_MS <= period <= Z.max MIN_UPDATE_PERIOD_MS maxMs)
  | inl _ => _updateTimer (env w') = None
  end) w.
Proof.
intros Hlaws HI HX Hids Hros n maxMs.
eapply wp_mono; [by apply (ros1_updateAdvertisedTopics_run w X)|].
intros r w' (HI' & Hupd & Hr). split_and!; [done| |].
- intros t. specialize (Hupd t). unfold updated, described_topic, topics in Hupd. simpl in *.
  case_decide; [|done]. destruct (_advertisedTopics (env w) !! t) as [ch|]; [done|].
  destruct Hupd as (d & (r0 & Hr0 & ->) & Hd). exists r0. split; [done|].
  by destruct (ros_getMessageDescription t.2 r0).2.
- destruct r as [e|[]]; [done|]. destruct Hr as (Hn & Hc & Ht). split_and!; [done|done|].
  eexists. split; [exact Ht|]. split; [done|]. intros Hmax. split; [|by apply backoff_range].
  unfold backoff. rewrite double_of_size_t_exact; [done|lia].
Qed.

(** C21. The ROS 1 bridge shows the graph.  As long as what the master says of the
  topics is text, and channel ids are left at each update, at any time before the
  server is stopped each connected client knows exactly the server's channels; and
  when an update is over, ROS running and the master having answered, each channel it
  knows is of a topic of the master that the whitelist admits, and each advertised
  topic has exactly one. *)
Theorem ros1_clients_follow_graph `{!NlohmannUtf8, !RoscppLaws} name capabilities limit tls w0 w :
srv w0 = new_Server name capabilities limit tls →
valid_utf8 name → Forall valid_utf8 capabilities → no_topics (env w0) →
rtc (system_step bridge_handlers master_moves ros1_text_step) w0 w →
(∀ hdl, is_Some (_clients (srv w) !! hdl) → known w hdl = _channels (srv w)) ∧
∀ X, latest w = inr (Some X) → ids_last w → utf8_master w → ros_ok (ros (env w)) = true →
  let w' := (updateAdvertisedTopics w).1 in
  ∀ hdl, is_Some (_clients (srv w') !! hdl) →
    shows (known w' hdl)
      (λ t, is_Some (_advertisedTopics (env w') !! t)) (λ t, t ∈ X).
Proof.
intros Hs Hn Hc Hb Hrun.
assert (bridge_synced any_bridge w) as Hw.
{ apply (ros1_run_synced w0 w Hrun). by apply ros1_synced_fresh with name capabilities limit tls. }
split; [apply Hw|]. intros X HX Hids Hutf Hros w' hdl Hcl.
pose proof (ros1_update_synced w Hw Hids Hutf) as [HI' Hw' _].
destruct (ros1_updateAdvertisedTopics_run w X _ (bs_sys _ _ Hw) HX Hids Hros) as (_ & Hupd & _).
apply known_shows; [exact HI'|exact Hw'|exact Hcl| |done]. intros t [ch Ht].
specialize (Hupd t). unfold updated in Hupd. case_decide; [done|]. unfold w' in Ht. congruence.
Qed.

(** C37. The updates of the ROS 1 nodelet come to an end in two ways.  If, while
  ROS runs, the master does not answer an update, or the topics cannot be matched with the
  whitelist, the update leaves the timer stopped, and nothing starts it again: not
  the handlers, whatever clients, network and master do, nor the nodelet's other
  callbacks, in any run until the nodelet is destroyed in which the timer's callback only runs while there is a
  timer.  And once 63 updates have succeeded the next one is undefined behaviour,
  even if the graph has not changed: it shifts a 64-bit integer by 64. *)
Theorem ros1_update_stops w :
ros_ok (ros (env w)) = true →
match latest w with
| inr (Some X) =>
    (∀ t, t ∈ X ↔ is_Some (_advertisedTopics (env w) !! t)) →
    63 <= _updateCount (env w) < 2 ^ 64 - 1 →
    wp updateAdvertisedTopics
       (λ r w', r = inl (Undefined "shift count") ∧ _updateTimer (env w') = None) w
| _ =>
    ∀ w', rtc (system_step bridge_handlers master_moves (ros1_step has_timer))
        (updateAdvertisedTopics w).1 w' → _updateTimer (env w') = None
end.
Proof.
intros Hros.
assert ((∀ X, latest w ≠ inr (Some X)) → ∀ w', rtc (system_step bridge_handlers master_moves
  (ros1_step has_timer)) (updateAdvertisedTopics w).1 w' → _updateTimer (env w') = None) as Hstays.
{ intros HX w' Hrun. apply (ros1_timer_stays_stopped _ _ Hrun).
  rewrite ros1_updateAdvertisedTopics_loops, Hros.
  destruct (latest w) as [e|[X|]]; [done|by destruct (HX X)|done]. }
destruct (latest w) as [e|[X|]] eqn:HX; [by apply Hstays|clear Hstays|by apply Hstays].
intros Hsame Hlim. unfold wp. rewrite ros1_updateAdvertisedTopics_loops, Hros, HX.
assert (removed_topics X (topics w) = []) as ->.
{ apply elem_of_nil_inv. intros t Ht. apply (removed_advertised X w) in Ht as Hadv.
  apply list_elem_of_filter in Ht as [Hn _]. by apply Hn, Hsame. }
assert (new_topics X (topics w) = []) as ->.
{ apply elem_of_nil_inv. intros t [Hn Ht]%list_elem_of_filter. apply elem_of_iter_set in Ht.
  apply Hsame in Ht as [ch Hch]. change (_advertisedTopics (env w) !! t = None) in Hn. congruence. }
change (wp (on_env schedule_update) (λ r w', r = inl (Undefined "shift count") ∧
  _updateTimer (env w') = None) (timer_stopped w)).
rewrite wp_on_env, schedule_update_run. simpl. rewrite u64_id by (split; lia).
destruct (Z.ltb_spec (_updateCount (env w) + 1) 64); [lia|]. by split.
Qed.

(** C20. No interleaving of the ROS 1 bridge's threads leaves anything behind: at
  any moment a ROS subscription or publisher of the nodelet belongs to a
  connected client that has subscribed or advertised, or some thread does away
  with it before that thread ends, whatever the others do meanwhile; and when
  all threads have ended, each belongs to a client that asked for it. *)
Theorem ros1_threads_leave_nothing css w c :
Forall (Forall running_call) css → (∀ x, kept w x → accounted w x) →
rtc pool_step (mkConfig (ros1_threads css) w) c →
(∀ x, kept (shared c) x → accounted (shared c) x ∨
   ∃ i t, pool c !! i = Some t ∧ ends kept (λ _, False) x (code t)) ∧
(all_finished c → ∀ x, kept (shared c) x → accounted (shared c) x).
Proof.
intros Hcss Hw Hrun. destruct (ros1_careful css Hcss) as (ps & Hps & Hc).
rewrite Hps in Hrun. by eapply (custody_run ClientsChannelMutex same_clients).
Qed.

(** ** Publishing *)

Lemma ros1_advertise_run adv hdl desc b :
let options := advertiseOptions adv desc in
adv_encoding adv = ROS1_CHANNEL_ENCODING →
¬ nested (_clientAdvertisedTopics b) hdl (adv_channelId adv) →
(ros_getMessageDescription (adv_schemaName adv) (ros b)).2 = inr (Some desc) →
(∀ r, (ros_advertise options r).2 = inr true) →
∃ b' pubs, clientAdvertiseHandler adv hdl b = (b', inr tt) ∧
  ros b' = (ros_advertise options (ros_getMessageDescription (adv_schemaName adv) (ros b)).1).1 ∧
  _subscriptions b' = _subscriptions b ∧
  _clientAdvertisedTopics b' !! hdl = Some pubs ∧ pubs !! adv_channelId adv = Some options.
Proof.
intros options Henc Hno Hdesc Hadv. unfold clientAdvertiseHandler. rewrite Henc. simpl.
erewrite bind_run by done.
destruct (emplace hdl ∅ (_clientAdvertisedTopics b)) as [pubs' first] eqn:Hem.
assert (∃ m, pubs' !! hdl = Some m ∧ m !! adv_channelId adv = None) as (m & Hm & Hnone).
{ unfold emplace in Hem. destruct (_clientAdvertisedTopics b !! hdl) as [m|] eqn:Hm;
    injection Hem as <- <-; [|by exists ∅; rewrite lookup_insert_eq].
  exists m. split; [done|]. destruct (m !! adv_channelId adv) as [p|] eqn:Hp; [|done].
  destruct Hno. exists m. split; [done|by exists p]. }
erewrite bind_run by done. rewrite Hm. simpl. rewrite Hnone, bool_decide_eq_false_2 by (by intros []).
rewrite andb_false_r.
destruct (ros_getMessageDescription (adv_schemaName adv) (ros b)) as [r1 res] eqn:Hr1.
simpl in Hdesc. subst res.
erewrite bind_run. 2: { unfold on_ros. cbn [set_pubs ros]. by rewrite Hr1. }
cbv zeta. fold options. pose proof (Hadv r1) as Hr2.
destruct (ros_advertise options r1) as [r2 res] eqn:Hr. simpl in Hr2. subst res.
erewrite bind_run. 2: { unfold on_ros. simpl. fold options. by rewrite Hr. }
eexists _, (<[adv_channelId adv := options]> m). split_and!; [reflexivity| |done| |].
- simpl. by rewrite Hr.
- simpl. rewrite lookup_alter_eq, Hm. simpl. by rewrite emplace_fresh.
- apply lookup_insert_eq.
Qed.

Lemma ros1_unadvertise_run id hdl b :
∃ b', clientUnadvertiseHandler id hdl b = (b', inr tt) ∧ ros b' = ros b ∧
  _subscriptions b' = _subscriptions b ∧ ¬ nested (_clientAdvertisedTopics b') hdl id.
Proof.
destruct (ros1_clientUnadvertiseHandler_ends id hdl b) as (Hr & _ & Hno).
exists (clientUnadvertiseHandler id hdl b).1. split_and!; [| | |exact Hno].
- by rewrite <-Hr, <-surjective_pairing.
- unfold clientUnadvertiseHandler, bind, gets. by repeat case_match.
- unfold clientUnadvertiseHandler, bind, gets. by repeat case_match.
Qed.

(** C22. The way of what a client publishes through the ROS 1 bridge, as in its
  smoke test.  The frames the test's client sends, handled in order, make the
  nodelet advertise the topic with the description of the schema, publish the
  message that the client's bytes are read as, once, and drop the publisher; no
  client gets a frame, and the subscriptions are as before. *)
Theorem ros1_publishing_end_to_end `{WebsocketppClient} hdl c adv buffer data desc
  t1 t2 now w :
big_endian = false → is_u32 (adv_channelId adv) → adv_encoding adv = ROS1_CHANNEL_ENCODING →
SysInv (srv w) (env w) → _clients (srv w) !! hdl = Some c →
adv_channelId adv ∉ advertisedChannels c → _clientChannels (srv w) !! hdl = None →
advertise_text [adv] = inr t1 → unadvertise_text [adv_channelId adv] = inr t2 →
let sadv := Publications.strip adv in
let options := advertiseOptions sadv desc in
(ros_getMessageDescription (adv_schemaName adv) (ros (env w))).2 = inr (Some desc) →
(∀ r, (ros_advertise options r).2 = inr true) →
ros_read (published now sadv (adv_channelId adv) buffer) = inr data →
(∀ r, (ros_publish options data r).2 = inr tt) →
∃ frames,
  (∀ uri greeting client, ReliableClient uri → Client_new = inr client → ∃ con n,
     testPublishing uri (Opened :: (Arrived <$> greeting)) adv buffer (mkTestWorld client None None None) =
     on_client (sends_all frames) (mkTestWorld (mkClient (Some con) false false n) (Some tt) None None) ∧
     (sends_all frames (mkClient (Some con) false false n)).2 = inr tt) ∧
  wp (for_each frames (handleMessage bridge_handlers now hdl))
    (λ r w', r = inr tt ∧
       ros (env w') = (ros_publish options data (ros_advertise options
         (ros_getMessageDescription (adv_schemaName adv) (ros (env w))).1).1).1 ∧
       ¬ nested (_clientAdvertisedTopics (env w')) hdl (adv_channelId adv) ∧
       _subscriptions (env w') = _subscriptions (env w) ∧
       ∀ h, sent h (out w') = sent h (out w)) w.
Proof.
intros Hle Hid Henc HI Hc Hnew Hno Ht1 Ht2 sadv options Hdesc Hadv Hread Hpublish.
exists (frames_of t1 (publish_frame (adv_channelId adv) buffer) t2). split.
{ intros uri greeting client Hrel Hclient. by apply testPublishing_fresh. }
assert (¬ nested (_clientAdvertisedTopics (env w)) hdl (adv_channelId adv)) as Hnn.
{ intros Hn. destruct (sys_pub _ _ _ _ HI _ _ Hn) as [[]|(c' & Hc' & Hin)].
  rewrite Hc in Hc'. by injection Hc' as <-. }
destruct (ros1_advertise_run sadv hdl desc (env w) Henc Hnn Hdesc Hadv)
  as (b1 & pubs & Hr1 & Hros1 & Hsub1 & Hpubs & Hpub).
set (msg := published now sadv (adv_channelId adv) buffer) in *.
assert (clientMessageHandler msg hdl b1 = (set_ros (ros_publish options data (ros b1)).1 b1, inr tt)) as Hr2.
{ unfold clientMessageHandler, bind, lift, gets. rewrite Hread, Hpubs. simpl in Hpub. simpl. rewrite Hpub.
  unfold on_ros. pose proof (Hpublish (ros b1)) as Hp.
  fold options. destruct (ros_publish options data (ros b1)) as [r res]. simpl in *. by subst res. }
destruct (ros1_unadvertise_run (adv_channelId adv) hdl (set_ros (ros_publish options data (ros b1)).1 b1))
  as (b3 & Hr3 & Hros3 & Hsub3 & Hno3).
destruct (publishing_run bridge_handlers clientAdvertiseHandler clientMessageHandler
  clientUnadvertiseHandler now hdl c adv buffer t1 t2 w b1
  (set_ros (ros_publish options data (ros b1)).1 b1) b3) as (s' & Hrun & _); try done.
unfold wp. rewrite Hrun. cbn [fst snd env out]. split_and!; [done| |done| |].
- by rewrite Hros3; simpl; rewrite Hros1.
- by rewrite Hsub3; simpl; rewrite Hsub1.
- intros h. unfold sent. rewrite omap_app. simpl. by rewrite app_nil_r.
Qed.

(** C33. The ROS 1 bridge can deadlock in the same way: when an advertised topic
  has left the graph, the timer's update and the thread that serves a
  subscription can reach a state in which each waits for the other's mutex. *)
Theorem ros1_can_deadlock timestamp hdl text X t ch w :
grants_subscription w hdl text →
ros_ok (ros (env w)) = true → latest w = inr (Some X) → _advertisedTopics (env w) !! t = Some ch →
t ∉ X →
∃ c, rtc pool_step
       (mkConfig (ros1_threads [[CallPending (PMessage timestamp hdl (TextFrame text))]]) w) c ∧
     ¬ all_finished c ∧ ∀ c', ¬ pool_step c c'.
Proof.
intros Hreq Hok HX Ht Hl. destruct (ros1_deadlock timestamp hdl text X t ch w) as (c & Hrun & Hn & Hnf);
  [done..|]. exists c. split_and!; [done|done|]. intros c' Hs. apply Hnf. by exists c'.
Qed.
End theorems.

Section start.
Context `{Platform, Iteration, LogChannels, Nlohmann, Websocketpp, !Asio, StdRegex}.
Context `{Roscpp, !Ros1SetupLibrary, RosParams}.
Context `{!NlohmannLaws, !WebsocketppLaws, !StdRegexLaws, !RoscppLaws, !LogChannelsOk}.

(** C27. The start of a new ROS 1 nodelet, while ROS runs and the master knows fewer
  than 2^32 topics.  If it fails with an exception, that exception has lost its
  message.  Otherwise the nodelet has a server with its five handlers, which was
  constructed with the send buffer limit modulo 2^64 and TLS as the parameters say,
  was started, successfully and on the parameter "port" modulo 2^16 whatever its
  value, and has updated the topics once: it has that limit, its thread runs, and its
  state and network are those the start and the update left.  If the master
  answered, only topics that the whitelist admits are advertised and the next update
  comes after the shortest period; if it did not, no update is scheduled; and what
  the server logs as the application reaches the log of ROS as information.  From
  then on the invariant of nodelet and server holds in every run in which channel ids
  are left at each update; and the destructor, if the endpoint has not been stopped
  before, leaves a server without clients and without its thread if it returns. *)
Theorem ros1_started logs (o : Owner Params Bridge) :
no_topics (ow_bridge o) → few_topics (ow_bridge o) → _updateCount (ow_bridge o) = 0 →
ros_ok (ros (ow_bridge o)) = true →
let nhp := ow_params o in
let address := param_string nhp "address" DEFAULT_ADDRESS in
let port := param_int nhp "port" DEFAULT_PORT in
let limit := param_int nhp "send_buffer_limit" DEFAULT_SEND_BUFFER_LIMIT_BYTES in
let tls := param_bool nhp "tls" false in
let sim := param_bool nhp "/use_sim_time" false in
let patterns := _topicWhitelistPatterns (ow_bridge o) ++
  omap compiled (param_strings nhp "topic_whitelist" [".*"]) in
wp (onInit logs) (λ r o',
  match r with
  | inl e => catchable e = true → e = StdException std_exception_what
  | inr _ => ∃ s, ow_server o' = Some s ∧ so_handlers s = bridge_handlers ∧
      so_hooks s = constructed_hooks (if tls
        then Some (param_string nhp "certfile" "", param_string nhp "keyfile" "") else None) ∧
      (∃ w0 w1 w2 : World Bridge,
         srv w0 = new_Server "foxglove_bridge" (serverCapabilities sim) (limit mod 2 ^ 64) tls ∧
         start address (port mod 2 ^ 16) w0 = (w1, inr tt) ∧
         updateAdvertisedTopics w1 = (w2, inr tt) ∧
         so_state s = srv w2 ∧ ow_net o' = net w2 ∧ ow_out o' = out w2 ∧
         ∃ r, ow_bridge o' = set_ros r (env w2)) ∧
      setup_of (so_state s) =
        ("foxglove_bridge", serverCapabilities sim, limit mod 2 ^ 64, tls, true) ∧
      (sim = true → ow_clock o' = true) ∧ SysInv (so_state s) (ow_bridge o') ∧
      (app_log (access_log logs) → ∀ msg,
         uncurry logHandler <$> write alevel_app msg (access_log (so_logs s)) =
         [(ROS_INFO, "[WS] " +:+ msg)]) ∧
      match ros_getTopics (ros (ow_bridge o)) with
      | None => _updateTimer (ow_bridge o') = None
      | Some l => ∃ X, latest_topics patterns l = inr X ∧
          _updateTimer (ow_bridge o') = Some MIN_UPDATE_PERIOD_MS ∧
          ∀ t, is_Some (_advertisedTopics (ow_bridge o') !! t) → t ∈ X
      end ∧
      ∀ w, rtc (system_step bridge_handlers (gains nobody nobody) (ros1_step ids_last))
          (world_of_owner o' s) w →
        SysInv (srv w) (env w) ∧
        ∀ next, ws_stopped (net w) = false →
          wp (FoxgloveBridge_delete next) (λ r' o'',
            ∃ s', ow_server o'' = Some s' ∧ (r' = inr tt → _clients (so_state s') = ∅ ∧
              _serverThread (so_state s') = false)) (owner_at o' s w)
  end) o.
Proof.
intros Hno Hfew Hc Hros nhp address port limit tls sim patterns. unfold onInit.
rewrite wp_bind, wp_gets, wp_bind, wp_on_bridge. simpl. rewrite wp_bind, wp_on_bridge.
unfold compile_patterns.
rewrite (push_patterns_run _topicWhitelistPatterns set_patterns); [|by intros []|done..].
simpl. rewrite wp_try_catch. eapply wp_mono; [by apply ros1_start_server_run|].
intros [e|[]] o' Hs.
{ destruct (catchable e) eqn:He; [by rewrite wp_throw|congruence]. }
destruct (Hs eq_refl) as (s & Hsv & Hh & Hk & Hlogs & [(w0 & w1 & w2 & Hrun) Hsetup] & Hclock & HI & Htimer).
destruct Hrun as (Hw0 & _ & Hrest).
exists s. do 3 (split; [done|]). split; [by exists w0, w1, w2|]. do 3 (split; [done|]).
split; [intros Happ msg; by rewrite Hlogs, configured_forwards|]. split; [done|]. intros w Hrun. split.
- by apply (system_steps_inv bridge_handlers _ (ros1_step ids_last) _ w (λ _ _ Hg, Hg) ros1_step_sys Hrun).
- intros next Hns. unfold FoxgloveBridge_delete. rewrite wp_noexcept, wp_bind, wp_gets.
  eapply wp_mono; [by eapply si_stop_run|]. intros [e|[]]; naive_solver.
Qed.
End start.

(** ** Examples *)

Section examples.
#[local] Existing Instance x86_64.

Definition example_master : Master :=
  mkMaster true (Some [("/chatter", "std_msgs/String"); ("/odom", "nav_msgs/Odometry")])
    {[ "std_msgs/String" := mkMessageDescription "992ce8a1687cec8c8bd883ec73ca41d1" "string data";
       "geometry_msgs/Twist" := mkMessageDescription "9f195f881246fdfa2798d1d3eebca84a" "Vector3 linear" ]}
    [].

Definition example_nodelet : Bridge := mkBridge [λ _, inr true] ∅ ∅ ∅ ∅ None 5000 0 example_master.

Definition start_world : World Bridge :=
  mkWorld (new_Server "bridge" (serverCapabilities false) 10000000 false) example_net
    example_nodelet [].

Definition twist : ClientAdvertisement :=
  mkClientAdvertisement 5 "/cmd_vel" "ros1" "geometry_msgs/Twist" [].

(** A client connects, the topics are updated, the client subscribes to the first
    channel and advertises one of its own. *)
Definition opened_world : World Bridge := (run_pending bridge_handlers (POpen 1) start_world).1.
Definition updated_world : World Bridge := (updateAdvertisedTopics opened_world).1.
Definition subscribed_world : World Bridge :=
  (run_pending bridge_handlers (PMessage 0 1 (TextFrame (text_of (subscribe_text [(10, 1)]))))
     updated_world).1.
Definition advertised_world : World Bridge :=
  (run_pending bridge_handlers (PMessage 0 1 (TextFrame (text_of (advertise_text [twist]))))
     subscribed_world).1.

(** The topics of the master. *)
Definition example_topics : gset TopicAndDatatype :=
  list_to_set [("/chatter", "std_msgs/String"); ("/odom", "nav_msgs/Odometry")].

Lemma ros1_ids_last_at w X :
  latest w = inr (Some X) → _nextChannelId (srv w) + Z.of_nat (size X) < 2 ^ 32 → ids_last w.
Proof. intros HX Hids X'. rewrite HX. by intros [= <-]. Defined.

Lemma latest_start : latest start_world = inr (Some example_topics).
Proof. reflexivity. Defined.

Lemma ros1_opened_ids : ids_last opened_world.
Proof. apply (ros1_ids_last_at _ example_topics); [reflexivity|vm_compute; reflexivity]. Defined.

Lemma opened_run (may_update : World Bridge → Prop) :
  may_update opened_world →
  rtc (system_step bridge_handlers (gains nobody nobody) (ros1_step may_update))
    start_world updated_world.
Proof.
  intros Hup. apply (rtc_l _ _ opened_world);
    [exact (sys_pending bridge_handlers _ _ (POpen 1) start_world eq_refl)|].
  apply rtc_once, sys_node. by apply (ros1_update_timer _ opened_world).
Defined.

Lemma ros1_advertised_run (may_update : World Bridge → Prop) :
  may_update opened_world →
  rtc (system_step bridge_handlers (gains nobody nobody) (ros1_step may_update))
    start_world advertised_world.
Proof.
  intros Hup. transitivity updated_world; [exact (opened_run _ Hup)|].
  apply (rtc_l _ _ subscribed_world);
    [exact (sys_pending bridge_handlers _ _ (PMessage _ _ _) updated_world I)|].
  apply (rtc_l _ _ advertised_world);
    [exact (sys_pending bridge_handlers _ _ (PMessage _ _ _) subscribed_world I)|].
  apply rtc_refl.
Qed.

Lemma ros1_nothing_leaks_witness :
  nested (_subscriptions (env advertised_world)) 1 1%positive ∧
  nested (_clientAdvertisedTopics (env advertised_world)) 1%positive 5 ∧
  (∃ c, _clients (srv advertised_world) !! 1%positive = Some c ∧
     is_Some (subscriptionsByChannel c !! 1)) ∧
  (∃ c, _clients (srv advertised_world) !! 1%positive = Some c ∧ 5 ∈ advertisedChannels c).
Proof.
  assert (nested (_subscriptions (env advertised_world)) 1 1%positive) as Hs
    by (eexists; split; [vm_compute; reflexivity|eexists; vm_compute; reflexivity]).
  assert (nested (_clientAdvertisedTopics (env advertised_world)) 1%positive 5) as Hp
    by (eexists; split; [vm_compute; reflexivity|eexists; vm_compute; reflexivity]).
  destruct (ros1_nothing_leaks "bridge" (serverCapabilities false) 10000000 false
    start_world advertised_world) as [Hrun _].
  - reflexivity.
  - split_and!; reflexivity.
  - destruct (Hrun (ros1_advertised_run _ I)) as [Hsub Hpub].
    exact (conj Hs (conj Hp (conj (Hsub _ _ Hs) (Hpub _ _ Hp)))).
Defined.

Lemma ros1_example_utf8 w : utf8_master w.
Proof. by intros X t b new _ _ _. Qed.

Lemma updated_run :
  rtc (system_step bridge_handlers master_moves ros1_text_step) start_world updated_world.
Proof.
  eapply rtc_l; [exact (sys_pending bridge_handlers _ _ (POpen 1) start_world eq_refl)|].
  apply rtc_once, sys_node. split; [apply (ros1_update_timer _ opened_world)|apply ros1_example_utf8].
  exact ros1_opened_ids.
Qed.

Lemma ros1_clients_follow_graph_witness :
  known updated_world 1 = _channels (srv updated_world) ∧
  map_size (known updated_world 1) = 2%nat.
Proof.
  destruct (ros1_clients_follow_graph "bridge" (serverCapabilities false) 10000000 false
    start_world updated_world) as [Hk _].
  1-4: first [reflexivity | exact I | repeat constructor].
  { exact updated_run. }
  assert (known updated_world 1 = _channels (srv updated_world)) as Hk1
    by (apply (Hk 1%positive); vm_compute; by eexists).
  split; [exact Hk1|rewrite Hk1; vm_compute; reflexivity].
Defined.

Lemma ros1_update_witness :
  wp updateAdvertisedTopics (λ r w',
    r = inr tt ∧ _updateTimer (env w') = Some 100 ∧
    _updateCount (env w') = 1) start_world.
Proof.
  assert ((updateAdvertisedTopics start_world).2 = inr tt) as Hr by (vm_compute; reflexivity).
  pose proof (ros1_update start_world example_topics example_roscpp_laws
    (ros1_fresh_sys _ _ _ _ example_nodelet ltac:(split_and!; reflexivity)) latest_start
    (ros1_ids_last_at _ _ latest_start eq_refl) eq_refl) as (_ & _ & Hrun).
  unfold wp. rewrite Hr in *. destruct Hrun as (_ & Hc & period & Ht & -> & _).
  split_and!; [reflexivity|exact Ht|exact Hc].
Defined.

(** A nodelet after 63 updates, and one whose master has gone. *)
Definition late_world : World Bridge :=
  mkWorld (new_Server "bridge" [] 10000000 false) example_net
    (mkBridge [λ _, inr true] ∅ ∅ ∅ ∅ (Some 5000) 5000 63 (mkMaster true (Some []) ∅ [])) [].
Definition lost_world : World Bridge :=
  mkWorld (new_Server "bridge" [] 10000000 false) example_net
    (mkBridge [λ _, inr true] ∅ ∅ ∅ ∅ (Some 5000) 5000 7 (mkMaster true None ∅ [])) [].

Lemma ros1_update_stops_witness :
  wp updateAdvertisedTopics
    (λ r w', r = inl (Undefined "shift count") ∧ _updateTimer (env w') = None) late_world ∧
  _updateTimer (env (run_pending bridge_handlers (POpen 1) (updateAdvertisedTopics lost_world).1).1) = None.
Proof.
  pose proof (ros1_update_stops late_world eq_refl) as Hlate.
  pose proof (ros1_update_stops lost_world eq_refl) as Hlost.
  assert (latest late_world = inr (Some ∅)) as HX by (vm_compute; reflexivity).
  assert (latest lost_world = inr None) as HX' by reflexivity.
  rewrite HX in Hlate. rewrite HX' in Hlost. split.
  - apply Hlate.
    + intros t. split; [intros Ht; by apply not_elem_of_empty in Ht|intros [ch Hch]; discriminate Hch].
    + split; [discriminate|reflexivity].
  - apply Hlost. eapply rtc_l; [|apply rtc_refl].
    exact (sys_pending bridge_handlers _ _ (POpen 1) (updateAdvertisedTopics lost_world).1 eq_refl).
Defined.

(** The topics leave the master. *)
Definition gone_world : World Bridge :=
  mkWorld (srv updated_world) (net updated_world)
    (set_ros (mkMaster true (Some []) ∅ []) (env updated_world)) (out updated_world).

Lemma ros1_can_deadlock_witness :
  ∃ c, rtc pool_step
         (mkConfig (ros1_threads [[CallPending (PMessage 0 1
            (TextFrame (text_of (subscribe_text [(10, 1)]))))]]) gone_world) c ∧
       ¬ all_finished c ∧ ∀ c', ¬ pool_step c c'.
Proof.
  destruct (_advertisedTopics (env gone_world) !! ("/odom", "nav_msgs/Odometry")) as [ch|] eqn:Hch;
    [|vm_compute in Hch; discriminate].
  apply (ros1_can_deadlock 0 1 _ ∅ ("/odom", "nav_msgs/Odometry") ch).
  - do 6 eexists. split_and!; [vm_compute; reflexivity..|].
    eexists. vm_compute. reflexivity.
  - reflexivity.
  - vm_compute. reflexivity.
  - exact Hch.
  - apply not_elem_of_empty.
Defined.

Lemma updated_sys : SysInv (srv updated_world) (env updated_world).
Proof.
  apply (ros1_run_sys "bridge" (serverCapabilities false) 10000000 false start_world);
    [reflexivity|split_and!; reflexivity|exact (opened_run _ ros1_opened_ids)].
Qed.

(** A client publishes two bytes of a message that the master can describe. *)
Lemma ros1_publishing_end_to_end_witness :
  ∃ frames,
    wp (for_each frames (handleMessage bridge_handlers 0 1))
      (λ r w', r = inr tt ∧ ¬ nested (_clientAdvertisedTopics (env w')) 1%positive 5) updated_world.
Proof.
  destruct (_clients (srv updated_world) !! 1%positive) as [c|] eqn:Hc; [|vm_compute in Hc; discriminate].
  assert (advertisedChannels c = ∅) as Hadv by (vm_compute in Hc; injection Hc as <-; reflexivity).
  destruct (advertise_text [twist]) as [e|t1] eqn:Ht1; [vm_compute in Ht1; discriminate|].
  destruct (unadvertise_text [5]) as [e|t2] eqn:Ht2; [vm_compute in Ht2; discriminate|].
  destruct (ros1_publishing_end_to_end 1 c twist [Byte.x2a; Byte.x2b] [Byte.x2a; Byte.x2b]
    (mkMessageDescription "9f195f881246fdfa2798d1d3eebca84a" "Vector3 linear") t1 t2 0 updated_world)
    as (frames & _ & Hw).
  - reflexivity.
  - split; [discriminate|reflexivity].
  - reflexivity.
  - exact updated_sys.
  - exact Hc.
  - rewrite Hadv. apply not_elem_of_empty.
  - vm_compute. reflexivity.
  - exact Ht1.
  - exact Ht2.
  - vm_compute. reflexivity.
  - intros r. reflexivity.
  - vm_compute. reflexivity.
  - intros r. reflexivity.
  - exists frames. eapply wp_mono; [exact Hw|]. intros r w' (Hr & _ & Hno & _). exact (conj Hr Hno).
Defined.

(** The topics of a nodelet that a client uses leave the master, and another client
    connects while the timer fires; the threads take turns. *)
Definition left_world : World Bridge :=
  mkWorld (srv advertised_world) (net advertised_world)
    (set_ros (mkMaster true (Some []) ∅ []) (env advertised_world)) (out advertised_world).
Definition leaving_config (turns : list nat) : Config (World Bridge) Mutex :=
  scheduled turns (mkConfig (ros1_threads [[CallPending (POpen 2)]; [CallPending (PClose 1)]]) left_world).
Definition some_turns : list nat := replicate 12 2%nat.
Definition all_turns : list nat := some_turns ++ concat (replicate 150 [0; 1; 2]%nat).

Definition entry_of (w : World Bridge) (hdl : ConnHandle) (ch : ChannelId) : option SubscriptionId :=
  c ← _clients (srv w) !! hdl; subscriptionsByChannel c !! ch.

Lemma left_accounted x : kept left_world x → accounted left_world x.
Proof.
  apply sys_accounted. unfold left_world.
  pose proof (ros1_run_sys "bridge" (serverCapabilities false) 10000000 false start_world
    advertised_world eq_refl ltac:(split_and!; reflexivity) (ros1_advertised_run _ ros1_opened_ids)) as HI.
  revert HI. generalize advertised_world. intros w HI. eapply sys_shrinks; [exact HI|].
  apply gains_intro; [done|by left..].
Qed.

(** After a few steps of the timer's thread the client has lost its subscription
    and the nodelet still keeps it; at the end nothing is left. *)
Lemma ros1_threads_leave_nothing_witness :
  (let w := shared (leaving_config some_turns) in
   entry_of w 1 1 = None ∧ nested (_subscriptions (env w)) 1 1%positive) ∧
  (let c := leaving_config all_turns in
   all_finished c ∧ ∀ x, kept (shared c) x → accounted (shared c) x).
Proof.
  destruct (ros1_threads_leave_nothing [[CallPending (POpen 2)]; [CallPending (PClose 1)]] left_world
    (leaving_config all_turns)) as [_ Hend].
  - repeat (constructor || exact I).
  - exact left_accounted.
  - apply scheduled_runs.
  - assert (all_finished (leaving_config all_turns)) as Hf
      by (apply (bool_decide_unpack _); vm_compute; exact I).
    split; [split|].
    + vm_compute. reflexivity.
    + eexists. split; [vm_compute; reflexivity|]. eexists. vm_compute. reflexivity.
    + split; [exact Hf|exact (Hend Hf)].
Defined.

(** A nodelet that is asked to listen on a port that does not exist. *)
Definition unstarted : Owner Params Bridge :=
  mkOwner (mkRosParameters ∅ {[ "port" := 74301 ]} ∅ ∅) None
    (mkNetwork ∅ false false) example_nodelet [] false false.

Lemma ros1_started_witness :
  ∃ o' s, onInit new_logs unstarted = (o', inr tt) ∧ ow_server o' = Some s ∧
    SysInv (so_state s) (ow_bridge o') ∧ _updateTimer (ow_bridge o') = Some MIN_UPDATE_PERIOD_MS ∧
    ∃ w w' : World Bridge, start "0.0.0.0" 8765 w = (w', inr tt).
Proof.
  assert (few_topics example_nodelet) as Hfew by (intros l [= <-]; reflexivity).
  pose proof (ros1_started new_logs unstarted ltac:(split_and!; reflexivity)
    Hfew eq_refl eq_refl) as Hs.
  unfold wp in Hs.
  assert ((onInit new_logs unstarted).2 = inr tt) as Hr by (vm_compute; reflexivity).
  rewrite Hr in Hs. destruct Hs as (s & Hs & _ & _ & (w & w' & w2 & _ & Hstart & _) & _ & _ & HI & _ &
    (X & _ & Htimer & _) & _).
  exists (onInit new_logs unstarted).1, s. split; [rewrite <-Hr; apply surjective_pairing|].
  refine (conj Hs (conj HI (conj Htimer _))). exists w, w'. exact Hstart.
Defined.
End examples.
