(* ===== verification/EndToEndTheorems.v ===== *)
(** * The test client against the ROS 2 bridge

    The scenario of the smoke test: a client connects, subscribes to a topic and
    gets the next message that ROS delivers on it. *)

From Stdlib Require Import Strings.Byte.
From S2P Require Import Prelude Serialization Common Logging Interfaces Server ServerFacts.
From S2P Require Import ServerInvariant ServerSpec Client Protocol Reachable System.
From S2P Require Import SystemSteps MessageDefinitionCache Ros2Bridge Ros2Facts Ros2Update.
From S2P Require Import EndToEnd Publications SmokeTest Concrete ConcreteRos WireTheorems.
From S2P Require Import ServerTheorems.
From S2P Require Import Ros2Theorems.

Local Open Scope Z_scope.
Local Open Scope string_scope.
Local Open Scope list_scope.

Section theorems.
Context `{Platform, Iteration, LogChannels, Nlohmann, Websocketpp, Rclcpp, Ament}.
Context `{WebsocketppClient, !NlohmannLaws, !WebsocketppLaws}.
Implicit Types w : World Bridge.

(** A client that is not subscribed gets a ROS subscription of its own. *)
Lemma ros2_subscribe_run b id hdl t ch infos :
  _channelToTopicAndDatatype b !! id = Some t → _advertisedTopics b !! t = Some ch →
  ¬ nested (_subscriptions b) id hdl → ros_publishers_info_by_topic (ros b) t.1 = inr infos →
  (∀ s r, sub_topic s = t.1 → (ros_create_subscription s r).2 = inr tt) →
  (subscribeHandler id hdl b).2 = inr tt ∧
  ∃ m sub, _subscriptions (subscribeHandler id hdl b).1 !! id = Some m ∧ m !! hdl = Some sub ∧
    sub_topic sub = t.1 ∧ sub_channel sub = ch ∧ sub_client sub = hdl.
Proof.
  intros Hid Ht Hno Hinfos Hros. unfold subscribeHandler.
  erewrite !bind_run by done. rewrite Hid. erewrite !bind_run by done. rewrite Ht.
  erewrite !bind_run by done.
  destruct (emplace id ∅ (_subscriptions b)) as [subs' first] eqn:Hsubs.
  erewrite !bind_run by done.
  assert (∃ m, subs' !! id = Some m ∧ m !! hdl = None) as (m & Hm & Hnone).
  { unfold emplace in Hsubs. destruct (_subscriptions b !! id) as [m|] eqn:Hm;
      injection Hsubs as <- <-; [|by exists ∅; rewrite lookup_insert_eq].
    exists m. split; [done|]. destruct (m !! hdl) as [s|] eqn:Hs; [|done].
    destruct Hno. exists m. split; [done|by exists s]. }
  rewrite Hm. simpl. rewrite Hnone, bool_decide_eq_false_2 by (by intros []).
  rewrite andb_false_r. erewrite bind_run by done.
  erewrite bind_run; [|unfold lift; cbn [set_subs ros]; by rewrite Hinfos].
  erewrite bind_run by done. unfold try_catch.
  set (sub := mkSubscription _ _ _ _ _).
  pose proof (Hros sub (ros (set_subs subs' b)) eq_refl) as Hcreate.
  destruct (ros_create_subscription sub _) as [r' res] eqn:Hr. simpl in Hcreate. subst res.
  erewrite !bind_run. 2: { unfold on_ros. by rewrite Hr. }
  simpl. split; [done|]. exists (<[hdl := sub]> m), sub.
  rewrite lookup_alter_eq, Hm. simpl. rewrite emplace_fresh by done.
  by rewrite lookup_insert_eq.
Qed.

(** The advertisement names the topic once. *)
Lemma advertised_once s id (ch : Channel) l :
  ServerInv s → _channels s !! id = Some ch →
  (∀ id' (ch' : Channel), _channels s !! id' = Some ch' → topic ch' = topic ch → id' = id) →
  l ≡ₚ (map_to_list (_channels s)).*2 → filter (λ c : Channel, topic c = topic ch) l = [ch].
Proof.
  intros HI Hch Huniq Hl.
  assert (∀ c, c ∈ l ↔ _channels s !! chan_id c = Some c) as Hin.
  { intros c. rewrite Hl, list_elem_of_fmap. split.
    - intros ([k c'] & -> & Hc%elem_of_map_to_list). simpl.
      by destruct (inv_channel _ HI _ _ Hc) as [-> _].
    - intros Hc. exists (chan_id c, c). split; [done|]. by apply elem_of_map_to_list. }
  pose proof (proj1 (inv_channel _ HI _ _ Hch)) as Hid. apply filter_unique.
  - rewrite Hl. apply (NoDup_fmap_1 chan_id). rewrite <-list_fmap_compose.
    assert (chan_id ∘ snd <$> map_to_list (_channels s) = (map_to_list (_channels s)).*1) as ->;
      [|apply NoDup_fst_map_to_list].
    apply list_fmap_ext. intros i [k c] Hc%list_elem_of_lookup_2%elem_of_map_to_list. simpl.
    by apply (inv_channel _ HI).
  - apply Hin. by rewrite Hid.
  - intros c Hc%Hin. split; [|by intros ->]. intros Ht. specialize (Huniq _ _ Hc Ht). congruence.
Qed.

(** In its second wait the client has sent the text of its subscription; all that
    is left to come is [receiving]. *)
Definition subscribes_with (text uri : string) (ch : Channel)
    (opening advertising receiving : list Arrival) : Prop :=
  ∃ c con n, Client_new = inr c ∧
    receive_msg uri (topic ch) opening advertising receiving (mkTestWorld c None None None) =
    (on_client (sendText text) ;;;
     wait_for (topic ch) receiving msgPromise "Client failed to receive message")
      (mkTestWorld (listening_client con true n) (Some tt) (Some (Channel_to_json ch)) None).

(** The client's side: greeted by a server, it subscribes, and answers the payload
    of the frame it gets. *)
Lemma client_side s id (ch : Channel) info txt text timestamp payload uri `{!ReliableClient uri}
    client opening advertising :
  Client_new = inr client →
  ServerInv s → _channels s !! id = Some ch →
  (∀ id' (ch' : Channel), _channels s !! id' = Some ch' → topic ch' = topic ch → id' = id) →
  json_dump (serverInfo_json (_name s) (_capabilities s)) = inr info →
  advertisement_text s = inr txt → subscribe_text [(1, id)] = inr text →
  opening ++ advertising = [Opened; Arrived (TextFrame info); Arrived (TextFrame txt)] →
  opening ≠ [] →
  let receiving := [Arrived (BinaryFrame (message_frame 1 timestamp payload))] in
  subscribes_with text uri ch opening advertising receiving ∧
  connectClientAndReceiveMsg uri (topic ch) opening advertising receiving = inr payload.
Proof.
  intros Hnew HI Hch Huniq Hinfo Htxt Htext Hsplit Hne receiving.
  destruct (inv_channel _ HI _ _ Hch) as [Hid Hu]. rewrite <-Hid in Hu, Htext.
  destruct (advertisement_advertises s txt Htxt) as (j & l & Hj & Hop & Hl & Hel).
  assert (∀ p, test_text_handler (topic ch) info p = (p, inr tt)) as Hhi.
  { intros p. eapply text_handler_other; [by apply parse_dump| |].
    - apply string_at_object; solve_object.
    - done. }
  assert (test_text_handler (topic ch) txt None = (Some (Channel_to_json ch), inr tt)) as Hht.
  { eapply text_handler_advertise; [done..|]. by eapply advertised_once. }
  destruct (message_data_roundtrip 1 timestamp payload) as (f & Hf & _ & _ & _ & Hbin).
  rewrite message_data_frame in Hf. injection Hf as <-.
  split; [|by eapply test_client_receives].
  destruct (Client_new_fresh _ Hnew) as [Hfresh _].
  destruct (receive_msg_run uri (topic ch) info txt ch Hhi Hht opening advertising receiving
    client text Hfresh Hsplit Hne Hu Htext) as (con & n & _ & Hrun).
  by exists client, con, n.
Qed.

(** C8. The whole way of a message, as in the smoke test.  A client connects to
  the ROS 2 bridge, the bridge greets it, and the test client's subscription to
  a topic that is advertised once makes a ROS subscription to that topic; the
  next message that ROS delivers to it is exactly what
  [connectClientAndReceiveMsg] answers, however the greeting is spread over the
  waits, as long as the connection is open and its buffer is not full, and the node's
  clock is not before 1970 or assertions are off. *)
Theorem ros2_end_to_end hdl id (ch : Channel) info txt text now timestamp payload infos w :
SysInv (srv w) (env w) →
ws_has_con (net w) hdl = true → _clients (srv w) !! hdl = None →
_channels (srv w) !! id = Some ch →
(∀ id' (ch' : Channel), _channels (srv w) !! id' = Some ch' → topic ch' = topic ch → id' = id) →
json_dump (serverInfo_json (_name (srv w)) (_capabilities (srv w))) = inr info →
advertisement_text (srv w) = inr txt → subscribe_text [(1, id)] = inr text →
ros_publishers_info_by_topic (ros (env w)) (topic ch) = inr infos →
ndebug = true ∨ 0 <= timestamp →
(∀ s r, sub_topic s = topic ch → (ros_create_subscription s r).2 = inr tt) →
let w1 := (handleConnectionOpened hdl w).1 in
let w2 := (handleMessage bridge_handlers now hdl (TextFrame text) w1).1 in
ws_has_con (net w2) hdl = true →
ws_buffered_amount (net w2) hdl < _send_buffer_limit_bytes (srv w2) →
∃ greeting delivered m sub,
  emits (only hdl greeting) [] w w1 ∧
  emits silent [EvSubscribe id hdl] w1 w2 ∧
  _subscriptions (env w2) !! id = Some m ∧ m !! hdl = Some sub ∧ sub_topic sub = topic ch ∧
  emits (only hdl delivered) [] w2
    (rosMessageHandler (sub_channel sub) (sub_client sub) timestamp payload w2).1 ∧
  ∀ uri client opening advertising, ReliableClient uri → Client_new = inr client →
    opening ++ advertising = Opened :: (Arrived <$> greeting) → opening ≠ [] →
    subscribes_with text uri ch opening advertising (Arrived <$> delivered) ∧
    connectClientAndReceiveMsg uri (topic ch) opening advertising (Arrived <$> delivered) =
      inr payload.
Proof.
intros HI Hcon Hnew Hch Huniq Hinfo Htxt Htext Hinfos Hpos Hros w1 w2 Hcon2 Hbuf.
destruct (handleConnectionOpened_run hdl info txt w) as (_ & He1 & Hs1 & Hem1); [done..|].
fold w1 in He1, Hs1, Hem1.
destruct (proj1 (sys_registered_iff _ _ HI id ch) Hch) as (t & Ht & Hid).
destruct (sys_topic _ _ _ _ HI t ch Ht) as (Hchan & _ & Htopic). rewrite Hid in Hchan.
destruct (inv_channel _ (sys_server _ _ _ _ HI) _ _ Hch) as [_ Hu].
assert (¬ nested (_subscriptions (env w)) id hdl) as Hno.
{ intros Hn. destruct (sys_sub _ _ _ _ HI id hdl Hn) as [[]|(c & Hc & _)]. congruence. }
assert (topic ch = t.1) as Htop by (by rewrite <-Htopic). rewrite Htop in Hros, Hinfos.
destruct (ros2_subscribe_run (env w) id hdl t ch infos Hchan Ht Hno Hinfos Hros)
  as (Hok & m & sub & Hm & Hsub & Hst & Hsc & Hsh).
set (c0 := mkClientInfo (ws_remote_endpoint (net w) hdl) hdl ∅ ∅).
assert (_clients (srv w1) !! hdl = Some c0) as Hc0
  by (rewrite Hs1; simpl; by rewrite lookup_insert_eq).
assert (w2 = mkWorld (upd_clients (alter (upd_subscriptions (λ m, (emplace id 1 m).1)) hdl) (srv w1))
  (net w1) (subscribeHandler id hdl (env w)).1 (out w1 ++ [EvSubscribe id hdl])) as Hw2.
{ unfold w2. erewrite (handleMessage_grants _ subscribeHandler _ _ c0 1 id); try done.
  - by rewrite <-He1.
  - destruct (findSubscriptionBySubId c0 1) as [p|] eqn:Hf; [|done].
    by apply findSubscriptionBySubId_Some in Hf as [_ Hf].
  - rewrite Hs1. by exists ch.
  - by rewrite He1. }
exists [TextFrame info; TextFrame txt],
  [BinaryFrame (message_frame 1 (u64 timestamp) payload)], m, sub.
split; [done|]. split.
{ rewrite Hw2. exists [EvSubscribe id hdl]. by split_and!. }
split; [by rewrite Hw2|]. split; [done|]. split; [by rewrite Hst, Htop|].
assert (delivery w2 hdl id = Some 1) as Hdel.
{ unfold delivery. rewrite Hcon2, (proj2 (Z.ltb_lt _ _) Hbuf). simpl. rewrite Hw2. simpl.
  rewrite lookup_alter_eq, Hc0.
  assert ((emplace id 1 (∅ : gmap ChannelId SubscriptionId)).1 !! id = Some 1) as Hem
    by (rewrite emplace_fresh by done; apply lookup_insert_eq).
  exact Hem. }
split.
{ rewrite Hsh, Hsc. unfold rosMessageHandler, assertion.
  assert (ndebug || (0 <=? timestamp)%Z = true) as ->
    by (destruct Hpos as [->| ->%Z.leb_le]; [done|apply orb_true_r]).
  erewrite bind_run by done. rewrite Hid, sendMessage_eq, Hdel.
  apply sends_sendBinary. }
intros uri client opening advertising Hrel Hclient Hsplit Hne. by eapply client_side; [exact Hrel|exact Hclient|apply HI|..].
Qed.

(** ** Publishing *)

Lemma ros2_advertise_run adv hdl b :
  let pub := mkPublication (adv_topic adv) (adv_schemaName adv) in
  ¬ nested (_clientAdvertisedTopics b) hdl (adv_channelId adv) →
  (ros_create_publisher pub (ros b)).2 = inr tt →
  ∃ b' pubs, clientAdvertiseHandler adv hdl b = (b', inr tt) ∧
    ros b' = (ros_create_publisher pub (ros b)).1 ∧ _subscriptions b' = _subscriptions b ∧
    _clientAdvertisedTopics b' !! hdl = Some pubs ∧ pubs !! adv_channelId adv = Some pub.
Proof.
  intros pub Hno Hros. unfold clientAdvertiseHandler. erewrite bind_run by done.
  destruct (emplace hdl ∅ (_clientAdvertisedTopics b)) as [pubs' first] eqn:Hem.
  assert (∃ m, pubs' !! hdl = Some m ∧ m !! adv_channelId adv = None) as (m & Hm & Hnone).
  { unfold emplace in Hem. destruct (_clientAdvertisedTopics b !! hdl) as [m|] eqn:Hm;
      injection Hem as <- <-; [|by exists ∅; rewrite lookup_insert_eq].
    exists m. split; [done|]. destruct (m !! adv_channelId adv) as [p|] eqn:Hp; [|done].
    destruct Hno. exists m. split; [done|by exists p]. }
  erewrite bind_run by done. rewrite Hm. simpl. rewrite Hnone, bool_decide_eq_false_2 by (by intros []).
  rewrite andb_false_r. fold pub.
  destruct (ros_create_publisher pub (ros b)) as [r' res] eqn:Hr. simpl in Hros. subst res.
  erewrite bind_run. 2: { unfold on_ros. cbn [set_pubs ros]. by rewrite Hr. }
  eexists _, (<[adv_channelId adv := pub]> m). split_and!; [reflexivity|done|done| |].
  - simpl. rewrite lookup_alter_eq, Hm. simpl. by rewrite emplace_fresh.
  - apply lookup_insert_eq.
Qed.

Lemma ros2_unadvertise_run id hdl b :
  ∃ b', clientUnadvertiseHandler id hdl b = (b', inr tt) ∧ ros b' = ros b ∧
    _subscriptions b' = _subscriptions b ∧ ¬ nested (_clientAdvertisedTopics b') hdl id.
Proof.
  destruct (ros2_clientUnadvertiseHandler_ends id hdl b) as (Hr & _ & Hno).
  exists (clientUnadvertiseHandler id hdl b).1. split_and!; [| | |exact Hno].
  - by rewrite <-Hr, <-surjective_pairing.
  - unfold clientUnadvertiseHandler, bind, gets. by repeat case_match.
  - unfold clientUnadvertiseHandler, bind, gets. by repeat case_match.
Qed.

(** C9. The whole way of what a client publishes, as in the smoke test.  The test's
  client, once connected, sends three frames; the ROS 2 bridge, which handles
  them in order, creates a publisher for the advertised topic and schema,
  publishes exactly the client's bytes with it, once, and drops the publisher;
  no client gets a frame, and the node's subscriptions are as before. *)
Theorem ros2_publishing_end_to_end hdl c adv buffer t1 t2 now w :
big_endian = false → is_u32 (adv_channelId adv) → Z.of_nat (length buffer) < 2 ^ 64 →
SysInv (srv w) (env w) → _clients (srv w) !! hdl = Some c →
adv_channelId adv ∉ advertisedChannels c → _clientChannels (srv w) !! hdl = None →
advertise_text [adv] = inr t1 → unadvertise_text [adv_channelId adv] = inr t2 →
let pub := mkPublication (adv_topic adv) (adv_schemaName adv) in
(∀ r, (ros_create_publisher pub r).2 = inr tt) → (∀ r, (ros_publish pub buffer r).2 = inr tt) →
∃ frames,
  (∀ uri greeting client, ReliableClient uri → Client_new = inr client → ∃ con n,
     testPublishing uri (Opened :: (Arrived <$> greeting)) adv buffer (mkTestWorld client None None None) =
     on_client (sends_all frames) (mkTestWorld (mkClient (Some con) false false n) (Some tt) None None) ∧
     (sends_all frames (mkClient (Some con) false false n)).2 = inr tt) ∧
  wp (for_each frames (handleMessage bridge_handlers now hdl))
    (λ r w', r = inr tt ∧
       ros (env w') = (ros_publish pub buffer (ros_create_publisher pub (ros (env w))).1).1 ∧
       ¬ nested (_clientAdvertisedTopics (env w')) hdl (adv_channelId adv) ∧
       _subscriptions (env w') = _subscriptions (env w) ∧
       ∀ h, sent h (out w') = sent h (out w)) w.
Proof.
intros Hle Hid Hlen HI Hc Hnew Hno Ht1 Ht2 pub Hcreate Hpublish.
exists (frames_of t1 (publish_frame (adv_channelId adv) buffer) t2). split.
{ intros uri greeting client Hrel Hclient. by apply testPublishing_fresh. }
assert (¬ nested (_clientAdvertisedTopics (env w)) hdl (adv_channelId adv)) as Hnn.
{ intros Hn. destruct (sys_pub _ _ _ _ HI _ _ Hn) as [[]|(c' & Hc' & Hin)].
  rewrite Hc in Hc'. by injection Hc' as <-. }
destruct (ros2_advertise_run (Publications.strip adv) hdl (env w) Hnn (Hcreate _))
  as (b1 & pubs & Hr1 & Hros1 & Hsub1 & Hpubs & Hpub).
set (msg := published now (Publications.strip adv) (adv_channelId adv) buffer).
assert (clientMessageHandler msg hdl b1 = (set_ros (ros_publish pub buffer (ros b1)).1 b1, inr tt)) as Hr2.
{ rewrite (clientMessageHandler_run msg hdl pubs pub); [|unfold msg; rewrite getData_published; by apply getLength_published|done..].
  unfold on_ros, msg. rewrite getData_published.
  pose proof (Hpublish (ros b1)) as Hp. destruct (ros_publish pub buffer (ros b1)) as [r res].
  simpl in *. by subst res. }
destruct (ros2_unadvertise_run (adv_channelId adv) hdl (set_ros (ros_publish pub buffer (ros b1)).1 b1))
  as (b3 & Hr3 & Hros3 & Hsub3 & Hno3).
destruct (publishing_run bridge_handlers clientAdvertiseHandler clientMessageHandler
  clientUnadvertiseHandler now hdl c adv buffer t1 t2 w b1
  (set_ros (ros_publish pub buffer (ros b1)).1 b1) b3) as (s' & Hrun & _); try done.
unfold wp. rewrite Hrun. cbn [fst snd env out]. split_and!; [done| |done| |].
- by rewrite Hros3; simpl; rewrite Hros1.
- by rewrite Hsub3; simpl; rewrite Hsub1.
- intros h. unfold sent. rewrite omap_app. simpl. by rewrite app_nil_r.
Qed.
End theorems.

(** ** Examples *)

Section examples.
#[local] Existing Instance x86_64.

(** The bridge after it has polled the graph once. *)
Definition smoke_world : World Bridge := (poll_graph true start_world).1.

Definition leaf_id : ChannelId :=
  match _advertisedTopics (env smoke_world) !! ("/leaf", "b/Leaf") with
  | Some ch => chan_id ch
  | None => 0
  end.

Lemma ros2_end_to_end_witness :
  ∃ opening delivered,
    connectClientAndReceiveMsg "ws://localhost:8765" "/leaf" opening []
      (Arrived <$> delivered) = inr [Byte.x2a].
Proof.
  destruct (_channels (srv smoke_world) !! leaf_id) as [ch|] eqn:Hch;
    [|vm_compute in Hch; discriminate].
  assert (topic ch = "/leaf") as Htopic
    by (vm_compute in Hch; injection Hch as <-; reflexivity).
  assert (SysInv (srv smoke_world) (env smoke_world)) as HI.
  { apply (ros2_step_sys start_world smoke_world (ros2_poll _ true start_world
      ltac:(apply (ros2_ids_last_at _ example_topics); vm_compute; reflexivity))).
    apply ros2_fresh_sys. split_and!; reflexivity. }
  destruct (json_dump (serverInfo_json (_name (srv smoke_world)) (_capabilities (srv smoke_world))))
    as [e|info] eqn:Hinfo; [vm_compute in Hinfo; discriminate|].
  destruct (advertisement_text (srv smoke_world)) as [e|txt] eqn:Htxt;
    [vm_compute in Htxt; discriminate|].
  destruct (subscribe_text [(1, leaf_id)]) as [e|text] eqn:Htext;
    [vm_compute in Htext; discriminate|].
  destruct (ros_publishers_info_by_topic (ros (env smoke_world)) (topic ch)) as [e|infos] eqn:Hinfos;
    [discriminate|].
  destruct (ros2_end_to_end 1 leaf_id ch info txt text 0 7 [Byte.x2a] infos smoke_world)
    as (greeting & delivered & m & sub & _ & _ & _ & _ & _ & _ & Hclient).
  - exact HI.
  - reflexivity.
  - reflexivity.
  - exact Hch.
  - intros id' ch' Hch' Ht. rewrite Htopic in Ht. revert id' ch' Hch' Ht.
    assert (map_Forall (λ id' (ch' : Channel), topic ch' = "/leaf" → id' = leaf_id)
      (_channels (srv smoke_world))) as Hall by (apply (bool_decide_unpack _); vm_compute; exact I).
    exact Hall.
  - exact Hinfo.
  - exact Htxt.
  - exact Htext.
  - exact Hinfos.
  - right. discriminate.
  - intros s r Hs. rewrite Htopic in Hs. simpl. unfold named. by rewrite Hs.
  - vm_compute in Htext. injection Htext as <-. vm_compute. reflexivity.
  - vm_compute in Htext. injection Htext as <-. vm_compute. reflexivity.
  - exists (Opened :: (Arrived <$> greeting)), delivered. rewrite <-Htopic.
    eapply (Hclient "ws://localhost:8765" _ _ []);
      [apply _|reflexivity|by rewrite app_nil_r|discriminate].
Defined.

(** The smoke test's own message: "hello world" as a string message in CDR. *)
Definition HELLO_WORLD_BINARY : list byte :=
  byte_of_Z <$> [0; 1; 0; 0; 12; 0; 0; 0; 104; 101; 108; 108; 111; 32; 119; 111; 114; 108; 100; 0].
Definition foo : ClientAdvertisement := mkClientAdvertisement 1 "/foo" "cdr" "std_msgs/String" [].

(** The client of the test, once connected. *)
Lemma ros2_publishing_end_to_end_witness :
  ∃ frames,
    wp (for_each frames (handleMessage bridge_handlers 0 1))
      (λ r w', r = inr tt ∧
         ros (env w') = (ros_publish (mkPublication "/foo" "std_msgs/String") HELLO_WORLD_BINARY
           (ros_create_publisher (mkPublication "/foo" "std_msgs/String") (ros (env polled_world))).1).1)
      polled_world.
Proof.
  destruct (_clients (srv polled_world) !! 1%positive) as [c|] eqn:Hc; [|vm_compute in Hc; discriminate].
  assert (advertisedChannels c = ∅) as Hadv by (vm_compute in Hc; injection Hc as <-; reflexivity).
  destruct (advertise_text [foo]) as [e|t1] eqn:Ht1; [vm_compute in Ht1; discriminate|].
  destruct (unadvertise_text [1]) as [e|t2] eqn:Ht2; [vm_compute in Ht2; discriminate|].
  destruct (ros2_publishing_end_to_end 1 c foo HELLO_WORLD_BINARY t1 t2 0 polled_world) as (frames & _ & Hw).
  - reflexivity.
  - split; [discriminate|reflexivity].
  - vm_compute. reflexivity.
  - apply polled_synced.
  - exact Hc.
  - rewrite Hadv. apply not_elem_of_empty.
  - vm_compute. reflexivity.
  - exact Ht1.
  - exact Ht2.
  - intros r. reflexivity.
  - intros r. reflexivity.
  - exists frames. eapply wp_mono; [exact Hw|]. intros r w' (Hr & Hros & _). exact (conj Hr Hros).
Defined.
End examples.
